(* ===== verification/_CoqProject ===== *)
-Q . S2P
Prelude.v
SortedStrings.v
Rbac.v
RbacMatch.v
RbacCodec.v
HashCache.v
Policy.v
PolicyDecision.v
PolicyCache.v
Quotas.v
ComputeQuota.v
ImageQuota.v
QuotaSafety.v
LockMan.v
LockSafety.v
Ring.v
Workers.v
Radix.v
Score.v
Scheduler.v
SchedulerProofs.v
DiskConfig.v
DiskLayout.v
Ethernet.v
Arp.v
Heap.v
Cronman.v
Netutils.v
Networks.v
NetworkAlloc.v
NetworkSafety.v
NetworkOps.v
NetworkReach.v
Tasks.v
TaskProofs.v
Dhcp.v
DhcpProofs.v
Tftp.v
TftpProofs.v
Condition.v
ConditionTypes.v
ConditionProofs.v
Schedtag.v
SchedtagProofs.v
SchedInfo.v
Storages.v
Unit.v
HostDesc.v
HostDescProofs.v
Candidates.v
CommonPredicates.v
GuestPredicates.v
BaremetalPredicates.v
Predicates.v
Schedule.v
CapacityProofs.v
PredicateLocality.v
ScheduleProofs.v
Pipeline.v
Overcommit.v
DiskPlacement.v
BaremetalFit.v
SchedulerTheorems.v
CandidateCache.v
CandidateCacheProofs.v
CandidateManager.v
SchedService.v
SchedAnswers.v
SchedSystem.v
SchedSafety.v
SchedEvents.v
SchedReturn.v
BackupProofs.v
TaskQueueProofs.v
SchedHistory.v
SchedServiceTheorems.v
CpuSet.v
CpuSetProofs.v
