(* ===== verification/Prelude.v ===== *)
(** * A verification library for the OneCloud control plane

    OneCloud is a cloud management platform written in Go: services (region, glance,
    keystone clients, scheduler, host and baremetal agents) that share a common layer under
    pkg/cloudcommon and pkg/appsrv and small libraries under pkg/util.  A request
    enters a service through the router and the worker pools (pkg/appsrv), is
    authorised by the policy manager (pkg/cloudcommon/policy over pkg/util/rbacutils and
    pkg/util/hashcache), takes locks on the objects it changes
    (pkg/cloudcommon/db/lockman), reserves quota (pkg/cloudcommon/db/quotas with the
    quota types of the compute and image services), and, for a new machine, asks the
    scheduler for hosts (pkg/scheduler: a service with queues and caches around the predicates, tags and conditions of
    pkg/scheduler/algorithm and pkg/util/conditionparser) or deals out the disks of a physical
    machine (pkg/compute/baremetal), and takes addresses from networks
    (pkg/compute/models/networks.go).  Work that takes long is a tree of tasks
    (pkg/cloudcommon/db/taskman).  Background work is started by the cron manager
    (pkg/cloudcommon/cronman).  The agents speak raw Ethernet and ARP
    (pkg/util/ethernet), answer DHCP and TFTP requests (pkg/util/dhcp, pkg/util/tftp) and pin processes to processors
    (pkg/util/cgrouputils).  The library models these parts; database access, HTTP and the drivers of remote clouds are outside.

    ** Conventions

    Go code is translated function by function, under the names of the source.  A
    function that can fail has the type [outcome]: a value, an error, a panic, or
    exhausted fuel; [let!] sequences outcomes.  Slices are lists; out-of-range indexing
    is [Panic].  A Go map whose iteration order is visible is an association list in
    the order of one iteration and the theorems hold for every order; otherwise it is a
    [gmap].  Where the code shares memory the model has a heap (the slices of the policy
    decoder, the records of the lock manager, the workers).  Integers are [Z], wrapped
    to their width where the code can overflow ([int64_wrap], [uint_wrap]).  Concurrent code is an
    executable transition function over events, each the code between two points where
    another goroutine can run; theorems about it are by induction on the event list.
    Third-party code and the clock are parameters (hash digests, the CRC, compiled
    regular expressions, the sorting library, the identity service, scheduler
    predicates), with the documented behaviour that is relied on as hypotheses.

    ** Files

    - Prelude: outcomes, machine integers, the joined-string and list lemmas.
    - SortedStrings (stringutils2/sortedstrings.go): sorted slices.  The binary search is
      correct and terminates; [Split] and [Merge] compute the set operations.
    - Rbac (rbacutils/rabc.go): rules, the rule matcher, compaction, decoding and
      encoding of policies, explanation, matching of users.
      RbacMatch: the rule found is the best match and does not depend on rule
      order; compaction keeps every match covered; its decision can depend on the
      order of equal rules, and it panics on rules of different depth.
      RbacCodec: decoding through shared slices against decoding by value, the
      corruption of siblings at five or more levels, and the encode/decode round trip.
    - HashCache (hashcache/cache.go): the three-probe cache; a hit is always the
      last value stored under the key and not expired.
    - Policy (cloudcommon/policy: policy.go, defaults.go, resources.go): the manager,
      its cache, fetching in pages, synchronisation, explanation.
      PolicyDecision: what is decided in the admin and the user scope, independence of map order.
      PolicyCache: calls of [Allow] and synchronisations taken apart into steps.  Between synchronisations
      the answers are those of the current policies, unless a call that overlapped the last
      synchronisation stored its decision after it; fetching
      ends with every policy, colliding cache keys, the panics of explanation.
    - Quotas (db/quotas: quotas.go, memorystore.go, handler.go): the manager over the class [IQuota];
      ComputeQuota and ImageQuota are its instances (compute/models/quotas.go,
      image/models/quotas.go).  QuotaSafety, proved from the class: concurrent
      requests of up to 2^61 never overcommit a quota, larger ones can, and cancellation undoes a reservation.
    - LockMan (lockman: inmemory.go, fifo.go, lockman.go): records, waiting queue, condition
      variable and table as a transition system, with the race between looking a
      record up and locking it.  LockSafety: mutual exclusion and absence of lost
      wake-ups for runs without that race.
    - Ring, Workers, Radix (appsrv: ring.go, workers.go, radix.go): the ring refines a
      bounded queue; the worker pool never exceeds its size and starts tasks in
      order, with the schedule that leaves a task behind; the router finds
      every route it was given.
    - Score, Scheduler, SchedulerProofs (scheduler/core: score/score.go, types.go,
      generic_scheduler.go, resource.go): score buckets and the host order, filtering, selection of
      hosts.  Selection fills hosts within their capacities and meets the requested
      count exactly when it can; filtering keeps exactly the fitting candidates.
    - DiskConfig, DiskLayout (compute/baremetal: diskconfig.go, types.go): RAID layouts use each disk
      once and meet their configurations; the allocation check is sound, and changes the configurations
      for the next check.
    - Ethernet, Arp (util/ethernet: ethernet.go, vlan.go, arp/arp.go): round trips of tags, frames, check
      sequences and packets, and the overflow of the ARP buffer length.
    - Heap, Cronman (Go's container/heap; cloudcommon/cronman/cronman.go): binary heaps for any
      strict weak order, and the loop that runs periodic jobs: the timer is never late, every
      due job runs once when the timers move forward, adding to a started manager blocks.
    - Netutils (vendor/yunion.io/x/pkg/util/netutils): IPv4 addresses, ranges and prefixes at
      32 bits; printing and parsing, prefixes as aligned blocks.
    - Networks (compute/models: networks.go, guestnetworks.go, hosts.go, hostnetworks.go, reservedips.go,
      loadbalancernetworks.go, groupnetworks.go): the tables of addresses and the requests on networks as functions on
      the database.  NetworkAlloc: the allocation of an address on every branch.
      NetworkSafety, NetworkOps: the invariant of the tables, and each operation.  NetworkReach: after
      any sequence of the requests of [request] no address is used twice and the capacity of a network is exact; what
      these leave out, each with the run that shares an address: unusual forms of addresses, failed queries, splits
      that strand addresses, creations that interleave.
    - Tasks (cloudcommon/db/taskman): tasks, subtasks, stages, dispatch and notification.
      TaskProofs: under every interleaving the last subtask wakes its parent, which can be woken
      several times; the last result decides; the failure of an only subtask travels up; the parent cannot be forged.
    - Dhcp, DhcpProofs (util/dhcp: packet.go, helpers.go): packets, options and replies.  Options
      survive a packet; those added to a reply after padding do so only when there is no padding;
      which classless routes are packed as RFC 3442 asks.
    - Tftp, TftpProofs (util/tftp/tftp.go): requests and transfers; the server with the packets it sends and reads, and a
      network that loses, repeats, delays and reorders them both ways.  The client has a prefix of the file
      under every fault and the whole file after a success, and a client that answers in time gets it.
    - Condition (util/conditionparser/parser.go): the interpreter of scheduling conditions over JSON documents.
      ConditionTypes: a checker for conditions, and that what it accepts does not panic.
      ConditionProofs: families of fields, conditions on arrays, evaluation order.
    - Schedtag, SchedtagProofs (compute/models: schedtags.go, schedpolicies.go, dynamicschedtags.go;
      scheduler/algorithm/predicates: schedtag_helper.go): tags of requests and hosts.  Policies, request, defaults
      and dynamic rules together decide a host; a tag named by identifier escapes the policies.
    - SchedInfo, Unit (scheduler/api/sched.go; scheduler/core/context.go, algorithm/predicates/predicates.go): a request, and
      the tables of capacities, scores, shared counters and logs that its checks write to.
      Storages, HostDesc, Candidates (compute/models/storages.go; scheduler/cache/candidate): descriptions of hosts and
      machines.  HostDescProofs: what a description gives as free is exact for the rows it was built from, whatever guests
      the options ignore.
    - CommonPredicates, GuestPredicates, BaremetalPredicates, Predicates (scheduler/algorithm/predicates): every
      predicate of guests and of machines, behind the class [SchedPredicate].
      Schedule (scheduler/core/generic_scheduler.go, algorithm/priorities): the parallel filter as interleaved steps, with
      the meeting of two checks inside a predicate that writes without a lock, which ends the process, the
      priorities, the selection, the result of one request.
      CapacityProofs, PredicateLocality, ScheduleProofs, Pipeline: capacities; predicates write only for their candidate, which
      is the class [LocalPredicates]; the filter; the selection.
      Overcommit, DiskPlacement, BaremetalFit, SchedulerTheorems: the filter is deterministic as long as the
      process is not ended, and what a request is given fits, disk by disk and machine by machine.
    - CandidateCache, CandidateManager (scheduler/cache, scheduler/data_manager/candidate_manager.go, and the store and the
      pool they use): cached descriptions, and the pool of hidden hosts.  CandidateCacheProofs: their contents.
      SchedService (scheduler/manager: task_queue.go, scheduler.go, expire_queue.go): tasks, queues and batches of notices
      as events.  SchedAnswers (scheduler/handler: handler.go, backup_helper.go): answers.  SchedHistory
      (scheduler/manager: task_history.go, completed_queue.go): the history refines the list of all requests.
      SchedSystem: the service with the database and with the region, which creates the promised guests and tells of them;
      the class [SoundSchedule] is what the service asks of a scheduler.
      SchedSafety, SchedEvents, SchedReturn, TaskQueueProofs, BackupProofs: the invariants, and each event.
      SchedServiceTheorems: the configured scheduler is an instance of [SoundSchedule], so hosts are never overcommitted across
      requests; hosts come back unless notices are merged; tasks are answered once and in order; backup pairs.
    - CpuSet, CpuSetProofs (util/cgrouputils: cpuutils.go, cpusetutils.go): CPU sets as strings and the balancing of
      processes.  Balancing deals the processes out one by one, each to a least loaded processor; the parser loses the ends
      of ranges, and balancing panics on them.

    ** Fuel and bounds

    The binary search, the page loop of [fetchPolicies], [SelectHosts],
    [CalculateLayout], the sifting loops of the heap and the scanner of policy conditions carry fuel.  The theorems about the first four give the
    fuel that is enough (the length of the slice, the number of policies, the number of
    machines requested, the number of storages) and conclude that it is not exhausted; the sifting
    loops are given the length of the slice, which bounds every path, and the scanner
    the length of its text and consumes a character a step.  A TFTP transfer is given the length of the
    file, the collection of a family of fields the size of the document, both shown to be
    enough.  The scan for a free address is given
    the size of the range, the notification of a remote parent seven requests, both shown to be
    enough.  A request to the scheduler is given one round of selection more than the guests it asks for, and trimming a list
    of the history the length of the list, both shown to be enough.  The loop that draws interface names has no bound in the code; its fuel is a
    parameter.

    ** Runs of the scheduler service

    The theorems on overcommitment and on returning hosts are about runs in which requests are suggestions or ask for guests
    on premises without devices, notices come from creations, a batch is not abandoned at its timeout, a full load enters
    what it has read at once and candidates are asked for dirtiness as soon as they are listed ([considered]).  The options that
    ignore guests are free.  Outside of these runs hosts can be overcommitted; SchedServiceTheorems has the
    runs that show it for other notices, for loads that overlap creations and for lists that grow old.

    ** Not modelled

    The other database models and the stage methods of tasks, HTTP servers and clients, the command line tools, the
    host and baremetal agents, the SDK wrappers of other clouds and vendored packages:
    their behaviour is that of databases, processes and remote services.  Splitting
    a volume by textual percentages uses floating point and is a parameter.  Of the scheduler, the reserved pools, which
    nothing creates, the lists for administrators, the forecast and the Kubernetes extender are left out. *)

From stdpp Require Export base list gmap strings sorting.
From Stdlib Require Export ZArith.

(** ** Outcomes of Go calls

    A Go function returns a value, returns an error, or panics.  Loops that are
    not structural carry fuel; [OutOfFuel] is the value of a loop whose fuel is
    exhausted, and every theorem about such a loop shows that it is not taken. *)

Inductive outcome (E A : Type) : Type :=
| Ret (a : A)
| Fail (e : E)
| Panic
| OutOfFuel.
Arguments Ret {E A} a.
Arguments Fail {E A} e.
Arguments Panic {E A}.
Arguments OutOfFuel {E A}.

Definition obind {E A B} (m : outcome E A) (k : A → outcome E B) : outcome E B :=
  match m with
  | Ret a => k a
  | Fail e => Fail e
  | Panic => Panic
  | OutOfFuel => OutOfFuel
  end.

Declare Scope go_scope.
Delimit Scope go_scope with go.
Notation "'let!' x ':=' c 'in' k" := (obind c (fun x => k))
  (at level 10, x pattern, c at level 100, k at level 200) : go_scope.

(** A value read with an index or a slice expression that is out of range
    panics. *)
Definition of_opt {E A} (o : option A) : outcome E A :=
  match o with Some a => Ret a | None => Panic end.

(** ** Machine integers *)

(** [int] and [int64] are 64 bits wide and wrap around. *)
Definition int64_wrap (z : Z) : Z := ((z + 2 ^ 63) mod 2 ^ 64 - 2 ^ 63)%Z.
Definition is_int64 (z : Z) : Prop := (- 2 ^ 63 ≤ z < 2 ^ 63)%Z.
Definition max_int64 : Z := (2 ^ 63 - 1)%Z.
Definition min_int64 : Z := (- 2 ^ 63)%Z.

(** Unsigned conversion to [w] bits. *)
Definition uint_wrap (w : Z) (z : Z) : Z := (z mod 2 ^ w)%Z.

(** ** Strings *)

(** Go compares strings byte by byte, which is what [String.compare] does. *)
Definition str_lt (a b : string) : Prop := String.ltb a b = true.

(** [strings.Join]. *)
Fixpoint join (sep : string) (l : list string) : string :=
  match l with
  | [] => ""
  | [x] => x
  | x :: r => x +:+ sep +:+ join sep r
  end.

(** ** Tactics *)

(** Split the first [if] or [match] of the goal, keeping the equation. *)
Ltac case_go :=
  match goal with
  | |- context [if ?b then _ else _] => destruct b eqn:?
  | |- context [match ?x with _ => _ end] => destruct x eqn:?
  end.

(** Two equations for the same term: identify their right-hand sides. *)
Ltac same_lhs :=
  repeat match goal with
  | H1 : ?x = _, H2 : ?x = _ |- _ =>
    lazymatch type of x with Z => fail | nat => fail | _ => idtac end;
    rewrite H1 in H2; simplify_eq
  end.

Create HintDb onecloud discriminated.

(** ** Generic lemmas *)

Lemma int64_wrap_id z : is_int64 z → int64_wrap z = z.
Proof. unfold is_int64, int64_wrap. intros. rewrite Z.mod_small; lia. Qed.

Lemma int64_wrap_range z : is_int64 (int64_wrap z).
Proof.
  unfold is_int64, int64_wrap.
  pose proof (Z.mod_pos_bound (z + 2 ^ 63) (2 ^ 64)). lia.
Qed.

Lemma str_compare_refl a : String.compare a a = Eq.
Proof.
  induction a as [|c a IH]; [done|]. simpl.
  unfold Ascii.compare. by rewrite N.compare_refl.
Qed.

Lemma str_lt_irrefl a : ¬ str_lt a a.
Proof. unfold str_lt, String.ltb. by rewrite str_compare_refl. Qed.

Lemma str_lt_le a b : str_lt a b ↔ String.le a b ∧ a ≠ b.
Proof.
  unfold str_lt, String.le, String.ltb, String.leb.
  destruct (String.compare a b) eqn:E; simpl; split; try naive_solver.
  - intros [_ Hne]. by apply String.compare_eq_iff in E.
  - intros _. split; [done|]. intros ->. by rewrite str_compare_refl in E.
Qed.

Lemma str_le_trans a b c : String.le a b → String.le b c → String.le a c.
Proof. intros. by transitivity b. Qed.

Lemma str_lt_trans a b c : str_lt a b → str_lt b c → str_lt a c.
Proof.
  rewrite !str_lt_le. intros [H1 N1] [H2 N2]. split; [by transitivity b|].
  intros ->. apply N1. by apply (anti_symm String.le).
Qed.

Lemma str_lt_trichotomy a b : str_lt a b ∨ a = b ∨ str_lt b a.
Proof.
  rewrite !str_lt_le. destruct (decide (a = b)); [by auto|].
  destruct (total String.le a b); naive_solver.
Qed.

Lemma str_lt_asym a b : str_lt a b → ¬ str_lt b a.
Proof. intros H1 H2. by apply (str_lt_irrefl a), (str_lt_trans _ b). Qed.

Lemma str_nlt_le a b : ¬ str_lt a b ↔ String.le b a.
Proof.
  split.
  - intros H. destruct (str_lt_trichotomy a b) as [?|[->|?]]; [done|done|].
    by apply str_lt_le.
  - intros Hle Hlt. apply str_lt_le in Hlt as [Hab Hne].
    by apply Hne, (anti_symm String.le).
Qed.

#[export] Instance str_lt_dec a b : Decision (str_lt a b).
Proof. unfold str_lt. apply _. Defined.

#[export] Instance str_lt_transitive : Transitive str_lt.
Proof. intros ???. apply str_lt_trans. Qed.

Lemma ltb_spec a b : reflect (str_lt a b) (String.ltb a b).
Proof. unfold str_lt. destruct (String.ltb a b); by constructor. Qed.

Lemma list_filter_ext_in {A} (P Q : A → Prop) `{!∀ x, Decision (P x), !∀ x, Decision (Q x)}
    (l : list A) :
  (∀ x, x ∈ l → P x ↔ Q x) → filter P l = filter Q l.
Proof.
  induction l as [|x l IH]; intros Hl; [done|].
  rewrite !filter_cons, IH by (intros; apply Hl; by constructor).
  destruct (decide (P x)), (decide (Q x)); try done;
    exfalso; destruct (Hl x); [left|naive_solver|left|naive_solver].
Qed.

Lemma list_filter_all {A} (P : A → Prop) `{!∀ x, Decision (P x)} (l : list A) :
  (∀ x, x ∈ l → P x) → filter P l = l.
Proof.
  induction l as [|x l IH]; intros Hl; [done|].
  rewrite filter_cons_True by (apply Hl; left). f_equal. apply IH. intros; apply Hl; by right.
Qed.

Lemma list_filter_none {A} (P : A → Prop) `{!∀ x, Decision (P x)} (l : list A) :
  (∀ x, x ∈ l → ¬ P x) → filter P l = [].
Proof.
  induction l as [|x l IH]; intros Hl; [done|].
  rewrite filter_cons_False by (apply Hl; left). apply IH. intros; apply Hl; by right.
Qed.

(** ** Joined strings *)

(** [char_free c s]: the character does not occur in the string. *)
Fixpoint char_free (c : Ascii.ascii) (s : string) : bool :=
  match s with
  | EmptyString => true
  | String a s => negb (Ascii.eqb a c) && char_free c s
  end.

Lemma char_free_app c x y : char_free c (x +:+ y) ↔ char_free c x ∧ char_free c y.
Proof.
  induction x as [|a x IH]; simpl; [naive_solver|]. rewrite !andb_True, IH. naive_solver.
Qed.

Lemma free_prefix_unique c x y r r' :
  char_free c x → char_free c y →
  x +:+ String c r = y +:+ String c r' → x = y ∧ r = r'.
Proof.
  revert y. induction x as [|a x IH]; intros [|b y]; simpl; intros Hx Hy E; simplify_eq.
  - done.
  - apply andb_True in Hy as [Hy _]. by rewrite Ascii.eqb_refl in Hy.
  - apply andb_True in Hx as [Hx _]. by rewrite Ascii.eqb_refl in Hx.
  - apply andb_True in Hx as [_ Hx], Hy as [_ Hy].
    by destruct (IH y Hx Hy) as [-> ->].
Qed.

Lemma free_not_prefix c x y r : char_free c y → x +:+ String c r ≠ y.
Proof.
  revert y. induction x as [|a x IH]; intros [|b y]; simpl; intros Hy E; simplify_eq.
  - injection E as -> ->. apply andb_True in Hy as [Hy _]. by rewrite Ascii.eqb_refl in Hy.
  - injection E as _ E. apply andb_True in Hy as [_ Hy]. by eapply IH.
Qed.

(** A non-empty list of strings without the separator is determined by its join. *)
Lemma join_inj c l1 l2 :
  l1 ≠ [] → l2 ≠ [] → Forall (char_free c) l1 → Forall (char_free c) l2 →
  join (String c "") l1 = join (String c "") l2 → l1 = l2.
Proof.
  revert l2. induction l1 as [|x l1 IH]; intros [|y l2] H1 H2 F1 F2 E; [done..|].
  apply Forall_cons in F1 as [Fx F1], F2 as [Fy F2].
  destruct l1 as [|x' l1], l2 as [|y' l2]; cbn [join] in E.
  - by subst.
  - by destruct (free_not_prefix c y x (join (String c "") (y' :: l2))).
  - by destruct (free_not_prefix c x y (join (String c "") (x' :: l1))).
  - destruct (free_prefix_unique c x y (join (String c "") (x' :: l1))
                (join (String c "") (y' :: l2))) as [-> E']; [done..|].
    f_equal. by apply IH.
Qed.

Lemma join_nil_inj c l : join (String c "") l = "" → Forall (λ x, x ≠ "") l → l = [].
Proof.
  destruct l as [|x [|y l]]; [done|..]; intros E F; apply Forall_cons in F as [Hx _]; exfalso.
  - done.
  - by destruct x.
Qed.

(** The bytes of a string, and back. *)
Definition str_bytes (s : string) : list Z := (λ c, Z.of_nat (Ascii.nat_of_ascii c)) <$> String.list_ascii_of_string s.
Definition bytes_str (b : list Z) : string := String.string_of_list_ascii ((λ x, Ascii.ascii_of_nat (Z.to_nat x)) <$> b).

Lemma length_str_bytes s : length (str_bytes s) = String.length s.
Proof. unfold str_bytes. rewrite length_fmap. induction s as [|c s IH]; [done|]. cbn. by rewrite IH. Qed.

Lemma bytes_str_bytes s : bytes_str (str_bytes s) = s.
Proof.
  unfold bytes_str, str_bytes. rewrite <- list_fmap_compose. unfold compose.
  induction s as [|c s IH]; [done|]. cbn. rewrite Nat2Z.id, Ascii.ascii_nat_embedding. f_equal. exact IH.
Qed.

(** ** Splitting *)

(** [strings.Split] with a one-character separator. *)
Fixpoint Split (c : Ascii.ascii) (s : string) : list string :=
  match s with
  | EmptyString => [""]
  | String a s =>
    if Ascii.eqb a c then "" :: Split c s
    else match Split c s with
         | [] => [String a ""]
         | x :: r => String a x :: r
         end
  end.

Lemma Split_free c x : char_free c x → Split c x = [x].
Proof.
  induction x as [|a x IH]; intros H; [done|]. simpl in *.
  apply andb_True in H as [Ha Hx]. destruct (Ascii.eqb a c); [done|]. by rewrite IH.
Qed.

Lemma Split_app c x s : char_free c x → Split c (x +:+ String c s) = x :: Split c s.
Proof.
  induction x as [|a x IH]; intros H; simpl in *.
  - by rewrite Ascii.eqb_refl.
  - apply andb_True in H as [Ha Hx]. destruct (Ascii.eqb a c); [done|]. by rewrite IH.
Qed.

Lemma Split_join c l : l ≠ [] → Forall (char_free c) l → Split c (join (String c "") l) = l.
Proof.
  induction l as [|x l IH]; intros Hne Hf; [done|]. apply Forall_cons in Hf as [Hx Hf].
  destruct l as [|y l]; [by apply Split_free|].
  change (join (String c "") (x :: y :: l)) with (x +:+ String c (join (String c "") (y :: l))).
  rewrite Split_app by done. by rewrite IH.
Qed.

(** ** Bits *)

Local Open Scope Z_scope.

Lemma lor_shift (a b k : Z) : (0 ≤ k → 0 ≤ b < 2 ^ k → Z.lor b (Z.shiftl a k) = a * 2 ^ k + b)%Z.
Proof.
  intros Hk Hb. pose proof (Z.add_lor_land b (Z.shiftl a k)) as H.
  assert (Z.land b (Z.shiftl a k) = 0) as E.
  { apply Z.bits_inj'. intros n Hn. rewrite Z.land_spec, Z.bits_0, Z.shiftl_spec by done.
    destruct (Z.lt_ge_cases n k).
    - rewrite (Z.testbit_neg_r a) by lia. apply andb_false_r.
    - destruct (decide (b = 0)) as [->|]; [by rewrite Z.bits_0|].
      rewrite (Z.bits_above_log2 b n); [done|lia|]. assert (Z.log2 b < k) by (apply Z.log2_lt_pow2; lia). lia. }
  rewrite E, Z.add_0_r in H. rewrite H, Z.shiftl_mul_pow2 by done. apply Z.add_comm.
Qed.

Lemma lor_high (h l k : Z) : (0 ≤ k → 0 ≤ l < 2 ^ k → Z.lor (h * 2 ^ k) l = h * 2 ^ k + l)%Z.
Proof. intros Hk Hl. rewrite <- Z.shiftl_mul_pow2 at 1 by done. rewrite Z.lor_comm. by apply lor_shift. Qed.
