(* ===== verification/SortedStrings.v ===== *)
(** * Sorted string slices: pkg/util/stringutils2/sortedstrings.go

    [SSortedStrings] is a Go slice kept in ascending order.  The model keeps the
    loops of the source: [Index] is the binary search over [i] and [j], [Split]
    and [Merge] walk both slices in step. *)

From S2P Require Import Prelude.
Local Open Scope Z_scope.
Local Open Scope go_scope.

Module SortedStrings.

(** [NewSortedStrings]: [sort.Strings] on a slice; [nil] stays [nil], which is
    the empty list here. *)
Definition NewSortedStrings (strs : list string) : list string :=
  merge_sort String.le strs.

(** One run of the loop of [Index] with the variables [i] and [j]. *)
Fixpoint Index_loop (fuel : nat) (ss : list string) (needle : string) (i j : Z)
  : outcome Empty_set (Z * bool) :=
  match fuel with
  | O => OutOfFuel
  | S fuel =>
    if i <=? j then
      let m := Z.quot (i + j) 2 in
      if m <? 0 then Panic else
      let! x := of_opt (ss !! Z.to_nat m) in
      if String.ltb x needle then Index_loop fuel ss needle (m + 1) j
      else if String.ltb needle x then Index_loop fuel ss needle i (m - 1)
      else Ret (m, true)
    else Ret (j + 1, false)
  end.

(** Every round shrinks [j + 1 - i], which starts at the length. *)
Definition Index (ss : list string) (needle : string) : outcome Empty_set (Z * bool) :=
  Index_loop (S (length ss)) ss needle 0 (Z.of_nat (length ss) - 1).

Definition Contains (ss : list string) (needle : string) : outcome Empty_set bool :=
  let! r := Index ss needle in Ret r.2.

Fixpoint ContainsAny (ss : list string) (needles : list string) : outcome Empty_set bool :=
  match needles with
  | [] => Ret false
  | n :: rest => let! r := Index ss n in if r.2 then Ret true else ContainsAny ss rest
  end.

Fixpoint ContainsAll (ss : list string) (needles : list string) : outcome Empty_set bool :=
  match needles with
  | [] => Ret true
  | n :: rest => let! r := Index ss n in if r.2 then ContainsAll ss rest else Ret false
  end.

(** [Split a b] returns the elements of [a] only, of both, and of [b] only.
    The loop advances [i] or [j]; the tails left over are appended at the end. *)
Fixpoint Split (a : list string) : list string → list string * list string * list string :=
  match a with
  | [] => fun b => ([], [], b)
  | x :: a' =>
    fix inner (b : list string) :=
      match b with
      | [] => (x :: a', [], [])
      | y :: b' =>
        if String.eqb x y then
          let '(a_b, anb, b_a) := Split a' b' in (a_b, x :: anb, b_a)
        else if String.ltb x y then
          let '(a_b, anb, b_a) := Split a' (y :: b') in (x :: a_b, anb, b_a)
        else
          let '(a_b, anb, b_a) := inner b' in (a_b, anb, y :: b_a)
      end
  end.

Fixpoint Merge (a : list string) : list string → list string :=
  match a with
  | [] => fun b => b
  | x :: a' =>
    fix inner (b : list string) :=
      match b with
      | [] => x :: a'
      | y :: b' =>
        if String.eqb x y then x :: Merge a' b'
        else if String.ltb x y then x :: Merge a' (y :: b')
        else y :: inner b'
      end
  end.

(** ** Lemmas *)

Abbreviation ascending := (StronglySorted str_lt).

(** The strings of [ss] below position [i] are smaller than the needle and the
    ones above [j] are greater: what the binary search keeps. *)
Definition search_inv (ss : list string) (needle : string) (i j : Z) : Prop :=
  (∀ k x, ss !! k = Some x → Z.of_nat k < i → str_lt x needle) ∧
  (∀ k x, ss !! k = Some x → j < Z.of_nat k → str_lt needle x).

Lemma sorted_lookup_le (ss : list string) i j x y :
  StronglySorted String.le ss → ss !! i = Some x → ss !! j = Some y → (i ≤ j)%nat →
  String.le x y.
Proof.
  intros Hs. revert i j. induction Hs as [|a l Hs IH Hall]; intros i j Hi Hj Hij; [done|].
  destruct i as [|i], j as [|j]; simpl in *; simplify_eq; [done| |lia|].
  - rewrite Forall_lookup in Hall. eauto.
  - eapply IH; eauto; lia.
Qed.

Lemma ascending_sorted ss : ascending ss → StronglySorted String.le ss.
Proof.
  induction 1 as [|x l _ IH Hall]; constructor; [done|].
  eapply Forall_impl; [done|]. intros y Hy. by apply str_lt_le in Hy as [].
Qed.

Lemma search_inv_right ss needle i j m x :
  StronglySorted String.le ss → ss !! m = Some x → str_lt x needle →
  search_inv ss needle i j → search_inv ss needle (Z.of_nat m + 1) j.
Proof.
  intros Hs Hm Hx [_ Hj]. split; [|done]. intros k y Hk Hlt.
  assert (String.le y x) as Hle by (eapply (sorted_lookup_le ss k m); eauto; lia).
  apply str_lt_le in Hx as [Hx Hne]. apply str_lt_le. split; [by etrans|].
  intros ->. by apply Hne, (anti_symm String.le).
Qed.

Lemma search_inv_left ss needle i j m x :
  StronglySorted String.le ss → ss !! m = Some x → str_lt needle x →
  search_inv ss needle i j → search_inv ss needle i (Z.of_nat m - 1).
Proof.
  intros Hs Hm Hx [Hi _]. split; [done|]. intros k y Hk Hlt.
  assert (String.le x y) as Hle by (eapply (sorted_lookup_le ss m k); eauto; lia).
  apply str_lt_le in Hx as [Hx Hne]. apply str_lt_le. split; [by etrans|].
  intros ->. by apply Hne, (anti_symm String.le).
Qed.

Lemma Index_loop_spec ss needle fuel i j :
  StronglySorted String.le ss → 0 ≤ i → j < Z.of_nat (length ss) → i ≤ j + 1 →
  search_inv ss needle i j → j + 1 - i < Z.of_nat fuel →
  ∃ k found, Index_loop fuel ss needle i j = Ret (Z.of_nat k, found) ∧
    (if found then ss !! k = Some needle
     else (k ≤ length ss)%nat ∧ search_inv ss needle (Z.of_nat k) (Z.of_nat k - 1)).
Proof.
  intros Hs. revert i j. induction fuel as [|fuel IH]; intros i j Hi Hj Hij Hinv Hf; [lia|].
  cbn [Index_loop]. destruct (Z.leb_spec i j) as [Hle|Hgt].
  - assert (i ≤ Z.quot (i + j) 2 ≤ j) as Hm.
    { rewrite Z.quot_div_nonneg by lia. split; [apply Z.div_le_lower_bound; lia|].
      apply Z.div_le_upper_bound; lia. }
    revert Hm. generalize (Z.quot (i + j) 2). intros m Hm.
    destruct (Z.ltb_spec m 0) as [?|_]; [lia|].
    destruct (lookup_lt_is_Some_2 ss (Z.to_nat m)) as [x Hx]; [lia|]. rewrite Hx. cbn.
    assert (m = Z.of_nat (Z.to_nat m)) as Em by lia.
    destruct (ltb_spec x needle) as [Hlt|Hnlt].
    { rewrite Em. apply IH; try lia. eapply search_inv_right; eauto. }
    destruct (ltb_spec needle x) as [Hlt|Hngt].
    { rewrite Em. apply IH; try lia. eapply search_inv_left; eauto. }
    exists (Z.to_nat m), true. rewrite <- Em. split; [done|].
    destruct (str_lt_trichotomy x needle) as [?|[->|?]]; done.
  - exists (Z.to_nat (j + 1)), false. rewrite Z2Nat.id by lia. split; [done|]. split; [lia|].
    replace (j + 1 - 1) with j by lia. replace (j + 1) with i by lia. done.
Qed.

Lemma Index_spec ss needle :
  StronglySorted String.le ss →
  ∃ k found, Index ss needle = Ret (Z.of_nat k, found) ∧
    (if found then ss !! k = Some needle
     else (k ≤ length ss)%nat ∧ search_inv ss needle (Z.of_nat k) (Z.of_nat k - 1)).
Proof.
  intros Hs. apply Index_loop_spec; try lia; [done|]. split; intros k x Hk ?; [lia|].
  apply lookup_lt_Some in Hk. lia.
Qed.

Lemma Contains_decides ss needle :
  StronglySorted String.le ss → Contains ss needle = Ret (bool_decide (needle ∈ ss)).
Proof.
  intros Hs. destruct (Index_spec ss needle Hs) as (k & [] & E & H);
    unfold Contains; rewrite E; cbn; f_equal; symmetry.
  - apply bool_decide_eq_true. by eapply list_elem_of_lookup_2.
  - apply bool_decide_eq_false. intros [k' Hk']%list_elem_of_lookup.
    destruct H as [_ [Hl Hr]]. apply (str_lt_irrefl needle).
    destruct (decide (Z.of_nat k' < Z.of_nat k)); [by eapply Hl|eapply Hr; [done|lia]].
Qed.

Lemma ascending_inv x l : ascending (x :: l) → ascending l ∧ Forall (str_lt x) l.
Proof. inversion 1; done. Qed.

Lemma below_not_elem x l : Forall (str_lt x) l → x ∉ l.
Proof.
  rewrite Forall_forall. intros H Hx%H. by apply (str_lt_irrefl x).
Qed.

Lemma below_trans x y l : str_lt x y → Forall (str_lt y) l → Forall (str_lt x) l.
Proof. intros Hxy H. eapply Forall_impl; [done|]. intros z. by apply str_lt_trans. Qed.

Lemma below_cons x y l : str_lt x y → Forall (str_lt y) l → Forall (str_lt x) (y :: l).
Proof. intros. constructor; [done|]. by eapply below_trans. Qed.

(** An element below the head of an ascending slice can be added to a filter's
    membership test without changing the result. *)
Lemma filter_not_elem_head (x : string) (l b : list string) :
  Forall (str_lt x) l → filter (λ z, z ∉ x :: b) l = filter (λ z, z ∉ b) l.
Proof.
  intros Hl. apply list_filter_ext_in. intros z Hz. rewrite not_elem_of_cons.
  split; [naive_solver|]. intros. split; [|done]. intros ->.
  rewrite Forall_forall in Hl. apply (str_lt_irrefl x); auto.
Qed.

Lemma filter_elem_head (x : string) (l b : list string) :
  Forall (str_lt x) l → filter (λ z, z ∈ x :: b) l = filter (λ z, z ∈ b) l.
Proof.
  intros Hl. apply list_filter_ext_in. intros z Hz. rewrite elem_of_cons.
  split; [|naive_solver]. intros [->|]; [|done].
  rewrite Forall_forall in Hl. exfalso. apply (str_lt_irrefl x); auto.
Qed.

Lemma Split_filter a b :
  ascending a → ascending b →
  Split a b = (filter (λ z, z ∉ b) a, filter (λ z, z ∈ b) a, filter (λ z, z ∉ a) b).
Proof.
  revert b. induction a as [|x a IHa]; intros b Ha Hb; simpl.
  { rewrite (list_filter_all (λ z, z ∉ [])); [done|]. intros; apply not_elem_of_nil. }
  apply ascending_inv in Ha as [Ha Hxa].
  induction b as [|y b IHb].
  { rewrite list_filter_all, list_filter_none; [done|..]; intros z _; [|apply not_elem_of_nil].
    by intros ?%elem_of_nil. }
  apply ascending_inv in Hb as [Hb Hyb].
  destruct (String.eqb_spec x y) as [<-|Hne].
  { rewrite IHa by done.
    rewrite (filter_cons_False (λ z, z ∉ x :: b)), (filter_cons_True (λ z, z ∈ x :: b)),
      (filter_cons_False (λ z, z ∉ x :: a)) by set_solver.
    by rewrite !filter_not_elem_head, filter_elem_head by done. }
  destruct (ltb_spec x y) as [Hlt|Hnlt].
  { assert (x ∉ y :: b) as Hx by by apply below_not_elem, below_cons.
    rewrite IHa by (try done; by constructor).
    rewrite (filter_cons_True (λ z, z ∉ y :: b)), (filter_cons_False (λ z, z ∈ y :: b)) by done.
    do 2 f_equal. symmetry. apply filter_not_elem_head. by apply below_cons. }
  assert (str_lt y x) as Hlt by by destruct (str_lt_trichotomy x y) as [?|[?|?]].
  assert (y ∉ x :: a) as Hy by by apply below_not_elem, below_cons.
  rewrite IHb by done.
  rewrite (filter_cons_True (λ z, z ∉ x :: a)) by done.
  rewrite (filter_not_elem_head y (x :: a)), (filter_elem_head y (x :: a)) by by apply below_cons.
  done.
Qed.

Lemma Merge_elem a b z : z ∈ Merge a b ↔ z ∈ a ∨ z ∈ b.
Proof.
  revert b. induction a as [|x a IHa]; intros b; simpl; [rewrite elem_of_nil; tauto|].
  induction b as [|y b IHb]; [rewrite elem_of_nil; tauto|].
  destruct (String.eqb_spec x y) as [<-|Hne]; [rewrite !elem_of_cons, IHa; tauto|].
  destruct (ltb_spec x y); rewrite !elem_of_cons; [rewrite IHa, elem_of_cons; tauto|].
  rewrite IHb, elem_of_cons. tauto.
Qed.

Lemma Merge_ascending a b : ascending a → ascending b → ascending (Merge a b).
Proof.
  revert b. induction a as [|x a IHa]; intros b Ha Hb; [done|]. simpl.
  pose proof (ascending_inv _ _ Ha) as [Ha' Hxa].
  induction b as [|y b IHb]; [done|].
  pose proof (ascending_inv _ _ Hb) as [Hb' Hyb].
  rewrite !Forall_forall in *.
  destruct (String.eqb_spec x y) as [<-|Hne].
  { constructor; [by apply IHa|]. apply Forall_forall.
    intros z [?|?]%Merge_elem; auto. }
  destruct (ltb_spec x y) as [Hlt|Hnlt].
  { constructor; [by apply IHa|]. apply Forall_forall.
    intros z [?|[->|?]%elem_of_cons]%Merge_elem; eauto using str_lt_trans. }
  assert (str_lt y x) as Hlt by by destruct (str_lt_trichotomy x y) as [?|[?|?]].
  constructor; [by apply IHb|]. apply Forall_forall.
  intros z Hz. apply (Merge_elem (x :: a)) in Hz as [[->|?]%elem_of_cons|?];
    eauto using str_lt_trans.
Qed.

(** [Index] on an ascending slice terminates without an index panic; it
    reports a position of the needle exactly when the needle is there, and
    otherwise the insertion point: everything before is smaller and everything
    from there on is greater. *)
Theorem Index_correct (ss : list string) (needle : string) :
  StronglySorted String.le ss →
  ∃ k found, Index ss needle = Ret (Z.of_nat k, found) ∧
    found = bool_decide (needle ∈ ss) ∧
    (if found then ss !! k = Some needle
     else Forall (λ x, str_lt x needle) (take k ss) ∧
          Forall (λ x, str_lt needle x) (drop k ss) ∧ (k ≤ length ss)%nat).
Proof.
  intros Hs. destruct (Index_spec ss needle Hs) as (k & found & E & H).
  pose proof (Contains_decides ss needle Hs) as Hc. unfold Contains in Hc.
  rewrite E in Hc. cbn in Hc. simplify_eq.
  exists k, (bool_decide (needle ∈ ss)). split_and!; [done|done|].
  case_bool_decide; [done|]. destruct H as [Hk [Hl Hr]].
  rewrite !Forall_lookup. split_and!; [| |done]; intros i x Hx.
  - apply lookup_take_Some in Hx as [Hx ?]. eapply Hl; [done|lia].
  - rewrite lookup_drop in Hx. eapply Hr; [done|lia].
Qed.

Lemma Index_correct_witness :
  ∃ k found, Index ["a"; "c"; "e"] "d" = Ret (Z.of_nat k, found) ∧ found = false.
Proof.
  destruct (Index_correct ["a"; "c"; "e"] "d") as (k & f & E & Hf & _).
  - repeat constructor.
  - exists k, f. split; [exact E|]. rewrite Hf. reflexivity.
Defined.

(** [ContainsAny] and [ContainsAll] on an ascending slice return, without a
    panic, whether some or every needle is an element. *)
Theorem ContainsAny_All_correct (ss needles : list string) :
  StronglySorted String.le ss →
  ContainsAny ss needles = Ret (bool_decide (Exists (λ n, n ∈ ss) needles)) ∧
  ContainsAll ss needles = Ret (bool_decide (Forall (λ n, n ∈ ss) needles)).
Proof.
  intros Hs. induction needles as [|n ns [IH1 IH2]]; [done|].
  cbn [ContainsAny ContainsAll].
  pose proof (Contains_decides ss n Hs) as Hc. unfold Contains in Hc.
  destruct (Index ss n) as [[k f]| | |]; try done. cbn [obind snd] in *.
  injection Hc as ->. rewrite IH1, IH2. destruct (decide (n ∈ ss)) as [Hn|Hn].
  - rewrite (bool_decide_true (n ∈ ss)) by done. split; f_equal.
    + symmetry. apply bool_decide_true. by left.
    + apply bool_decide_ext. rewrite Forall_cons. tauto.
  - rewrite (bool_decide_false (n ∈ ss)) by done. split; f_equal.
    + apply bool_decide_ext. rewrite Exists_cons. tauto.
    + symmetry. apply bool_decide_false. rewrite Forall_cons. tauto.
Qed.

Lemma ContainsAny_All_witness : ContainsAny ["a"; "c"] ["b"; "c"] = Ret true.
Proof. rewrite (proj1 (ContainsAny_All_correct ["a"; "c"] ["b"; "c"] ltac:(repeat constructor))). reflexivity. Defined.

(** [Split] of two ascending slices equals the three filters that define the
    two differences and the intersection, in order. *)
Theorem Split_correct (a b : list string) :
  ascending a → ascending b →
  Split a b = (filter (λ z, z ∉ b) a, filter (λ z, z ∈ b) a, filter (λ z, z ∉ a) b).
Proof. apply Split_filter. Qed.

Lemma Split_correct_witness :
  Split ["a"; "b"] ["b"; "c"] = (["a"], ["b"], ["c"]).
Proof. rewrite (Split_correct ["a"; "b"] ["b"; "c"]); [reflexivity|repeat constructor..]. Defined.

(** [Merge] of two ascending slices is ascending (so it has no duplicates)
    and holds exactly the elements of both. *)
Theorem Merge_correct (a b : list string) :
  ascending a → ascending b →
  ascending (Merge a b) ∧ ∀ z, z ∈ Merge a b ↔ z ∈ a ∨ z ∈ b.
Proof. intros Ha Hb. split; [by apply Merge_ascending|apply Merge_elem]. Qed.

Lemma Merge_correct_witness : ascending (Merge ["a"; "c"] ["b"; "c"]).
Proof. apply (Merge_correct ["a"; "c"] ["b"; "c"]); repeat constructor. Defined.

End SortedStrings.
