(* ===== verification/Rbac.v ===== *)
(** * Role-based access control rules: pkg/util/rbacutils/rabc.go

    A policy is decoded from a JSON tree of depth service / resource / action /
    extra..., compacted, and then asked for the rule that matches a request best.
    [decode] appends to Go slices that share backing arrays, so its model passes
    a heap of arrays; [decode_value] is the same recursion on values. *)

From S2P Require Import Prelude.
Local Open Scope Z_scope.
Local Open Scope go_scope.

(** ** JSON objects (vendor/yunion.io/x/jsonutils)

    A dictionary is a Go map: the list gives its pairs in the order in which one
    [range] visits them. *)
Module Json.

Inductive json :=
| JNull
| JBool (b : bool)
| JInt (z : Z)
| JString (s : string)
| JArray (l : list json)
| JDict (kv : list (string * json)).

Abbreviation dict := (list (string * json)).

Fixpoint dict_get (k : string) (d : dict) : option json :=
  match d with
  | [] => None
  | (k', v) :: r => if String.eqb k k' then Some v else dict_get k r
  end.

Fixpoint dict_set (k : string) (v : json) (d : dict) : dict :=
  match d with
  | [] => [(k, v)]
  | (k', v') :: r => if String.eqb k k' then (k', v) :: r else (k', v') :: dict_set k v r
  end.

(** [Update] with another dictionary, and [CopyExcludes]. *)
Definition dict_update (d upd : dict) : dict :=
  foldl (λ d kv, dict_set kv.1 kv.2 d) d upd.

Definition CopyExcludes (d : dict) (keys : list string) : dict :=
  filter (λ kv, kv.1 ∉ keys) d.

(** [Get] with one key: an error on everything but a dictionary. *)
Definition Get (j : json) (k : string) : option json :=
  match j with JDict d => dict_get k d | _ => None end.

(** [GetArray] without keys: scalars are one-element arrays and null is an error.
    On a dictionary the method calls itself on the same dictionary for ever, which
    ends the program when the stack overflows. *)
Definition GetArray (j : json) : outcome unit (list json) :=
  match j with
  | JArray l => Ret l
  | JString _ | JInt _ | JBool _ => Ret [j]
  | JNull => Fail tt
  | JDict _ => Panic
  end.

End Json.
Export Json.

Module Rbac.

(** ** Results *)

Definition WILD_MATCH : string := "*".
Definition Allow : string := "allow".
Definition AdminAllow : string := "admin".
Definition OwnerAllow : string := "owner".
Definition UserAllow : string := "user".
Definition GuestAllow : string := "guest".
Definition Deny : string := "deny".

(** [strictness[r]]: a missing key reads as zero. *)
Definition strictness (r : string) : Z :=
  if String.eqb r Deny then 0
  else if String.eqb r AdminAllow then 1
  else if String.eqb r OwnerAllow then 2
  else if String.eqb r UserAllow then 3
  else if String.eqb r GuestAllow then 4
  else 0.

Definition StricterThan (r1 r2 : string) : bool := strictness r1 <? strictness r2.

(** ** Rules and policies

    The extra levels of a rule are a Go slice; [X] is a list of strings in the
    value model and a slice header in the heap model.  [None] is the nil slice. *)
Record rule_of (X : Type) := Rule {
  Service : string;
  Resource : string;
  Action : string;
  Extra : option X;
  Result : string }.
Arguments Rule {X}.
Arguments Service {X}.
Arguments Resource {X}.
Arguments Action {X}.
Arguments Extra {X}.
Arguments Result {X}.

Abbreviation SRbacRule := (rule_of (list string)).

Record SRbacPolicy := Policy {
  Condition : string;
  IsAdmin : bool;
  Rules : list SRbacRule;
  Projects : list string;
  Roles : list string }.

Definition isWildMatch (s : string) : bool := String.eqb s "" || String.eqb s WILD_MATCH.

Definition extra_of (r : SRbacRule) : list string := default [] (Extra r).

(** The loop of [contains] over [rule.Extra]; [i] is the loop index.  The test
    [len(rule2.Extra) < i] lets [rule2.Extra[i]] be read when the length is [i]. *)
Fixpoint contains_extra (i : nat) (e1 : list string) (e2 : option (list string))
  : outcome Empty_set bool :=
  match e1 with
  | [] => Ret true
  | x :: e1 =>
    if isWildMatch x then contains_extra (S i) e1 e2
    else match e2 with
         | None => Ret false
         | Some l2 =>
           if (length l2 <? i)%nat then Ret false
           else let! y := of_opt (l2 !! i) in
                if String.eqb x y then contains_extra (S i) e1 e2 else Ret false
         end
  end.

Definition contains (rule rule2 : SRbacRule) : outcome Empty_set bool :=
  if negb (isWildMatch (Service rule)) && negb (String.eqb (Service rule) (Service rule2))
  then Ret false else
  if negb (isWildMatch (Resource rule)) && negb (String.eqb (Resource rule) (Resource rule2))
  then Ret false else
  if negb (isWildMatch (Action rule)) && negb (String.eqb (Action rule) (Action rule2))
  then Ret false else
  let! ok := contains_extra 0 (extra_of rule) (Extra rule2) in
  if ok then Ret (String.eqb (Result rule) (Result rule2)) else Ret false.

Definition stricterThan (rule r2 : SRbacRule) : bool := StricterThan (Result rule) (Result r2).

(** The loop of [match] over the extra levels. *)
Fixpoint match_extra (i : Z) (rextra extra : list string) (matched weight : Z) : bool * Z * Z :=
  match rextra, extra with
  | x :: rextra, y :: extra =>
    if isWildMatch x then match_extra (i + 1) rextra extra matched weight
    else if String.eqb x y
         then match_extra (i + 1) rextra extra (matched + 1) (weight + 1000 * (i + 1))
         else (false, 0, 0)
  | _, _ => (true, matched, weight)
  end.

(** One of the three fixed levels: [None] when it does not match, otherwise the
    new match count and weight. *)
Definition match_level (field req : string) (w : Z) (acc : Z * Z) : option (Z * Z) :=
  if isWildMatch field then Some acc
  else if String.eqb field req then Some (acc.1 + 1, acc.2 + w) else None.

Definition match_rule (rule : SRbacRule) (service resource action : string)
    (extra : list string) : bool * Z * Z :=
  match match_level (Service rule) service 1 (0, 0) with
  | None => (false, 0, 0)
  | Some a1 =>
    match match_level (Resource rule) resource 10 a1 with
    | None => (false, 0, 0)
    | Some a2 =>
      match match_level (Action rule) action 100 a2 with
      | None => (false, 0, 0)
      | Some (m, w) => match_extra 0 (extra_of rule) extra m w
      end
    end
  end.

(** The loop of [GetMatchRule].  [matchRule] is nil before the first match, and
    calling [stricterThan] on it would panic. *)
Fixpoint pick_rule (rules : list SRbacRule) (service resource action : string)
    (extra : list string) (maxMatchCnt minWeight : Z) (matchRule : option SRbacRule)
  : outcome Empty_set (option SRbacRule) :=
  match rules with
  | [] => Ret matchRule
  | r :: rest =>
    let '(m, matchCnt, weight) := match_rule r service resource action extra in
    let! take :=
      if negb m then Ret false
      else if maxMatchCnt <? matchCnt then Ret true
      else if (maxMatchCnt =? matchCnt) && (weight <? minWeight) then Ret true
      else if (maxMatchCnt =? matchCnt) && (minWeight =? weight)
           then match matchRule with
                | None => Panic
                | Some cur => Ret (stricterThan cur r)
                end
           else Ret false in
    if take then pick_rule rest service resource action extra matchCnt weight (Some r)
    else pick_rule rest service resource action extra maxMatchCnt minWeight matchRule
  end.

Definition GetMatchRule (policy : SRbacPolicy) (service resource action : string)
    (extra : list string) : outcome Empty_set (option SRbacRule) :=
  pick_rule (Rules policy) service resource action extra 0 1000000 None.

(** [getMatchRule]: a request as a string slice, with missing levels wild. *)
Definition getMatchRule (policy : SRbacPolicy) (req : list string)
  : outcome Empty_set (option SRbacRule) :=
  GetMatchRule policy (default WILD_MATCH (req !! 0%nat)) (default WILD_MATCH (req !! 1%nat))
    (default WILD_MATCH (req !! 2%nat)) (drop 3 req).

(** ** Compaction *)

(** The inner loop of [CompactRules] for one rule: the output with the rule
    absorbed or put in place of a rule it contains, and whether either happened. *)
Fixpoint compact_into (r : SRbacRule) (output : list SRbacRule)
  : outcome Empty_set (list SRbacRule * bool) :=
  match output with
  | [] => Ret ([], false)
  | o :: rest =>
    let! c1 := contains o r in
    if c1 then Ret (o :: rest, true)
    else let! c2 := contains r o in
         if c2 then Ret (r :: rest, true)
         else let! (rest', found) := compact_into r rest in Ret (o :: rest', found)
  end.

Fixpoint compact_loop (rules output : list SRbacRule) : outcome Empty_set (list SRbacRule) :=
  match rules with
  | [] => Ret output
  | r :: rules =>
    let! (output', isContains) := compact_into r output in
    compact_loop rules (if isContains then output' else output' ++ [r])
  end.

Definition CompactRules (rules : list SRbacRule) : outcome Empty_set (list SRbacRule) :=
  match rules with
  | [] => Ret []
  | r :: rules => compact_loop rules [r]
  end.

(** ** Decoding *)

(** The scalar of a rule tree: the result a rule string stands for. *)
Definition decode_result (isAdmin : bool) (s : string) : option string :=
  if String.eqb s Allow then Some (if isAdmin then AdminAllow else OwnerAllow)
  else if String.eqb s AdminAllow then Some AdminAllow
  else if String.eqb s OwnerAllow then Some OwnerAllow
  else if String.eqb s UserAllow then Some UserAllow
  else if String.eqb s GuestAllow then Some GuestAllow
  else if String.eqb s Deny then Some Deny
  else None.

Definition with_result {X} (r : rule_of X) (res : string) : rule_of X :=
  Rule (Service r) (Resource r) (Action r) (Extra r) res.

Inductive decode_error :=
| UnsupportedRuleString (s : string)
| UnsupportedRuleData.

(** Slices of strings: a pointer to a backing array and a length.  The heap is
    the list of backing arrays; the capacity of a slice is the length of its
    array, as every slice here starts at index zero of its array. *)
Record slice := Slice { sl_ptr : nat; sl_len : nat }.
Abbreviation heap := (list (list string)).

Definition backing (h : heap) (s : slice) : list string := default [] (h !! sl_ptr s).
Definition slice_value (h : heap) (s : slice) : list string := take (sl_len s) (backing h s).

(** [append(s, key)]: in place while the capacity allows it, otherwise into a new
    array of twice the capacity. *)
Definition append_key (h : heap) (s : slice) (key : string) : heap * slice :=
  let arr := backing h s in
  if (sl_len s <? length arr)%nat
  then (<[sl_ptr s := <[sl_len s := key]> arr]> h, Slice (sl_ptr s) (S (sl_len s)))
  else (h ++ [take (sl_len s) arr ++ key :: replicate (2 * length arr - S (sl_len s)) ""],
        Slice (length h) (S (sl_len s))).

(** The [switch] of [decode] on the level, on a copy of the rule so far. *)
Definition set_level (level : nat) (key : string) (r : rule_of slice) (h : heap)
  : heap * rule_of slice :=
  match level with
  | 0%nat => (h, Rule key (Resource r) (Action r) (Extra r) (Result r))
  | 1%nat => (h, Rule (Service r) key (Action r) (Extra r) (Result r))
  | 2%nat => (h, Rule (Service r) (Resource r) key (Extra r) (Result r))
  | _ =>
    match Extra r with
    | None => (h ++ [[key]],
               Rule (Service r) (Resource r) (Action r) (Some (Slice (length h) 1)) (Result r))
    | Some s =>
      let (h', s') := append_key h s key in
      (h', Rule (Service r) (Resource r) (Action r) (Some s') (Result r))
    end
  end.

Fixpoint decode (isAdmin : bool) (rules : json) (decodeRule : rule_of slice) (level : nat)
    (h : heap) : outcome decode_error (heap * list (rule_of slice)) :=
  match rules with
  | JString s =>
    match decode_result isAdmin s with
    | Some res => Ret (h, [with_result decodeRule res])
    | None => Fail (UnsupportedRuleString s)
    end
  | JDict kv =>
    (fix range (kv : list (string * json)) (h : heap) :=
       match kv with
       | [] => Ret (h, [])
       | (key, ruleJson) :: kv =>
         let (h1, rule) := set_level level key decodeRule h in
         let! (h2, decoded) := decode isAdmin ruleJson rule (S level) h1 in
         let! (h3, more) := range kv h2 in
         Ret (h3, decoded ++ more)
       end) kv h
  | _ => Fail UnsupportedRuleData
  end.

Definition empty_rule {X} : rule_of X := Rule "" "" "" None "".

Definition load_rule (h : heap) (r : rule_of slice) : SRbacRule :=
  Rule (Service r) (Resource r) (Action r) (slice_value h <$> Extra r) (Result r).

(** The rules [decode] leaves behind, read from the final heap. *)
Definition decode_rules (isAdmin : bool) (rules : json) : outcome decode_error (list SRbacRule) :=
  let! (h, rs) := decode isAdmin rules empty_rule 0 [] in Ret (load_rule h <$> rs).

(** ** Conditions of old policies

    The two patterns [tenant\s*==\s*['"]?(\w+)['"]?] and
    [roles.contains\(['"]?(\w+)['"]?\)].  The character classes that follow each
    other are disjoint, so matching them greedily is what the leftmost match is.
    Characters are bytes. *)

Definition is_space (c : Ascii.ascii) : bool :=
  match Ascii.nat_of_ascii c with 9%nat | 10%nat | 12%nat | 13%nat | 32%nat => true | _ => false end.

Definition is_word (c : Ascii.ascii) : bool :=
  let n := Ascii.nat_of_ascii c in
  ((48 <=? n) && (n <=? 57) || (65 <=? n) && (n <=? 90) || (97 <=? n) && (n <=? 122) ||
   (n =? 95))%nat.

Definition is_quote (c : Ascii.ascii) : bool :=
  match Ascii.nat_of_ascii c with 34%nat | 39%nat => true | _ => false end.

Fixpoint drop_while {A} (p : A → bool) (l : list A) : list A :=
  match l with [] => [] | x :: r => if p x then drop_while p r else l end.

Fixpoint take_while {A} (p : A → bool) (l : list A) : list A :=
  match l with [] => [] | x :: r => if p x then x :: take_while p r else [] end.

Definition drop_quote (l : list Ascii.ascii) : list Ascii.ascii :=
  match l with c :: r => if is_quote c then r else l | [] => [] end.

Fixpoint strip_prefix (p l : list Ascii.ascii) : option (list Ascii.ascii) :=
  match p, l with
  | [], _ => Some l
  | a :: p, b :: l => if Ascii.eqb a b then strip_prefix p l else None
  | _ :: _, [] => None
  end.

(** A word in optional quotes: the group of both patterns. *)
Definition match_word (l : list Ascii.ascii) : option (string * list Ascii.ascii) :=
  let l := drop_quote l in
  match take_while is_word l with
  | [] => None
  | w => Some (String.string_of_list_ascii w, drop_quote (drop_while is_word l))
  end.

Abbreviation chars := String.list_ascii_of_string.

Definition match_tenant (l : list Ascii.ascii) : option (string * list Ascii.ascii) :=
  l ← strip_prefix (chars "tenant") l;
  l ← strip_prefix (chars "==") (drop_while is_space l);
  match_word (drop_while is_space l).

Definition match_role (l : list Ascii.ascii) : option (string * list Ascii.ascii) :=
  l ← strip_prefix (chars "roles") l;
  match l with
  | c :: l =>
    if Ascii.eqb c (Ascii.ascii_of_nat 10) then None else
    l ← strip_prefix (chars "contains(") l;
    '(w, l) ← match_word l;
    l ← strip_prefix (chars ")") l;
    Some (w, l)
  | [] => None
  end.

(** [FindAllStringSubmatch(s, -1)]: every match consumes characters, so the
    length of the input is enough fuel. *)
Fixpoint find_all (fuel : nat) (m : list Ascii.ascii → option (string * list Ascii.ascii))
    (l : list Ascii.ascii) : list string :=
  match fuel with
  | O => []
  | S fuel =>
    match m l with
    | Some (w, rest) => w :: find_all fuel m rest
    | None => match l with [] => [] | _ :: l => find_all fuel m l end
    end
  end.

Definition searchMatchTenants (cond : string) : list string :=
  find_all (S (String.length cond)) match_tenant (chars cond).
Definition searchMatchRoles (cond : string) : list string :=
  find_all (S (String.length cond)) match_role (chars cond).

(** ** Policies from JSON *)

Definition to_lower (c : Ascii.ascii) : Ascii.ascii :=
  let n := Ascii.nat_of_ascii c in
  if ((65 <=? n) && (n <=? 90))%nat then Ascii.ascii_of_nat (n + 32) else c.

Definition trim_lower (s : string) : string :=
  String.string_of_list_ascii
    (to_lower <$> rev (drop_while is_space (rev (drop_while is_space (chars s))))).

(** [utils.ToBool]. *)
Definition ToBool (s : string) : bool :=
  bool_decide (trim_lower s ∈ ["1"; "true"; "on"; "yes"]).

Inductive policy_error :=
| NoPolicyKey
| EmptyPolicy
| BadRule (e : decode_error).

Section Decode.

(** [render j] is the text [j.String()] of a value that is not a string: what
    [GetString] returns for it. *)
Variable render : json → string.

Definition GetString (j : json) : string :=
  match j with
  | JString s => s
  | JBool b => if b then "true" else "false"
  | _ => render j
  end.

(** [JSONArray2StringArray(obj.GetArray(key))] when the key is present. *)
Definition string_array {E} (j : json) (key : string) (old : list string)
  : outcome E (list string) :=
  match Get j key with
  | None => Ret old
  | Some v => match GetArray v with
              | Ret l => Ret (GetString <$> l)
              | Fail _ => Ret []
              | Panic => Panic
              | OutOfFuel => OutOfFuel
              end
  end.

Definition Decode (policy : SRbacPolicy) (policyJson : json) : outcome policy_error SRbacPolicy :=
  let condition := match Get policyJson "condition" with Some j => GetString j | None => "" end in
  let isAdmin := match Get policyJson "is_admin" with
                 | Some j => ToBool (GetString j) | None => false end in
  let! projects := string_array policyJson "projects" (Projects policy) in
  let! roles := string_array policyJson "roles" (Roles policy) in
  let hack := bool_decide (projects = []) && bool_decide (roles = []) &&
              negb (String.eqb condition "") in
  let projects := if hack then searchMatchTenants condition else projects in
  let roles := if hack then searchMatchRoles condition else roles in
  match Get policyJson "policy" with
  | None => Fail NoPolicyKey
  | Some ruleJson =>
    match decode_rules isAdmin ruleJson with
    | Fail e => Fail (BadRule e)
    | Panic => Panic
    | OutOfFuel => OutOfFuel
    | Ret [] => Fail EmptyPolicy
    | Ret rules =>
      match CompactRules rules with
      | Ret rules => Ret (Policy "" isAdmin rules projects roles)
      | _ => Panic
      end
    end
  end.

End Decode.

(** ** Encoding *)

(** Drop the trailing wild levels but never the first one. *)
Fixpoint trim_wild (l : list string) : list string :=
  match l with
  | [] => []
  | x :: r => match trim_wild r with
              | [] => if isWildMatch x then [] else [x]
              | r' => x :: r'
              end
  end.

Definition toStringArray (r : SRbacRule) : list string :=
  Service r :: trim_wild (Resource r :: Action r :: extra_of r).

Inductive encode_error := Conflict | InvalidRules.

(** [addRule2Json(node, ["*"], result)].  The call on a nested dictionary ignores
    the error it returns. *)
Fixpoint add_wild (node : json) (result : string) : outcome encode_error json :=
  match node with
  | JDict kv =>
    let! kv' :=
      (fix scan (kv : list (string * json)) : outcome encode_error (list (string * json)) :=
         match kv with
         | [] => Ret [(WILD_MATCH, JString result)]
         | (k, v) :: rest =>
           if String.eqb WILD_MATCH k then
             match v with
             | JString _ => Fail Conflict
             | JDict _ => match add_wild v result with
                          | Ret v' => Ret ((k, v') :: rest)
                          | _ => Ret ((k, v) :: rest)
                          end
             | _ => Fail InvalidRules
             end
           else let! rest' := scan rest in Ret ((k, v) :: rest')
         end) kv in
    Ret (JDict kv')
  | _ => Fail InvalidRules
  end.

Fixpoint addRule2Json (node : dict) (keys : list string) (result : string)
  : outcome encode_error dict :=
  match keys with
  | [] => Panic
  | [k] =>
    match dict_get k node with
    | None => Ret (dict_set k (JString result) node)
    | Some (JString _) => Fail Conflict
    | Some (JDict d) =>
      match add_wild (JDict d) result with
      | Ret next => Ret (dict_set k next node)
      | _ => Ret node
      end
    | Some _ => Fail InvalidRules
    end
  | k :: ks =>
    match dict_get k node with
    | None => let! next := addRule2Json [] ks result in Ret (dict_set k (JDict next) node)
    | Some (JString e) =>
      let! next := addRule2Json [(WILD_MATCH, JString e)] ks result in
      Ret (dict_set k (JDict next) node)
    | Some (JDict d) =>
      let! next := addRule2Json d ks result in Ret (dict_set k (JDict next) node)
    | Some _ => Fail InvalidRules
    end
  end.

Fixpoint encode_rules (rules : list SRbacRule) (node : dict) : outcome encode_error dict :=
  match rules with
  | [] => Ret node
  | r :: rules =>
    let! node' := addRule2Json node (toStringArray r) (Result r) in encode_rules rules node'
  end.

Definition Encode (policy : SRbacPolicy) : outcome encode_error json :=
  let! rules := encode_rules (Rules policy) [] in
  Ret (JDict ([("is_admin", JBool (IsAdmin policy))]
    ++ (if bool_decide (Projects policy = []) then []
        else [("projects", JArray (JString <$> Projects policy))])
    ++ (if bool_decide (Roles policy = []) then []
        else [("roles", JArray (JString <$> Roles policy))])
    ++ [("policy", JDict rules)])).

(** ** Explaining requests and matching users *)

Fixpoint Explain (policy : SRbacPolicy) (request : list (list string))
  : outcome Empty_set (list (list string)) :=
  match request with
  | [] => Ret []
  | req :: request =>
    let! rule := getMatchRule policy req in
    let! rest := Explain policy request in
    Ret ((req ++ [match rule with Some r => Result r | None => Deny end]) :: rest)
  end.

Definition contains_str (s1 : list string) (s : string) : bool := existsb (String.eqb s) s1.

Definition intersect (s1 s2 : list string) : bool :=
  existsb (λ a, existsb (String.eqb a) s2) s1.

(** What the policies read of a token; nil is [None]. *)
Record TokenCredential := Token {
  ProjectName : string;
  ProjectId : string;
  DomainId : string;
  UserId : string;
  TokenRoles : list string;
  SystemAdmin : bool }.

Definition Match (policy : SRbacPolicy) (userCred : option TokenCredential) : bool :=
  (bool_decide (Projects policy = []) ||
   match userCred with Some u => contains_str (Projects policy) (ProjectName u) | None => false end)
  && (bool_decide (Roles policy = []) ||
   match userCred with Some u => intersect (Roles policy) (TokenRoles u) | None => false end).

End Rbac.
