(* ===== verification/RbacMatch.v ===== *)
(** * Matching and compaction of access rules

    What [GetMatchRule] and [CompactRules] of pkg/util/rbacutils/rabc.go promise:
    the matched rule is the best one under an explicit order, the decision does
    not depend on the order of the rules, and compaction keeps every rule covered. *)

From S2P Require Import Prelude Rbac.
Import Rbac.
Local Open Scope Z_scope.
Local Open Scope go_scope.

Module RbacMatch.

(** ** The best rule of a request *)

Section Request.
Context (service resource action : string) (extra : list string).

Abbreviation match_ r := (match_rule r service resource action extra).

Definition matches (r : SRbacRule) : Prop := ∃ c w, match_ r = (true, c, w).

(** [r'] is preferred to [r]: more matched levels, then a smaller weight, then a
    less strict result. *)
Definition preferred (r' r : SRbacRule) : Prop :=
  ∃ c w c' w', match_ r = (true, c, w) ∧ match_ r' = (true, c', w') ∧
    (c < c' ∨ c = c' ∧ (w' < w ∨ w' = w ∧ strictness (Result r) < strictness (Result r'))).

Lemma match_extra_inv i re ex m w c v :
  0 ≤ i → match_extra i re ex m w = (true, c, v) → m ≤ c ∧ w ≤ v ∧ (c = m → v = w).
Proof.
  revert i ex m w. induction re as [|x re IH]; intros i ex m w Hi H; simpl in H;
    [simplify_eq; lia|].
  destruct ex as [|y ex]; [simplify_eq; lia|].
  destruct (isWildMatch x); [apply IH in H; lia|].
  destruct (String.eqb x y); [|done]. apply IH in H; lia.
Qed.

Lemma match_level_inv f r w acc acc' :
  0 ≤ w → match_level f r w acc = Some acc' →
  acc.1 ≤ acc'.1 ∧ acc.2 ≤ acc'.2 ∧ (acc'.1 = acc.1 → acc'.2 = acc.2).
Proof.
  unfold match_level. intros Hw H.
  destruct (isWildMatch f); [|destruct (String.eqb f r)]; simplify_eq; simpl; lia.
Qed.

Lemma match_rule_inv r c w :
  match_ r = (true, c, w) → 0 ≤ c ∧ 0 ≤ w ∧ (c = 0 → w = 0).
Proof.
  unfold match_rule. intros H.
  destruct (match_level (Service r) _ _ _) as [a1|] eqn:E1; [|done].
  destruct (match_level (Resource r) _ _ _) as [a2|] eqn:E2; [|done].
  destruct (match_level (Action r) _ _ _) as [[m v]|] eqn:E3; [|done].
  apply match_level_inv in E1, E2, E3; try lia.
  apply match_extra_inv in H; simpl in *; lia.
Qed.

(** What the loop has found after the rules [seen]. *)
Definition pick_inv (seen : list SRbacRule) (c w : Z) (cur : option SRbacRule) : Prop :=
  match cur with
  | None => c = 0 ∧ w = 1000000 ∧ ∀ r, r ∈ seen → ¬ matches r
  | Some r0 => r0 ∈ seen ∧ match_ r0 = (true, c, w) ∧ ∀ r, r ∈ seen → ¬ preferred r r0
  end.

Lemma pick_inv_skip seen c w cur r :
  pick_inv seen c w cur →
  (match cur with None => ¬ matches r | Some r0 => ¬ preferred r r0 end) →
  pick_inv (seen ++ [r]) c w cur.
Proof.
  destruct cur as [r0|]; simpl.
  - intros (? & ? & Hall) Hr. split_and!; [set_solver|done|].
    intros r'. rewrite elem_of_app, list_elem_of_singleton. intros [?| ->]; auto.
  - intros (? & ? & Hall) Hr. split_and!; [done|done|].
    intros r'. rewrite elem_of_app, list_elem_of_singleton. intros [?| ->]; auto.
Qed.

Lemma pick_inv_take seen c w cur r c' w' :
  pick_inv seen c w cur → match_ r = (true, c', w') →
  (match cur with None => True | Some r0 => preferred r r0 end) →
  pick_inv (seen ++ [r]) c' w' (Some r).
Proof.
  intros Hinv Hr Hpref. split_and!; [set_solver|done|].
  intros r'. rewrite elem_of_app, list_elem_of_singleton. intros [Hin| ->].
  - destruct cur as [r0|]; simpl in Hinv.
    + destruct Hinv as (_ & Hr0 & Hall). intros Hp. apply (Hall r' Hin).
      destruct Hp as (a & b & a' & b' & E1 & E2 & Hp).
      destruct Hpref as (d & e & d' & e' & E3 & E4 & Hq). same_lhs.
      do 4 eexists. split_and!; [eassumption..|]. lia.
    + destruct Hinv as (_ & _ & Hall). intros (a & b & a' & b' & E1 & E2 & _).
      apply (Hall r' Hin). by exists a', b'.
  - intros (a & b & a' & b' & E1 & E2 & Hp). same_lhs. lia.
Qed.

Lemma pick_rule_spec rules seen c w cur :
  pick_inv seen c w cur →
  ∃ c' w' cur', pick_rule rules service resource action extra c w cur = Ret cur' ∧
    pick_inv (seen ++ rules) c' w' cur'.
Proof.
  revert seen c w cur. induction rules as [|r rules IH]; intros seen c w cur Hinv.
  { exists c, w, cur. by rewrite app_nil_r. }
  cbn [pick_rule]. destruct (match_ r) as [[m cnt] wt] eqn:Er.
  rewrite (cons_middle r seen rules), app_assoc.
  destruct m; cbn [negb obind].
  2:{ apply IH, pick_inv_skip; [done|].
      destruct cur; [intros (?&?&?&?&?&?&?)|intros (?&?&?)]; congruence. }
  pose proof (match_rule_inv r cnt wt Er) as Hpos.
  destruct (Z.ltb_spec c cnt) as [Hlt|Hge]; cbn [obind].
  { eapply IH, pick_inv_take; [done..|]. destruct cur as [r0|]; [|done].
    destruct Hinv as (_ & E & _). exists c, w, cnt, wt. auto. }
  destruct ((c =? cnt) && (wt <? w)) eqn:E1; cbn [obind].
  { apply andb_prop in E1 as [? ?]. eapply IH, pick_inv_take; [done..|].
    destruct cur as [r0|]; [|done]. destruct Hinv as (_ & E & _).
    exists c, w, cnt, wt. split_and!; [done..|]. lia. }
  destruct ((c =? cnt) && (w =? wt)) eqn:E2; cbn [obind].
  - apply andb_prop in E2 as [? ?]. destruct cur as [r0|].
    2:{ destruct Hinv as (-> & -> & _). lia. }
    pose proof Hinv as (_ & E & _). cbn [obind].
    unfold stricterThan, StricterThan.
    destruct (Z.ltb_spec (strictness (Result r0)) (strictness (Result r))); cbn [obind].
    + eapply IH, pick_inv_take; [done..|]. exists c, w, cnt, wt. split_and!; [done..|]. lia.
    + apply IH, pick_inv_skip; [done|]. intros (?&?&?&?&?&?&?). same_lhs. lia.
  - apply IH, pick_inv_skip; [done|]. destruct cur as [r0|].
    + destruct Hinv as (_ & E & _). intros (?&?&?&?&?&?&?). same_lhs. lia.
    + destruct Hinv as (-> & -> & _). lia.
Qed.

Lemma GetMatchRule_spec policy :
  ∃ res, GetMatchRule policy service resource action extra = Ret res ∧
    match res with
    | None => ∀ r, r ∈ Rules policy → ¬ matches r
    | Some r => r ∈ Rules policy ∧ matches r ∧ ∀ r', r' ∈ Rules policy → ¬ preferred r' r
    end.
Proof.
  destruct (pick_rule_spec (Rules policy) [] 0 1000000 None) as (c & w & cur & E & H).
  { split_and!; [done..|]. by intros r ?%elem_of_nil. }
  exists cur. split; [done|]. destruct cur as [r|]; [|by destruct H as (_&_&?)].
  destruct H as (? & ? & ?). split_and!; [done| |done]. by exists c, w.
Qed.

End Request.

(** The results a rule can carry after decoding. *)
Definition valid_result (s : string) : Prop :=
  s ∈ [Deny; AdminAllow; OwnerAllow; UserAllow; GuestAllow].

Lemma strictness_inj a b :
  valid_result a → valid_result b → strictness a = strictness b → a = b.
Proof.
  unfold valid_result. rewrite !elem_of_cons, !elem_of_nil.
  intros Ha Hb. destruct_or!; subst; try done; vm_compute; done.
Qed.

Lemma best_unique (rules : list SRbacRule) s re a ex r1 r2 :
  (∀ r, r ∈ rules → valid_result (Result r)) →
  r1 ∈ rules → r2 ∈ rules → matches s re a ex r1 → matches s re a ex r2 →
  ¬ preferred s re a ex r1 r2 → ¬ preferred s re a ex r2 r1 → Result r1 = Result r2.
Proof.
  intros Hv Hin1 Hin2 (c1 & w1 & E1) (c2 & w2 & E2) H1 H2.
  apply strictness_inj; [by auto..|].
  destruct (Z.lt_trichotomy (strictness (Result r1)) (strictness (Result r2))) as [?|[?|?]];
    [|done|]; exfalso.
  all: destruct (Z.lt_trichotomy c1 c2) as [?|[?|?]];
    try (by apply H2; exists c1, w1, c2, w2; auto);
    try (by apply H1; exists c2, w2, c1, w1; auto).
  all: destruct (Z.lt_trichotomy w1 w2) as [?|[?|?]];
    try (by apply H2; exists c1, w1, c2, w2; split_and!; auto; lia);
    try (by apply H1; exists c2, w2, c1, w1; split_and!; auto; lia).
Qed.

(** C1 [GetMatchRule] never dereferences the nil [matchRule]; it returns no rule
    exactly when none matches, and otherwise a rule of the policy that matches and
    to which no other is preferred (more matched levels, then less weight, then
    the less strict result). *)
Theorem GetMatchRule_best (policy : SRbacPolicy) (service resource action : string)
    (extra : list string) :
  ∃ res, GetMatchRule policy service resource action extra = Ret res ∧
    match res with
    | None => ∀ r, r ∈ Rules policy → ¬ matches service resource action extra r
    | Some r => r ∈ Rules policy ∧ matches service resource action extra r ∧
        ∀ r', r' ∈ Rules policy → ¬ preferred service resource action extra r' r
    end.
Proof. apply GetMatchRule_spec. Qed.

Lemma matches_perm_None p1 p2 s re a ex :
  Rules p1 ≡ₚ Rules p2 → GetMatchRule p1 s re a ex = Ret None →
  GetMatchRule p2 s re a ex = Ret None.
Proof.
  intros Hp H1.
  destruct (GetMatchRule_spec s re a ex p1) as (o1 & E1 & S1). rewrite H1 in E1. simplify_eq.
  destruct (GetMatchRule_spec s re a ex p2) as ([r|] & E2 & S2); [|done].
  destruct S2 as (Hin & Hm & _). exfalso. apply (S1 r); [by rewrite Hp|done].
Qed.

(** C4 The decision of a policy does not depend on the order of its rules: two
    policies whose rules are permutations of each other, with decoded results,
    give the same result for every request.  (The decoder ranges over Go maps, so
    the order changes from run to run.) *)
Theorem GetMatchRule_order_independent (p1 p2 : SRbacPolicy) (service resource action : string)
    (extra : list string) :
  Rules p1 ≡ₚ Rules p2 → (∀ r, r ∈ Rules p1 → valid_result (Result r)) →
  ∃ o1 o2, GetMatchRule p1 service resource action extra = Ret o1 ∧
    GetMatchRule p2 service resource action extra = Ret o2 ∧ Result <$> o1 = Result <$> o2.
Proof.
  intros Hp Hv.
  destruct (GetMatchRule_spec service resource action extra p1) as (o1 & E1 & S1).
  destruct (GetMatchRule_spec service resource action extra p2) as (o2 & E2 & S2).
  exists o1, o2. split_and!; [done..|]. destruct o1 as [r1|], o2 as [r2|]; simpl.
  - destruct S1 as (? & ? & H1), S2 as (? & ? & H2). f_equal.
    eapply (best_unique (Rules p1)); [done|done|by rewrite Hp|done..| |].
    + apply H2. by rewrite <- Hp.
    + apply H1. by rewrite Hp.
  - pose proof (matches_perm_None p2 p1 _ _ _ _ (symmetry Hp) E2). congruence.
  - pose proof (matches_perm_None p1 p2 _ _ _ _ Hp E1). congruence.
  - done.
Qed.

Lemma GetMatchRule_order_independent_witness :
  let r1 := Rule "compute" "*" "*" None "owner" in
  let r2 := Rule "*" "hosts" "*" None "deny" in
  ∃ o1 o2, GetMatchRule (Policy "" false [r1; r2] [] []) "compute" "hosts" "list" [] = Ret o1 ∧
    GetMatchRule (Policy "" false [r2; r1] [] []) "compute" "hosts" "list" [] = Ret o2 ∧
    Result <$> o1 = Result <$> o2.
Proof.
  intros r1 r2.
  apply (GetMatchRule_order_independent (Policy "" false [r1; r2] [] [])
    (Policy "" false [r2; r1] [] [])); simpl.
  - apply perm_swap.
  - intros r. rewrite !elem_of_cons, elem_of_nil. intros [-> | [-> | []]];
      vm_compute; repeat (left || right).
Defined.

(** ** Containment and compaction *)

(** What [contains] decides when it returns. *)
Definition covers (r1 r2 : SRbacRule) : Prop :=
  (isWildMatch (Service r1) = true ∨ Service r1 = Service r2) ∧
  (isWildMatch (Resource r1) = true ∨ Resource r1 = Resource r2) ∧
  (isWildMatch (Action r1) = true ∨ Action r1 = Action r2) ∧
  (∀ i x, extra_of r1 !! i = Some x → isWildMatch x = true ∨
     ∃ l2, Extra r2 = Some l2 ∧ l2 !! i = Some x) ∧
  Result r1 = Result r2.

Lemma contains_extra_true i e1 e2 :
  contains_extra i e1 e2 = Ret true ↔
  ∀ j x, e1 !! j = Some x → isWildMatch x = true ∨ ∃ l2, e2 = Some l2 ∧ l2 !! (i + j)%nat = Some x.
Proof.
  revert i. induction e1 as [|x e1 IH]; intros i; simpl; [split; [|done]; intros _ j y ?; done|].
  destruct (isWildMatch x) eqn:Ex.
  { rewrite IH. split; intros H.
    - intros [|j] y Hy; simpl in Hy; [simplify_eq; auto|]. rewrite <- Nat.add_succ_comm. by apply H.
    - intros j y Hy. specialize (H (S j) y Hy). by rewrite <- Nat.add_succ_comm in H. }
  destruct e2 as [l2|].
  2:{ split; [done|]. intros H. destruct (H 0%nat x eq_refl) as [?|(?&?&?)]; congruence. }
  assert (∀ y, l2 !! i = Some y → x ≠ y →
    ¬ (∀ j z, (x :: e1) !! j = Some z → isWildMatch z = true ∨
        ∃ l, Some l2 = Some l ∧ l !! (i + j)%nat = Some z)) as Hno.
  { intros y Hy Hne H. destruct (H 0%nat x eq_refl) as [?|(l & ? & Hl)]; [congruence|].
    rewrite Nat.add_0_r in Hl. congruence. }
  destruct (l2 !! i) as [y|] eqn:Ey.
  - assert ((length l2 <? i)%nat = false) as ->.
    { apply Nat.ltb_ge. apply lookup_lt_Some in Ey. lia. }
    simpl. destruct (String.eqb_spec x y) as [<-|Hne]; [|split; [done|intros []%(Hno y); done]].
    rewrite IH. split; intros H.
    + intros [|j] z Hz; simpl in Hz; [simplify_eq; right; exists l2; by rewrite Nat.add_0_r|].
      rewrite <- Nat.add_succ_comm. by apply H.
    + intros j z Hz. specialize (H (S j) z Hz). by rewrite <- Nat.add_succ_comm in H.
  - split; [by case_match|]. intros H. destruct (H 0%nat x eq_refl) as [?|(l & ? & Hl)];
      [congruence|]. rewrite Nat.add_0_r in Hl. congruence.
Qed.

Lemma level_test a b :
  negb (isWildMatch a) && negb (String.eqb a b) = false ↔ isWildMatch a = true ∨ a = b.
Proof.
  destruct (isWildMatch a), (String.eqb_spec a b); simpl; split; intros; auto; try done.
  by destruct_or!.
Qed.

Lemma contains_covers r1 r2 : contains r1 r2 = Ret true ↔ covers r1 r2.
Proof.
  unfold contains, covers. rewrite <- !level_test.
  destruct (negb (isWildMatch (Service r1)) && _) eqn:E1; [split; [done|intros (?&_); done]|].
  destruct (negb (isWildMatch (Resource r1)) && _) eqn:E2; [split; [done|intros (_&?&_); done]|].
  destruct (negb (isWildMatch (Action r1)) && _) eqn:E3; [split; [done|intros (_&_&?&_); done]|].
  pose proof (contains_extra_true 0 (extra_of r1) (Extra r2)) as Hx.
  destruct (contains_extra 0 (extra_of r1) (Extra r2)) as [[]| | |] eqn:E4; simpl.
  - destruct (String.eqb_spec (Result r1) (Result r2)); split; try done; intuition.
  - split; [done|]. intros (_&_&_&H&_). apply Hx in H. done.
  - destruct e.
  - split; [done|]. intros (_&_&_&H&_). apply Hx in H. done.
  - split; [done|]. intros (_&_&_&H&_). apply Hx in H. done.
Qed.

Lemma covers_refl r : covers r r.
Proof.
  repeat split; auto. intros i x Hx. right. unfold extra_of in Hx.
  destruct (Extra r); [eauto|done].
Qed.

Lemma covers_trans r1 r2 r3 : covers r1 r2 → covers r2 r3 → covers r1 r3.
Proof.
  intros (A1 & A2 & A3 & A4 & A5) (B1 & B2 & B3 & B4 & B5).
  split_and!; [intuition congruence..| |congruence].
  intros i x Hx. destruct (A4 i x Hx) as [?|(l2 & E & Hl)]; [by left|].
  apply B4. unfold extra_of. by rewrite E.
Qed.

#[export] Instance covers_preorder : PreOrder covers.
Proof. split; [intros r; apply covers_refl|intros r1 r2 r3; apply covers_trans]. Qed.

Lemma match_extra_true i re ex m w :
  (match_extra i re ex m w).1.1 = true ↔
  ∀ j x y, re !! j = Some x → ex !! j = Some y → isWildMatch x = true ∨ x = y.
Proof.
  revert i ex m w. induction re as [|x re IH]; intros i ex m w; simpl; [by split|].
  destruct ex as [|y ex]; [split; [|done]; intros _ j ?? _ ?; done|].
  assert ((isWildMatch x = true ∨ x = y) →
    ((∀ j z t, re !! j = Some z → ex !! j = Some t → isWildMatch z = true ∨ z = t) ↔
     (∀ j z t, (x :: re) !! j = Some z → (y :: ex) !! j = Some t → isWildMatch z = true ∨ z = t)))
    as Hcons.
  { intros H0. split; intros H.
    - intros [|j] z t Hz Ht; simpl in *; simplify_eq; eauto.
    - intros j z t Hz Ht. by apply (H (S j)). }
  destruct (isWildMatch x) eqn:Ex; [rewrite IH; apply Hcons; auto|].
  destruct (String.eqb_spec x y); [rewrite IH; apply Hcons; auto|].
  simpl. split; [done|]. intros H. destruct (H 0%nat x y eq_refl eq_refl); congruence.
Qed.

(** The match flag of a request does not depend on the weights. *)
Lemma match_rule_true r s re a ex :
  (match_rule r s re a ex).1.1 = true ↔
  (isWildMatch (Service r) = true ∨ Service r = s) ∧
  (isWildMatch (Resource r) = true ∨ Resource r = re) ∧
  (isWildMatch (Action r) = true ∨ Action r = a) ∧
  ∀ j x y, extra_of r !! j = Some x → ex !! j = Some y → isWildMatch x = true ∨ x = y.
Proof.
  unfold match_rule, match_level.
  destruct (isWildMatch (Service r)) eqn:?, (isWildMatch (Resource r)) eqn:?,
    (isWildMatch (Action r)) eqn:?,
    (String.eqb_spec (Service r) s), (String.eqb_spec (Resource r) re),
    (String.eqb_spec (Action r) a); simpl;
    try rewrite match_extra_true; intuition congruence.
Qed.

Lemma matches_true s re a ex r :
  matches s re a ex r ↔ (match_rule r s re a ex).1.1 = true.
Proof.
  unfold matches. destruct (match_rule r s re a ex) as [[m c] w]. simpl.
  split; [intros (?&?&?); congruence|]. intros ->. eauto.
Qed.

Lemma covers_matches s re a ex r1 r2 :
  covers r1 r2 → matches s re a ex r2 → matches s re a ex r1.
Proof.
  rewrite !matches_true, !match_rule_true.
  intros (A1 & A2 & A3 & A4 & _) (B1 & B2 & B3 & B4).
  split_and!; [intuition congruence..|].
  intros j x y Hx Hy. destruct (A4 j x Hx) as [?|(l2 & E & Hl)]; [by left|].
  apply (B4 j); [|done]. unfold extra_of. by rewrite E.
Qed.

(** The output after the rules [seen]: rules of the input that cover it. *)
Definition compact_inv (seen output : list SRbacRule) : Prop :=
  (∀ o, o ∈ output → o ∈ seen) ∧ (∀ r, r ∈ seen → ∃ o, o ∈ output ∧ covers o r).

Lemma compact_into_spec r output output' found :
  compact_into r output = Ret (output', found) →
  (∀ o, o ∈ output' → o ∈ output ∨ o = r) ∧
  (∀ o, o ∈ output → ∃ o', o' ∈ output' ∧ covers o' o) ∧
  (found = true → ∃ o', o' ∈ output' ∧ covers o' r) ∧ (found = false → output' = output).
Proof.
  revert output' found. induction output as [|o rest IH]; intros output' found H; simpl in H.
  { simplify_eq. split_and!; try done; intros ? ?%elem_of_nil; done. }
  destruct (contains o r) as [[]| | |] eqn:E1; simpl in H; simplify_eq.
  { apply contains_covers in E1. split_and!; [auto| | |done].
    - intros x ?. exists x. by split.
    - intros _. exists o. split; [left|done]. }
  destruct (contains r o) as [[]| | |] eqn:E2; simpl in H; simplify_eq.
  { apply contains_covers in E2. split_and!; [| | |done].
    - intros x [->|?]%elem_of_cons; [by right|left; by right].
    - intros x [->|?]%elem_of_cons; [exists r; split; [left|done]|].
      exists x. split; [by right|done].
    - intros _. exists r. split; [left|done]. }
  destruct (compact_into r rest) as [[rest' f]| | |] eqn:E3; simpl in H; simplify_eq.
  destruct (IH _ _ eq_refl) as (I1 & I2 & I3 & I4). split_and!.
  - intros x [->|[?|?]%I1]%elem_of_cons; [left; left|left; by right|by right].
  - intros x [->|(y & ? & ?)%I2]%elem_of_cons; [exists o; split; [left|done]|].
    exists y. split; [by right|done].
  - intros (y & ? & ?)%I3. exists y. split; [by right|done].
  - intros ->%I4. done.
Qed.

Lemma compact_loop_spec rules seen output out :
  compact_inv seen output → compact_loop rules output = Ret out →
  compact_inv (seen ++ rules) out.
Proof.
  revert seen output. induction rules as [|r rules IH]; intros seen output Hinv H; simpl in H.
  { simplify_eq. by rewrite app_nil_r. }
  destruct (compact_into r output) as [[output' f]| | |] eqn:E; simpl in H; try done.
  rewrite (cons_middle r seen rules), app_assoc. eapply IH; [|exact H].
  apply compact_into_spec in E as (I1 & I2 & I3 & I4).
  destruct Hinv as [J1 J2]. split.
  - intros o Ho. apply elem_of_app. rewrite list_elem_of_singleton.
    assert (o ∈ output' ∨ o = r) as [[?|?]%I1| ->]; [|naive_solver..].
    destruct f; [by left|]. apply elem_of_app in Ho as [?|?%list_elem_of_singleton]; auto.
  - assert (∀ o, o ∈ output' → o ∈ (if f then output' else output' ++ [r])) as Hsub.
    { intros o ?. destruct f; [done|]. apply elem_of_app. by left. }
    intros x [Hx|Hx%list_elem_of_singleton]%elem_of_app.
    + destruct (J2 x Hx) as (o & Ho & Hc). destruct (I2 o Ho) as (o' & ? & ?).
      exists o'. split; [auto|]. by trans o.
    + subst x. destruct f; [by destruct I3 as (o' & ? & ?); eauto|].
      exists r. split; [|done]. apply elem_of_app. right. left.
Qed.

Lemma CompactRules_spec rules out : CompactRules rules = Ret out → compact_inv rules out.
Proof.
  destruct rules as [|r rules]; simpl; intros H.
  { simplify_eq. split; intros ? ?%elem_of_nil; done. }
  apply (compact_loop_spec rules [r] [r] out); [|done].
  split; [done|]. intros x ?. exists x. by split.
Qed.

(** Rules whose extra levels are nil or all of the same number. *)
Definition uniform_extra (n : nat) (r : SRbacRule) : Prop :=
  ∀ l, Extra r = Some l → length l = n.

Lemma contains_returns n r1 r2 :
  uniform_extra n r1 → uniform_extra n r2 → ∃ b, contains r1 r2 = Ret b.
Proof.
  intros H1 H2. unfold contains. do 3 (case_match; [by eexists|]).
  assert (∀ e i, (i + length e = length (extra_of r1))%nat →
    ∃ b, contains_extra i e (Extra r2) = Ret b) as Hx.
  { induction e as [|x e IH]; intros i Hi; simpl in *; [by eexists|].
    case_match; [apply IH; lia|]. destruct (Extra r2) as [l2|] eqn:E; [|by eexists].
    specialize (H2 _ E). unfold extra_of in *.
    destruct (Extra r1) as [l1|] eqn:E1; simpl in *; [|lia]. specialize (H1 _ E1).
    case_match; [by eexists|]. destruct (lookup_lt_is_Some_2 l2 i) as [y ->]; [lia|]. simpl.
    case_match; [apply IH; lia|by eexists]. }
  destruct (Hx (extra_of r1) 0%nat eq_refl) as [b ->]. simpl. destruct b; by eexists.
Qed.

Lemma compact_into_returns n r output :
  uniform_extra n r → (∀ o, o ∈ output → uniform_extra n o) →
  ∃ p, compact_into r output = Ret p.
Proof.
  intros Hr. induction output as [|o rest IH]; intros Ho; simpl; [by eexists|].
  destruct (contains_returns n o r) as [[] ->]; [by apply Ho; left|done| |]; simpl; [by eexists|].
  destruct (contains_returns n r o) as [[] ->]; [done|by apply Ho; left| |]; simpl; [by eexists|].
  destruct IH as [[rest' f] ->]; [intros ??; apply Ho; by right|]. by eexists.
Qed.

Lemma compact_loop_returns n rules output :
  (∀ r, r ∈ rules → uniform_extra n r) → (∀ o, o ∈ output → uniform_extra n o) →
  ∃ out, compact_loop rules output = Ret out.
Proof.
  revert output. induction rules as [|r rules IH]; intros output Hr Ho; simpl; [by eexists|].
  destruct (compact_into_returns n r output) as [[output' f] E]; [by apply Hr; left|done|].
  rewrite E. simpl. apply compact_into_spec in E as (I1 & _).
  apply IH; [intros ??; apply Hr; by right|].
  intros o Hin. assert (o ∈ output' ∨ o = r) as [[?| ->]%I1| ->]; [|by auto|by apply Hr; left..].
  destruct f; [by left|]. apply elem_of_app in Hin as [?|?%list_elem_of_singleton]; auto.
Qed.

(** C13 [CompactRules] on rules whose extra levels are nil or equally many returns
    without a panic; what it returns are rules of the input, and every request
    matched by a rule before is still matched by a kept rule with the same
    result. *)
Theorem CompactRules_keeps_coverage (n : nat) (rules : list SRbacRule) :
  (∀ r, r ∈ rules → uniform_extra n r) →
  ∃ out, CompactRules rules = Ret out ∧ (∀ o, o ∈ out → o ∈ rules) ∧
    ∀ service resource action extra r, r ∈ rules → matches service resource action extra r →
      ∃ o, o ∈ out ∧ matches service resource action extra o ∧ Result o = Result r.
Proof.
  intros Hu. assert (∃ out, CompactRules rules = Ret out) as [out E].
  { destruct rules as [|r rules]; [by eexists|]. apply (compact_loop_returns n);
      intros x Hx; apply Hu; [by right|]. apply list_elem_of_singleton in Hx as ->. left. }
  exists out. apply CompactRules_spec in E as HE. destruct HE as [I1 I2].
  split_and!; [done|done|]. intros s re a ex r Hin Hm. destruct (I2 r Hin) as (o & ? & Hc).
  exists o. split_and!; [done|by eapply covers_matches|]. by destruct Hc as (_&_&_&_&?).
Qed.

Lemma CompactRules_keeps_coverage_witness :
  ∃ out, CompactRules [Rule "*" "*" "*" None "owner"; Rule "image" "*" "*" None "owner"] = Ret out ∧
    (∀ o, o ∈ out → o ∈ [Rule "*" "*" "*" None "owner"; Rule "image" "*" "*" None "owner"]).
Proof.
  destruct (CompactRules_keeps_coverage 0
    [Rule "*" "*" "*" None "owner"; Rule "image" "*" "*" None "owner"]) as (out & E & H & _).
  - intros r. rewrite !elem_of_cons, elem_of_nil. intros [-> | [-> | []]]; intros l H; discriminate H.
  - exists out. split; [exact E|exact H].
Defined.

(** ** Where compaction and containment go wrong *)

(** [contains] reads [rule2.Extra[i]] when [len(rule2.Extra) == i]: two rules
    whose extra levels differ in number by one panic, whichever comes first, and
    so does the decoding of a policy that holds them. *)
Theorem CompactRules_panics_on_shorter_extra :
  let deep := Rule "*" "servers" "perform" (Some ["start"; "force"]) OwnerAllow in
  let short := Rule "compute" "servers" "perform" (Some ["start"]) OwnerAllow in
  CompactRules [deep; short] = Panic ∧ CompactRules [short; deep] = Panic ∧
  ∀ render, Decode render (Policy "" false [] [] [])
    (JDict [("policy", JDict
      [("*", JDict [("servers", JDict [("perform", JDict
          [("start", JDict [("force", JString "allow")])])])]);
       ("compute", JDict [("servers", JDict [("perform", JDict [("start", JString "allow")])])])])])
    = Panic.
Proof. split_and!; [vm_compute; reflexivity..|]. intros render. reflexivity. Qed.

(** The decision for a request of the rules of a tree, after compaction. *)
Definition decide_tree (tree : json) (service resource action : string) : option string :=
  match decode_rules false tree with
  | Ret rules =>
    match CompactRules rules with
    | Ret out => match GetMatchRule (Policy "" false out [] []) service resource action [] with
                 | Ret o => Result <$> o
                 | _ => None
                 end
    | _ => None
    end
  | _ => None
  end.

(** The same policy tree gives different decisions for one request depending on
    the order in which [range] visits its keys: compaction may drop or keep a
    redundant rule, and with it the levels it matched. *)
Theorem CompactRules_decision_depends_on_order :
  let any := ("*", JDict [("*", JString "allow"); ("hosts", JString "deny")]) in
  let image := ("image", JString "allow") in
  let compute := ("compute", JString "allow") in
  [any; image; compute] ≡ₚ [image; compute; any] ∧
  decide_tree (JDict [any; image; compute]) "compute" "hosts" "list" = Some Deny ∧
  decide_tree (JDict [image; compute; any]) "compute" "hosts" "list" = Some OwnerAllow.
Proof.
  intros any image compute. split_and!; [|vm_compute; reflexivity..].
  apply (Permutation_app_comm [any] [image; compute]).
Qed.

End RbacMatch.
