(* ===== verification/RbacCodec.v ===== *)
(** * Decoding and encoding of access policies

    [decode] of pkg/util/rbacutils/rabc.go appends to shared slices.  This file
    compares it with the recursion on values, shows where the sharing corrupts
    rules, and proves the round trip of [Encode] and [decode] on rules. *)

From S2P Require Import Prelude Rbac RbacMatch.
Import Rbac RbacMatch.
Local Open Scope Z_scope.
Local Open Scope go_scope.

Module RbacCodec.

(** ** The value reading of [decode] *)

Definition set_level_value (level : nat) (key : string) (r : SRbacRule) : SRbacRule :=
  match level with
  | 0%nat => Rule key (Resource r) (Action r) (Extra r) (Result r)
  | 1%nat => Rule (Service r) key (Action r) (Extra r) (Result r)
  | 2%nat => Rule (Service r) (Resource r) key (Extra r) (Result r)
  | _ => Rule (Service r) (Resource r) (Action r) (Some (extra_of r ++ [key])) (Result r)
  end.

Fixpoint decode_value (isAdmin : bool) (rules : json) (decodeRule : SRbacRule) (level : nat)
  : outcome decode_error (list SRbacRule) :=
  match rules with
  | JString s =>
    match decode_result isAdmin s with
    | Some res => Ret [with_result decodeRule res]
    | None => Fail (UnsupportedRuleString s)
    end
  | JDict kv =>
    (fix range (kv : list (string * json)) :=
       match kv with
       | [] => Ret []
       | (key, ruleJson) :: kv =>
         let! decoded := decode_value isAdmin ruleJson (set_level_value level key decodeRule)
                           (S level) in
         let! more := range kv in Ret (decoded ++ more)
       end) kv
  | _ => Fail UnsupportedRuleData
  end.

(** Nesting of dictionaries. *)
Fixpoint depth (j : json) : nat :=
  match j with
  | JDict kv => S (foldr (λ p n, Nat.max (depth p.2) n) 0%nat kv)
  | _ => 0
  end.

Lemma json_ind_dict (P : json → Prop) :
  (∀ kv, Forall (λ p, P p.2) kv → P (JDict kv)) →
  (∀ j, (∀ kv, j ≠ JDict kv) → P j) → ∀ j, P j.
Proof.
  intros Hd Ho. fix IH 1. intros [| b | z | s | l | kv]; try (apply Ho; done).
  apply Hd. induction kv as [|[k v] kv IHkv]; constructor; [apply IH|exact IHkv].
Qed.

(** ** Slices that are never appended to in place *)

(** The rule under construction at [level]: its extra slice is full, except at the
    last level, where nothing is appended any more. *)
Definition rule_ok (level : nat) (r : rule_of slice) (h : heap) : Prop :=
  match Extra r with
  | None => (level ≤ 3)%nat
  | Some s => ∃ arr, h !! sl_ptr s = Some arr ∧ level = (3 + sl_len s)%nat ∧
      (sl_len s ≤ length arr)%nat ∧
      (sl_len s = 1 ∧ length arr = 1 ∨ sl_len s = 2 ∧ length arr = 2 ∨ 3 ≤ sl_len s)%nat
  end.

Definition rule_stored (h : heap) (r : rule_of slice) : Prop :=
  match Extra r with None => True | Some s => is_Some (h !! sl_ptr s) end.

Lemma rule_ok_stored level r h : rule_ok level r h → rule_stored h r.
Proof. unfold rule_ok, rule_stored. destruct (Extra r); [|done]. intros (?&?&_). eauto. Qed.

Lemma load_rule_grow h k r : rule_stored h r → load_rule (h ++ k) r = load_rule h r.
Proof.
  unfold rule_stored, load_rule, slice_value, backing. destruct (Extra r) as [s|]; [|done].
  intros [arr E]. simpl. by rewrite (lookup_app_l_Some _ _ _ _ E), E.
Qed.

Lemma rule_stored_grow h k r : rule_stored h r → rule_stored (h ++ k) r.
Proof.
  unfold rule_stored. destruct (Extra r) as [s|]; [|done]. intros [arr E].
  exists arr. by apply lookup_app_l_Some.
Qed.

Lemma rule_ok_grow level r h k : rule_ok level r h → rule_ok level r (h ++ k).
Proof.
  unfold rule_ok. destruct (Extra r) as [s|]; [|done]. intros (arr & E & H).
  exists arr. split; [by apply lookup_app_l_Some|done].
Qed.

Lemma lookup_snoc_new {A} (h : list A) x : (h ++ [x]) !! length h = Some x.
Proof. by apply list_lookup_middle. Qed.

Lemma set_level_ok level key r h h1 r1 :
  rule_ok level r h → (level ≤ 5)%nat → set_level level key r h = (h1, r1) →
  (∃ k, h1 = h ++ k) ∧ rule_ok (S level) r1 h1 ∧
  load_rule h1 r1 = set_level_value level key (load_rule h r).
Proof.
  intros Hok Hl H. unfold set_level, set_level_value, rule_ok in *.
  destruct (Extra r) as [s|] eqn:Ex.
  - destruct Hok as (arr & E & Hlev & Hlen & Hfull).
    destruct level as [|[|[|level]]]; try lia. simpl in H.
    unfold append_key, backing in H. rewrite E in H. simpl in H.
    destruct (Nat.ltb_spec (sl_len s) (length arr)) as [?|_]; [lia|]. simplify_eq.
    split_and!; [by eexists| |].
    + cbn [Extra]. eexists. split; [apply lookup_snoc_new|]. simpl.
      rewrite length_app, length_take. simpl. rewrite length_replicate. lia.
    + unfold load_rule, slice_value, backing, extra_of. simpl. rewrite Ex. simpl.
      rewrite lookup_snoc_new, E. simpl. do 2 f_equal.
      rewrite (cons_middle key), app_assoc, take_app_length'; [done|].
      rewrite length_app, length_take. simpl. lia.
  - destruct level as [|[|[|level]]]; simpl in H; simplify_eq; simpl;
      try (split_and!; [exists []; by rewrite app_nil_r|rewrite ?Ex; lia|];
           unfold load_rule; simpl; by rewrite ?Ex).
    split_and!; [by eexists| |].
    + eexists. split; [apply lookup_snoc_new|]. simpl. lia.
    + unfold load_rule, slice_value, backing, extra_of. simpl. rewrite Ex. simpl.
      by rewrite lookup_snoc_new.
Qed.

(** The relation between a run of [decode] on the heap and [decode_value]. *)
Definition decode_agrees (h : heap) (res : outcome decode_error (heap * list (rule_of slice)))
    (res_value : outcome decode_error (list SRbacRule)) : Prop :=
  match res with
  | Ret (h', rs) => (∃ k, h' = h ++ k) ∧ Forall (rule_stored h') rs ∧
      res_value = Ret (load_rule h' <$> rs)
  | Fail e => res_value = Fail e
  | _ => False
  end.

Lemma decode_agrees_value isAdmin rules r level h :
  (level + depth rules ≤ 6)%nat → rule_ok level r h →
  decode_agrees h (decode isAdmin rules r level h)
    (decode_value isAdmin rules (load_rule h r) level).
Proof.
  revert r level h. induction rules as [kv IH|j Hj] using json_ind_dict; intros r level h Hd Hok.
  2:{ destruct j; simpl; try done; [|by destruct (Hj kv)].
      destruct (decode_result isAdmin s); simpl; [|done].
      split_and!; [exists []; by rewrite app_nil_r| |done].
      constructor; [|done]. by apply (rule_ok_stored level). }
  cbn [decode decode_value].
  revert h Hd Hok. induction IH as [|[key v] kv Hv Hkv IHkv]; intros h Hd Hok.
  { simpl. split_and!; [exists []; by rewrite app_nil_r|done|done]. }
  simpl in Hd, Hv. destruct (set_level level key r h) as [h1 r1] eqn:Es.
  apply set_level_ok in Es as ([k1 ->] & Hok1 & Hload); [|done|lia].
  rewrite <- Hload. specialize (Hv r1 (S level) (h ++ k1)). unfold decode_agrees in Hv.
  destruct (decode isAdmin v r1 (S level) (h ++ k1)) as [[h2 ds]|e| |]; simpl; cycle 1.
  { by rewrite Hv by (done || lia). }
  { by destruct Hv; [lia|done]. }
  { by destruct Hv; [lia|done]. }
  destruct Hv as ([k2 ->] & Hst & ->); [lia|done|]. simpl.
  rewrite <- app_assoc in Hst |- *.
  specialize (IHkv (h ++ k1 ++ k2)). unfold decode_agrees in IHkv.
  rewrite load_rule_grow in IHkv by by eapply rule_ok_stored.
  revert IHkv.
  match goal with |- context [obind (?f kv (h ++ k1 ++ k2)) _] =>
    destruct (f kv (h ++ k1 ++ k2)) as [[h3 more]|e| |] end; intros IHkv; simpl.
  - destruct IHkv as ([k3 ->] & Hst' & ->); [simpl in *; lia|by apply rule_ok_grow|].
    split_and!; [exists (k1 ++ k2 ++ k3); by rewrite <- !app_assoc| |].
    + apply Forall_app. split; [|done]. eapply Forall_impl; [done|]. intros; by apply rule_stored_grow.
    + simpl. f_equal. rewrite fmap_app. f_equal. apply Forall_fmap_ext.
      eapply Forall_impl; [done|]. intros. symmetry. by apply load_rule_grow.
  - rewrite IHkv; [done|simpl in *; lia|by apply rule_ok_grow].
  - destruct IHkv; [simpl in *; lia|by apply rule_ok_grow].
  - destruct IHkv; [simpl in *; lia|by apply rule_ok_grow].
Qed.

Lemma decode_rules_value isAdmin rules :
  (depth rules ≤ 6)%nat → decode_rules isAdmin rules = decode_value isAdmin rules empty_rule 0.
Proof.
  intros Hd. pose proof (decode_agrees_value isAdmin rules empty_rule 0 []) as H.
  unfold decode_agrees, decode_rules in *.
  assert (rule_ok 0 empty_rule []) as Hok by (unfold rule_ok; simpl; lia).
  specialize (H ltac:(lia) Hok).
  change (load_rule [] empty_rule) with (@empty_rule (list string)) in H.
  destruct (decode isAdmin rules empty_rule 0 []) as [[h' rs]|e| |]; simpl in *; try done.
  by destruct H as (_ & _ & ->).
Qed.

(** ** Leaves of a rule tree *)

(** The path of a leaf with trailing wild levels dropped, as [trim_wild] does. *)
Definition cons_trim (k : string) (p : list string) : list string :=
  match p with [] => if isWildMatch k then [] else [k] | _ => k :: p end.

Fixpoint leaves (j : json) : list (list string * string) :=
  match j with
  | JString s => [([], s)]
  | JDict kv => flat_map (λ p, (λ l, (cons_trim p.1 l.1, l.2)) <$> leaves p.2) kv
  | _ => []
  end.

(** Trees of strings and dictionaries; no key occurs twice in a dictionary. *)
Inductive rule_tree : json → Prop :=
| tree_leaf s : rule_tree (JString s)
| tree_node kv : NoDup (kv.*1) → Forall (λ p, rule_tree p.2) kv → rule_tree (JDict kv).

Lemma trim_wild_cons k p : trim_wild (k :: p) = cons_trim k (trim_wild p).
Proof. simpl. by destruct (trim_wild p). Qed.

Lemma trim_wild_idem p : trim_wild (trim_wild p) = trim_wild p.
Proof.
  induction p as [|k p IH]; [done|]. rewrite trim_wild_cons. unfold cons_trim.
  destruct (trim_wild p) as [|x q] eqn:E; [|by rewrite trim_wild_cons, IH].
  destruct (isWildMatch k) eqn:Ek; [done|]. simpl. by rewrite Ek.
Qed.

Lemma trim_wild_app a b : trim_wild (a ++ trim_wild b) = trim_wild (a ++ b).
Proof.
  induction a as [|x a IH]; simpl app; [apply trim_wild_idem|]. by rewrite !trim_wild_cons, IH.
Qed.

Lemma trim_wild_blanks a n : trim_wild (a ++ replicate n "") = trim_wild a.
Proof.
  rewrite <- trim_wild_app. replace (trim_wild (replicate n "")) with (@nil string).
  - by rewrite app_nil_r.
  - induction n as [|n IH]; [done|]. simpl. by rewrite <- IH.
Qed.

Lemma leaves_app a b : leaves (JDict (a ++ b)) = leaves (JDict a) ++ leaves (JDict b).
Proof. apply flat_map_app. Qed.

Lemma leaves_cons k v b :
  leaves (JDict ((k, v) :: b)) = ((λ l, (cons_trim k l.1, l.2)) <$> leaves v) ++ leaves (JDict b).
Proof. done. Qed.

(** ** Dictionaries *)

Lemma dict_get_split k d v :
  dict_get k d = Some v →
  ∃ pre post, d = pre ++ (k, v) :: post ∧ ∀ v', dict_set k v' d = pre ++ (k, v') :: post.
Proof.
  induction d as [|[k' w] d IH]; simpl; [done|]. destruct (String.eqb_spec k k') as [<-|Hne].
  - intros [= ->]. by exists [], d.
  - intros (pre & post & -> & H)%IH. exists ((k', w) :: pre), post. split; [done|].
    intros v'. simpl. by rewrite H.
Qed.

Lemma dict_get_fresh k d :
  dict_get k d = None → (∀ v, dict_set k v d = d ++ [(k, v)]) ∧ k ∉ d.*1.
Proof.
  induction d as [|[k' w] d IH]; simpl; [intros _; split; [done|apply not_elem_of_nil]|].
  destruct (String.eqb_spec k k') as [<-|Hne]; [done|]. intros [H1 H2]%IH. split.
  - intros v. by rewrite H1.
  - by apply not_elem_of_cons.
Qed.

Lemma rule_tree_node_inv d : rule_tree (JDict d) → NoDup (d.*1) ∧ Forall (λ p, rule_tree p.2) d.
Proof. by inversion 1. Qed.

Lemma rule_tree_replace k v v' pre post :
  rule_tree (JDict (pre ++ (k, v) :: post)) → rule_tree v' →
  rule_tree (JDict (pre ++ (k, v') :: post)).
Proof.
  intros [Hn Hf]%rule_tree_node_inv Hv'. constructor.
  - by rewrite fmap_app, fmap_cons in *.
  - apply Forall_app in Hf as [? Hf]. apply Forall_cons in Hf as [_ ?].
    apply Forall_app. split; [done|]. by constructor.
Qed.

Lemma rule_tree_add k v d : rule_tree (JDict d) → k ∉ d.*1 → rule_tree v →
  rule_tree (JDict (d ++ [(k, v)])).
Proof.
  intros [Hn Hf]%rule_tree_node_inv Hk Hv. constructor.
  - rewrite fmap_app. apply NoDup_app. split_and!; [done| |apply NoDup_singleton].
    intros x Hx ->%list_elem_of_singleton. done.
  - apply Forall_app. split; [done|]. by constructor.
Qed.

Lemma rule_tree_child k v pre post :
  rule_tree (JDict (pre ++ (k, v) :: post)) → rule_tree v.
Proof.
  intros [_ Hf]%rule_tree_node_inv. by apply Forall_app in Hf as [_ [? _]%Forall_cons].
Qed.

(** Replacing the value of [k] by one with a further leaf adds that leaf. *)
Lemma leaves_replace k v v' q res pre post :
  leaves v' ≡ₚ (q, res) :: leaves v →
  leaves (JDict (pre ++ (k, v') :: post)) ≡ₚ
  (cons_trim k q, res) :: leaves (JDict (pre ++ (k, v) :: post)).
Proof.
  intros H. rewrite !leaves_app, !leaves_cons, H. simpl.
  by rewrite <- Permutation_middle.
Qed.

Lemma leaf_in_child k v pre post l :
  l ∈ leaves v → (cons_trim k l.1, l.2) ∈ leaves (JDict (pre ++ (k, v) :: post)).
Proof.
  intros Hl. rewrite leaves_app, leaves_cons. apply elem_of_app. right. apply elem_of_app. left.
  apply list_elem_of_fmap. by exists l.
Qed.

Lemma depth_app a b : depth (JDict (a ++ b)) = Nat.max (depth (JDict a)) (depth (JDict b)).
Proof.
  simpl. f_equal. induction a as [|p a IH]; simpl; [done|]. rewrite IH. lia.
Qed.

Lemma depth_cons k v b : depth (JDict ((k, v) :: b)) = Nat.max (S (depth v)) (depth (JDict b)).
Proof. simpl. lia. Qed.

Lemma depth_replace k v v' n pre post :
  (S (depth v') ≤ Nat.max n (S (depth v)))%nat →
  (depth (JDict (pre ++ (k, v') :: post)) ≤ Nat.max n (depth (JDict (pre ++ (k, v) :: post))))%nat.
Proof. rewrite !depth_app, !depth_cons. lia. Qed.

(** [add_wild] by the value of the wild key. *)
Lemma add_wild_dict kv res :
  add_wild (JDict kv) res =
  match dict_get WILD_MATCH kv with
  | None => Ret (JDict (kv ++ [(WILD_MATCH, JString res)]))
  | Some (JString _) => Fail Conflict
  | Some (JDict d) =>
    Ret (JDict (dict_set WILD_MATCH
      (match add_wild (JDict d) res with Ret v' => v' | _ => JDict d end) kv))
  | Some _ => Fail InvalidRules
  end.
Proof.
  cbn [add_wild]. induction kv as [|[k v] kv IH]; [done|]. cbn [dict_get dict_set].
  destruct (String.eqb_spec WILD_MATCH k) as [<-|Hne].
  { destruct v as [| | | | |d]; try done.
    cbn [add_wild]. match goal with |- context [obind (?f d) _] => by destruct (f d) end. }
  revert IH. match goal with |- context [obind (?f kv) _] => destruct (f kv) end;
    cbn [obind]; intros IH; destruct (dict_get WILD_MATCH kv) as [[]|]; try done;
    by injection IH as ->.
Qed.

Lemma add_wild_leaves res j :
  rule_tree j → (∃ kv, j = JDict kv) → (∀ l, l ∈ leaves j → l.1 ≠ []) →
  ∃ kv', add_wild j res = Ret (JDict kv') ∧ rule_tree (JDict kv') ∧
    leaves (JDict kv') ≡ₚ ([], res) :: leaves j ∧ (depth (JDict kv') ≤ depth j)%nat.
Proof.
  induction j as [kv IH|j Hj] using json_ind_dict; intros Ht Hd Hl.
  2:{ destruct Hd as [kv ->]. by destruct (Hj kv). }
  rewrite add_wild_dict. destruct (dict_get WILD_MATCH kv) as [v|] eqn:E.
  - apply dict_get_split in E as (pre & post & -> & Hset).
    pose proof (rule_tree_child _ _ _ _ Ht) as Hv.
    assert (∀ l, l ∈ leaves v → l.1 ≠ []) as Hl'.
    { intros l Hin Hnil. apply (Hl (cons_trim WILD_MATCH l.1, l.2)); [by apply leaf_in_child|].
      simpl. by rewrite Hnil. }
    inversion Hv as [s|d Hn Hf]; subst.
    { exfalso. apply (Hl' ([], s)); [left|done]. }
    apply Forall_app in IH as [_ [IH _]%Forall_cons]. cbn [snd] in IH.
    destruct IH as (d' & -> & Ht' & Hleaf & Hdep); [done|by eexists|done|].
    exists (pre ++ (WILD_MATCH, JDict d') :: post). rewrite Hset. split_and!; [done| | |].
    + by eapply rule_tree_replace.
    + by apply (leaves_replace WILD_MATCH (JDict d) (JDict d') []).
    + pose proof (depth_replace WILD_MATCH (JDict d) (JDict d') 0 pre post). lia.
  - apply dict_get_fresh in E as [_ Hk].
    exists (kv ++ [(WILD_MATCH, JString res)]). split_and!; [done| | |].
    + apply rule_tree_add; [done|done|constructor].
    + rewrite leaves_app. simpl. by rewrite <- Permutation_cons_append.
    + rewrite depth_app. simpl. lia.
Qed.

Lemma addRule2Json_step node k k2 ks res :
  addRule2Json node (k :: k2 :: ks) res =
  match dict_get k node with
  | None => let! next := addRule2Json [] (k2 :: ks) res in Ret (dict_set k (JDict next) node)
  | Some (JString e) =>
    let! next := addRule2Json [(WILD_MATCH, JString e)] (k2 :: ks) res in
    Ret (dict_set k (JDict next) node)
  | Some (JDict d) =>
    let! next := addRule2Json d (k2 :: ks) res in Ret (dict_set k (JDict next) node)
  | Some _ => Fail InvalidRules
  end.
Proof. reflexivity. Qed.

(** Adding a rule under a path that no leaf has yet. *)
Lemma addRule2Json_leaves res keys : keys ≠ [] → ∀ node,
  rule_tree (JDict node) → (∀ l, l ∈ leaves (JDict node) → l.1 ≠ trim_wild keys) →
  ∃ node', addRule2Json node keys res = Ret node' ∧ rule_tree (JDict node') ∧
    leaves (JDict node') ≡ₚ (trim_wild keys, res) :: leaves (JDict node) ∧
    (depth (JDict node') ≤ Nat.max (length keys) (depth (JDict node)))%nat.
Proof.
  induction keys as [|k ks IH]; [done|]. intros _ node Ht Hl.
  rewrite trim_wild_cons in *.
  destruct (dict_get k node) as [v|] eqn:E.
  - pose proof E as (pre & post & -> & Hset)%dict_get_split.
    pose proof (rule_tree_child _ _ _ _ Ht) as Hv.
    assert (∀ l, l ∈ leaves v → l.1 ≠ trim_wild ks) as Hl'.
    { intros l Hin Hnil. apply (Hl (cons_trim k l.1, l.2)); [by apply leaf_in_child|].
      simpl. by rewrite Hnil. }
    destruct ks as [|k2 ks].
    + cbn [addRule2Json]. rewrite E. inversion Hv as [s|d Hn Hf]; subst.
      { exfalso. apply (Hl' ([], s)); [left|done]. }
      destruct (add_wild_leaves res (JDict d)) as (d' & -> & Ht' & Hleaf & Hdep);
        [done|by eexists|done|].
      eexists. rewrite Hset. split_and!; [done| | |].
      * by eapply rule_tree_replace.
      * by apply (leaves_replace k (JDict d) (JDict d') []).
      * pose proof (depth_replace k (JDict d) (JDict d') 0 pre post). lia.
    + specialize (IH ltac:(done)). rewrite addRule2Json_step, E.
      inversion Hv as [s|d Hn Hf]; subst.
      * destruct (IH [(WILD_MATCH, JString s)]) as (next & -> & Ht' & Hleaf & Hdep).
        { constructor; [apply NoDup_singleton|]. repeat constructor. }
        { simpl. intros l ->%list_elem_of_singleton. apply (Hl' ([], s)). left. }
        eexists. cbn [obind]. rewrite Hset. split_and!; [done| | |].
        -- by eapply rule_tree_replace.
        -- by apply (leaves_replace k (JString s) (JDict next)).
        -- apply depth_replace. simpl in *. lia.
      * destruct (IH d) as (next & -> & Ht' & Hleaf & Hdep); [done|done|].
        eexists. cbn [obind]. rewrite Hset. split_and!; [done| | |].
        -- by eapply rule_tree_replace.
        -- by apply (leaves_replace k (JDict d) (JDict next)).
        -- apply depth_replace. simpl length in *. lia.
  - pose proof E as [Hset Hk]%dict_get_fresh. destruct ks as [|k2 ks].
    + cbn [addRule2Json]. rewrite E. eexists. rewrite Hset. split_and!; [done| | |].
      * apply rule_tree_add; [done|done|constructor].
      * rewrite leaves_app. symmetry. apply Permutation_cons_append.
      * rewrite depth_app. simpl. lia.
    + destruct (IH ltac:(done) []) as (next & Hadd & Ht' & Hleaf & Hdep).
      { constructor; [apply NoDup_nil_2|constructor]. }
      { simpl. intros l ?%elem_of_nil. done. }
      rewrite addRule2Json_step, E, Hadd. eexists. cbn [obind]. rewrite Hset.
      split_and!; [done| | |].
      * by apply rule_tree_add.
      * rewrite leaves_app, leaves_cons, Hleaf. simpl.
        by rewrite <- Permutation_cons_append.
      * rewrite depth_app, depth_cons. simpl in *. lia.
Qed.

(** ** Encoding a list of rules *)

Definition rule_path (r : SRbacRule) : list string :=
  trim_wild (Service r :: Resource r :: Action r :: extra_of r).

(** What encoding keeps of a rule: its path up to trailing wild levels, and its
    result. *)
Definition rule_entry (r : SRbacRule) : list string * string := (rule_path r, Result r).

Lemma toStringArray_path r : trim_wild (toStringArray r) = rule_path r.
Proof.
  unfold toStringArray, rule_path. rewrite !(trim_wild_cons (Service r)). by rewrite trim_wild_idem.
Qed.

Lemma trim_wild_length p : (length (trim_wild p) ≤ length p)%nat.
Proof.
  induction p as [|k p IH]; [done|]. rewrite trim_wild_cons. unfold cons_trim.
  destruct (trim_wild p); [case_match|]; simpl in *; lia.
Qed.

Lemma encode_rules_leaves rules : ∀ node n,
  rule_tree (JDict node) → NoDup ((leaves (JDict node)).*1 ++ (rule_path <$> rules)) →
  (∀ r, r ∈ rules → (length (extra_of r) ≤ n)%nat) → (depth (JDict node) ≤ 3 + n)%nat →
  ∃ node', encode_rules rules node = Ret node' ∧ rule_tree (JDict node') ∧
    leaves (JDict node') ≡ₚ leaves (JDict node) ++ (rule_entry <$> rules) ∧
    (depth (JDict node') ≤ 3 + n)%nat.
Proof.
  induction rules as [|r rules IH]; intros node n Ht Hnd Hex Hdep; cbn [encode_rules].
  { exists node. by rewrite app_nil_r. }
  destruct (addRule2Json_leaves (Result r) (toStringArray r)) with (node := node)
    as (node1 & -> & Ht1 & Hl1 & Hd1); [done|done| |].
  { rewrite toStringArray_path. intros l Hin Heq.
    apply NoDup_app in Hnd as (_ & Hdis & _). apply (Hdis l.1).
    - apply list_elem_of_fmap. by exists l.
    - rewrite Heq. left. }
  rewrite toStringArray_path in Hl1. cbn [obind].
  assert (length (toStringArray r) ≤ 3 + n)%nat as Hlen.
  { unfold toStringArray. simpl length. pose proof (trim_wild_length (Resource r :: Action r :: extra_of r)).
    specialize (Hex r ltac:(left)). simpl in *. lia. }
  destruct (IH node1 n) as (node' & -> & Ht' & Hl' & Hd'); [done| | |lia|].
  - rewrite Hl1. simpl. rewrite fmap_cons in Hnd. by rewrite <- Permutation_middle in Hnd.
  - intros x Hx. apply Hex. by right.
  - exists node'. split_and!; [done|done| |done]. rewrite Hl', Hl1. simpl.
    by rewrite Permutation_middle.
Qed.

(** ** Decoding gives the leaves back *)

(** The rule under construction after the levels [pre]. *)
Definition rule_at (pre : list string) (r : SRbacRule) : Prop :=
  Service r :: Resource r :: Action r :: extra_of r = pre ++ replicate (3 - length pre) "" ∧
  ((length pre ≤ 3)%nat → Extra r = None).

Lemma rule_at_path pre r : rule_at pre r → rule_path r = trim_wild pre.
Proof. intros [H _]. unfold rule_path. rewrite H. apply trim_wild_blanks. Qed.

Lemma rule_at_level pre r key :
  rule_at pre r → rule_at (pre ++ [key]) (set_level_value (length pre) key r).
Proof.
  unfold rule_at, set_level_value, extra_of. intros [H Hn].
  destruct pre as [|a [|b [|c pre]]]; simpl in *; try (rewrite Hn in * by lia); simpl in *;
    simplify_eq; try (split; [congruence|done]).
  match goal with E : default [] (Extra r) = _ |- _ => rewrite E end.
  rewrite !app_nil_r, length_app. simpl. split; [done|lia].
Qed.

Lemma decode_result_valid isAdmin s : valid_result s → decode_result isAdmin s = Some s.
Proof.
  unfold valid_result. rewrite !elem_of_cons, elem_of_nil. intros H. by destruct_or! H; subst.
Qed.

Lemma decode_value_leaves isAdmin j : ∀ pre r,
  rule_tree j → Forall (λ l, valid_result l.2) (leaves j) → rule_at pre r →
  ∃ rs, decode_value isAdmin j r (length pre) = Ret rs ∧
    rule_entry <$> rs = (λ l, (trim_wild (pre ++ l.1), l.2)) <$> leaves j.
Proof.
  induction j as [kv IH|j Hj] using json_ind_dict; intros pre r Ht Hv Hr.
  2:{ inversion Ht as [s|kv]; subst; [|by destruct (Hj kv)]. simpl in *.
      rewrite Forall_singleton in Hv. rewrite decode_result_valid by exact Hv.
      eexists. split; [done|]. unfold rule_entry. simpl. rewrite app_nil_r.
      by rewrite <- (rule_at_path pre r Hr). }
  apply rule_tree_node_inv in Ht as [_ Ht]. cbn [decode_value].
  induction kv as [|[k v] kv IHkv]; [exists []; by split|].
  apply Forall_cons in IH as [IHv IH], Ht as [Htv Ht]. rewrite leaves_cons in *.
  apply Forall_app in Hv as [Hvv Hv]. rewrite Forall_fmap in Hvv. cbn [snd] in *.
  destruct (IHv (pre ++ [k]) (set_level_value (length pre) k r)) as (rs & E & Hrs);
    [done|done|by apply rule_at_level|]. simpl in E.
  rewrite length_app, Nat.add_1_r in E. rewrite E. cbn [obind].
  destruct (IHkv IH Ht Hv) as (more & -> & Hmore). cbn [obind].
  eexists. split; [done|]. rewrite !fmap_app, Hmore, Hrs. f_equal.
  rewrite <- list_fmap_compose. apply list_fmap_ext. intros _ [p res] _. simpl.
  f_equal. rewrite <- app_assoc. simpl.
  rewrite <- (trim_wild_app pre (k :: p)), <- (trim_wild_app pre (cons_trim k p)). do 2 f_equal.
  unfold cons_trim. destruct p; [|done]. simpl. destruct (isWildMatch k) eqn:Ek; [done|].
  simpl. by rewrite Ek.
Qed.

(** ** Claims *)

(** On rule trees with at most three levels below the action, the slices
    [decode] appends to are never shared in a harmful way: it returns exactly what
    the recursion on values returns, errors included. *)
Theorem decode_rules_by_value (isAdmin : bool) (tree : json) :
  (depth tree ≤ 6)%nat → decode_rules isAdmin tree = decode_value isAdmin tree empty_rule 0.
Proof. apply decode_rules_value. Qed.

Lemma decode_rules_by_value_witness :
  let tree := JDict [("compute", JDict [("servers", JDict [("perform",
    JDict [("start", JString "allow"); ("stop", JString "deny")])])])] in
  decode_rules false tree = decode_value false tree empty_rule 0.
Proof. intros tree. apply (decode_rules_by_value false tree). apply Nat.leb_le. reflexivity. Defined.

(** With a fourth level below the action, [append] writes into the backing
    array the siblings share: the rule decoded for the first key carries the
    second key, so an [allow] moves to the resource that the policy denies. *)
Theorem decode_rules_alias_siblings :
  let tree := JDict [("compute", JDict [("servers", JDict [("perform",
    JDict [("a", JDict [("b", JDict [("c",
      JDict [("start", JString "allow"); ("stop", JString "deny")])])])])])])] in
  decode_value false tree empty_rule 0 =
    Ret [Rule "compute" "servers" "perform" (Some ["a"; "b"; "c"; "start"]) OwnerAllow;
         Rule "compute" "servers" "perform" (Some ["a"; "b"; "c"; "stop"]) Deny] ∧
  decode_rules false tree =
    Ret [Rule "compute" "servers" "perform" (Some ["a"; "b"; "c"; "stop"]) OwnerAllow;
         Rule "compute" "servers" "perform" (Some ["a"; "b"; "c"; "stop"]) Deny].
Proof. split; vm_compute; reflexivity. Qed.

(** C16 Round trip: rules with pairwise different paths, decoded results and at
    most three extra levels are encoded without a conflict, and decoding the tree
    gives back the same paths with the same results (trailing wild levels are not
    distinguished). *)
Theorem encode_decode_rules (isAdmin : bool) (rules : list SRbacRule) :
  NoDup (rule_path <$> rules) → (∀ r, r ∈ rules → valid_result (Result r)) →
  (∀ r, r ∈ rules → (length (extra_of r) ≤ 3)%nat) →
  ∃ node rules', encode_rules rules [] = Ret node ∧
    decode_rules isAdmin (JDict node) = Ret rules' ∧
    rule_entry <$> rules' ≡ₚ rule_entry <$> rules.
Proof.
  intros Hnd Hv Hex.
  destruct (encode_rules_leaves rules [] 3) as (node & E & Ht & Hl & Hd);
    [constructor; [apply NoDup_nil_2|constructor]|done|done|simpl; lia|].
  destruct (decode_value_leaves isAdmin (JDict node) [] empty_rule) as (rs & E2 & Hrs); [done| |done|].
  { apply Forall_forall. intros l. rewrite Hl. simpl.
    intros (r & -> & Hr)%list_elem_of_fmap. by apply Hv. }
  exists node, rs. split_and!; [done|by rewrite decode_rules_value|].
  rewrite Hrs, Hl. simpl. apply reflexive_eq. rewrite <- list_fmap_compose.
  apply list_fmap_ext. intros _ r _. cbn [compose rule_entry fst snd app].
  unfold rule_path. by rewrite trim_wild_idem.
Qed.

Lemma encode_decode_rules_witness :
  let rules := [Rule "compute" "*" "*" None OwnerAllow; Rule "compute" "hosts" "list" None Deny] in
  ∃ node rules', encode_rules rules [] = Ret node ∧
    decode_rules false (JDict node) = Ret rules' ∧ rule_entry <$> rules' ≡ₚ rule_entry <$> rules.
Proof.
  intros rules. apply (encode_decode_rules false rules).
  - apply (bool_decide_unpack _). reflexivity.
  - intros r. unfold rules. rewrite !elem_of_cons, elem_of_nil.
    intros [-> | [-> | []]]; unfold valid_result; apply (bool_decide_unpack _); reflexivity.
  - intros r. unfold rules. rewrite !elem_of_cons, elem_of_nil.
    intros [-> | [-> | []]]; apply Nat.leb_le; reflexivity.
Defined.

End RbacCodec.
