(* ===== verification/HashCache.v ===== *)
(** * The fixed-size cache: pkg/util/hashcache/cache.go

    A table of nodes probed with three hash functions.  The hash functions are
    parameters (the first four bytes of a digest), and the clock is an argument of
    every operation.  Instants are nanoseconds; the zero time is [0]. *)

From S2P Require Import Prelude.
Local Open Scope Z_scope.
Local Open Scope go_scope.

Module HashCache.

Section Cache.

(** [digest alg key]: the first four bytes of the MD5, SHA-1 or SHA-224 digest. *)
Context {V : Type} (digest : nat → string → Z * Z * Z * Z).

Record cacheNode := Node { key : string; expire : Z; value : option V }.

Record Cache := MkCache { table : list cacheNode; defaultTtl : Z }.

Definition zero_node : cacheNode := Node "" 0 None.

Definition NewCache (size : nat) (ttl : Z) : Cache := MkCache (replicate size zero_node) ttl.

(** [reset] only touches nodes with an expiry time. *)
Definition reset (n : cacheNode) : cacheNode := if expire n =? 0 then n else zero_node.

Definition bytes2int (b : Z * Z * Z * Z) : Z :=
  let '(b0, b1, b2, b3) := b in
  Z.lor (Z.lor (Z.lor (Z.shiftl b0 24) (Z.shiftl b1 16)) (Z.shiftl b2 8)) b3.

Definition checksum (alg : nat) (k : string) : Z := bytes2int (digest alg k).

Definition slot (c : Cache) (alg : nat) (k : string) : nat :=
  Z.to_nat (checksum alg k mod Z.of_nat (length (table c))).

(** The loop of [find] over the algorithms still to try; [idx] is the last index
    computed.  The division by the table size panics on an empty table. *)
Fixpoint find_loop (c : Cache) (now : Z) (k : string) (algs : list nat) (idx : nat)
  : outcome Empty_set (bool * nat) :=
  match algs with
  | [] => Ret (false, idx)
  | alg :: algs =>
    match table c with
    | [] => Panic
    | _ =>
      let idx := slot c alg k in
      let! n := of_opt (table c !! idx) in
      if String.eqb (key n) k
      then Ret ((expire n =? 0) || (now <? expire n), idx)
      else find_loop c now k algs idx
    end
  end.

Definition find (c : Cache) (now : Z) (k : string) : outcome Empty_set (bool * nat) :=
  find_loop c now k [0; 1; 2]%nat 0%nat.

Definition Get (c : Cache) (now : Z) (k : string) : outcome Empty_set (option V) :=
  let! (found, idx) := find c now k in
  if found then let! n := of_opt (table c !! idx) in Ret (value n) else Ret None.

(** The expiry [Set] stores: the one given, or the default if it is more than a
    millisecond, or none. *)
Definition set_expire (c : Cache) (now : Z) (exp : option Z) : Z :=
  match exp with
  | Some e => if e =? 0 then (if 1000000 <? defaultTtl c then now + defaultTtl c else 0) else e
  | None => if 1000000 <? defaultTtl c then now + defaultTtl c else 0
  end.

Definition Set_ (c : Cache) (now : Z) (k : string) (v : V) (exp : option Z)
  : outcome Empty_set Cache :=
  let! (found, idx) := find c now k in
  let! n := of_opt (table c !! idx) in
  let n' := Node (if found then key n else k) (set_expire c now exp) (Some v) in
  Ret (MkCache (<[idx := n']> (table c)) (defaultTtl c)).

(** The assignments of [Set]: the key of the slot first, its value and expiry
    afterwards. *)
Definition set_key (c : Cache) (now : Z) (k : string) : outcome Empty_set (Cache * nat) :=
  let! (found, idx) := find c now k in
  let! n := of_opt (table c !! idx) in
  Ret (MkCache (<[idx := Node (if found then key n else k) (expire n) (value n)]> (table c))
         (defaultTtl c), idx).

Definition set_value (c : Cache) (now : Z) (idx : nat) (v : V) (exp : option Z)
  : outcome Empty_set Cache :=
  let! n := of_opt (table c !! idx) in
  Ret (MkCache (<[idx := Node (key n) (set_expire c now exp) (Some v)]> (table c)) (defaultTtl c)).

Definition Invalidate (c : Cache) : Cache := MkCache (reset <$> table c) (defaultTtl c).

(** ** Every key lives in one slot *)

(** A node with a key is in the slot of the last hash function. *)
Definition placed (c : Cache) : Prop :=
  table c ≠ [] ∧
  ∀ i n, table c !! i = Some n → key n ≠ "" → i = slot c 2 (key n).

Lemma slot_lt c alg k : table c ≠ [] → (slot c alg k < length (table c))%nat.
Proof.
  intros H. unfold slot. assert (0 < length (table c))%nat by (destruct (table c); [done|simpl; lia]).
  pose proof (Z.mod_pos_bound (checksum alg k) (Z.of_nat (length (table c)))). lia.
Qed.

Lemma slot_table c c' alg k :
  length (table c) = length (table c') → slot c alg k = slot c' alg k.
Proof. unfold slot. by intros ->. Qed.

Lemma placed_NewCache size ttl : (0 < size)%nat → placed (NewCache size ttl).
Proof.
  intros H. split; [destruct size; [lia|done]|]. intros i n Hi Hk.
  apply lookup_replicate in Hi as [-> _]. done.
Qed.

(** Under [placed], the search looks at the node of the key's own slot. *)
Lemma Set_in_two_steps c now k v exp :
  Set_ c now k v exp = let! (c', idx) := set_key c now k in set_value c' now idx v exp.
Proof.
  unfold Set_, set_key. destruct (find c now k) as [[found idx]| | |]; cbn [obind]; [|done..].
  destruct (table c !! idx) as [n|] eqn:Hn; cbn [obind of_opt]; [|done].
  unfold set_value. cbn [table].
  rewrite list_lookup_insert_eq by (by eapply lookup_lt_Some). cbn [obind of_opt key].
  by rewrite list_insert_insert_eq.
Qed.

Lemma find_placed c now k : placed c → k ≠ "" →
  ∃ n, table c !! slot c 2 k = Some n ∧
    find c now k = Ret (bool_decide (key n = k) && ((expire n =? 0) || (now <? expire n)),
                        slot c 2 k).
Proof.
  intros [Hne Hp] Hk.
  destruct (lookup_lt_is_Some_2 (table c) (slot c 2 k)) as [n Hn]; [by apply slot_lt|].
  exists n. split; [done|]. unfold find.
  assert (∀ alg algs idx, (slot c alg k = slot c 2 k ∨ algs ≠ []) →
    (∀ idx', find_loop c now k algs idx' =
      match algs with [] => Ret (false, idx') | _ => Ret (bool_decide (key n = k) && ((expire n =? 0) || (now <? expire n)), slot c 2 k) end) →
    find_loop c now k (alg :: algs) idx =
      Ret (bool_decide (key n = k) && ((expire n =? 0) || (now <? expire n)), slot c 2 k)) as Hstep.
  { intros alg algs idx Hs Hrest.
    destruct (lookup_lt_is_Some_2 (table c) (slot c alg k)) as [m Hm]; [by apply slot_lt|].
    cbn [find_loop]. replace (match table c with [] => Panic | _ :: _ => _ end)
      with (let! n := of_opt (E := Empty_set) (table c !! slot c alg k) in
            if String.eqb (key n) k
            then Ret ((expire n =? 0) || (now <? expire n), slot c alg k)
            else find_loop c now k algs (slot c alg k)) by (by destruct (table c)).
    rewrite Hm. simpl. destruct (String.eqb_spec (key m) k) as [Hkm|Hkm].
    - assert (slot c alg k = slot c 2 k) as Es by (pose proof (Hp _ _ Hm) as Hx; rewrite Hkm in Hx; by apply Hx).
      rewrite Es in *. simplify_eq. rewrite bool_decide_true by done. done.
    - rewrite Hrest. destruct algs; [|done]. destruct Hs as [Hs|]; [|done].
      rewrite Hs in *. simplify_eq. by rewrite bool_decide_false. }
  apply Hstep; [by right|]. intros ?. apply Hstep; [by right|]. intros ?.
  apply Hstep; [by left|]. done.
Qed.

Lemma Set_placed c now k v exp : placed c → k ≠ "" →
  Set_ c now k v exp =
    Ret (MkCache (<[slot c 2 k := Node k (set_expire c now exp) (Some v)]> (table c))
           (defaultTtl c)).
Proof.
  intros Hp Hk. destruct (find_placed c now k Hp Hk) as (n & Hn & E).
  unfold Set_. rewrite E. simpl. rewrite Hn. simpl.
  destruct (decide (key n = k)) as [Ek|Ek].
  - rewrite bool_decide_true by done. rewrite Ek. simpl. by case_match.
  - by rewrite bool_decide_false by done.
Qed.

Lemma placed_insert c k e v : placed c → k ≠ "" →
  placed (MkCache (<[slot c 2 k := Node k e v]> (table c)) (defaultTtl c)).
Proof.
  intros [Hne Hp] Hk. split; simpl.
  { intros H. apply (f_equal length) in H. rewrite length_insert in H. by destruct (table c). }
  intros i n Hi Hkn.
  rewrite (slot_table _ c) by (simpl; by rewrite length_insert).
  apply list_lookup_insert_Some in Hi as [(<- & <- & _)|[_ Hi]]; [done|by apply Hp].
Qed.

Lemma placed_Invalidate c : placed c → placed (Invalidate c).
Proof.
  intros [Hne Hp]. split; simpl; [by destruct (table c)|].
  intros i n Hi Hkn. rewrite list_lookup_fmap in Hi.
  destruct (table c !! i) as [m|] eqn:Em; [|done]. simpl in Hi. simplify_eq.
  rewrite (slot_table _ c) by (simpl; by rewrite length_fmap).
  unfold reset in *. destruct (expire m =? 0); [by apply Hp|done].
Qed.

(** ** The cache as a partial record of the last stores *)

(** The operations of a run. *)
Inductive op :=
| OSet (now : Z) (k : string) (v : V) (exp : option Z)
| OInvalidate.

Definition apply_op (c : Cache) (o : op) : outcome Empty_set Cache :=
  match o with
  | OSet now k v exp => Set_ c now k v exp
  | OInvalidate => Ret (Invalidate c)
  end.

Fixpoint run (c : Cache) (ops : list op) : outcome Empty_set Cache :=
  match ops with [] => Ret c | o :: ops => let! c' := apply_op c o in run c' ops end.

Definition keyed (o : op) : Prop := match o with OSet _ k _ _ => k ≠ "" | OInvalidate => True end.

(** The specification: the last store of each key and its expiry, forgotten by an
    invalidation unless it never expires. *)
Definition spec_op (ttl : Z) (m : gmap string (V * Z)) (o : op) : gmap string (V * Z) :=
  match o with
  | OSet now k v exp => <[k := (v, set_expire (MkCache [] ttl) now exp)]> m
  | OInvalidate => filter (λ p, p.2.2 = 0) m
  end.

(** Every node holds what the specification records for its key. *)
Definition agrees (c : Cache) (m : gmap string (V * Z)) : Prop :=
  ∀ i n, table c !! i = Some n → key n ≠ "" →
    ∃ v, value n = Some v ∧ m !! key n = Some (v, expire n).

Lemma apply_op_agrees c m o :
  placed c → agrees c m → keyed o →
  ∃ c', apply_op c o = Ret c' ∧ placed c' ∧ agrees c' (spec_op (defaultTtl c) m o) ∧
    defaultTtl c' = defaultTtl c.
Proof.
  intros Hp Ha Hk. destruct o as [now k v exp|]; simpl in *.
  - rewrite Set_placed by done. eexists. split_and!; [done|by apply placed_insert| |done].
    intros i n Hi Hkn. simpl in Hi.
    apply list_lookup_insert_Some in Hi as [(<- & <- & _)|[Hne Hi]]; simpl.
    + exists v. split; [done|]. by rewrite lookup_insert_eq.
    + destruct (Ha i n Hi Hkn) as (w & ? & Hw). exists w. split; [done|].
      rewrite lookup_insert_ne; [done|]. intros ->. apply Hne. symmetry. by apply Hp.
  - eexists. split_and!; [done|by apply placed_Invalidate| |done].
    intros i n Hi Hkn. simpl in Hi. rewrite list_lookup_fmap in Hi.
    destruct (table c !! i) as [m'|] eqn:Em; [|done]. simpl in Hi. simplify_eq.
    unfold reset in *. destruct (Z.eqb_spec (expire m') 0); [|done].
    destruct (Ha i m' Em Hkn) as (w & ? & Hw). exists w. split; [done|].
    by apply map_lookup_filter_Some.
Qed.

Lemma run_agrees ops : ∀ c m,
  placed c → agrees c m → Forall keyed ops →
  ∃ c', run c ops = Ret c' ∧ placed c' ∧ agrees c' (foldl (spec_op (defaultTtl c)) m ops).
Proof.
  induction ops as [|o ops IH]; intros c m Hp Ha Hk; simpl; [by eexists|].
  apply Forall_cons in Hk as [Hk Hks].
  destruct (apply_op_agrees c m o) as (c' & -> & Hp' & Ha' & Httl); [done..|]. simpl.
  rewrite <- Httl in *. by apply IH.
Qed.

Lemma agrees_NewCache size ttl : agrees (NewCache size ttl) ∅.
Proof. intros i n Hi Hk. by apply lookup_replicate in Hi as [-> _]. Qed.

(** C23 Refinement: after any sequence of stores and invalidations on a new cache,
    [Get] returns nothing or the value that the last surviving store of that key
    wrote, and only before it expires: never the value of another key or an
    overwritten or invalidated one. *)
Theorem Get_returns_last_store (size : nat) (ttl : Z) (ops : list op) (now : Z) (k : string) :
  (0 < size)%nat → Forall keyed ops → k ≠ "" →
  ∃ c r, run (NewCache size ttl) ops = Ret c ∧ Get c now k = Ret r ∧
    (∀ v, r = Some v → ∃ e, foldl (spec_op ttl) ∅ ops !! k = Some (v, e) ∧ (e = 0 ∨ now < e)).
Proof.
  intros Hs Hops Hk.
  destruct (run_agrees ops (NewCache size ttl) ∅) as (c & E & Hp & Ha);
    [by apply placed_NewCache|apply agrees_NewCache|done|].
  destruct (find_placed c now k Hp Hk) as (n & Hn & Ef).
  exists c. unfold Get. rewrite Ef. simpl.
  destruct (bool_decide (key n = k) && _) eqn:Eb; [|exists None; done].
  apply andb_prop in Eb as [Ek%bool_decide_eq_true Et]. rewrite Hn. simpl.
  exists (value n). split_and!; [done|done|]. intros v Hv.
  destruct (Ha _ _ Hn) as (w & Hw & Hm); [by rewrite Ek|].
  exists (expire n). rewrite Hv in Hw. simplify_eq. split; [done|].
  apply orb_prop in Et as [?|?]; lia.
Qed.

(** A value just stored is found again until it expires. *)
Theorem Get_after_Set (c : Cache) (now now' : Z) (k : string) (v : V) (exp : option Z) :
  placed c → k ≠ "" → set_expire c now exp = 0 ∨ now' < set_expire c now exp →
  ∃ c', Set_ c now k v exp = Ret c' ∧ Get c' now' k = Ret (Some v).
Proof.
  intros Hp Hk He. rewrite Set_placed by done. eexists. split; [done|].
  pose proof (placed_insert c k (set_expire c now exp) (Some v) Hp Hk) as Hp'.
  destruct (find_placed _ now' k Hp' Hk) as (n & Hn & Ef). unfold Get. rewrite Ef. simpl.
  rewrite (slot_table _ c) in * by (simpl; by rewrite length_insert). simpl in Hn |- *.
  rewrite Hn. rewrite list_lookup_insert_eq in Hn by (apply slot_lt; apply Hp). simplify_eq.
  simpl. rewrite bool_decide_true by done. simpl.
  replace ((set_expire c now exp =? 0) || (now' <? set_expire c now exp)) with true; [done|].
  symmetry. apply orb_true_iff. lia.
Qed.

End Cache.

(** ** Concrete runs *)

(** A stand-in for the three digests. *)
Definition toy_digest (alg : nat) (k : string) : Z * Z * Z * Z :=
  (0, 0, 0, Z.of_nat (alg + String.length k)).

Lemma Get_returns_last_store_witness :
  ∃ c r, run toy_digest (NewCache 4 0) [OSet 1 "a" true None; OSet 2 "b" false None] = Ret c ∧
    Get toy_digest c 9 "a" = Ret r ∧
    (∀ v, r = Some v → ∃ e, foldl (spec_op 0) ∅ [OSet 1 "a" true None; OSet 2 "b" false None]
                              !! "a" = Some (v, e) ∧ (e = 0 ∨ 9 < e)).
Proof.
  apply (Get_returns_last_store toy_digest 4 0); [lia|repeat constructor; done|done].
Defined.

Lemma Get_after_Set_witness :
  ∃ c', Set_ toy_digest (NewCache 4 5000000) 10 "a" true None = Ret c' ∧
    Get toy_digest c' 11 "a" = Ret (Some true).
Proof.
  apply (Get_after_Set toy_digest (NewCache 4 5000000));
    [apply placed_NewCache; lia|done|right; vm_compute; done].
Defined.

End HashCache.
