(* ===== verification/Policy.v ===== *)
(** * The policy manager: pkg/cloudcommon/policy

    [SPolicyManager] (policy.go) keeps two maps of decoded policies, fetched from the
    identity service, a policy of default rules (defaults.go) and a cache of
    decisions.  A Go map is the list of its pairs in the order one [range] visits
    them; the theorems hold for every order.  The pages that the identity service
    returns, the digests of the cache and the rendering of JSON numbers are
    parameters. *)

From S2P Require Import Prelude Rbac RbacMatch HashCache.
Import Rbac RbacMatch.
Local Open Scope Z_scope.
Local Open Scope go_scope.

Module Policy.

(** ** Actions and the default rules (defaults.go) *)

Definition PolicyActionList : string := "list".
Definition PolicyActionGet : string := "get".
Definition PolicyActionUpdate : string := "update".
Definition PolicyActionPatch : string := "patch".
Definition PolicyActionCreate : string := "create".
Definition PolicyActionDelete : string := "delete".
Definition PolicyActionPerform : string := "perform".

Definition defaultRules : list SRbacRule :=
  [Rule "" "tasks" PolicyActionPerform None UserAllow;
   Rule "compute" "hosts" PolicyActionList None UserAllow;
   Rule "compute" "zones" PolicyActionList None UserAllow;
   Rule "compute" "zones" PolicyActionGet None UserAllow;
   Rule "compute" "metadatas" PolicyActionList None UserAllow;
   Rule "compute" "storages" PolicyActionList None UserAllow;
   Rule "compute" "storages" PolicyActionGet None UserAllow;
   Rule "compute" "schedtags" PolicyActionList None UserAllow;
   Rule "compute" "schedtags" PolicyActionGet None UserAllow;
   Rule "compute" "cloudregions" PolicyActionList None UserAllow;
   Rule "compute" "cloudregions" PolicyActionGet None UserAllow;
   Rule "compute" "cachedimages" PolicyActionList None UserAllow;
   Rule "compute" "cachedimages" PolicyActionGet None UserAllow;
   Rule "" "quotas" PolicyActionGet None OwnerAllow;
   Rule "" "usages" PolicyActionGet None OwnerAllow;
   Rule "compute" "serverskus" PolicyActionList None UserAllow;
   Rule "compute" "serverskus" PolicyActionGet None UserAllow;
   Rule "yunionagent" "notices" PolicyActionList None UserAllow;
   Rule "yunionagent" "readmarks" PolicyActionList None UserAllow;
   Rule "yunionagent" "readmarks" PolicyActionCreate None UserAllow;
   Rule "yunionconf" "parameters" PolicyActionGet None OwnerAllow;
   Rule "image" "images" PolicyActionList None OwnerAllow;
   Rule "image" "images" PolicyActionGet None OwnerAllow;
   Rule "image" "images" PolicyActionPerform (Some ["update-torrent-status"]) GuestAllow;
   Rule "log" "actions" PolicyActionList None OwnerAllow;
   Rule "log" "actions" PolicyActionGet None OwnerAllow].

(** ** Resources of the administrator (resources.go) *)

Definition computeAdminResources : list string :=
  ["hosts"; "zones"; "storages"; "wires"; "vpcs"; "networks"; "cloudregions"; "recyclebins";
   "schedtags"; "serverskus"; "cachedimages"; "cloudaccounts"; "dynamicschedtags";
   "baremetalagents"; "schedpolicies"; "isolated-devices"; "reservedips"; "dnsrecords"].
Definition notifyAdminResources : list string :=
  ["configs"; "contacts"].
Definition meterAdminResources : list string :=
  ["rates"; "res_results"].
Definition k8sAdminResources : list string :=
  ["kube_clusters"; "kube_nodes"].
Definition yunionagentAdminResources : list string :=
  ["notices"; "readmarks"; "infos"].
Definition yunionconfAdminResources : list string :=
  [].
Definition logAdminResources : list string :=
  [].
Definition identityAdminResources : list string :=
  ["users"; "groups"; "domains"; "projects"; "roles"; "policies"; "services"; "endpoints"].

Definition adminResources : list (string * list string) :=
  [("compute", computeAdminResources); ("notify", notifyAdminResources);
   ("meter", meterAdminResources); ("k8s", k8sAdminResources);
   ("yunionagent", yunionagentAdminResources); ("yunionconf", yunionconfAdminResources);
   ("log", logAdminResources); ("identity", identityAdminResources)].

Definition isAdminResource (service resource : string) : bool :=
  if String.eqb service "identity" then true
  else if String.eqb service "compute" then contains_str computeAdminResources resource
  else if String.eqb service "notify" then contains_str notifyAdminResources resource
  else if String.eqb service "k8s" then contains_str k8sAdminResources resource
  else if String.eqb service "meters" then contains_str meterAdminResources resource
  else if String.eqb service "yunionagent" then contains_str yunionagentAdminResources resource
  else if String.eqb service "log" then contains_str logAdminResources resource
  else false.

(** ** State *)

Abbreviation pmap := (list (string * SRbacPolicy)).

Record SPolicyManager := Manager {
  policies : option pmap;
  adminPolicies : option pmap;
  defaultPolicy : option SRbacPolicy;
  lastSync : Z;
  failedRetryInterval : Z;
  refreshInterval : Z;
  cache : option (HashCache.Cache (V := string)) }.

(** The manager of [init]. *)
Definition init_manager : SPolicyManager := Manager None None None 0 0 0 None.

Definition policies_of (manager : SPolicyManager) (isAdmin : bool) : option pmap :=
  if isAdmin then adminPolicies manager else policies manager.

(** [m[key] = value] on a Go map. *)
Fixpoint map_set (k : string) (v : SRbacPolicy) (m : pmap) : pmap :=
  match m with
  | [] => [(k, v)]
  | (k', v') :: m => if String.eqb k k' then (k, v) :: m else (k', v') :: map_set k v m
  end.

Fixpoint map_get (k : string) (m : pmap) : option SRbacPolicy :=
  match m with
  | [] => None
  | (k', v) :: m => if String.eqb k k' then Some v else map_get k m
  end.

(** ** Decisions *)

Definition unifyRbacResult (isAdmin : bool) (currentPriv : string) : string :=
  if isAdmin then
    if bool_decide (currentPriv ∈ [OwnerAllow; UserAllow; GuestAllow]) then AdminAllow
    else currentPriv
  else if String.eqb currentPriv AdminAllow then UserAllow else currentPriv.

Definition exportRbacResult (currentPriv : string) : string :=
  if String.eqb currentPriv AdminAllow || String.eqb currentPriv OwnerAllow then Allow
  else currentPriv.

Definition findPolicyByName (manager : SPolicyManager) (isAdmin : bool) (name : string)
  : option SRbacPolicy :=
  match policies_of manager isAdmin with
  | None => None
  | Some m => map_get name m
  end.

(** [if currentPriv.StricterThan(rule.Result) { currentPriv = rule.Result }]. *)
Definition relax (currentPriv : string) (rule : SRbacRule) : string :=
  if StricterThan currentPriv (Result rule) then Result rule else currentPriv.

(** The loop of [allowWithoutCache]: whether a policy and whether a rule matched, and
    the privilege so far. *)
Fixpoint allow_loop (ps : pmap) (userCred : option TokenCredential)
    (service resource action : string) (extra : list string) (acc : bool * bool * string)
  : outcome Empty_set (bool * bool * string) :=
  match ps with
  | [] => Ret acc
  | (_, p) :: ps =>
    if negb (Match p userCred) then allow_loop ps userCred service resource action extra acc
    else
      let '(_, findMatchRule, currentPriv) := acc in
      let! rule := GetMatchRule p service resource action extra in
      allow_loop ps userCred service resource action extra
        match rule with
        | None => (true, findMatchRule, currentPriv)
        | Some r => (true, true, relax currentPriv r)
        end
  end.

Definition allowWithoutCache (manager : SPolicyManager) (isAdmin : bool)
    (userCred : option TokenCredential) (service resource action : string)
    (extra : list string) : outcome Empty_set string :=
  match policies_of manager isAdmin with
  | None => Ret Deny
  | Some ps =>
    let! (findMatchPolicy, findMatchRule, currentPriv) :=
      allow_loop ps userCred service resource action extra (false, false, Deny) in
    let currentPriv :=
      if negb findMatchPolicy then Deny
      else if negb findMatchRule then (if isAdmin then AdminAllow else OwnerAllow)
      else currentPriv in
    let! currentPriv :=
      match defaultPolicy manager with
      | Some dp =>
        if isAdmin then Ret currentPriv
        else
          let! rule := GetMatchRule dp service resource action extra in
          Ret (match rule with Some r => relax currentPriv r | None => currentPriv end)
      | None => Ret currentPriv
      end in
    Ret (unifyRbacResult isAdmin currentPriv)
  end.

Definition wild_or (s : string) : string :=
  if String.eqb WILD_MATCH s || String.eqb s "" then WILD_MATCH else s.

Definition queryKey (isAdmin : bool) (userCred : TokenCredential)
    (service resource action : string) (extra : list string) : string :=
  join "-" ([if isAdmin then "true" else "false"; ProjectId userCred; DomainId userCred;
             UserId userCred; join ":" (merge_sort String.le (TokenRoles userCred));
             wild_or service; wild_or resource; wild_or action] ++ extra).

Section Digest.

Variable digest : nat → string → Z * Z * Z * Z.

(** The two calls of the cache in [Allow], each on the manager as it is at that
    moment: [Allow] holds no lock, and other calls and a synchronisation may come
    between them. *)
Definition allow_look (manager : SPolicyManager) (now : Z) (key : string)
  : outcome Empty_set (option string) :=
  let! c := of_opt (cache manager) in HashCache.Get digest c now key.

Definition allow_store (manager : SPolicyManager) (now : Z) (key result : string)
  : outcome Empty_set SPolicyManager :=
  let! c := of_opt (cache manager) in
  let! c' := HashCache.Set_ digest c now key result None in
  Ret (Manager (policies manager) (adminPolicies manager) (defaultPolicy manager)
         (lastSync manager) (failedRetryInterval manager) (refreshInterval manager) (Some c')).

(** [Allow] run without interruption: the decision and the manager with the cache it
    leaves; [now] is the time of the call.  The interleavings of its three steps are in
    PolicyCache. *)
Definition Allow (manager : SPolicyManager) (now : Z) (isAdmin : bool)
    (userCred : option TokenCredential) (service resource action : string)
    (extra : list string) : outcome Empty_set (SPolicyManager * string) :=
  match cache manager, userCred with
  | Some _, Some u =>
    let key := queryKey isAdmin u service resource action extra in
    let! val := allow_look manager now key in
    match val with
    | Some v => Ret (manager, v)
    | None =>
      let! result := allowWithoutCache manager isAdmin userCred service resource action extra in
      let! m := allow_store manager now key result in
      Ret (m, result)
    end
  | _, _ =>
    let! result := allowWithoutCache manager isAdmin userCred service resource action extra in
    Ret (manager, result)
  end.

End Digest.

(** ** Fetching policies *)

Section Fetch.

Variable render : json → string.

Inductive parse_error :=
| NoType
| NoBlob
| BadPolicy (e : policy_error).

(** [parseJsonPolicy]: the keys of the object are read with [GetString] and [Get],
    which fail on a missing key. *)
Definition parseJsonPolicy (obj : json) : outcome parse_error (string * SRbacPolicy) :=
  match Get obj "type" with
  | None => Fail NoType
  | Some ty =>
    match Get obj "policy" with
    | None => Fail NoBlob
    | Some blob =>
      match Decode render (Policy "" false [] [] []) blob with
      | Ret p => Ret (GetString render ty, p)
      | Fail e => Fail (BadPolicy e)
      | Panic => Panic
      | OutOfFuel => OutOfFuel
      end
    end
  end.

(** The loop over one page: an object that does not parse is skipped. *)
Fixpoint add_page {E} (data : list json) (ms : pmap * pmap) : outcome E (pmap * pmap) :=
  match data with
  | [] => Ret ms
  | obj :: data =>
    match parseJsonPolicy obj with
    | Ret (typeStr, policy) =>
      add_page data (if IsAdmin policy then (ms.1, map_set typeStr policy ms.2)
                     else (map_set typeStr policy ms.1, ms.2))
    | Fail _ => add_page data ms
    | Panic => Panic
    | OutOfFuel => OutOfFuel
    end
  end.

(** What the identity service answers to a request for 2048 policies from an offset:
    an error, or the page and the total number of policies. *)
Variable list_policies : Z → outcome unit (list json * Z).

Fixpoint fetch_loop (fuel : nat) (offset : Z) (ms : pmap * pmap) : outcome unit (pmap * pmap) :=
  match fuel with
  | O => OutOfFuel
  | S fuel =>
    let! (data, total) := list_policies offset in
    let! ms := add_page data ms in
    let offset := int64_wrap (offset + Z.of_nat (length data)) in
    if total <=? offset then Ret ms else fetch_loop fuel offset ms
  end.

Definition fetchPolicies (fuel : nat) : outcome unit (pmap * pmap) := fetch_loop fuel 0 ([], []).

(** The assignments of [SyncOnce] under the manager's lock, which the readers do not
    take, and the call of [Invalidate] that follows them.  The cache of a manager that
    was not started is nil, and its [Invalidate] panics. *)
Definition sync_install (manager : SPolicyManager) (now : Z) (policies adminPolicies : pmap)
  : SPolicyManager :=
  Manager (Some policies) (Some adminPolicies) (defaultPolicy manager) now
    (failedRetryInterval manager) (refreshInterval manager) (cache manager).

Definition sync_invalidate {E} (manager : SPolicyManager) : outcome E SPolicyManager :=
  let! c := of_opt (cache manager) in
  Ret (Manager (policies manager) (adminPolicies manager) (defaultPolicy manager)
         (lastSync manager) (failedRetryInterval manager) (refreshInterval manager)
         (Some (HashCache.Invalidate c))).

(** [SyncOnce]: the manager after a fetch, unchanged when the fetch fails. *)
Definition SyncOnce (fuel : nat) (manager : SPolicyManager) (now : Z)
  : outcome unit SPolicyManager :=
  let! (policies, adminPolicies) := fetchPolicies fuel in
  sync_invalidate (sync_install manager now policies adminPolicies).

(** [sync]: the manager after one attempt and the delay until the next one. *)
Definition sync (fuel : nat) (manager : SPolicyManager) (now : Z)
  : outcome Empty_set (SPolicyManager * Z) :=
  match SyncOnce fuel manager now with
  | Ret m => Ret (m, refreshInterval m)
  | Fail _ => Ret (manager, failedRetryInterval manager)
  | Panic => Panic
  | OutOfFuel => OutOfFuel
  end.

(** [start] up to its call of [sync].  Durations are nanoseconds; Go's division
    truncates toward zero. *)
Definition start_state (manager : SPolicyManager) (refresh retry : Z)
  : outcome Empty_set SPolicyManager :=
  let! dp := match defaultRules with
             | [] => Ret (defaultPolicy manager)
             | _ => let! rules := CompactRules defaultRules in
                    Ret (Some (Policy "" false rules [] []))
             end in
  Ret (Manager (policies manager) (adminPolicies manager) dp (lastSync manager) retry refresh
         (Some (HashCache.NewCache 2048 (Z.quot refresh 2)))).

Definition start (fuel : nat) (manager : SPolicyManager) (now refresh retry : Z)
  : outcome Empty_set (SPolicyManager * Z) :=
  let! m := start_state manager refresh retry in sync fuel m now.

(** ** Explaining decisions *)

(** [JSONObject.Bool] with its error dropped.  On a dictionary the method calls
    itself for ever, as [GetArray] does. *)
Definition json_bool {E} (j : json) : outcome E bool :=
  match j with
  | JBool b => Ret b
  | JString s =>
    let l := String.string_of_list_ascii (to_lower <$> String.list_ascii_of_string s) in
    Ret (bool_decide (l ∈ ["true"; "on"; "yes"; "1"]))
  | JDict _ => Panic
  | _ => Ret false
  end.

Inductive explain_error := InputParameter | Forbidden | NotFound (name : string).

(** What [explainPolicyInternal] returns: the scope, the request, the result and an
    error. *)
Record explained := Explained {
  ex_admin : bool;
  ex_request : list string;
  ex_result : string;
  ex_error : option explain_error }.

(** The parts of the request from the array. *)
Definition request_part (policySeq : list json) (i : nat) : string :=
  match policySeq !! i with Some j => GetString render j | None => WILD_MATCH end.

Definition explainPolicyInternal (rbac : bool) (manager : SPolicyManager)
    (userCred : option TokenCredential) (policyReq : json) (name : string)
  : outcome Empty_set explained :=
  match GetArray policyReq with
  | Fail _ => Ret (Explained false [] Deny (Some InputParameter))
  | Panic => Panic
  | OutOfFuel => OutOfFuel
  | Ret policySeq =>
    let service := request_part policySeq 1 in
    let resource := request_part policySeq 2 in
    let action := request_part policySeq 3 in
    let extra := GetString render <$> drop 4 policySeq in
    let reqStrs := [service; resource; action] ++ extra in
    let! first := of_opt (policySeq !! 0%nat) in
    let! isAdmin := json_bool first in
    if negb rbac then
      if negb isAdmin then Ret (Explained isAdmin reqStrs OwnerAllow None)
      else let! u := of_opt userCred in
           if SystemAdmin u then Ret (Explained isAdmin reqStrs AdminAllow None)
           else Ret (Explained isAdmin reqStrs Deny (Some Forbidden))
    else if String.eqb name "" then
      let! r := allowWithoutCache manager isAdmin userCred service resource action extra in
      Ret (Explained isAdmin reqStrs r None)
    else
      match findPolicyByName manager isAdmin name with
      | None => Ret (Explained isAdmin reqStrs Deny (Some (NotFound name)))
      | Some policy =>
        let! rule := GetMatchRule policy service resource action extra in
        let result := match rule with Some r => Result r | None => Deny end in
        Ret (Explained isAdmin reqStrs (unifyRbacResult isAdmin result) None)
      end
  end.

Definition explainPolicy (rbac : bool) (manager : SPolicyManager)
    (userCred : option TokenCredential) (policyReq : json) (name : string)
  : outcome Empty_set (list string * string * option explain_error) :=
  let! e := explainPolicyInternal rbac manager userCred policyReq name in
  let! adminRes :=
    if ex_admin e then Ret false
    else let! r0 := of_opt (ex_request e !! 0%nat) in
         let! r1 := of_opt (ex_request e !! 1%nat) in
         Ret (isAdminResource r0 r1) in
  let result := if adminRes && String.eqb (ex_result e) OwnerAllow then Deny else ex_result e in
  Ret (ex_request e, exportRbacResult result, ex_error e).

Fixpoint explain_loop (rbac : bool) (manager : SPolicyManager)
    (userCred : option TokenCredential) (params : list (string * json)) (name : string)
    (ret : dict) : outcome explain_error dict :=
  match params with
  | [] => Ret ret
  | (key, policyReq) :: params =>
    match explainPolicy rbac manager userCred policyReq name with
    | Ret (reqStrs, result, None) =>
      explain_loop rbac manager userCred params name
        (dict_set key (JArray (JString <$> (reqStrs ++ [result]))) ret)
    | Ret (_, _, Some e) => Fail e
    | Panic => Panic
    | OutOfFuel => OutOfFuel
    | Fail e => match e with end
    end
  end.

Definition ExplainRpc (rbac : bool) (manager : SPolicyManager)
    (userCred : option TokenCredential) (params : json) (name : string)
  : outcome explain_error json :=
  match params with
  | JDict kv =>
    let! ret := explain_loop rbac manager userCred kv name [] in Ret (JDict ret)
  | _ => Fail InputParameter
  end.

End Fetch.

(** ** Users *)

(** Ranging over a nil map does nothing. *)
Definition IsAdminCapable (rbac : bool) (manager : SPolicyManager)
    (userCred : option TokenCredential) : outcome Empty_set bool :=
  let! shortcut := if negb rbac then let! u := of_opt userCred in Ret (SystemAdmin u)
                   else Ret false in
  if shortcut then Ret true
  else Ret (existsb (λ kp, Match kp.2 userCred) (default [] (adminPolicies manager))).

Definition MatchedPolicies (manager : SPolicyManager) (isAdmin : bool)
    (userCred : option TokenCredential) : list string :=
  (filter (λ kp, Match kp.2 userCred = true) (default [] (policies_of manager isAdmin))).*1.

(** token.go: a token whose privileges the policies decide. *)
Definition HasSystemAdminPrivilege (rbac : bool) (manager : SPolicyManager)
    (token : TokenCredential) : outcome Empty_set bool :=
  if rbac then IsAdminCapable rbac manager (Some token) else Ret (SystemAdmin token).

Definition IsAdminAllow (digest : nat → string → Z * Z * Z * Z) (rbac : bool)
    (manager : SPolicyManager) (now : Z) (token : TokenCredential) (token_allows : bool)
    (service resource action : string) (extra : list string)
  : outcome Empty_set (SPolicyManager * bool) :=
  if rbac then
    let! (m, result) := Allow digest manager now true (Some token) service resource action extra in
    Ret (m, String.eqb result AdminAllow)
  else Ret (manager, token_allows).

End Policy.
