(* ===== verification/PolicyDecision.v ===== *)
(** * The decisions of the policy manager: proofs about pkg/cloudcommon/policy

    What [allowWithoutCache] decides in the admin and in the user scope, and that the
    order in which the policy maps are visited does not matter. *)

From S2P Require Import Prelude Rbac RbacMatch HashCache Policy.
Import Rbac RbacMatch Policy.
Local Open Scope Z_scope.
Local Open Scope go_scope.

Module PolicyDecision.

(** ** The most permissive result *)

Definition relax_result (cur res : string) : string :=
  if StricterThan cur res then res else cur.

Lemma strictness_nonneg r : 0 ≤ strictness r.
Proof. unfold strictness. repeat case_go; lia. Qed.

Lemma strictness_pos_inj a b : strictness a = strictness b → 0 < strictness a → a = b.
Proof.
  unfold strictness.
  repeat match goal with |- context [String.eqb ?x ?y] => destruct (String.eqb_spec x y) end;
    subst; try done; lia.
Qed.

Lemma strictness_pos r : 0 < strictness r → r ∈ [AdminAllow; OwnerAllow; UserAllow; GuestAllow].
Proof.
  unfold strictness.
  repeat match goal with |- context [String.eqb ?x ?y] => destruct (String.eqb_spec x y) end;
    subst; intros; try lia; set_solver.
Qed.

Lemma relax_result_comm c a b :
  relax_result (relax_result c a) b = relax_result (relax_result c b) a.
Proof.
  unfold relax_result, StricterThan.
  pose proof (strictness_nonneg c).
  destruct (Z.ltb_spec (strictness c) (strictness a)),
    (Z.ltb_spec (strictness c) (strictness b)),
    (Z.ltb_spec (strictness a) (strictness b)),
    (Z.ltb_spec (strictness b) (strictness a));
    repeat match goal with |- context [?x <? ?y] => destruct (Z.ltb_spec x y) end;
    try done; try lia. apply strictness_pos_inj; lia.
Qed.

Definition most_permissive (cur : string) (l : list string) : string := foldl relax_result cur l.

Lemma most_permissive_perm cur l1 l2 : l1 ≡ₚ l2 → most_permissive cur l1 = most_permissive cur l2.
Proof.
  intros Hp. revert cur. unfold most_permissive.
  induction Hp as [| |? ? ?|? ? ? ? IH1 ? IH2]; intros cur; simpl; [done|auto| |].
  - by rewrite relax_result_comm.
  - by rewrite IH1.
Qed.

(** The result is one of the list or the start, and no member is more permissive. *)
Lemma most_permissive_spec cur l :
  (most_permissive cur l = cur ∨ (most_permissive cur l ∈ l ∧ 0 < strictness (most_permissive cur l))) ∧
  strictness cur ≤ strictness (most_permissive cur l) ∧
  ∀ x, x ∈ l → strictness x ≤ strictness (most_permissive cur l).
Proof.
  revert cur. induction l as [|a l IH]; intros cur; simpl.
  { split_and!; [by left|done|by intros x ?%elem_of_nil]. }
  destruct (IH (relax_result cur a)) as (H1 & H2 & H3). pose proof (strictness_nonneg cur).
  assert (strictness cur ≤ strictness (relax_result cur a) ∧
          strictness a ≤ strictness (relax_result cur a)) as [? ?].
  { unfold relax_result, StricterThan. destruct (Z.ltb_spec (strictness cur) (strictness a)); lia. }
  split_and!.
  - destruct H1 as [H1|[? ?]]; [|right; split; [by right|done]].
    rewrite H1. unfold relax_result, StricterThan in *.
    destruct (Z.ltb_spec (strictness cur) (strictness a)); [right|by left].
    split; [by left|lia].
  - lia.
  - intros x [->|?]%elem_of_cons; [lia|by apply H3].
Qed.

Section Request.

Context (userCred : option TokenCredential) (service resource action : string)
  (extra : list string).

(** The result of the rule a policy prefers for the request. *)
Definition rule_result (p : SRbacPolicy) : option string :=
  match GetMatchRule p service resource action extra with
  | Ret (Some r) => Some (Result r)
  | _ => None
  end.

(** The policies that apply to the user, and what they grant. *)
Definition applicable (ps : pmap) : list SRbacPolicy :=
  filter (λ p, Match p userCred = true) ps.*2.
Definition granted (ps : pmap) : list string := omap rule_result (applicable ps).

Lemma GetMatchRule_result p :
  ∃ o, GetMatchRule p service resource action extra = Ret o ∧ rule_result p = Result <$> o.
Proof.
  destruct (GetMatchRule_spec service resource action extra p) as (o & E & _).
  exists o. unfold rule_result. rewrite E. by destruct o.
Qed.

Lemma allow_loop_eq ps fp fr cur :
  allow_loop ps userCred service resource action extra (fp, fr, cur) =
    Ret (fp || negb (bool_decide (applicable ps = [])),
         fr || negb (bool_decide (granted ps = [])), most_permissive cur (granted ps)).
Proof.
  revert fp fr cur. unfold granted, applicable.
  induction ps as [|[k p] ps IH]; intros fp fr cur; cbn [allow_loop].
  { simpl. by rewrite !orb_false_r. }
  rewrite fmap_cons. cbn [snd]. rewrite filter_cons.
  destruct (Match p userCred) eqn:Em; cbn [negb]; case_decide; try done.
  destruct (GetMatchRule_result p) as (o & Eo & Er). rewrite Eo. simpl. rewrite Er.
  destruct o as [r|]; simpl; rewrite IH; simpl; by rewrite ?orb_true_r.
Qed.

(** The privilege before scopes are unified. *)
Definition privilege (manager : SPolicyManager) (isAdmin : bool) (ps : pmap) : string :=
  let cur := if bool_decide (applicable ps = []) then Deny
             else if bool_decide (granted ps = []) then (if isAdmin then AdminAllow else OwnerAllow)
             else most_permissive Deny (granted ps) in
  match defaultPolicy manager with
  | Some dp => if isAdmin then cur else most_permissive cur (option_list (rule_result dp))
  | None => cur
  end.

Lemma allowWithoutCache_eq manager isAdmin :
  allowWithoutCache manager isAdmin userCred service resource action extra =
    Ret match policies_of manager isAdmin with
        | None => Deny
        | Some ps => unifyRbacResult isAdmin (privilege manager isAdmin ps)
        end.
Proof.
  unfold allowWithoutCache. destruct (policies_of manager isAdmin) as [ps|]; [|done].
  rewrite allow_loop_eq. cbn [obind orb]. unfold privilege.
  rewrite !negb_involutive.
  destruct (defaultPolicy manager) as [dp|]; [|done]. destruct isAdmin; [done|].
  destruct (GetMatchRule_result dp) as (o & -> & ->). by destruct o.
Qed.

Lemma privilege_perm manager isAdmin ps1 ps2 :
  ps1 ≡ₚ ps2 → privilege manager isAdmin ps1 = privilege manager isAdmin ps2.
Proof.
  intros Hp. unfold privilege.
  assert (applicable ps1 ≡ₚ applicable ps2) as Ha by (unfold applicable; by rewrite Hp).
  assert (granted ps1 ≡ₚ granted ps2) as Hg by (unfold granted; by rewrite Ha).
  rewrite (most_permissive_perm _ _ _ Hg).
  replace (bool_decide (applicable ps1 = [])) with (bool_decide (applicable ps2 = [])).
  2:{ apply bool_decide_ext. split; intros E; rewrite E in Ha.
      - by apply Permutation_nil_r. - symmetry in Ha; by apply Permutation_nil_r. }
  replace (bool_decide (granted ps1 = [])) with (bool_decide (granted ps2 = [])); [done|].
  apply bool_decide_ext. split; intros E; rewrite E in Hg.
  - by apply Permutation_nil_r. - symmetry in Hg; by apply Permutation_nil_r.
Qed.

End Request.

(** The decision is the same for every order in which Go ranges over the policy
    maps. *)
Theorem allow_order_independent (m1 m2 : SPolicyManager) (isAdmin : bool)
    (userCred : option TokenCredential) (service resource action : string) (extra : list string) :
  option_Forall2 Permutation (policies_of m1 isAdmin) (policies_of m2 isAdmin) →
  defaultPolicy m1 = defaultPolicy m2 →
  allowWithoutCache m1 isAdmin userCred service resource action extra =
  allowWithoutCache m2 isAdmin userCred service resource action extra.
Proof.
  intros Hp Hd. rewrite !allowWithoutCache_eq.
  destruct Hp as [ps1 ps2 Hp|]; [|done].
  rewrite (privilege_perm _ _ _ _ _ _ _ _ _ Hp). unfold privilege. by rewrite Hd.
Qed.

Definition reader_policy : SRbacPolicy :=
  Policy "" false [Rule "compute" "*" "list" None OwnerAllow] [] ["reader"].
Definition closed_policy : SRbacPolicy :=
  Policy "" false [Rule "compute" "servers" "*" None Deny] ["p"] [].
Definition alice : TokenCredential := Token "p" "pid" "did" "uid" ["reader"] false.

Lemma allow_order_independent_witness :
  let m ps := Manager (Some ps) None None 0 0 0 None in
  allowWithoutCache (m [("r", reader_policy); ("c", closed_policy)]) false (Some alice)
    "compute" "servers" "list" [] =
  allowWithoutCache (m [("c", closed_policy); ("r", reader_policy)]) false (Some alice)
    "compute" "servers" "list" [].
Proof.
  intros m. apply (allow_order_independent (m _) (m _)); [|done].
  constructor. apply perm_swap.
Defined.

Lemma privilege_admin u s r a ex m ps :
  let d := privilege u s r a ex m true ps in
  (applicable u ps ≠ [] ∧
   (granted u s r a ex ps = [] ∨ ∃ x, x ∈ granted u s r a ex ps ∧ 0 < strictness x) ∧
   0 < strictness d)
  ∨ ((applicable u ps = [] ∨
      granted u s r a ex ps ≠ [] ∧ ∀ x, x ∈ granted u s r a ex ps → strictness x ≤ 0) ∧ d = Deny).
Proof.
  unfold privilege.
  replace (match defaultPolicy m with Some _ => _ | None => _ end) with
    (if bool_decide (applicable u ps = []) then Deny
     else if bool_decide (granted u s r a ex ps = []) then AdminAllow
          else most_permissive Deny (granted u s r a ex ps)) by (by destruct (defaultPolicy m)).
  case_bool_decide as Ha; [by right; auto|].
  case_bool_decide as Hg; [left; split_and!; [done|by left|done]|].
  destruct (most_permissive_spec Deny (granted u s r a ex ps)) as ([H1|[H1 H1']] & H2 & H3).
  - right. rewrite H1 in *. split; [|done]. right. split; [done|]. exact H3.
  - left. split_and!; [done| |done]. right. by eexists.
Qed.

Lemma unify_admin d : 0 < strictness d → unifyRbacResult true d = AdminAllow.
Proof.
  intros H%strictness_pos. rewrite !elem_of_cons, elem_of_nil in H.
  by destruct_or!; subst.
Qed.

(** C10 The administrator scope answers [admin] or [deny] only, and [admin] exactly when
    some administrator policy applies to the user and either no applicable policy
    has a rule for the request or one of them prefers a rule that is not a denial. *)
Theorem allow_admin_iff (manager : SPolicyManager) (userCred : option TokenCredential)
    (service resource action : string) (extra : list string) :
  ∃ res, allowWithoutCache manager true userCred service resource action extra = Ret res ∧
    (res = AdminAllow ∨ res = Deny) ∧
    (res = AdminAllow ↔ ∃ ps, adminPolicies manager = Some ps ∧ applicable userCred ps ≠ [] ∧
       (granted userCred service resource action extra ps = [] ∨
        ∃ x, x ∈ granted userCred service resource action extra ps ∧ 0 < strictness x)).
Proof.
  rewrite allowWithoutCache_eq. eexists. split; [done|]. unfold policies_of.
  destruct (adminPolicies manager) as [ps|]; [|split; [by right|naive_solver]].
  destruct (privilege_admin userCred service resource action extra manager ps)
    as [(Ha & Hg & Hd)|[Hn ->]].
  - rewrite unify_admin by done. split; [by left|]. split; [|done]. intros _. by exists ps.
  - split; [by right|]. split; [done|]. intros (ps' & ? & Ha & Hx). simplify_eq. exfalso.
    destruct Hn as [|[? Hn]]; [done|]. destruct Hx as [|(x & Hx & Hp)]; [done|].
    specialize (Hn x Hx). lia.
Qed.

Lemma most_permissive_valid cur l :
  cur ∈ [Deny; AdminAllow; OwnerAllow; UserAllow; GuestAllow] →
  most_permissive cur l ∈ [Deny; AdminAllow; OwnerAllow; UserAllow; GuestAllow].
Proof.
  intros Hc. destruct (most_permissive_spec cur l) as ([->|[_ H]] & _); [done|].
  right. by apply strictness_pos.
Qed.

Lemma privilege_user u s r a ex m ps :
  let d := privilege u s r a ex m false ps in
  d ∈ [Deny; AdminAllow; OwnerAllow; UserAllow; GuestAllow] ∧
  (∀ x, x ∈ granted u s r a ex ps → strictness x ≤ strictness d) ∧
  (∀ dp x, defaultPolicy m = Some dp → rule_result s r a ex dp = Some x →
     strictness x ≤ strictness d) ∧
  (applicable u ps = [] → (defaultPolicy m ≫= rule_result s r a ex) = None → d = Deny).
Proof.
  unfold privilege.
  set (cur := if bool_decide (applicable u ps = []) then Deny else _).
  assert (cur ∈ [Deny; AdminAllow; OwnerAllow; UserAllow; GuestAllow] ∧
    (∀ x, x ∈ granted u s r a ex ps → strictness x ≤ strictness cur) ∧
    (applicable u ps = [] → cur = Deny)) as (Hv & Hg & Hn).
  { subst cur. case_bool_decide as Ha.
    { split_and!; [by left| |done]. unfold granted. rewrite Ha. by intros x ?%elem_of_nil. }
    case_bool_decide as Hg; [rewrite Hg; split_and!; [set_solver| |done]; by intros x ?%elem_of_nil|].
    split_and!; [apply most_permissive_valid; by left|apply most_permissive_spec|done]. }
  destruct (defaultPolicy m) as [dp|]; simpl; [|split_and!; naive_solver].
  destruct (most_permissive_spec cur (option_list (rule_result s r a ex dp))) as (_ & H2 & H3).
  split_and!.
  - by apply most_permissive_valid.
  - intros x Hx. specialize (Hg x Hx). lia.
  - intros ? x [= <-] Hx. apply H3. rewrite Hx. by left.
  - intros Ha ->. by rewrite Hn.
Qed.



End PolicyDecision.
