(* ===== verification/PolicyCache.v ===== *)
(** * Cached decisions, fetching and explaining: proofs about pkg/cloudcommon/policy

    [Allow] answers from the cache under a key that joins the parts of the request.
    Requests whose parts do not contain the separators are told apart by their keys,
    and a run of requests and synchronisations never sees a decision of policies that
    have been replaced. *)

From S2P Require Import Prelude Rbac RbacMatch HashCache Policy PolicyDecision.
Import Rbac RbacMatch Policy PolicyDecision.
Local Open Scope Z_scope.
Local Open Scope go_scope.

Module PolicyCache.

(** ** Keys determine decisions *)

Lemma match_level_wild f s w acc : match_level f (wild_or s) w acc = match_level f s w acc.
Proof.
  unfold match_level. destruct (isWildMatch f) eqn:E; [done|].
  unfold wild_or. destruct (String.eqb WILD_MATCH s || String.eqb s "") eqn:E2; [|done].
  apply orb_false_iff in E as [E0 E1]. rewrite E1.
  by apply orb_true_iff in E2 as [<-%String.eqb_eq| ->%String.eqb_eq]; rewrite ?E0, ?E1.
Qed.

Lemma pick_rule_ext rules s s' re re' a a' ex c w cur :
  (∀ r, match_rule r s re a ex = match_rule r s' re' a' ex) →
  pick_rule rules s re a ex c w cur = pick_rule rules s' re' a' ex c w cur.
Proof.
  intros H. revert c w cur. induction rules as [|r rules IH]; intros c w cur; [done|].
  cbn [pick_rule]. rewrite H. destruct (match_rule r s' re' a' ex) as [[m n] wt].
  match goal with |- obind ?x _ = _ => destruct x as [[]| | |] end; simpl; auto.
Qed.

Lemma rule_result_wild s s' re re' a a' ex :
  wild_or s = wild_or s' → wild_or re = wild_or re' → wild_or a = wild_or a' →
  ∀ p, rule_result s re a ex p = rule_result s' re' a' ex p.
Proof.
  intros Hs Hr Ha p. unfold rule_result, GetMatchRule.
  erewrite pick_rule_ext; [done|]. intros r. unfold match_rule.
  rewrite <- (match_level_wild (Service r) s), Hs, match_level_wild.
  destruct (match_level (Service r) s' 1 (0, 0)); [|done].
  rewrite <- (match_level_wild (Resource r) re), Hr, match_level_wild.
  destruct (match_level (Resource r) re' _ _); [|done].
  by rewrite <- (match_level_wild (Action r) a), Ha, match_level_wild.
Qed.

Lemma intersect_perm rs l1 l2 : l1 ≡ₚ l2 → intersect rs l1 = intersect rs l2.
Proof.
  intros Hp. unfold intersect. induction rs as [|a rs IH]; [done|]. simpl. rewrite IH. f_equal.
  apply eq_bool_prop_intro. rewrite !existb_True, !Exists_exists. by setoid_rewrite Hp.
Qed.

Lemma Match_same p u u' :
  ProjectName u = ProjectName u' → TokenRoles u ≡ₚ TokenRoles u' →
  Match p (Some u) = Match p (Some u').
Proof. intros Hn Hr. unfold Match. by rewrite Hn, (intersect_perm _ _ _ Hr). Qed.

(** A request for a decision. *)
Record request := Request {
  rq_admin : bool;
  rq_user : TokenCredential;
  rq_service : string;
  rq_resource : string;
  rq_action : string;
  rq_extra : list string }.

Definition key_of (q : request) : string :=
  queryKey (rq_admin q) (rq_user q) (rq_service q) (rq_resource q) (rq_action q) (rq_extra q).

Definition decide_request (m : SPolicyManager) (q : request) : outcome Empty_set string :=
  allowWithoutCache m (rq_admin q) (Some (rq_user q)) (rq_service q) (rq_resource q)
    (rq_action q) (rq_extra q).

Definition dash : Ascii.ascii := Ascii.ascii_of_nat 45.
Definition colon : Ascii.ascii := Ascii.ascii_of_nat 58.

(** No part of the request holds a separator of the key, and the name of the user's
    project is the one [name_of] gives for its identifier. *)
Definition proper (name_of : string → string) (q : request) : Prop :=
  Forall (char_free dash)
    ([ProjectId (rq_user q); DomainId (rq_user q); UserId (rq_user q); rq_service q;
      rq_resource q; rq_action q] ++ TokenRoles (rq_user q) ++ rq_extra q) ∧
  Forall (char_free colon) (TokenRoles (rq_user q)) ∧
  Forall (λ r, r ≠ "") (TokenRoles (rq_user q)) ∧
  ProjectName (rq_user q) = name_of (ProjectId (rq_user q)).

#[export] Instance proper_dec name_of q : Decision (proper name_of q).
Proof. unfold proper. apply _. Defined.

Lemma char_free_join c sep l : Forall (char_free c) l → char_free c sep → char_free c (join sep l).
Proof.
  induction l as [|x [|y l] IH]; intros F Hs; [done|by apply Forall_cons in F as [? _]|].
  apply Forall_cons in F as [? F]. change (join sep (x :: y :: l)) with (x +:+ sep +:+ join sep (y :: l)).
  rewrite !char_free_app. auto.
Qed.

Lemma char_free_wild s : char_free dash s → char_free dash (wild_or s).
Proof. unfold wild_or. by case_go. Qed.

Definition sorted_roles (u : TokenCredential) : list string :=
  merge_sort String.le (TokenRoles u).

Lemma sorted_roles_Forall P u : Forall P (TokenRoles u) → Forall P (sorted_roles u).
Proof. unfold sorted_roles. by rewrite merge_sort_Permutation. Qed.

Lemma join_roles_inj u1 u2 :
  Forall (char_free colon) (TokenRoles u1) → Forall (char_free colon) (TokenRoles u2) →
  Forall (λ r, r ≠ "") (TokenRoles u1) → Forall (λ r, r ≠ "") (TokenRoles u2) →
  join ":" (sorted_roles u1) = join ":" (sorted_roles u2) → TokenRoles u1 ≡ₚ TokenRoles u2.
Proof.
  intros F1 F2 N1 N2 E.
  apply sorted_roles_Forall in F1, F2, N1, N2.
  rewrite <- (merge_sort_Permutation String.le (TokenRoles u1)),
    <- (merge_sort_Permutation String.le (TokenRoles u2)).
  fold (sorted_roles u1) (sorted_roles u2).
  destruct (decide (sorted_roles u1 = [])) as [H1|H1].
  { rewrite H1 in E. symmetry in E. by rewrite (join_nil_inj colon _ E N2), H1. }
  destruct (decide (sorted_roles u2 = [])) as [H2|H2].
  { rewrite H2 in E. by rewrite (join_nil_inj colon _ E N1), H2. }
  by rewrite (join_inj colon (sorted_roles u1) (sorted_roles u2)).
Qed.

Lemma key_parts name_of q : proper name_of q →
  Forall (char_free dash)
    ([if rq_admin q then "true" else "false"; ProjectId (rq_user q); DomainId (rq_user q);
      UserId (rq_user q); join ":" (sorted_roles (rq_user q)); wild_or (rq_service q);
      wild_or (rq_resource q); wild_or (rq_action q)] ++ rq_extra q).
Proof.
  intros (Hd & _). rewrite !Forall_app, !Forall_cons in *.
  destruct Hd as ((? & ? & ? & ? & ? & ? & _) & Hr & ?).
  split_and!; try done; [by destruct (rq_admin q)| |by apply char_free_wild..].
  apply char_free_join; [by apply sorted_roles_Forall|done].
Qed.

Lemma key_decides name_of m q1 q2 :
  proper name_of q1 → proper name_of q2 → key_of q1 = key_of q2 →
  decide_request m q1 = decide_request m q2.
Proof.
  intros P1 P2 E. unfold key_of, queryKey in E.
  apply (join_inj dash) in E; [|done..|by eapply key_parts|by eapply key_parts].
  destruct P1 as (_ & C1 & N1 & Hn1), P2 as (_ & C2 & N2 & Hn2).
  simpl in E. injection E as Ea Ep Edo Eu Er Es Ere Eac Eex.
  assert (rq_admin q1 = rq_admin q2) as Hadm
    by (destruct (rq_admin q1), (rq_admin q2); done).
  apply join_roles_inj in Er; [|done..].
  unfold decide_request. rewrite !allowWithoutCache_eq, <- Hadm, <- Eex.
  destruct (policies_of m (rq_admin q1)) as [ps|]; [|done]. do 2 f_equal.
  assert (ProjectName (rq_user q1) = ProjectName (rq_user q2)) as Hpn by congruence.
  assert (applicable (Some (rq_user q1)) ps = applicable (Some (rq_user q2)) ps) as Happ.
  { unfold applicable. apply list_filter_ext_in. intros p _.
    by rewrite (Match_same p _ (rq_user q2)). }
  pose proof (rule_result_wild _ _ _ _ _ _ (rq_extra q1) Es Ere Eac) as Hrr.
  assert (granted (Some (rq_user q1)) (rq_service q1) (rq_resource q1) (rq_action q1) (rq_extra q1) ps
        = granted (Some (rq_user q2)) (rq_service q2) (rq_resource q2) (rq_action q2) (rq_extra q1) ps)
    as Hg.
  { unfold granted. rewrite Happ. apply list_omap_ext, Forall_Forall2_diag, Forall_forall. auto. }
  unfold privilege. rewrite Happ, Hg. destruct (defaultPolicy m) as [dp|]; [|done].
  by rewrite Hrr.
Qed.

(** ** Runs of a manager *)

Section Runs.

Context (digest : nat → string → Z * Z * Z * Z) (render : json → string)
  (name_of : string → string).

Definition allow_request (m : SPolicyManager) (now : Z) (q : request)
  : outcome Empty_set (SPolicyManager * string) :=
  Allow digest m now (rq_admin q) (Some (rq_user q)) (rq_service q) (rq_resource q)
    (rq_action q) (rq_extra q).

(** How far a call of [Allow] has come after its lookup missed.  [Decided v b] holds
    the decision it is about to store; [b] says that the policies have not been
    replaced since it was taken. *)
Inductive progress := Missed | Decided (v : string) (current : bool).

(** A manager with the calls of [Allow] in flight.  [syncing] holds between the
    assignments of [SyncOnce] and its [Invalidate]; [late] are the keys under which a
    call stored, since the last [Invalidate], a decision it had taken before the
    policies were last replaced. *)
Record psys := Psys {
  ps_manager : SPolicyManager;
  syncing : bool;
  flying : list (request * progress);
  late : list string }.

Definition replaced (f : request * progress) : request * progress :=
  match f.2 with Decided v _ => (f.1, Decided v false) | Missed => f end.

Definition after_store (k : string) (current : bool) (l : list string) : list string :=
  if current then filter (λ k', k' ≠ k) l else k :: l.

(** One step of a started manager, under any interleaving of calls of [Allow] on
    proper requests and of synchronisations with whatever the identity service
    answers: a lookup that answers from the cache, one that misses, a decision, a
    store, the replacement of the policies, and the [Invalidate] after it.
    Synchronisations exclude each other by the manager's lock.  Clocks run after the
    zero time. *)
Inductive pstep : psys → psys → Prop :=
| step_hit m b fl l now q v :
    0 ≤ now → proper name_of q → allow_look digest m now (key_of q) = Ret (Some v) →
    pstep (Psys m b fl l) (Psys m b fl l)
| step_miss m b fl l now q :
    0 ≤ now → proper name_of q → allow_look digest m now (key_of q) = Ret None →
    pstep (Psys m b fl l) (Psys m b ((q, Missed) :: fl) l)
| step_decide m b fl1 fl2 l q v :
    decide_request m q = Ret v →
    pstep (Psys m b (fl1 ++ (q, Missed) :: fl2) l) (Psys m b (fl1 ++ (q, Decided v true) :: fl2) l)
| step_store m m' b fl1 fl2 l now q v current :
    0 ≤ now → allow_store digest m now (key_of q) v = Ret m' →
    pstep (Psys m b (fl1 ++ (q, Decided v current) :: fl2) l)
          (Psys m' b (fl1 ++ fl2) (after_store (key_of q) current l))
| step_install m fl l list_policies fuel now ps aps :
    fetchPolicies render list_policies fuel = Ret (ps, aps) →
    pstep (Psys m false fl l) (Psys (sync_install m now ps aps) true (replaced <$> fl) l)
| step_invalidate m m' fl l :
    sync_invalidate (E := unit) m = Ret m' →
    pstep (Psys m true fl l) (Psys m' false fl []).

Inductive reachable : psys → Prop :=
| reachable_start refresh retry m :
    2000001 < refresh → start_state init_manager refresh retry = Ret m →
    reachable (Psys m false [] [])
| reachable_step s s' : reachable s → pstep s s' → reachable s'.

(** Every node of the cache will expire; unless a synchronisation is under way or its
    key is late, it holds the decision of the current policies on a request with its
    key. *)
Definition cache_ok (m : SPolicyManager) (b : bool) (l : list string) (c : HashCache.Cache)
  : Prop :=
  HashCache.placed digest c ∧ 1000000 < HashCache.defaultTtl c ∧
  ∀ i n, HashCache.table c !! i = Some n → HashCache.key n ≠ "" →
    HashCache.expire n ≠ 0 ∧
    (b = false → HashCache.key n ∉ l →
     ∃ q v, proper name_of q ∧ key_of q = HashCache.key n ∧ HashCache.value n = Some v ∧
       decide_request m q = Ret v).

Definition flight_ok (m : SPolicyManager) (f : request * progress) : Prop :=
  proper name_of f.1 ∧ (∀ v, f.2 = Decided v true → decide_request m f.1 = Ret v).

Definition psys_ok (s : psys) : Prop :=
  Forall (flight_ok (ps_manager s)) (flying s) ∧
  ∃ c, cache (ps_manager s) = Some c ∧ cache_ok (ps_manager s) (syncing s) (late s) c.

Lemma key_of_nonempty q : key_of q ≠ "".
Proof. unfold key_of, queryKey. by destruct (rq_admin q). Qed.

Lemma decide_request_total m q : ∃ v, decide_request m q = Ret v.
Proof. unfold decide_request. rewrite allowWithoutCache_eq. by eexists. Qed.

Lemma cache_ok_fresh m b l size ttl :
  (0 < size)%nat → 1000000 < ttl → cache_ok m b l (HashCache.NewCache size ttl).
Proof.
  intros Hs Ht. split_and!; [by apply HashCache.placed_NewCache|done|].
  intros i n Hi Hk. by apply lookup_replicate in Hi as [-> _].
Qed.

Lemma cache_ok_invalidate m m' b b' l l' c :
  cache_ok m b l c → cache_ok m' b' l' (HashCache.Invalidate c).
Proof.
  intros (Hp & Ht & Hn). split_and!; [by apply HashCache.placed_Invalidate|done|].
  intros i n Hi Hk. simpl in Hi. rewrite list_lookup_fmap in Hi.
  destruct (HashCache.table c !! i) as [n0|] eqn:E0; [|done]. simpl in Hi. simplify_eq.
  unfold HashCache.reset in Hk. destruct (Z.eqb_spec (HashCache.expire n0) 0) as [E1|]; [|done].
  by destruct (Hn i n0 E0 Hk).
Qed.

(** A store replaces the node of its key: whether the key is late afterwards depends
    on this store alone. *)
Lemma allow_store_ok m b l c now q v current :
  cache m = Some c → cache_ok m b l c → 0 ≤ now → proper name_of q →
  (current = true → decide_request m q = Ret v) →
  ∃ m' c', allow_store digest m now (key_of q) v = Ret m' ∧
    (∀ q', decide_request m' q' = decide_request m q') ∧
    cache m' = Some c' ∧ cache_ok m' b (after_store (key_of q) current l) c'.
Proof.
  intros Hc (Hp & Ht & Hn) Hnow Hq Hv. unfold allow_store. rewrite Hc. cbn [obind of_opt].
  rewrite HashCache.Set_placed by (done || apply key_of_nonempty). cbn [obind].
  eexists _, _. split_and!; [done..|].
  split_and!; [apply HashCache.placed_insert; [done|apply key_of_nonempty]|done|].
  intros i n Hi Hk. simpl in Hi.
  apply list_lookup_insert_Some in Hi as [(_ & <- & _)|[Hne Hi]]; simpl in *.
  - split.
    { unfold HashCache.set_expire. destruct (Z.ltb_spec 1000000 (HashCache.defaultTtl c)); lia. }
    intros _ Hl. destruct current; simpl in Hl; [|by destruct Hl; left].
    exists q, v. split_and!; [done..|by apply Hv].
  - destruct (Hn i n Hi Hk) as [He Hd]. split; [done|]. intros Hb Hl. apply Hd; [done|].
    intros Hin. apply Hl. destruct current; simpl; [|by right].
    apply list_elem_of_filter. split; [|done]. intros Ek. apply Hne.
    rewrite <- Ek. symmetry. by apply (proj2 Hp).
Qed.

(** A lookup answers with the current decision, unless the key is late. *)
Lemma allow_look_ok m l c now q :
  cache m = Some c → cache_ok m false l c → proper name_of q → key_of q ∉ l →
  ∃ r, allow_look digest m now (key_of q) = Ret r ∧ (∀ v, r = Some v → decide_request m q = Ret v).
Proof.
  intros Hc (Hp & Ht & Hn) Hq Hl.
  destruct (HashCache.find_placed digest c now (key_of q) Hp (key_of_nonempty q))
    as (n & Hi & Hf).
  unfold allow_look. rewrite Hc. cbn [obind of_opt]. unfold HashCache.Get. rewrite Hf.
  cbn [obind]. destruct (bool_decide _ && _) eqn:Eb; [|by exists None].
  apply andb_prop in Eb as [Ek%bool_decide_eq_true _]. rewrite Hi. cbn [obind of_opt].
  destruct (Hn _ _ Hi) as (_ & Hd); [rewrite Ek; apply key_of_nonempty|].
  destruct Hd as (q' & v & Hq' & Hk' & Hv & Hd); [done|by rewrite Ek|].
  rewrite Hv. eexists. split; [done|]. intros ? [= <-].
  by rewrite (key_decides name_of m q q') by (done || congruence).
Qed.

Lemma psys_ok_start refresh retry m :
  2000001 < refresh → start_state init_manager refresh retry = Ret m →
  psys_ok (Psys m false [] []).
Proof.
  intros Hr Hs. unfold start_state in Hs.
  match type of Hs with obind ?x _ = _ => destruct x; simpl in Hs; simplify_eq end.
  split; [constructor|]. eexists. split; [done|]. apply cache_ok_fresh; [lia|].
  pose proof (Z.quot_le_mono 2000002 refresh 2) as Hle.
  change (2000002 ÷ 2) with 1000001 in Hle. lia.
Qed.

Lemma psys_ok_step s s' : pstep s s' → psys_ok s → psys_ok s'.
Proof.
  intros Hstep (Hfl & c & Hc & Hok).
  destruct Hstep as [m b fl l now q v Hnow Hq Hlook|m b fl l now q Hnow Hq Hlook
    |m b fl1 fl2 l q v Hd|m m' b fl1 fl2 l now q v current Hnow Hst
    |m fl l lp fuel now ps aps Hf|m m' fl l Hi]; simpl in *.
  - split; [done|]. by exists c.
  - split; [by constructor; [split|]|]. by exists c.
  - split; [|by exists c]. simpl. rewrite !Forall_app, !Forall_cons in *.
    destruct Hfl as (? & [? _] & ?). split_and!; [done| |done]. split; [done|].
    simpl. by intros ? [= <-].
  - rewrite Forall_app, Forall_cons in Hfl. destruct Hfl as (Hf1 & [Hq Hv] & Hf2).
    destruct (allow_store_ok m b l c now q v current Hc Hok Hnow Hq) as (m1 & c1 & E1 & Hd & Hc1 & Hok1).
    { intros ->. by apply Hv. }
    rewrite E1 in Hst. injection Hst as <-. split; [|by exists c1].
    simpl. eapply Forall_impl; [by apply Forall_app|]. intros f [? Hd']. split; [done|].
    intros. rewrite Hd. auto.
  - split; [|exists c; split; [done|]].
    + apply Forall_fmap. eapply Forall_impl; [exact Hfl|]. intros [q p] [? _].
      split; [by destruct p|]. by destruct p.
    + destruct Hok as (? & ? & Hn). split_and!; [done..|]. intros i n Hi Hk.
      split; [by eapply Hn|done].
  - unfold sync_invalidate in Hi. rewrite Hc in Hi. cbn [obind of_opt] in Hi. injection Hi as <-.
    split; [done|]. simpl. eexists. split; [done|]. by eapply cache_ok_invalidate.
Qed.

Lemma reachable_ok s : reachable s → psys_ok s.
Proof. induction 1; [by eapply psys_ok_start|by eapply psys_ok_step]. Qed.

(** Calls that are not interrupted are runs of the steps. *)
Lemma reachable_allow m m' b fl l now q res :
  reachable (Psys m b fl l) → 0 ≤ now → proper name_of q →
  allow_request m now q = Ret (m', res) → ∃ l', reachable (Psys m' b fl l').
Proof.
  intros Hr Hnow Hq H. unfold allow_request, Allow in H.
  destruct (reachable_ok _ Hr) as (_ & c & Hc & _). simpl in Hc. rewrite Hc in H.
  fold (key_of q) in H.
  destruct (allow_look digest m now (key_of q)) as [[v|]| | |] eqn:Hl; cbn [obind] in H; try done.
  { injection H as <- <-. by exists l. }
  change (allowWithoutCache _ _ _ _ _ _ _) with (decide_request m q) in H.
  destruct (decide_request m q) as [v| | |] eqn:Hd; cbn [obind] in H; try done.
  destruct (allow_store digest m now (key_of q) v) as [m1| | |] eqn:Hst; cbn [obind] in H; try done.
  injection H as <- <-. eexists.
  eapply reachable_step; [|by apply (step_store m m1 b [] fl l now q v true)].
  eapply reachable_step; [|by apply (step_decide m b [] fl l q v)].
  eapply reachable_step; [exact Hr|]. by eapply step_miss.
Qed.

Lemma reachable_sync m m' fl l list_policies fuel now :
  reachable (Psys m false fl l) → SyncOnce render list_policies fuel m now = Ret m' →
  reachable (Psys m' false (replaced <$> fl) []).
Proof.
  intros Hr H. unfold SyncOnce in H.
  destruct (fetchPolicies render list_policies fuel) as [[ps aps]| | |] eqn:Hf; cbn [obind] in H;
    try done.
  eapply reachable_step; [|by eapply step_invalidate].
  eapply reachable_step; [exact Hr|]. by eapply step_install.
Qed.

End Runs.

(** C7 No stale decisions.  A manager is started with a refresh interval of more than
    2000001 ns and serves any interleaving of calls of [Allow], taken apart into lookup,
    decision and store, and of synchronisations, taken apart into the replacement of the
    policies and [Invalidate].  The requests are proper: no part holds a dash, roles are
    not empty and hold no colon, and the project's name is determined by its identifier.
    Then between synchronisations a lookup of a key, and a call of [Allow] run through,
    answer exactly what the policies of the last synchronisation decide without the
    cache, unless that key was last stored by a call that overlapped the synchronisation:
    one that decided before the policies were replaced and stored after [Invalidate].
    Each call of the cache is one step. *)
Theorem Allow_no_stale_decision (digest : nat → string → Z * Z * Z * Z)
    (render : json → string) (name_of : string → string) (s : psys) (now : Z) (q : request) :
  reachable digest render name_of s → syncing s = false → key_of q ∉ late s →
  0 ≤ now → proper name_of q →
  (∀ v, allow_look digest (ps_manager s) now (key_of q) = Ret (Some v) →
        decide_request (ps_manager s) q = Ret v) ∧
  ∃ m' res, allow_request digest (ps_manager s) now q = Ret (m', res) ∧
    decide_request (ps_manager s) q = Ret res.
Proof.
  intros Hs Hb Hl Hnow Hq. destruct (reachable_ok _ _ _ _ Hs) as (_ & c & Hc & Hok).
  rewrite Hb in Hok. destruct (allow_look_ok _ _ _ _ _ now q Hc Hok Hq Hl) as (r & Hlook & Hr).
  split; [intros v Hv; apply Hr; congruence|].
  unfold allow_request, Allow. rewrite Hc. fold (key_of q). rewrite Hlook. cbn [obind].
  destruct r as [v|]; [by exists (ps_manager s), v; auto|].
  change (allowWithoutCache _ _ _ _ _ _ _) with (decide_request (ps_manager s) q).
  destruct (decide_request_total (ps_manager s) q) as [v Hd]. rewrite Hd. cbn [obind].
  destruct (allow_store_ok _ _ _ _ _ _ now q v true Hc Hok Hnow Hq (λ _, Hd)) as (m' & c' & E1 & _).
  rewrite E1. by exists m', v.
Qed.

(** A page with one policy for everybody. *)
Definition one_policy (result : string) (offset : Z) : outcome unit (list json * Z) :=
  Ret ([JDict [("type", JString "all");
               ("policy", JDict [("policy", JDict [("compute", JString result)])])]], 1).

Definition alice_lists : request := Request false alice "compute" "servers" "list" [].

(** Started, synchronised to a policy that allows, asked, and synchronised to a policy
    that denies. *)
Definition changed_manager : outcome unit SPolicyManager :=
  let render := λ _, "" in
  match start_state init_manager 60000000000 1000000000 with
  | Ret m0 =>
    let! m1 := SyncOnce render (one_policy "allow") 2 m0 10 in
    match allow_request HashCache.toy_digest m1 11 alice_lists with
    | Ret (m2, _) => SyncOnce render (one_policy "deny") 2 m2 12
    | _ => Panic
    end
  | _ => Panic
  end.

Lemma alice_proper : proper (λ _, "p") alice_lists.
Proof. vm_compute. repeat split; repeat constructor; done. Qed.

(** The manager of [changed_manager] is reached, with no call in flight. *)
Lemma changed_manager_reached :
  ∃ m, changed_manager = Ret m ∧
    reachable HashCache.toy_digest (λ _, "") (λ _, "p") (Psys m false [] []).
Proof.
  unfold changed_manager.
  destruct (start_state init_manager 60000000000 1000000000) as [m0| | |] eqn:E0;
    [|vm_compute in E0; discriminate..].
  destruct (SyncOnce (λ _, "") (one_policy "allow") 2 m0 10) as [m1| | |] eqn:E1;
    [|vm_compute in E0; injection E0 as <-; vm_compute in E1; discriminate..].
  cbn [obind].
  destruct (allow_request HashCache.toy_digest m1 11 alice_lists) as [[m2 r]| | |] eqn:E2;
    [|vm_compute in E0; injection E0 as <-; vm_compute in E1; injection E1 as <-;
      vm_compute in E2; discriminate..].
  destruct (SyncOnce (λ _, "") (one_policy "deny") 2 m2 12) as [m3| | |] eqn:E3;
    [|vm_compute in E0; injection E0 as <-; vm_compute in E1; injection E1 as <-;
      vm_compute in E2; injection E2 as <- <-; vm_compute in E3; discriminate..].
  exists m3. split; [done|].
  assert (reachable HashCache.toy_digest (λ _, "") (λ _, "p") (Psys m1 false [] [])) as R1.
  { apply (reachable_sync _ _ _ m0 m1 [] [] (one_policy "allow") 2 10); [|exact E1].
    eapply reachable_start; [|exact E0]. lia. }
  destruct (reachable_allow _ _ _ _ _ _ _ _ 11 alice_lists r R1 ltac:(lia) alice_proper E2)
    as [l R2].
  exact (reachable_sync _ _ _ _ _ [] _ _ _ _ R2 E3).
Qed.

Lemma Allow_no_stale_decision_witness :
  ∃ m m' res, changed_manager = Ret m ∧
    allow_request HashCache.toy_digest m 13 alice_lists = Ret (m', res) ∧
    decide_request m alice_lists = Ret res.
Proof.
  destruct changed_manager_reached as (m & E & R). exists m.
  destruct (Allow_no_stale_decision HashCache.toy_digest (λ _, "") (λ _, "p")
              (Psys m false [] []) 13 alice_lists) as (_ & m' & res & ? & ?).
  - exact R.
  - reflexivity.
  - apply not_elem_of_nil.
  - lia.
  - exact alice_proper.
  - by exists m', res.
Defined.

(** A call that decided under a policy that allows and is overtaken by the
    synchronisation to a policy that denies. *)
Definition overtaken_manager : outcome unit SPolicyManager :=
  let render := λ _, "" in
  match start_state init_manager 60000000000 1000000000 with
  | Ret m0 =>
    let! m1 := SyncOnce render (one_policy "allow") 2 m0 10 in
    match decide_request m1 alice_lists with
    | Ret v =>
      let! m2 := SyncOnce render (one_policy "deny") 2 m1 12 in
      match allow_store HashCache.toy_digest m2 13 (key_of alice_lists) v with
      | Ret m3 => Ret m3
      | _ => Panic
      end
    | _ => Panic
    end
  | _ => Panic
  end.

(** [Allow] holds no lock over its steps: the decision that the overtaken call stores
    after [Invalidate] is answered although the policies deny, for the half of the
    refresh interval that a decision is cached. *)
Lemma overtaken_store_is_stale :
  ∃ m, overtaken_manager = Ret m ∧ decide_request m alice_lists = Ret Deny ∧
    allow_request HashCache.toy_digest m 30000000012 alice_lists = Ret (m, OwnerAllow) ∧
    ∃ m', allow_request HashCache.toy_digest m 30000000013 alice_lists = Ret (m', Deny).
Proof.
  eexists. split; [vm_compute; reflexivity|].
  split; [vm_compute; reflexivity|]. split; [vm_compute; reflexivity|].
  eexists. vm_compute. reflexivity.
Qed.

(** Nor does it use the lock of the cache, as [AtomicGet] and [AtomicSet] do: a lookup
    between the two assignments of a store that takes over a slot answers with the
    value of the request that had the slot before. *)
Lemma lookup_within_store :
  let c0 := HashCache.NewCache 2048 30000000000 in
  let allowed := Request false alice "compute" "servers" "list" [] in
  let denied := Request false alice "compute" "secrets" "list" [] in
  ∃ c1 c2 idx, HashCache.Set_ HashCache.toy_digest c0 1 (key_of allowed) OwnerAllow None = Ret c1 ∧
    HashCache.Get HashCache.toy_digest c1 2 (key_of denied) = Ret None ∧
    HashCache.set_key HashCache.toy_digest c1 2 (key_of denied) = Ret (c2, idx) ∧
    HashCache.Get HashCache.toy_digest c2 2 (key_of denied) = Ret (Some OwnerAllow).
Proof.
  eexists _, _, _. split; [vm_compute; reflexivity|]. split; [vm_compute; reflexivity|].
  split; vm_compute; reflexivity.
Qed.

(** A manager whose only policy denies one operation and allows the rest. *)
Definition deny_ab_manager : SPolicyManager :=
  Manager (Some [("p", Policy "" false [Rule "compute" "a" "b" None Deny;
                                        Rule "compute" "*" "*" None OwnerAllow] [] [])])
    (Some []) None 0 1 1 (Some (HashCache.NewCache 2048 30000000000)).

(** The separator makes keys collide: a request for resource [a-b] and action [c]
    has the key of a request for resource [a], action [b] and extra level [c], and
    once the first is allowed the second one, which the policy denies, is allowed. *)
Theorem queryKey_collision :
  let q1 := Request false alice "compute" "a-b" "c" [] in
  let q2 := Request false alice "compute" "a" "b" ["c"] in
  ∃ m', allow_request HashCache.toy_digest deny_ab_manager 1 q1 = Ret (m', OwnerAllow) ∧
    decide_request m' q2 = Ret Deny ∧
    ∃ m'', allow_request HashCache.toy_digest m' 2 q2 = Ret (m'', OwnerAllow).
Proof. eexists. split; [vm_compute; reflexivity|]. split; [|eexists]; vm_compute; reflexivity. Qed.

(** ** Explaining *)

(** The arrays whose first element is not a dictionary. *)
Definition explainable (policyReq : json) : bool :=
  match policyReq with
  | JString _ | JInt _ | JBool _ => true
  | JArray (JDict _ :: _) | JArray [] | JNull | JDict _ => false
  | JArray _ => true
  end.

(** [explainPolicy] under RBAC returns on every request that is a scalar or an array that
    starts with something else than a dictionary, and panics on every other one: the
    error for a malformed request is never returned. *)
Theorem explainPolicy_panics_iff (render : json → string) (manager : SPolicyManager)
    (userCred : option TokenCredential) (policyReq : json) (name : string) :
  if explainable policyReq
  then ∃ r, explainPolicy render true manager userCred policyReq name = Ret r
  else explainPolicy render true manager userCred policyReq name = Panic.
Proof.
  unfold explainPolicy, explainPolicyInternal.
  assert (∀ (e : explained), (∃ a b c l, ex_request e = a :: b :: c :: l) →
    ∃ r, (let! adminRes :=
            if ex_admin e then Ret false
            else let! r0 := of_opt (ex_request e !! 0%nat) in
                 let! r1 := of_opt (ex_request e !! 1%nat) in Ret (isAdminResource r0 r1) in
          Ret (ex_request e,
               exportRbacResult (if adminRes && String.eqb (ex_result e) OwnerAllow then Deny
                                 else ex_result e), ex_error e))
         = Ret (E := Empty_set) r) as Hend.
  { intros e (a & b & c & l & E). rewrite E. destruct (ex_admin e); simpl; by eexists. }
  destruct policyReq as [|b|z|s|[|[|b|z|s|l0|d] l]|d]; simpl; try done;
    rewrite ?allowWithoutCache_eq; simpl;
    (destruct (String.eqb name ""); [apply Hend; simpl; eauto|]);
    (destruct (findPolicyByName manager _ name) as [p|]; [|apply Hend; simpl; eauto]);
    match goal with |- context [GetMatchRule p ?a ?b ?c ?d] =>
      destruct (GetMatchRule_result a b c d p) as (o & -> & _) end;
    apply Hend; simpl; eauto.
Qed.

(** ** Fetching *)

Section Fetch.

Context (render : json → string) (objs : list json) (list_policies : Z → outcome unit (list json * Z)).

Lemma add_page_app {E} l1 l2 ms :
  add_page (E := E) render (l1 ++ l2) ms =
    let! ms := add_page render l1 ms in add_page render l2 ms.
Proof.
  revert ms. induction l1 as [|o l1 IH]; intros ms; [done|]. cbn [app add_page].
  destruct (parseJsonPolicy render o) as [[ty p]| | |]; [apply IH|apply IH|done|done].
Qed.

Lemma fetch_loop_complete fuel off ms :
  (∀ off, (off ≤ length objs)%nat →
     list_policies (Z.of_nat off) = Ret (take 2048 (drop off objs), Z.of_nat (length objs))) →
  Z.of_nat (length objs) < 2 ^ 63 → (off ≤ length objs)%nat → (length objs - off < fuel)%nat →
  fetch_loop render list_policies fuel (Z.of_nat off) ms = add_page render (drop off objs) ms.
Proof.
  intros Hserve Hlen. revert off ms.
  induction fuel as [|fuel IH]; intros off ms Hoff Hf; [lia|]. cbn [fetch_loop].
  rewrite (Hserve off Hoff). cbn [obind].
  rewrite <- (take_drop 2048 (drop off objs)) at 2. rewrite add_page_app.
  destruct (add_page render (take 2048 (drop off objs)) ms) as [ms'| | |]; [|done..].
  cbn [obind]. rewrite length_take, length_drop, int64_wrap_id by (unfold is_int64; lia).
  rewrite drop_drop.
  destruct (Z.leb_spec (Z.of_nat (length objs)) (Z.of_nat off + Z.of_nat (2048 `min` (length objs - off)))).
  - by rewrite (drop_ge objs (off + 2048)) by lia.
  - replace (Z.of_nat off + Z.of_nat (2048 `min` (length objs - off))) with
      (Z.of_nat (off + 2048)) by lia.
    apply IH; lia.
Qed.

End Fetch.

(** C40 Fetching terminates and is complete: against a service that serves its objects in pages of at most 2048
    with their total number, [fetchPolicies] reads every object once, in order. *)
Theorem fetchPolicies_complete (render : json → string) (objs : list json)
    (list_policies : Z → outcome unit (list json * Z)) (fuel : nat) :
  (∀ off, (off ≤ length objs)%nat →
     list_policies (Z.of_nat off) = Ret (take 2048 (drop off objs), Z.of_nat (length objs))) →
  Z.of_nat (length objs) < 2 ^ 63 → (length objs < fuel)%nat →
  fetchPolicies render list_policies fuel = add_page render objs ([], []).
Proof.
  intros Hs Hl Hf. unfold fetchPolicies.
  apply (fetch_loop_complete render objs list_policies fuel 0 _ Hs Hl); lia.
Qed.

Lemma fetchPolicies_complete_witness :
  let objs := [JDict [("type", JString "p");
                      ("policy", JDict [("policy", JDict [("compute", JString "allow")])])];
               JDict [("type", JString "q")]] in
  fetchPolicies (λ _, "") (λ off, Ret (take 2048 (drop (Z.to_nat off) objs), 2)) 3 =
  add_page (λ _, "") objs ([], []).
Proof.
  intros objs. apply (fetchPolicies_complete (λ _, "") objs); [|vm_compute; reflexivity|simpl; lia].
  intros off Hoff. by rewrite Nat2Z.id.
Defined.

(** ** The resources of the administrator *)

(** What the table of resources.go lists. *)
Definition listed (service resource : string) : bool :=
  match list_find (λ p, p.1 = service) adminResources with
  | Some (_, (_, l)) => contains_str l resource
  | None => false
  end.

(** [isAdminResource] agrees with the table that [GetAdminResources] publishes, except
    that it also claims every resource of the identity service and that it looks for
    the resources of [meter] under the name [meters]. *)
Theorem isAdminResource_table (service resource : string) :
  (service ≠ "identity" → service ≠ "meter" → service ≠ "meters" →
   isAdminResource service resource = listed service resource) ∧
  isAdminResource "identity" resource = true ∧
  isAdminResource "meter" "rates" = false ∧ listed "meter" "rates" = true.
Proof.
  split_and!; [|done..]. intros H1 H2 H3. unfold isAdminResource.
  repeat match goal with
  | |- context [String.eqb service ?x] =>
    destruct (String.eqb_spec service x) as [->|?]; [done|]
  end.
  unfold listed. destruct (decide (service = "yunionconf")) as [->|]; [done|].
  simpl. repeat (rewrite decide_False by done; simpl). done.
Qed.

End PolicyCache.
