(* ===== verification/Quotas.v ===== *)
(** * The quota manager: pkg/cloudcommon/db/quotas

    The quota manager is written against the interface [IQuota]; here it is a type
    class with the laws the manager relies on, and the compute and the image service
    are instances (ComputeQuota.v, ImageQuota.v).  A request is checked against the quota together with the usage and
    with what other requests have pending, then recorded as pending, and cancelled once
    the resource exists or the request has failed. *)

From S2P Require Import Prelude Rbac.
Local Open Scope Z_scope.
Local Open Scope go_scope.

Module Quotas.

Definition NonNegative (val : Z) : Z := if val <? 0 then 0 else val.

Definition KeyName (prefix name : string) : string :=
  if String.eqb prefix "" then name else prefix +:+ "." +:+ name.

(** ** The interface *)

Class IQuota (Q Err : Type) := {
  newQuota : Q;
  Update : Q → Q → Q;
  Add : Q → Q → Q;
  Sub : Q → Q → Q;
  Exceed : Q → Q → Q → option Err;
  IsEmpty : Q → bool;
  ToJSON : string → Q → dict }.

(** What an implementation promises, field by field. *)
Class QuotaLaws (Q Err I : Type) `{IQuota Q Err} (field : Q → I → Z) : Prop := {
  quota_ext a b : (∀ i, field a i = field b i) → a = b;
  field_new i : field newQuota i = 0;
  field_Add a b i : field (Add a b) i = int64_wrap (field a i + field b i);
  field_Sub a b i : field (Sub a b) i = NonNegative (int64_wrap (field a i - field b i));
  field_Update a b i : field (Update a b) i = if 0 <? field b i then field b i else field a i;
  Exceed_None used req quota :
    Exceed used req quota = None ↔ ∀ i, 0 < field req i → field used i ≤ field quota i;
  IsEmpty_true a : IsEmpty a = true ↔ ∀ i, field a i ≤ 0 }.

(** ** The manager *)

Section Manager.

Context `{IQuota Q Err}.

(** jsonutils.Marshal and Unmarshal, which use reflection. *)
Context (marshal : Q → json) (unmarshal : json → Q → outcome unit Q).

Inductive quota_error :=
| StoreError
| OutOfQuota (e : Err).

(** [SMemoryQuotaStore]. *)
Abbreviation memstore := (gmap string json).

Definition mem_GetQuota (s : memstore) (tenantId : string) (quota : Q) : outcome quota_error Q :=
  match s !! tenantId with
  | Some j => match unmarshal j quota with
              | Ret q => Ret q
              | Fail _ => Fail StoreError
              | Panic => Panic
              | OutOfFuel => OutOfFuel
              end
  | None => Ret quota
  end.

Definition mem_SetQuota (s : memstore) (tenantId : string) (quota : Q) : memstore :=
  if IsEmpty quota then delete tenantId s else <[tenantId := marshal quota]> s.

(** The persistent store keeps quotas in the metadata of projects in the database: what
    it holds and what it answers are parameters.  [system] is what
    [FetchSystemQuota] assigns, [usage] what [FetchUsage] counts. *)
Context {P : Type} (db_GetQuota : P → string → Q → outcome quota_error Q)
  (db_SetQuota : P → string → Q → outcome quota_error P)
  (system : Q) (usage : string → outcome quota_error Q).

Record SQuotaManager := MkManager { persistenStore : P; pendingStore : memstore }.

Definition GetPendingUsage (m : SQuotaManager) (projectId : string) (quota : Q)
  : outcome quota_error Q :=
  mem_GetQuota (pendingStore m) projectId quota.

Definition GetQuota (m : SQuotaManager) (projectId : string) (quota : Q)
  : outcome quota_error Q :=
  let! q := db_GetQuota (persistenStore m) projectId quota in
  Ret (if IsEmpty q then system else q).

Definition SetQuota (m : SQuotaManager) (projectId : string) (quota : Q)
  : outcome quota_error SQuotaManager :=
  let! p := db_SetQuota (persistenStore m) projectId quota in
  Ret (MkManager p (pendingStore m)).

(** The pending store and the caller's local usage after a cancellation. *)
Definition CancelPendingUsage (m : SQuotaManager) (projectId : string) (localUsage : option Q)
    (cancelUsage : Q) : outcome quota_error (SQuotaManager * option Q) :=
  let! quota := mem_GetQuota (pendingStore m) projectId newQuota in
  let pending := mem_SetQuota (pendingStore m) projectId (Sub quota cancelUsage) in
  Ret (MkManager (persistenStore m) pending, (λ l, Sub l cancelUsage) <$> localUsage).

Definition CheckQuota (m : SQuotaManager) (projectId : string) (request : Q)
  : outcome quota_error Q :=
  let! stored := GetQuota m projectId newQuota in
  let! used := usage projectId in
  let! pending := GetPendingUsage m projectId newQuota in
  let used := Add (Add used pending) request in
  match Exceed used request stored with
  | Some e => Fail (OutOfQuota e)
  | None => Ret used
  end.

Definition CheckSetPendingQuota (m : SQuotaManager) (projectId : string) (quota : Q)
  : outcome quota_error SQuotaManager :=
  let! _ := CheckQuota m projectId quota in
  let! pending := mem_GetQuota (pendingStore m) projectId newQuota in
  Ret (MkManager (persistenStore m)
         (mem_SetQuota (pendingStore m) projectId (Add pending quota))).

(** handler.go [queryQuota]: the quota, the usage and the pending usage in one
    dictionary. *)
Definition queryQuota (m : SQuotaManager) (projectId : string) : outcome quota_error dict :=
  let! quota := GetQuota m projectId newQuota in
  let! used := usage projectId in
  let! pending := GetPendingUsage m projectId newQuota in
  Ret (dict_update (dict_update (dict_update [] (ToJSON "" quota)) (ToJSON "usage" used))
         (ToJSON "pending" pending)).

(** The part of [setQuotaHanlder] after the request has been authorised and parsed. *)
Definition setQuota_update (m : SQuotaManager) (projectId : string) (quota : Q)
  : outcome quota_error (SQuotaManager * dict) :=
  let! oquota := GetQuota m projectId newQuota in
  let oquota := Update oquota quota in
  let! m' := SetQuota m projectId oquota in
  Ret (m', ToJSON "" oquota).

End Manager.

End Quotas.
