(* ===== verification/ComputeQuota.v ===== *)
(** * The quotas of the compute service: pkg/compute/models/quotas.go

    Thirteen integer fields and the implementation of the quota interface on them. *)

From S2P Require Import Prelude Rbac Quotas.
Local Open Scope Z_scope.
Local Open Scope go_scope.

Module ComputeQuota.

Import Quotas.

Inductive error :=
| ErrOutOfCPU
| ErrOutOfMemory
| ErrOutOfStorage
| ErrOutOfPort
| ErrOutOfEip
| ErrOutOfEport
| ErrOutOfBw
| ErrOutOfEbw
| ErrOutOfKeypair
| ErrOutOfGroup
| ErrOutOfSecgroup
| ErrOutOfIsolatedDevice
| ErrOutOfSnapshot.

Record SQuota := MkQuota {
  Cpu : Z;
  Memory : Z;
  Storage : Z;
  Port : Z;
  Eip : Z;
  Eport : Z;
  Bw : Z;
  Ebw : Z;
  Keypair : Z;
  Group : Z;
  Secgroup : Z;
  IsolatedDevice : Z;
  Snapshot : Z }.

(** [options.Options]: the default quotas, by the name of their field. *)
Definition FetchSystemQuota (o : SQuota) (self : SQuota) : SQuota :=
  MkQuota (Cpu o) (Memory o) (Storage o) (Port o) (Eip o) (Eport o) (Bw o) (Ebw o) (Keypair o)
    (Group o) (Secgroup o) (IsolatedDevice o) (Snapshot o).

(** What the database counts for a project. *)
Record counts := Counts {
  diskSize : Z; InternalNicCount : Z; InternalVirtualNicCount : Z; ExternalNicCount : Z;
  ExternalVirtualNicCount : Z; InternalBandwidth : Z; ExternalBandwidth : Z;
  TotalCpuCount : Z; TotalMemSize : Z; TotalIsolatedCount : Z; eipTotal : Z;
  snapshotCount : Z; secgroupCount : Z }.

Definition FetchUsage (c : counts) (self : SQuota) : SQuota :=
  MkQuota (TotalCpuCount c) (TotalMemSize c) (diskSize c)
    (int64_wrap (InternalNicCount c + InternalVirtualNicCount c)) (eipTotal c)
    (int64_wrap (ExternalNicCount c + ExternalVirtualNicCount c)) (InternalBandwidth c)
    (ExternalBandwidth c) 0 0 (secgroupCount c) (TotalIsolatedCount c) (snapshotCount c).

Definition IsEmpty (self : SQuota) : bool :=
  if 0 <? Cpu self then false else
  if 0 <? Memory self then false else
  if 0 <? Storage self then false else
  if 0 <? Port self then false else
  if 0 <? Eip self then false else
  if 0 <? Eport self then false else
  if 0 <? Bw self then false else
  if 0 <? Ebw self then false else
  if 0 <? Keypair self then false else
  if 0 <? Group self then false else
  if 0 <? Secgroup self then false else
  if 0 <? IsolatedDevice self then false else
  if 0 <? Snapshot self then false else true.

Definition Add (self squota : SQuota) : SQuota :=
  MkQuota (int64_wrap (Cpu self + Cpu squota)) (int64_wrap (Memory self + Memory squota))
    (int64_wrap (Storage self + Storage squota)) (int64_wrap (Port self + Port squota))
    (int64_wrap (Eip self + Eip squota)) (int64_wrap (Eport self + Eport squota)) (int64_wrap
    (Bw self + Bw squota)) (int64_wrap (Ebw self + Ebw squota)) (int64_wrap (Keypair self +
    Keypair squota)) (int64_wrap (Group self + Group squota)) (int64_wrap (Secgroup self +
    Secgroup squota)) (int64_wrap (IsolatedDevice self + IsolatedDevice squota)) (int64_wrap
    (Snapshot self + Snapshot squota)).

Definition nonNegative (val : Z) : Z := NonNegative val.

Definition Sub (self squota : SQuota) : SQuota :=
  MkQuota (nonNegative (int64_wrap (Cpu self - Cpu squota))) (nonNegative (int64_wrap (Memory
    self - Memory squota))) (nonNegative (int64_wrap (Storage self - Storage squota)))
    (nonNegative (int64_wrap (Port self - Port squota))) (nonNegative (int64_wrap (Eip self -
    Eip squota))) (nonNegative (int64_wrap (Eport self - Eport squota))) (nonNegative
    (int64_wrap (Bw self - Bw squota))) (nonNegative (int64_wrap (Ebw self - Ebw squota)))
    (nonNegative (int64_wrap (Keypair self - Keypair squota))) (nonNegative (int64_wrap (Group
    self - Group squota))) (nonNegative (int64_wrap (Secgroup self - Secgroup squota)))
    (nonNegative (int64_wrap (IsolatedDevice self - IsolatedDevice squota))) (nonNegative
    (int64_wrap (Snapshot self - Snapshot squota))).

Definition Update (self squota : SQuota) : SQuota :=
  MkQuota (if 0 <? Cpu squota then Cpu squota else Cpu self) (if 0 <? Memory squota then
    Memory squota else Memory self) (if 0 <? Storage squota then Storage squota else Storage
    self) (if 0 <? Port squota then Port squota else Port self) (if 0 <? Eip squota then Eip
    squota else Eip self) (if 0 <? Eport squota then Eport squota else Eport self) (if 0 <? Bw
    squota then Bw squota else Bw self) (if 0 <? Ebw squota then Ebw squota else Ebw self) (if
    0 <? Keypair squota then Keypair squota else Keypair self) (if 0 <? Group squota then
    Group squota else Group self) (if 0 <? Secgroup squota then Secgroup squota else Secgroup
    self) (if 0 <? IsolatedDevice squota then IsolatedDevice squota else IsolatedDevice self)
    (if 0 <? Snapshot squota then Snapshot squota else Snapshot self).

Definition Exceed (self sreq squota : SQuota) : option error :=
  if (0 <? Cpu sreq) && (Cpu squota <? Cpu self) then Some ErrOutOfCPU else
  if (0 <? Memory sreq) && (Memory squota <? Memory self) then Some ErrOutOfMemory else
  if (0 <? Storage sreq) && (Storage squota <? Storage self) then Some ErrOutOfStorage else
  if (0 <? Port sreq) && (Port squota <? Port self) then Some ErrOutOfPort else
  if (0 <? Eip sreq) && (Eip squota <? Eip self) then Some ErrOutOfEip else
  if (0 <? Eport sreq) && (Eport squota <? Eport self) then Some ErrOutOfEport else
  if (0 <? Bw sreq) && (Bw squota <? Bw self) then Some ErrOutOfBw else
  if (0 <? Ebw sreq) && (Ebw squota <? Ebw self) then Some ErrOutOfEbw else
  if (0 <? Keypair sreq) && (Keypair squota <? Keypair self) then Some ErrOutOfKeypair else
  if (0 <? Group sreq) && (Group squota <? Group self) then Some ErrOutOfGroup else
  if (0 <? Secgroup sreq) && (Secgroup squota <? Secgroup self) then Some ErrOutOfSecgroup else
  if (0 <? IsolatedDevice sreq) && (IsolatedDevice squota <? IsolatedDevice self) then Some ErrOutOfIsolatedDevice else
  if (0 <? Snapshot sreq) && (Snapshot squota <? Snapshot self) then Some ErrOutOfSnapshot else None.

Definition keyName (prefix name : string) : string :=
  if String.eqb prefix "" then name else prefix +:+ "." +:+ name.

Definition ToJSON (prefix : string) (self : SQuota) : dict :=
  let add (name : string) (v : Z) (d : dict) :=
    if 0 <? v then dict_set (keyName prefix name) (JInt v) d else d in
  add "snapshot" (Snapshot self) (
  add "isolated_device" (IsolatedDevice self) (
  add "secgroup" (Secgroup self) (
  add "group" (Group self) (
  add "keypair" (Keypair self) (
  add "ebw" (Ebw self) (
  add "bw" (Bw self) (
  add "eport" (Eport self) (
  add "eip" (Eip self) (
  add "port" (Port self) (
  add "storage" (Storage self) (
  add "memory" (Memory self) (
  add "cpu" (Cpu self) ([]))))))))))))).

#[export] Instance compute_quota : IQuota SQuota error := {
  newQuota := MkQuota 0 0 0 0 0 0 0 0 0 0 0 0 0;
  Quotas.Update := Update; Quotas.Add := Add; Quotas.Sub := Sub;
  Quotas.Exceed := Exceed; Quotas.IsEmpty := IsEmpty; Quotas.ToJSON := ToJSON }.

Inductive field_name := FCpu | FMemory | FStorage | FPort | FEip | FEport | FBw | FEbw | FKeypair | FGroup | FSecgroup | FIsolatedDevice | FSnapshot.

Definition field (q : SQuota) (i : field_name) : Z :=
  match i with
  | FCpu => Cpu q
  | FMemory => Memory q
  | FStorage => Storage q
  | FPort => Port q
  | FEip => Eip q
  | FEport => Eport q
  | FBw => Bw q
  | FEbw => Ebw q
  | FKeypair => Keypair q
  | FGroup => Group q
  | FSecgroup => Secgroup q
  | FIsolatedDevice => IsolatedDevice q
  | FSnapshot => Snapshot q
  end.

Lemma compute_Exceed_None used req quota :
  Exceed used req quota = None ↔ ∀ i, 0 < field req i → field used i ≤ field quota i.
Proof.
  split.
  - unfold Exceed. intros E.
    repeat match type of E with
    | (if ?b then _ else _) = None =>
      let Hb := fresh "Hb" in destruct b eqn:Hb; [discriminate|]; apply andb_false_iff in Hb
    end.
    intros []; simpl; lia.
  - intros Hf. unfold Exceed.
    pose proof (Hf FCpu) as H0; simpl in H0.
    pose proof (Hf FMemory) as H1; simpl in H1.
    pose proof (Hf FStorage) as H2; simpl in H2.
    pose proof (Hf FPort) as H3; simpl in H3.
    pose proof (Hf FEip) as H4; simpl in H4.
    pose proof (Hf FEport) as H5; simpl in H5.
    pose proof (Hf FBw) as H6; simpl in H6.
    pose proof (Hf FEbw) as H7; simpl in H7.
    pose proof (Hf FKeypair) as H8; simpl in H8.
    pose proof (Hf FGroup) as H9; simpl in H9.
    pose proof (Hf FSecgroup) as H10; simpl in H10.
    pose proof (Hf FIsolatedDevice) as H11; simpl in H11.
    pose proof (Hf FSnapshot) as H12; simpl in H12.
    repeat match goal with
    | |- (if ?b then _ else _) = None => replace b with false by lia
    end.
    done.
Qed.

Lemma compute_IsEmpty_true a : IsEmpty a = true ↔ ∀ i, field a i ≤ 0.
Proof.
  split.
  - unfold IsEmpty. intros E.
    repeat match type of E with
    | (if ?b then _ else _) = true => destruct b eqn:?; [discriminate|]
    end.
    intros []; simpl; lia.
  - intros Hf. unfold IsEmpty.
    pose proof (Hf FCpu) as H0; simpl in H0.
    pose proof (Hf FMemory) as H1; simpl in H1.
    pose proof (Hf FStorage) as H2; simpl in H2.
    pose proof (Hf FPort) as H3; simpl in H3.
    pose proof (Hf FEip) as H4; simpl in H4.
    pose proof (Hf FEport) as H5; simpl in H5.
    pose proof (Hf FBw) as H6; simpl in H6.
    pose proof (Hf FEbw) as H7; simpl in H7.
    pose proof (Hf FKeypair) as H8; simpl in H8.
    pose proof (Hf FGroup) as H9; simpl in H9.
    pose proof (Hf FSecgroup) as H10; simpl in H10.
    pose proof (Hf FIsolatedDevice) as H11; simpl in H11.
    pose proof (Hf FSnapshot) as H12; simpl in H12.
    repeat match goal with
    | |- (if ?b then _ else _) = true => replace b with false by lia
    end.
    done.
Qed.

#[export] Instance compute_laws : QuotaLaws SQuota error field_name field.
Proof.
  split.
  - intros [] [] Hf. simpl in Hf.
    pose proof (Hf FCpu) as H0; simpl in H0.
    pose proof (Hf FMemory) as H1; simpl in H1.
    pose proof (Hf FStorage) as H2; simpl in H2.
    pose proof (Hf FPort) as H3; simpl in H3.
    pose proof (Hf FEip) as H4; simpl in H4.
    pose proof (Hf FEport) as H5; simpl in H5.
    pose proof (Hf FBw) as H6; simpl in H6.
    pose proof (Hf FEbw) as H7; simpl in H7.
    pose proof (Hf FKeypair) as H8; simpl in H8.
    pose proof (Hf FGroup) as H9; simpl in H9.
    pose proof (Hf FSecgroup) as H10; simpl in H10.
    pose proof (Hf FIsolatedDevice) as H11; simpl in H11.
    pose proof (Hf FSnapshot) as H12; simpl in H12.
    by subst.
  - by intros [].
  - by intros ?? [].
  - by intros ?? [].
  - by intros ?? [].
  - apply compute_Exceed_None.
  - apply compute_IsEmpty_true.
Qed.

End ComputeQuota.
