(* ===== verification/ImageQuota.v ===== *)
(** * The quotas of the image service: pkg/image/models/quotas.go *)

From S2P Require Import Prelude Rbac Quotas.
Local Open Scope Z_scope.
Local Open Scope go_scope.

Module ImageQuota.

Import Quotas.

Inductive error := ErrOutOfImage.

Record SQuota := MkQuota { Image : Z }.

Definition FetchSystemQuota (o : SQuota) (self : SQuota) : SQuota := MkQuota (Image o).

(** [int(count["total"].Count)] of an [int64]. *)
Definition FetchUsage (total : Z) (self : SQuota) : SQuota := MkQuota (int64_wrap total).

Definition IsEmpty (self : SQuota) : bool := if 0 <? Image self then false else true.

Definition Add (self squota : SQuota) : SQuota :=
  MkQuota (int64_wrap (Image self + Image squota)).

Definition Sub (self squota : SQuota) : SQuota :=
  MkQuota (NonNegative (int64_wrap (Image self - Image squota))).

Definition Update (self squota : SQuota) : SQuota :=
  if 0 <? Image squota then MkQuota (Image squota) else self.

Definition Exceed (self sreq squota : SQuota) : option error :=
  if (0 <? Image sreq) && (Image squota <? Image self) then Some ErrOutOfImage else None.

Definition ToJSON (prefix : string) (self : SQuota) : dict :=
  if 0 <? Image self then [(KeyName prefix "image", JInt (Image self))] else [].

#[export] Instance image_quota : IQuota SQuota error := {
  newQuota := MkQuota 0;
  Quotas.Update := Update; Quotas.Add := Add; Quotas.Sub := Sub;
  Quotas.Exceed := Exceed; Quotas.IsEmpty := IsEmpty; Quotas.ToJSON := ToJSON }.

#[export] Instance image_laws : QuotaLaws SQuota error unit (λ q _, Image q).
Proof.
  split; simpl.
  - intros [] [] Hf. simpl in Hf. by rewrite (Hf ()).
  - done.
  - done.
  - done.
  - intros a b _. unfold Update. by case_go.
  - intros used req quota. unfold Exceed. split.
    + intros E _ Hr. destruct (_ && _) eqn:Eb; [done|]. apply andb_false_iff in Eb. lia.
    + intros Hf. specialize (Hf ()). by replace (_ && _) with false by lia.
  - intros a. unfold IsEmpty. split.
    + intros E _. destruct (Z.ltb_spec 0 (Image a)); [done|lia].
    + intros Hf. specialize (Hf ()). destruct (Z.ltb_spec 0 (Image a)); [lia|done].
Qed.

End ImageQuota.
