(* ===== verification/QuotaSafety.v ===== *)
(** * Quotas are respected: proofs about the quota manager

    Everything here is proved from the laws of the interface, so it holds for the
    compute and for the image service. *)

From S2P Require Import Prelude Rbac Quotas ComputeQuota ImageQuota.
Import Quotas.
Local Open Scope Z_scope.
Local Open Scope go_scope.

Module QuotaSafety.

Section Laws.

Context {Q Err I : Type} `{!IQuota Q Err} {field : Q → I → Z} `{!QuotaLaws Q Err I field}.
Context (marshal : Q → json) (unmarshal : json → Q → outcome unit Q).
Context (unmarshal_marshal : ∀ q, unmarshal (marshal q) newQuota = Ret q).
Context {P : Type} (db_GetQuota : P → string → Q → outcome (quota_error (Err := Err)) Q)
  (system : Q).

Abbreviation get := (mem_GetQuota (Err := Err) unmarshal).
Abbreviation set_ := (mem_SetQuota marshal).

(** No field is negative. *)
Definition nonneg (q : Q) : Prop := ∀ i, 0 ≤ field q i.

Lemma empty_is_new q : IsEmpty q = true → nonneg q → q = newQuota.
Proof.
  intros He Hn. apply (quota_ext (field := field)). intros i. rewrite field_new.
  pose proof (proj1 (IsEmpty_true (field := field) q) He i). specialize (Hn i). lia.
Qed.

Lemma get_set_eq s pid q : nonneg q → get (set_ s pid q) pid newQuota = Ret q.
Proof.
  intros Hn. unfold mem_GetQuota, mem_SetQuota. destruct (IsEmpty q) eqn:He.
  - rewrite lookup_delete_eq. f_equal. symmetry. by apply empty_is_new.
  - by rewrite lookup_insert_eq, unmarshal_marshal.
Qed.

Lemma get_set_ne s pid pid' q q0 :
  pid ≠ pid' → get (set_ s pid q) pid' q0 = get s pid' q0.
Proof.
  intros Hne. unfold mem_GetQuota, mem_SetQuota. destruct (IsEmpty q).
  - by rewrite lookup_delete_ne.
  - by rewrite lookup_insert_ne.
Qed.

Lemma field_Add_small a b i :
  0 ≤ field a i → 0 ≤ field b i → field a i + field b i < 2 ^ 63 →
  field (Add a b) i = field a i + field b i.
Proof. intros. rewrite field_Add, int64_wrap_id; [done|]. unfold is_int64. lia. Qed.

Lemma field_Sub_small a b i :
  0 ≤ field b i ≤ field a i → field a i < 2 ^ 63 → field (Sub a b) i = field a i - field b i.
Proof.
  intros. rewrite field_Sub, int64_wrap_id by (unfold is_int64; lia).
  unfold NonNegative. destruct (Z.ltb_spec (field a i - field b i) 0); lia.
Qed.

(** ** One request *)

Section Request.

Context (usage : string → outcome (quota_error (Err := Err)) Q)
  (m : SQuotaManager (P := P)) (pid : string) (used pend req : Q).
Context (Hused : usage pid = Ret used) (Hpend : get (pendingStore m) pid newQuota = Ret pend)
  (Hu : nonneg used) (Hp : nonneg pend) (Hr : nonneg req)
  (Hsmall : ∀ i, field used i + field pend i + field req i < 2 ^ 63).

Lemma check_fields i :
  field (Add (Add used pend) req) i = field used i + field pend i + field req i.
Proof.
  pose proof (Hu i). pose proof (Hp i). pose proof (Hr i). pose proof (Hsmall i).
  rewrite !field_Add_small; try done; rewrite ?field_Add_small; lia.
Qed.

Lemma checked m' :
  CheckSetPendingQuota marshal unmarshal db_GetQuota system usage m pid req = Ret m' →
  (∃ quota, GetQuota db_GetQuota system m pid newQuota = Ret quota ∧
     ∀ i, 0 < field req i → field used i + field pend i + field req i ≤ field quota i) ∧
  m' = MkManager (persistenStore m) (set_ (pendingStore m) pid (Add pend req)).
Proof.
  unfold CheckSetPendingQuota, CheckQuota, GetPendingUsage.
  destruct (GetQuota db_GetQuota system m pid newQuota) as [quota| | |]; [|done..].
  rewrite Hused, Hpend. cbn [obind].
  destruct (Exceed (Add (Add used pend) req) req quota) eqn:Ee; [done|].
  cbn [obind]. intros [= <-]. split; [|done]. exists quota. split; [done|].
  intros i Hi. rewrite <- check_fields.
  exact (proj1 (Exceed_None (field := field) _ _ _) Ee i Hi).
Qed.

Lemma pending_added i : field (Add pend req) i = field pend i + field req i.
Proof.
  pose proof (Hu i). pose proof (Hp i). pose proof (Hr i). pose proof (Hsmall i).
  apply field_Add_small; lia.
Qed.

Lemma pending_added_nonneg : nonneg (Add pend req).
Proof. intros i. rewrite pending_added. specialize (Hp i). specialize (Hr i). lia. Qed.

End Request.

Lemma Sub_Add pend req :
  nonneg pend → nonneg req → (∀ i, field pend i + field req i < 2 ^ 63) →
  Sub (Add pend req) req = pend.
Proof.
  intros Hp Hr Hs. apply (quota_ext (field := field)). intros i.
  specialize (Hp i). specialize (Hr i). specialize (Hs i).
  rewrite field_Sub_small; rewrite field_Add_small; lia.
Qed.

(** ** Runs of requests on one project *)

Context (pid : string) (quota : Q).

(** The manager, what the database counts for the project, and the open requests, each
    with whether its resource has been created. *)
Record world := World {
  w_man : SQuotaManager (P := P);
  w_used : Q;
  w_open : list (Q * bool) }.

(** A request is reserved; its resource is created; it is finished or abandoned, which
    cancels its pending usage; resources are released. *)
Inductive step : world → world → Prop :=
| step_reserve w req m' :
    nonneg req → (∀ i, field req i ≤ 2 ^ 61) →
    CheckSetPendingQuota marshal unmarshal db_GetQuota system (λ _, Ret (w_used w))
      (w_man w) pid req = Ret m' →
    step w (World m' (w_used w) ((req, false) :: w_open w))
| step_create w req l1 l2 :
    w_open w = l1 ++ (req, false) :: l2 →
    step w (World (w_man w) (Add (w_used w) req) (l1 ++ (req, true) :: l2))
| step_cancel w req created local l1 l2 m' local' :
    w_open w = l1 ++ (req, created) :: l2 →
    CancelPendingUsage marshal unmarshal (Err := Err) (w_man w) pid local req = Ret (m', local') →
    step w (World m' (w_used w) (l1 ++ l2))
| step_release w used :
    nonneg used → (∀ i, field used i ≤ field (w_used w) i) →
    step w (World (w_man w) used (w_open w)).

Definition all_open (i : I) (l : list (Q * bool)) : Z :=
  foldr (λ (r : Q * bool) s, field r.1 i + s) 0 l.
Definition uncreated (i : I) (l : list (Q * bool)) : Z :=
  foldr (λ (r : Q * bool) s, (if r.2 then 0 else field r.1 i) + s) 0 l.

Lemma all_open_app i l1 l2 : all_open i (l1 ++ l2) = all_open i l1 + all_open i l2.
Proof. induction l1 as [|r l1 IH]; simpl; [done|]. unfold all_open in *. simpl. lia. Qed.
Lemma uncreated_app i l1 l2 : uncreated i (l1 ++ l2) = uncreated i l1 + uncreated i l2.
Proof. induction l1 as [|r l1 IH]; simpl; [done|]. unfold uncreated in *. simpl. lia. Qed.

Lemma open_bounds i l :
  Forall (λ r : Q * bool, nonneg r.1) l → 0 ≤ uncreated i l ≤ all_open i l.
Proof.
  induction 1 as [|r l Hr _ IH]; simpl; [done|]. specialize (Hr i).
  unfold uncreated, all_open in *. simpl. destruct r.2; lia.
Qed.

(** The pending store holds the sum of the open requests, never more than the quota, and
    usage and reservations together stay within the quota. *)
Definition safe (w : world) : Prop :=
  Forall (λ r : Q * bool, nonneg r.1) (w_open w) ∧ nonneg (w_used w) ∧
  GetQuota db_GetQuota system (w_man w) pid newQuota = Ret quota ∧
  ∃ pend, get (pendingStore (w_man w)) pid newQuota = Ret pend ∧
    ∀ i, field pend i = all_open i (w_open w) ∧ field pend i ≤ field quota i ∧
      field (w_used w) i + uncreated i (w_open w) ≤ field quota i.

Lemma pending_nonneg w pend :
  Forall (λ r : Q * bool, nonneg r.1) (w_open w) →
  (∀ i, field pend i = all_open i (w_open w)) → nonneg pend.
Proof. intros Ho Hi i. rewrite Hi. pose proof (open_bounds i _ Ho). lia. Qed.

Lemma safe_reserve w req m' :
  (∀ i, field quota i ≤ 2 ^ 61) → safe w → nonneg req → (∀ i, field req i ≤ 2 ^ 61) →
  CheckSetPendingQuota marshal unmarshal db_GetQuota system (λ _, Ret (w_used w))
    (w_man w) pid req = Ret m' →
  safe (World m' (w_used w) ((req, false) :: w_open w)).
Proof.
  intros Hq (Ho & Hu & Hquota & pend & Hp & Hi) Hr Hr61 E.
  assert (nonneg pend) as Hpn by (apply (pending_nonneg w); [done|apply Hi]).
  assert (∀ i, field (w_used w) i + field pend i + field req i < 2 ^ 63) as Hsm.
  { intros i. destruct (Hi i) as (? & ? & ?). pose proof (open_bounds i _ Ho).
    specialize (Hq i). specialize (Hr61 i). lia. }
  destruct (checked (λ _, Ret (w_used w)) (w_man w) pid (w_used w) pend req eq_refl
              Hp Hu Hpn Hr Hsm m' E) as [(q & Hq' & Hle) ->].
  rewrite Hquota in Hq'. injection Hq' as <-.
  unfold safe. cbn [w_man w_used w_open].
  split_and!; [by constructor|done|exact Hquota|].
  exists (Add pend req). cbn [pendingStore]. split.
  { apply get_set_eq. by apply (pending_added_nonneg (w_used w)). }
  intros i. rewrite (pending_added (w_used w)) by done.
  destruct (Hi i) as (E1 & E2 & E3). specialize (Hr i). specialize (Hle i). specialize (Hu i).
  pose proof (open_bounds i _ Ho). unfold all_open, uncreated in *. simpl. lia.
Qed.

Lemma safe_create w req l1 l2 :
  (∀ i, field quota i ≤ 2 ^ 61) → safe w → w_open w = l1 ++ (req, false) :: l2 →
  safe (World (w_man w) (Add (w_used w) req) (l1 ++ (req, true) :: l2)).
Proof.
  intros Hq (Ho & Hu & Hquota & pend & Hp & Hi) E. rewrite E in Ho, Hi.
  pose proof Ho as [Ho1 Ho2]%Forall_app. apply Forall_cons in Ho2 as [Hr Ho2]. simpl in Hr.
  assert (∀ i, field (Add (w_used w) req) i = field (w_used w) i + field req i) as Ha.
  { intros i. destruct (Hi i) as (? & ? & Hle). rewrite uncreated_app in Hle.
    specialize (Hr i). specialize (Hu i). specialize (Hq i).
    pose proof (open_bounds i _ Ho1). pose proof (open_bounds i _ Ho2).
    unfold uncreated in *. simpl in *. apply field_Add_small; lia. }
  unfold safe. cbn [w_man w_used w_open].
  split_and!; [by rewrite !Forall_app, !Forall_cons in *| |done|].
  { intros i. rewrite Ha. specialize (Hr i). specialize (Hu i). lia. }
  exists pend. split; [done|]. intros i. rewrite Ha. destruct (Hi i) as (-> & Hle & Hle2).
  rewrite !all_open_app in *. rewrite !uncreated_app in *.
  unfold all_open, uncreated in *. simpl in *. lia.
Qed.

Lemma safe_cancel w req cr local l1 l2 m' local' :
  (∀ i, field quota i ≤ 2 ^ 61) → safe w → w_open w = l1 ++ (req, cr) :: l2 →
  CancelPendingUsage marshal unmarshal (Err := Err) (w_man w) pid local req = Ret (m', local') →
  safe (World m' (w_used w) (l1 ++ l2)).
Proof.
  intros Hq (Ho & Hu & Hquota & pend & Hp & Hi) E Ec.
  unfold CancelPendingUsage in Ec. rewrite Hp in Ec. cbn [obind] in Ec.
  injection Ec as <- _. rewrite E in Ho, Hi.
  apply Forall_app in Ho as [Ho1 Ho2]. apply Forall_cons in Ho2 as [Hr Ho2]. simpl in Hr.
  assert (∀ i, field pend i = all_open i l1 + field req i + all_open i l2) as Ep.
  { intros i. destruct (Hi i) as (-> & _). rewrite all_open_app. unfold all_open. simpl. lia. }
  assert (∀ i, field (Sub pend req) i = all_open i (l1 ++ l2)) as Hsub.
  { intros i. destruct (Hi i) as (_ & Hle & _). specialize (Ep i). rewrite all_open_app.
    pose proof (open_bounds i _ Ho1). pose proof (open_bounds i _ Ho2). specialize (Hr i).
    specialize (Hq i). rewrite field_Sub_small; lia. }
  unfold safe. cbn [w_man w_used w_open].
  split_and!; [by apply Forall_app|done|exact Hquota|].
  exists (Sub pend req). cbn [pendingStore]. split.
  { apply get_set_eq. intros i. rewrite Hsub.
    pose proof (open_bounds i (l1 ++ l2) (proj2 (Forall_app _ _ _) (conj Ho1 Ho2))). lia. }
  intros i. rewrite Hsub. specialize (Ep i). destruct (Hi i) as (_ & Hle & Hle2).
  rewrite all_open_app in *. rewrite uncreated_app in *. specialize (Hr i).
  unfold uncreated in *. simpl in *. destruct cr; lia.
Qed.

Lemma safe_step w w' : (∀ i, field quota i ≤ 2 ^ 61) → safe w → step w w' → safe w'.
Proof.
  intros Hq Hs Hst. destruct Hst as [w req m' Hr Hr61 E|w req l1 l2 E|w req cr local l1 l2 m' local' E Ec
                 |w used Hun Hule].
  - by apply safe_reserve.
  - by apply safe_create.
  - by eapply safe_cancel.
  - destruct Hs as (Ho & Hu & Hquota & pend & Hp & Hi).
    split_and!; [done|done|done|]. exists pend. split; [done|]. simpl.
    intros i. destruct (Hi i) as (? & ? & ?). specialize (Hule i). lia.
Qed.

Lemma safe_rtc w w' : (∀ i, field quota i ≤ 2 ^ 61) → safe w → rtc step w w' → safe w'.
Proof. intros Hq Hs Hr. induction Hr; [done|]. eauto using safe_step. Qed.

End Laws.

(** A request that [CheckSetPendingQuota] accepts fits: for every field it asks for, usage, pending usage
    and request together are within the quota.  The request is then pending, and no
    other project's pending usage changes. *)
Theorem CheckSetPending_within_quota {Q Err I : Type} `{!IQuota Q Err} {field : Q → I → Z}
    `{!QuotaLaws Q Err I field} (marshal : Q → json) (unmarshal : json → Q → outcome unit Q)
    {P : Type} (db_GetQuota : P → string → Q → outcome quota_error Q) (system : Q)
    (usage : string → outcome quota_error Q) (m m' : SQuotaManager (P := P)) (pid : string)
    (used pend req : Q) :
  (∀ q, unmarshal (marshal q) newQuota = Ret q) →
  usage pid = Ret used → mem_GetQuota (Err := Err) unmarshal (pendingStore m) pid newQuota = Ret pend →
  nonneg (field := field) used → nonneg (field := field) pend → nonneg (field := field) req →
  (∀ i, field used i + field pend i + field req i < 2 ^ 63) →
  CheckSetPendingQuota marshal unmarshal db_GetQuota system usage m pid req = Ret m' →
  (∃ quota, GetQuota db_GetQuota system m pid newQuota = Ret quota ∧
     ∀ i, 0 < field req i → field used i + field pend i + field req i ≤ field quota i) ∧
  (∃ pend', mem_GetQuota (Err := Err) unmarshal (pendingStore m') pid newQuota = Ret pend' ∧
     ∀ i, field pend' i = field pend i + field req i) ∧
  ∀ pid', pid' ≠ pid →
    mem_GetQuota (Err := Err) unmarshal (pendingStore m') pid' newQuota =
    mem_GetQuota unmarshal (pendingStore m) pid' newQuota.
Proof.
  intros Hum Hused Hpend Hu Hp Hr Hs E.
  destruct (checked marshal unmarshal db_GetQuota system usage m pid used pend req
              Hused Hpend Hu Hp Hr Hs m' E) as [Hq ->].
  split; [exact Hq|]. cbn [pendingStore]. split.
  - exists (Add pend req). split.
    + apply (get_set_eq marshal unmarshal Hum). by apply (pending_added_nonneg used pend req).
    + intros i. by apply (pending_added used pend req).
  - intros pid' Hne. by apply get_set_ne.
Qed.

(** Cancelling an accepted request restores the pending usage of every project. *)
Theorem Cancel_undoes_CheckSetPending {Q Err I : Type} `{!IQuota Q Err} {field : Q → I → Z}
    `{!QuotaLaws Q Err I field} (marshal : Q → json) (unmarshal : json → Q → outcome unit Q)
    {P : Type} (db_GetQuota : P → string → Q → outcome quota_error Q) (system : Q)
    (usage : string → outcome quota_error Q) (m m' : SQuotaManager (P := P)) (pid : string)
    (used pend req : Q) :
  (∀ q, unmarshal (marshal q) newQuota = Ret q) →
  usage pid = Ret used → mem_GetQuota (Err := Err) unmarshal (pendingStore m) pid newQuota = Ret pend →
  nonneg (field := field) used → nonneg (field := field) pend → nonneg (field := field) req →
  (∀ i, field used i + field pend i + field req i < 2 ^ 63) →
  CheckSetPendingQuota marshal unmarshal db_GetQuota system usage m pid req = Ret m' →
  ∃ m'', CancelPendingUsage marshal unmarshal (Err := Err) m' pid (Some req) req
           = Ret (m'', Some newQuota) ∧
    ∀ pid', mem_GetQuota (Err := Err) unmarshal (pendingStore m'') pid' newQuota =
            mem_GetQuota unmarshal (pendingStore m) pid' newQuota.
Proof.
  intros Hum Hused Hpend Hu Hp Hr Hs E.
  destruct (checked marshal unmarshal db_GetQuota system usage m pid used pend req
              Hused Hpend Hu Hp Hr Hs m' E) as [_ ->].
  assert (∀ i, field pend i + field req i < 2 ^ 63) as Hs'.
  { intros i. specialize (Hs i). specialize (Hu i). lia. }
  unfold CancelPendingUsage. cbn [pendingStore].
  rewrite (get_set_eq marshal unmarshal Hum _ _ (Add pend req))
    by (by apply (pending_added_nonneg used pend req)).
  cbn [obind fmap option_fmap option_map]. eexists. split.
  - do 3 f_equal. apply (quota_ext (field := field)). intros i. specialize (Hr i). specialize (Hs' i).
    specialize (Hp i). rewrite field_new, (field_Sub_small req req); lia.
  - intros pid'. cbn [pendingStore]. rewrite (Sub_Add pend req) by done.
    destruct (decide (pid = pid')) as [<-|Hne].
    + by rewrite (get_set_eq marshal unmarshal Hum).
    + by rewrite !get_set_ne.
Qed.

(** C19 No overcommitment: for a quota that is at most 2^61 in every field and does not
    change, from a project within it, after any sequence of reservations of non-negative requests of
    at most 2^61 in every field, creations of what was reserved, cancellations and releases, the created
    resources and the reserved ones together stay within the quota, in every field.
    [quota_overflow_accepted] shows why large requests are left out. *)
Theorem no_overcommit {Q Err I : Type} `{!IQuota Q Err} {field : Q → I → Z}
    `{!QuotaLaws Q Err I field} (marshal : Q → json) (unmarshal : json → Q → outcome unit Q)
    {P : Type} (db_GetQuota : P → string → Q → outcome quota_error Q) (system : Q)
    (pid : string) (quota used : Q) (p : P) (w : world) :
  (∀ q, unmarshal (marshal q) newQuota = Ret q) →
  GetQuota db_GetQuota system (MkManager p ∅) pid newQuota = Ret quota →
  (∀ i, 0 ≤ field used i ≤ field quota i) → (∀ i, field quota i ≤ 2 ^ 61) →
  rtc (step (field := field) marshal unmarshal db_GetQuota system pid)
    (World (MkManager p ∅) used []) w →
  ∀ i, field (w_used w) i + uncreated (field := field) i (w_open w) ≤ field quota i.
Proof.
  intros Hum Hq Hused Hsmall Hr i.
  destruct (safe_rtc (field := field) marshal unmarshal Hum db_GetQuota system pid quota
              (World (MkManager p ∅) used []) w Hsmall) as (_ & _ & _ & pend & _ & Hi);
    [|exact Hr|apply Hi].
  split_and!; simpl; [done|intros j; apply Hused|done|].
  exists newQuota. split; [by unfold mem_GetQuota; rewrite lookup_empty|].
  intros j. rewrite field_new. specialize (Hused j). lia.
Qed.

(** ** The image service as an example *)

#[local] Existing Instances ImageQuota.image_quota ImageQuota.image_laws.

Definition image_marshal (q : ImageQuota.SQuota) : json := JDict [("image", JInt (ImageQuota.Image q))].
Definition image_unmarshal (j : json) (q : ImageQuota.SQuota) : outcome unit ImageQuota.SQuota :=
  match Get j "image" with
  | Some (JInt z) => Ret (ImageQuota.MkQuota z)
  | _ => Fail tt
  end.

Lemma image_unmarshal_marshal q : image_unmarshal (image_marshal q) (ImageQuota.MkQuota 0) = Ret q.
Proof. by destruct q. Qed.

(** A database in which every project has the same quota. *)
Definition same_quota (p : Z) (pid : string) (q : ImageQuota.SQuota)
  : outcome (quota_error (Err := ImageQuota.error)) ImageQuota.SQuota :=
  Ret (ImageQuota.MkQuota p).

Abbreviation img := ImageQuota.MkQuota.
Abbreviation img_check used :=
  (CheckSetPendingQuota image_marshal image_unmarshal same_quota (img 0) (λ _, Ret (img used))).

Lemma CheckSetPending_within_quota_witness :
  ∃ m', img_check 3 (MkManager 10 ∅) "p" (img 4) = Ret m' ∧
  (∃ quota, GetQuota same_quota (img 0) (MkManager 10 ∅) "p" (img 0) = Ret quota ∧
     (0 < 4 → 3 + 0 + 4 ≤ ImageQuota.Image quota)).
Proof.
  eexists. split; [vm_compute; reflexivity|].
  destruct (CheckSetPending_within_quota (field := λ q (_ : unit), ImageQuota.Image q)
    image_marshal image_unmarshal same_quota (img 0) (λ _, Ret (img 3)) (MkManager 10 ∅)
    (MkManager 10 {[ "p" := image_marshal (img 4) ]}) "p"
    (img 3) (img 0) (img 4) image_unmarshal_marshal eq_refl)
    as ((quota & Hq & Hle) & _); [vm_compute; reflexivity|intros []; simpl; lia..|vm_compute; reflexivity|].
  exists quota. split; [exact Hq|]. exact (Hle tt).
Defined.

Lemma Cancel_undoes_CheckSetPending_witness :
  ∃ m' m'', img_check 3 (MkManager 10 ∅) "p" (img 4) = Ret m' ∧
    CancelPendingUsage image_marshal image_unmarshal (Err := ImageQuota.error) m' "p"
      (Some (img 4)) (img 4) = Ret (m'', Some (img 0)).
Proof.
  eexists.
  destruct (Cancel_undoes_CheckSetPending (field := λ q (_ : unit), ImageQuota.Image q)
    image_marshal image_unmarshal same_quota (img 0) (λ _, Ret (img 3)) (MkManager 10 ∅)
    (MkManager 10 {[ "p" := image_marshal (img 4) ]}) "p"
    (img 3) (img 0) (img 4) image_unmarshal_marshal eq_refl)
    as (m'' & Hc & _); [vm_compute; reflexivity|intros []; simpl; lia..|vm_compute; reflexivity|].
  exists m''. split; [vm_compute; reflexivity|exact Hc].
Defined.

Lemma no_overcommit_witness :
  ∃ w, rtc (step (field := λ q (_ : unit), ImageQuota.Image q) image_marshal image_unmarshal
              same_quota (img 0) "p") (World (MkManager 10 ∅) (img 3) []) w ∧
    w_open w = [(img 4, false)] ∧ ImageQuota.Image (w_used w) + 4 ≤ 10.
Proof.
  assert (rtc (step (field := λ q (_ : unit), ImageQuota.Image q) image_marshal image_unmarshal
              same_quota (img 0) "p") (World (MkManager 10 ∅) (img 3) [])
              (World (MkManager 10 {[ "p" := image_marshal (img 4) ]}) (img 3) [(img 4, false)]))
    as Hr.
  { apply rtc_once. apply (step_reserve _ _ _ _ _ (World (MkManager 10 ∅) (img 3) []));
      [intros []; simpl; lia..|vm_compute; reflexivity]. }
  eexists. split; [exact Hr|]. split; [reflexivity|].
  assert (∀ i : unit, 3 + 4 ≤ 10) as Hle; [|exact (Hle tt)].
  apply (no_overcommit (field := λ q (_ : unit), ImageQuota.Image q) image_marshal
    image_unmarshal same_quota (img 0) "p" (img 10) (img 3) 10
    (World (MkManager 10 {[ "p" := image_marshal (img 4) ]}) (img 3) [(img 4, false)])
    image_unmarshal_marshal); [vm_compute; reflexivity|simpl; lia..|exact Hr].
Defined.

(** The sums are machine integers: with one image in use and a quota of ten, a request for the largest
    integer wraps around to a negative sum, is accepted and becomes pending. *)
Theorem quota_overflow_accepted :
  img_check 1 (MkManager 10 ∅) "p" (img max_int64) =
    Ret (MkManager 10 {[ "p" := image_marshal (img max_int64) ]}) ∧
  img_check 1 (MkManager 10 ∅) "p" (img 10) = Fail (OutOfQuota ImageQuota.ErrOutOfImage).
Proof. split; vm_compute; reflexivity. Qed.

End QuotaSafety.
