(* ===== verification/LockMan.v ===== *)
(** * The in-memory lock manager: pkg/cloudcommon/db/lockman

    A lock is a record in a table, reached through a pointer, so the model keeps a heap
    of records and a table from keys to heap addresses.  A context is a number, and each
    context runs one thread.  A run is a sequence of events: the table lookup of
    [LockKey], the entry into [lockContext] up to its first [Wait], a return from
    [Wait], and [UnlockKey], which holds the table lock throughout. *)

From S2P Require Import Prelude.
Local Open Scope Z_scope.
Local Open Scope go_scope.

Module LockMan.

(** ** FIFO (fifo.go) *)

Definition FIFO := list nat.
Definition NewFIFO : list nat := [].
Definition Push (f : list nat) (ele : nat) : list nat := f ++ [ele].

(** [Pop] removes the first occurrence of the element, wherever it is. *)
Fixpoint Pop (f : list nat) (ele : nat) : list nat :=
  match f with
  | [] => []
  | e :: f => if (e =? ele)%nat then f else e :: Pop f ele
  end.

Definition Len (f : list nat) : nat := length f.

(** ** Records (inmemory.go) *)

(** [sleeping] is the queue of the condition variable, [awake] the waiters that have
    been signalled and have not yet taken the mutex again. *)
Record SInMemoryLockRecord := LockRecord {
  holder : option nat;
  depth : Z;
  waiter : list nat;
  sleeping : list nat;
  awake : list nat }.

Definition newInMemoryLockRecord (ctx : nat) : SInMemoryLockRecord :=
  LockRecord (Some ctx) 0 NewFIFO [] [].

Inductive lock_error :=
| WaiterLocksAgain
| UnlockOfOther
| NotEnabled.

Inductive lock_result :=
| Acquired (rec : SInMemoryLockRecord)
| Blocked (rec : SInMemoryLockRecord).

(** [lockContext] up to the first [cond.Wait]. *)
Definition lockContext (rec : SInMemoryLockRecord) (ctx : nat) : outcome lock_error lock_result :=
  match holder rec with
  | None => Ret (Acquired (LockRecord (Some ctx) 1 (waiter rec) (sleeping rec) (awake rec)))
  | Some h =>
    if (h =? ctx)%nat then
      if 32 <? depth rec + 1 then Panic
      else Ret (Acquired (LockRecord (Some h) (depth rec + 1) (waiter rec) (sleeping rec)
                            (awake rec)))
    else if bool_decide (ctx ∈ waiter rec) then Fail WaiterLocksAgain
    else Ret (Blocked (LockRecord (Some h) (depth rec) (Push (waiter rec) ctx)
                         (sleeping rec ++ [ctx]) (awake rec)))
  end.

(** The return from [cond.Wait]: the loop tests the holder again. *)
Definition lockContext_wake (rec : SInMemoryLockRecord) (ctx : nat) : lock_result :=
  match holder rec with
  | Some h => Blocked (LockRecord (Some h) (depth rec) (waiter rec) (sleeping rec ++ [ctx])
                         (Pop (awake rec) ctx))
  | None => Acquired (LockRecord (Some ctx) 1 (Pop (waiter rec) ctx) (sleeping rec)
                        (Pop (awake rec) ctx))
  end.

(** [unlockContext]: the record and [needClean].  [cond.Signal] wakes the context that
    has waited longest. *)
Definition unlockContext (rec : SInMemoryLockRecord) (ctx : nat)
  : outcome lock_error (SInMemoryLockRecord * bool) :=
  if bool_decide (holder rec ≠ Some ctx) then Fail UnlockOfOther
  else
    let d := depth rec - 1 in
    if d <=? 0 then
      if (Len (waiter rec) =? 0)%nat
      then Ret (LockRecord None d (waiter rec) (sleeping rec) (awake rec), true)
      else Ret (match sleeping rec with
                | [] => LockRecord None d (waiter rec) [] (awake rec)
                | w :: ws => LockRecord None d (waiter rec) ws (awake rec ++ [w])
                end, false)
    else Ret (LockRecord (Some ctx) d (waiter rec) (sleeping rec) (awake rec), false).

(** ** The manager and its threads *)

(** Where a context is: between the lookup and [lockContext], or in [cond.Wait]. *)
Inductive position := Looked (key : string) (r : nat) | Waits (key : string) (r : nat).

(** [held] counts the [LockKey] calls of a context that have returned, less its
    [UnlockKey] calls. *)
Record state := State {
  heap : list SInMemoryLockRecord;
  lockTable : gmap string nat;
  pos : gmap nat position;
  held : gmap (nat * string) Z }.

Definition NewInMemoryLockManager : state := State [] ∅ ∅ ∅.

Definition count (s : state) (c : nat) (k : string) : Z := default 0 (held s !! (c, k)).

(** [getRecordWithLock]. *)
Definition getRecord (s : state) (ctx : nat) (key : string) : state * nat :=
  match lockTable s !! key with
  | Some r => (s, r)
  | None => (State (heap s ++ [newInMemoryLockRecord ctx]) (<[key := length (heap s)]> (lockTable s))
               (pos s) (held s), length (heap s))
  end.

(** The state after [lockContext] has returned or has gone to sleep. *)
Definition settle (s : state) (ctx : nat) (key : string) (r : nat) (res : lock_result) : state :=
  match res with
  | Acquired rec => State (<[r := rec]> (heap s)) (lockTable s) (delete ctx (pos s))
                      (<[(ctx, key) := count s ctx key + 1]> (held s))
  | Blocked rec => State (<[r := rec]> (heap s)) (lockTable s)
                     (<[ctx := Waits key r]> (pos s)) (held s)
  end.

Inductive event :=
| Lookup (ctx : nat) (key : string)
| Enter (ctx : nat)
| Wake (ctx : nat)
| Unlock (ctx : nat) (key : string).

Definition UnlockKey (s : state) (ctx : nat) (key : string) : outcome lock_error state :=
  match lockTable s !! key with
  | None => Ret s
  | Some r =>
    let! rec := of_opt (heap s !! r) in
    let! (rec', needClean) := unlockContext rec ctx in
    Ret (State (<[r := rec']> (heap s))
           (if needClean then delete key (lockTable s) else lockTable s) (pos s)
           (<[(ctx, key) := count s ctx key - 1]> (held s)))
  end.

Definition exec (s : state) (e : event) : outcome lock_error state :=
  match e with
  | Lookup c k =>
    match pos s !! c with
    | Some _ => Fail NotEnabled
    | None => let (s', r) := getRecord s c k in
              Ret (State (heap s') (lockTable s') (<[c := Looked k r]> (pos s')) (held s'))
    end
  | Enter c =>
    match pos s !! c with
    | Some (Looked k r) =>
      let! rec := of_opt (heap s !! r) in
      let! res := lockContext rec c in
      Ret (settle s c k r res)
    | _ => Fail NotEnabled
    end
  | Wake c =>
    match pos s !! c with
    | Some (Waits k r) =>
      let! rec := of_opt (heap s !! r) in
      if bool_decide (c ∈ awake rec) then Ret (settle s c k r (lockContext_wake rec c))
      else Fail NotEnabled
    | _ => Fail NotEnabled
    end
  | Unlock c k =>
    match pos s !! c with
    | Some _ => Fail NotEnabled
    | None => UnlockKey s c k
    end
  end.

Fixpoint run (s : state) (es : list event) : outcome lock_error state :=
  match es with
  | [] => Ret s
  | e :: es => let! s' := exec s e in run s' es
  end.

(** [LockKey] without another event between its two halves. *)
Definition LockKey (s : state) (ctx : nat) (key : string) : outcome lock_error state :=
  run s [Lookup ctx key; Enter ctx].

(** ** Keys and the package functions (lockman.go) *)

Record ILockedObject := LockedObject { Keyword : string; GetId : string }.

Definition getClassKey (keyword projectId : string) : string := keyword +:+ "-" +:+ projectId.
Definition getRawObjectKey (resName resId : string) : string := resName +:+ "-" +:+ resId.
Definition getObjectKey (model : ILockedObject) : string :=
  getRawObjectKey (Keyword model) (GetId model).
Definition getJointObjectKey (model model2 : ILockedObject) : string :=
  getObjectKey model +:+ "-" +:+ getObjectKey model2.

Definition LockClass (s : state) (ctx : nat) (keyword projectId : string) :=
  LockKey s ctx (getClassKey keyword projectId).
Definition ReleaseClass (s : state) (ctx : nat) (keyword projectId : string) :=
  UnlockKey s ctx (getClassKey keyword projectId).
Definition LockObject (s : state) (ctx : nat) (model : ILockedObject) :=
  LockKey s ctx (getObjectKey model).
Definition ReleaseObject (s : state) (ctx : nat) (model : ILockedObject) :=
  UnlockKey s ctx (getObjectKey model).
Definition LockRawObject (s : state) (ctx : nat) (resName resId : string) :=
  LockKey s ctx (getRawObjectKey resName resId).
Definition ReleaseRawObject (s : state) (ctx : nat) (resName resId : string) :=
  UnlockKey s ctx (getRawObjectKey resName resId).
Definition LockJointObject (s : state) (ctx : nat) (model model2 : ILockedObject) :=
  LockKey s ctx (getJointObjectKey model model2).
Definition ReleaseJointObject (s : state) (ctx : nat) (model model2 : ILockedObject) :=
  UnlockKey s ctx (getJointObjectKey model model2).

(** ** The race between the lookup and [lockContext] *)

(** Context 2 looks the record up, context 1 unlocks and removes it from the table,
    context 2 takes the removed record and context 3 a new one. *)
Definition race : list event :=
  [Lookup 1 "k"; Enter 1; Lookup 2 "k"; Unlock 1 "k"; Enter 2; Lookup 3 "k"; Enter 3].

(** Two contexts can hold the same key: another context looks the record up before
    the holder releases and removes it.  The first of the two to unlock then ends the
    program, since the record in the table belongs to the other one. *)
Theorem LockKey_race :
  ∃ s, run NewInMemoryLockManager race = Ret s ∧ count s 2 "k" = 1 ∧ count s 3 "k" = 1 ∧
    exec s (Unlock 2 "k") = Fail UnlockOfOther.
Proof. eexists. split; [vm_compute; reflexivity|]. split_and!; vm_compute; reflexivity. Qed.

End LockMan.
