(* ===== verification/LockSafety.v ===== *)
(** * Mutual exclusion of the in-memory lock manager

    For runs in which no event falls between the two halves of [LockKey] (the race of
    LockMan.v), by induction on the run. *)

From S2P Require Import Prelude LockMan.
Import LockMan.
Local Open Scope Z_scope.
Local Open Scope go_scope.

Module LockSafety.

Inductive aevent :=
| ALock (ctx : nat) (key : string)
| AWake (ctx : nat)
| AUnlock (ctx : nat) (key : string).

Definition aexec (s : state) (e : aevent) : outcome lock_error state :=
  match e with
  | ALock c k => LockKey s c k
  | AWake c => exec s (Wake c)
  | AUnlock c k => exec s (Unlock c k)
  end.

(** The states an empty manager reaches. *)
Inductive reachable : state → Prop :=
| reachable_init : reachable NewInMemoryLockManager
| reachable_step s e s' : reachable s → aexec s e = Ret s' → reachable s'.

(** ** The invariant *)

(** A record in the table: its waiters are the contexts that wait for it, each asleep or
    awake; a holder holds the key as often as the depth says and nobody else does; a
    record without a holder has a waiter that is awake. *)
Definition rec_inv (s : state) (k : string) (r : nat) (rec : SInMemoryLockRecord) : Prop :=
  NoDup (waiter rec) ∧ waiter rec ≡ₚ sleeping rec ++ awake rec ∧
  (∀ c, c ∈ waiter rec ↔ pos s !! c = Some (Waits k r)) ∧
  match holder rec with
  | Some h => 1 ≤ depth rec ≤ 32 ∧
              ∀ c, count s c k = if decide (c = h) then depth rec else 0
  | None => awake rec ≠ [] ∧ ∀ c, count s c k = 0
  end.

Definition key_inv (s : state) (k : string) : Prop :=
  match lockTable s !! k with
  | None => ∀ c, count s c k = 0
  | Some r => ∃ rec, heap s !! r = Some rec ∧ rec_inv s k r rec
  end.

Record inv (s : state) : Prop := {
  inv_pos c p : pos s !! c = Some p → ∃ k r, p = Waits k r ∧ lockTable s !! k = Some r;
  inv_inj k1 k2 r : lockTable s !! k1 = Some r → lockTable s !! k2 = Some r → k1 = k2;
  inv_key k : key_inv s k }.

(** The parts of the state that belong to the other keys. *)
Definition same_elsewhere (s s' : state) (k : string) : Prop :=
  (∀ k' r', k' ≠ k → lockTable s !! k' = Some r' → heap s' !! r' = heap s !! r') ∧
  (∀ k', k' ≠ k → lockTable s' !! k' = lockTable s !! k') ∧
  (∀ c k', k' ≠ k → count s' c k' = count s c k') ∧
  (∀ c k' r', k' ≠ k → pos s' !! c = Some (Waits k' r') ↔ pos s !! c = Some (Waits k' r')).

Lemma key_inv_frame s s' k k' :
  same_elsewhere s s' k → k' ≠ k → key_inv s k' → key_inv s' k'.
Proof.
  intros (Hh & Ht & Hc & Hp) Hne. unfold key_inv. rewrite Ht by done.
  destruct (lockTable s !! k') as [r|] eqn:Er; [|intros H c; by rewrite Hc].
  intros (rec & Hrec & Hnd & Hperm & Hw & Hrest). exists rec.
  split; [by rewrite (Hh k' r)|]. split_and!; [done|done| |].
  - intros c. by rewrite Hp.
  - destruct (holder rec); destruct Hrest as [? Hcnt]; split; try done; intros c; by rewrite Hc.
Qed.

Lemma inv_frame s s' k :
  inv s → same_elsewhere s s' k →
  (∀ c p, pos s' !! c = Some p → ∃ k r, p = Waits k r ∧ lockTable s' !! k = Some r) →
  (∀ r k', lockTable s' !! k = Some r → k' ≠ k → lockTable s !! k' ≠ Some r) →
  key_inv s' k → inv s'.
Proof.
  intros [Hpos Hinj Hkey] Hsame Hpos' Hfresh Hk. split; [done| |].
  - destruct Hsame as (_ & Ht & _). intros k1 k2 r H1 H2.
    destruct (decide (k1 = k)) as [->|N1], (decide (k2 = k)) as [->|N2]; try done.
    + rewrite Ht in H2 by done. by destruct (Hfresh r k2).
    + rewrite Ht in H1 by done. by destruct (Hfresh r k1).
    + rewrite Ht in H1, H2 by done. by apply (Hinj _ _ r).
  - intros k'. destruct (decide (k' = k)) as [->|Hne]; [done|].
    by apply (key_inv_frame s s' k).
Qed.

Lemma count_insert_eq s h t p c k z :
  count (State h t p (<[(c, k) := z]> (held s))) c k = z.
Proof. unfold count. simpl. by rewrite lookup_insert_eq. Qed.

Lemma count_insert_ne s h t p c k z c' k' :
  (c', k') ≠ (c, k) →
  count (State h t p (<[(c, k) := z]> (held s))) c' k' = count s c' k'.
Proof. intros Hne. unfold count. simpl. by rewrite lookup_insert_ne by congruence. Qed.

(** ** Locking *)

Lemma LockKey_eq s c k :
  LockKey s c k =
    match pos s !! c with
    | Some _ => Fail NotEnabled
    | None =>
      let (s1, r) := getRecord s c k in
      let! rec := of_opt (heap s1 !! r) in
      let! res := lockContext rec c in
      Ret (settle s1 c k r res)
    end.
Proof.
  unfold LockKey, run, exec. destruct (pos s !! c); [done|].
  destruct (getRecord s c k) as [s1 r]. cbn [obind pos heap].
  rewrite lookup_insert_eq. destruct (heap s1 !! r) as [rec|]; [|done]. cbn [obind of_opt].
  destruct (lockContext rec c) as [[rec'|rec']| | |]; try done; cbn [obind settle lockTable held pos heap].
  - by rewrite delete_insert_eq.
  - by rewrite insert_insert_eq.
Qed.

(** The record after acquiring or blocking satisfies the invariant of its key, if the
    table points to it and every other key is as before. *)
Lemma settle_inv s0 s c k r res rec' :
  inv s0 → heap s !! r ≠ None → lockTable s !! k = Some r →
  (∀ k', k' ≠ k → lockTable s !! k' = lockTable s0 !! k') →
  (∀ k' r', k' ≠ k → lockTable s0 !! k' = Some r' → r' ≠ r ∧ heap s !! r' = heap s0 !! r') →
  pos s = pos s0 → held s = held s0 →
  (pos s !! c = None ∨ pos s !! c = Some (Waits k r)) →
  (∀ r', lockTable s0 !! k = Some r' → r' = r) →
  (res = Acquired rec' ∨ res = Blocked rec') →
  rec_inv (settle s c k r res) k r rec' → inv (settle s c k r res).
Proof.
  intros Hinv Hr Ht Htk Hhk Hpos Hheld Hc Hold Hres Hrec.
  assert (∀ c' k', k' ≠ k → count (settle s c k r res) c' k' = count s0 c' k') as Hcnt.
  { intros c' k' Hne. destruct Hres as [-> | ->]; simpl.
    - rewrite count_insert_ne by congruence. unfold count. by rewrite Hheld.
    - unfold count. simpl. by rewrite Hheld. }
  assert (∀ c' k' r', k' ≠ k → pos (settle s c k r res) !! c' = Some (Waits k' r') ↔
            pos s0 !! c' = Some (Waits k' r')) as Hp.
  { intros c' k' r' Hne. rewrite <- Hpos.
    destruct Hres as [-> | ->]; simpl; destruct (decide (c' = c)) as [->|Hcc].
    - rewrite lookup_delete_eq. split; [done|]. destruct Hc as [-> | ->]; congruence.
    - by rewrite lookup_delete_ne.
    - rewrite lookup_insert_eq. destruct Hc as [-> | ->]; split; congruence.
    - by rewrite lookup_insert_ne. }
  assert (lockTable (settle s c k r res) = lockTable s) as Et by (by destruct res).
  assert (heap (settle s c k r res) = <[r := rec']> (heap s)) as Eh
    by (by destruct Hres as [-> | ->]).
  apply (inv_frame s0 _ k); [done|split_and!| | |].
  - intros k' r' Hne Hk'. destruct (Hhk k' r' Hne Hk') as [Hrr Hh]. rewrite Eh.
    by rewrite list_lookup_insert_ne.
  - intros k' Hne. rewrite Et. by apply Htk.
  - done.
  - done.
  - intros c' p Hcp. destruct (decide (c' = c)) as [->|Hcc].
    { destruct Hres as [-> | ->]; simpl in Hcp; [by rewrite lookup_delete_eq in Hcp|].
      rewrite lookup_insert_eq in Hcp. simplify_eq. by exists k, r. }
    assert (pos s0 !! c' = Some p) as Hcp0.
    { rewrite <- Hpos. destruct Hres as [-> | ->]; simpl in Hcp;
        [by rewrite lookup_delete_ne in Hcp|by rewrite lookup_insert_ne in Hcp]. }
    destruct (inv_pos _ Hinv c' p Hcp0) as (k' & r' & -> & Hk'). exists k', r'.
    split; [done|]. rewrite Et. destruct (decide (k' = k)) as [->|Hne]; [|by rewrite Htk].
    by rewrite (Hold r' Hk').
  - intros r' k' Hk' Hne Hx. rewrite Et, Ht in Hk'. simplify_eq.
    by destruct (Hhk k' r' Hne Hx).
  - unfold key_inv. rewrite Et, Ht. exists rec'. split; [|done].
    rewrite Eh. apply list_lookup_insert_eq. apply lookup_lt_is_Some.
    destruct (heap s !! r); [by eexists|done].
Qed.

Lemma elem_of_Pop l c x : NoDup l → x ∈ Pop l c ↔ x ∈ l ∧ x ≠ c.
Proof.
  induction 1 as [|y l Hy _ IH]; simpl; [rewrite elem_of_nil; tauto|].
  destruct (Nat.eqb_spec y c) as [->|Hne]; rewrite !elem_of_cons.
  - split; [|tauto]. intros Hx. split; [by right|]. by intros ->.
  - rewrite IH. split; [|tauto]. intros [->|[? ?]]; tauto.
Qed.

Lemma Pop_Permutation l c : c ∈ l → l ≡ₚ c :: Pop l c.
Proof.
  induction l as [|y l IH]; [by intros ?%elem_of_nil|]. intros Hc. simpl.
  destruct (Nat.eqb_spec y c) as [->|Hne]; [done|].
  apply elem_of_cons in Hc as [->|Hc]; [done|]. rewrite (IH Hc) at 1. apply perm_swap.
Qed.

Lemma NoDup_Pop l c : NoDup l → NoDup (Pop l c).
Proof.
  induction 1 as [|y l Hy Hl IH]; simpl; [constructor|].
  destruct (Nat.eqb_spec y c); [done|]. constructor; [|done]. by rewrite elem_of_Pop; [intros []|].
Qed.

Lemma not_waiting s k r rec c :
  rec_inv s k r rec → pos s !! c = None → c ∉ waiter rec.
Proof. intros (_ & _ & Hw & _) Hc Hin. apply Hw in Hin. congruence. Qed.

(** A record whose holder is now [c] at depth [d]. *)
Lemma count_acquired s h t p c k d :
  (∀ c', count s c' k = if decide (c' = c) then d - 1 else 0) →
  ∀ c', count (State h t p (<[(c, k) := count s c k + 1]> (held s))) c' k =
        if decide (c' = c) then d else 0.
Proof.
  intros Hcnt c'. case_decide as Hc.
  - subst. rewrite count_insert_eq, Hcnt, decide_True by done. lia.
  - rewrite count_insert_ne by congruence. by rewrite Hcnt, decide_False.
Qed.

Lemma LockKey_new_inv s c k :
  inv s → pos s !! c = None → lockTable s !! k = None →
  ∀ s', LockKey s c k = Ret s' → inv s'.
Proof.
  intros Hinv Hc Hk s'. rewrite LockKey_eq, Hc. unfold getRecord. rewrite Hk. cbn [heap].
  rewrite lookup_app_r, Nat.sub_diag by done. cbn [obind of_opt lookup list_lookup].
  unfold lockContext. cbn [newInMemoryLockRecord holder depth waiter sleeping awake].
  rewrite Nat.eqb_refl. intros E.
  assert (settle (State (heap s ++ [newInMemoryLockRecord c]) (<[k := length (heap s)]> (lockTable s))
            (pos s) (held s)) c k (length (heap s)) (Acquired (LockRecord (Some c) 1 [] [] [])) = s')
    as <- by (by injection E as <-).
  pose proof (inv_key _ Hinv k) as Hcnt. unfold key_inv in Hcnt. rewrite Hk in Hcnt.
  eapply (settle_inv s); [done|..|by left|]; cbn [heap lockTable pos held].
  - by rewrite lookup_app_r, Nat.sub_diag.
  - by rewrite lookup_insert_eq.
  - intros k' Hne. by rewrite lookup_insert_ne.
  - intros k' r' Hne Hr'. pose proof (inv_key _ Hinv k') as Hk'. unfold key_inv in Hk'.
    rewrite Hr' in Hk'. destruct Hk' as (rec & Hrec & _).
    apply lookup_lt_Some in Hrec as Hlt. split; [lia|]. by rewrite lookup_app_l.
  - done.
  - done.
  - by left.
  - intros r' Hr'. congruence.
  - split_and!; cbn [waiter sleeping awake holder depth]; [apply NoDup_nil_2|done| |].
    + intros c'. split; [by intros ?%elem_of_nil|]. simpl. intros Hp.
      destruct (decide (c' = c)) as [->|Hne]; [by rewrite lookup_delete_eq in Hp|].
      rewrite lookup_delete_ne in Hp by done.
      destruct (inv_pos _ Hinv c' _ Hp) as (? & ? & ? & ?). congruence.
    + split; [lia|]. cbn [settle]. apply count_acquired. intros c'.
      change (count s c' k = if decide (c' = c) then 0 else 0). rewrite Hcnt. by case_decide.
Qed.

Lemma LockKey_old_inv s c k r :
  inv s → pos s !! c = None → lockTable s !! k = Some r →
  ∀ s', LockKey s c k = Ret s' → inv s'.
Proof.
  intros Hinv Hc Hk s'. rewrite LockKey_eq, Hc. unfold getRecord. rewrite Hk.
  pose proof (inv_key _ Hinv k) as Hki. unfold key_inv in Hki. rewrite Hk in Hki.
  destruct Hki as (rec & Hr & Hrec). rewrite Hr. cbn [obind of_opt].
  pose proof (not_waiting _ _ _ _ _ Hrec Hc) as Hnw.
  destruct Hrec as (Hnd & Hperm & Hw & Hrest).
  destruct (lockContext rec c) as [res| | |] eqn:El; try done. cbn [obind]. intros [= <-].
  assert (∃ rec', (res = Acquired rec' ∨ res = Blocked rec') ∧ rec_inv (settle s c k r res) k r rec')
    as (rec' & Hres & Hinv').
  { unfold lockContext in El. destruct (holder rec) as [h|] eqn:Eh.
    - destruct Hrest as [Hd Hcnt]. destruct (Nat.eqb_spec h c) as [->|Hne].
      + destruct (Z.ltb_spec 32 (depth rec + 1)); [done|]. simplify_eq. eexists.
        split; [by left|]. split_and!; simpl; [done|done| |].
        * intros c'. rewrite Hw. destruct (decide (c' = c)) as [->|]; [|by rewrite lookup_delete_ne].
          rewrite Hc, lookup_delete_eq. done.
        * split; [lia|]. apply count_acquired. intros c'. rewrite Hcnt. case_decide; lia.
      + rewrite bool_decide_false in El by done. simplify_eq. eexists. split; [by right|].
        split_and!; simpl; [| | |].
        * unfold Push. apply NoDup_app. split_and!; [done| |apply NoDup_singleton].
          intros x Hx ->%list_elem_of_singleton. done.
        * unfold Push. rewrite Hperm. rewrite <- !app_assoc. apply Permutation_app_head, Permutation_app_comm.
        * intros c'. unfold Push. rewrite elem_of_app, list_elem_of_singleton, Hw.
          destruct (decide (c' = c)) as [->|]; [rewrite lookup_insert_eq; tauto|].
          rewrite lookup_insert_ne by done. split; [|tauto]. intros [?|?]; [done|congruence].
        * split; [lia|]. intros c'. unfold count. simpl. apply Hcnt.
    - destruct Hrest as [Ha Hcnt]. simplify_eq. eexists. split; [by left|].
      split_and!; simpl; [done|done| |].
      + intros c'. rewrite Hw. destruct (decide (c' = c)) as [->|]; [|by rewrite lookup_delete_ne].
        rewrite Hc, lookup_delete_eq. done.
      + split; [lia|]. apply count_acquired. intros c'. rewrite Hcnt. by case_decide. }
  eapply (settle_inv s); [done|by rewrite Hr|done|done| |done|done|by left| |exact Hres|exact Hinv'].
  - intros k' r' Hne Hr'. split; [|done]. intros ->. by apply Hne, (inv_inj _ Hinv _ _ r).
  - intros r' Hr'. congruence.
Qed.

Lemma Wake_inv s c s' : inv s → exec s (Wake c) = Ret s' → inv s'.
Proof.
  intros Hinv. unfold exec. destruct (pos s !! c) as [[k r|k r]|] eqn:Ec; try done.
  destruct (inv_pos _ Hinv _ _ Ec) as (k' & r' & [= <- <-] & Hk).
  pose proof (inv_key _ Hinv k) as Hki. unfold key_inv in Hki. rewrite Hk in Hki.
  destruct Hki as (rec & Hr & Hnd & Hperm & Hw & Hrest). rewrite Hr. cbn [obind of_opt].
  case_bool_decide as Ha; [|done]. intros [= <-].
  assert (c ∈ waiter rec) as Hcw by (by apply Hw).
  assert (∃ rec', (lockContext_wake rec c = Acquired rec' ∨ lockContext_wake rec c = Blocked rec') ∧
    rec_inv (settle s c k r (lockContext_wake rec c)) k r rec') as (rec' & Hres & Hinv').
  { unfold lockContext_wake. destruct (holder rec) as [h|] eqn:Eh; destruct Hrest as [Hd Hcnt].
    - eexists. split; [by right|]. split_and!; simpl; [done| | |].
      + rewrite Hperm, (Pop_Permutation _ _ Ha) at 1. rewrite <- app_assoc. done.
      + intros c'. rewrite Hw. destruct (decide (c' = c)) as [->|];
          [by rewrite Ec, lookup_insert_eq|by rewrite lookup_insert_ne].
      + split; [lia|]. intros c'. unfold count. simpl. apply Hcnt.
    - eexists. split; [by left|]. split_and!; simpl; [by apply NoDup_Pop| | |].
      + apply (Permutation_cons_inv (a := c)). rewrite <- (Pop_Permutation _ _ Hcw), Hperm.
        rewrite (Pop_Permutation _ _ Ha) at 1. by rewrite Permutation_middle.
      + intros c'. rewrite elem_of_Pop, Hw by done.
        destruct (decide (c' = c)) as [->|]; [rewrite lookup_delete_eq|rewrite lookup_delete_ne by done];
          [split; [tauto|done]|tauto].
      + split; [lia|]. apply count_acquired. intros c'. rewrite Hcnt. by case_decide. }
  eapply (settle_inv s); [done|by rewrite Hr|done|done| |done|done|by right| |exact Hres|exact Hinv'].
  - intros k' r' Hne Hr'. split; [|done]. intros ->. by apply Hne, (inv_inj _ Hinv _ _ r).
  - intros r' Hr'. congruence.
Qed.

(** ** Unlocking *)

Lemma count_released s h t p c k d :
  (∀ c', count s c' k = if decide (c' = c) then d else 0) →
  ∀ c', count (State h t p (<[(c, k) := count s c k - 1]> (held s))) c' k =
        if decide (c' = c) then d - 1 else 0.
Proof.
  intros Hcnt c'. case_decide as Hc.
  - subst. by rewrite count_insert_eq, Hcnt, decide_True.
  - rewrite count_insert_ne by congruence. by rewrite Hcnt, decide_False.
Qed.

(** Unlocking changes nothing for the other keys. *)
Lemma unlock_elsewhere s k r rec' t' c z :
  inv s → lockTable s !! k = Some r → (∀ k', k' ≠ k → t' !! k' = lockTable s !! k') →
  same_elsewhere s (State (<[r := rec']> (heap s)) t' (pos s) (<[(c, k) := z]> (held s))) k.
Proof.
  intros Hinv Hk Ht. split_and!; simpl.
  - intros k' r' Hne Hr'. rewrite list_lookup_insert_ne; [done|]. intros ->.
    by apply Hne, (inv_inj _ Hinv _ _ r').
  - done.
  - intros c' k' Hne. apply count_insert_ne. congruence.
  - done.
Qed.

(** The record that stays in the table after an unlock. *)
Lemma unlock_keeps_inv s k r rec' c :
  inv s → lockTable s !! k = Some r → heap s !! r ≠ None →
  let s' := State (<[r := rec']> (heap s)) (lockTable s) (pos s)
              (<[(c, k) := count s c k - 1]> (held s)) in
  rec_inv s' k r rec' → inv s'.
Proof.
  intros Hinv Hk Hr s' Hrec. apply (inv_frame s s' k); [done|by apply unlock_elsewhere| | |].
  - intros c' p Hp. exact (inv_pos _ Hinv c' p Hp).
  - intros r' k' Hr' Hne Hx. simpl in Hr'. by apply Hne, (inv_inj _ Hinv _ _ r').
  - unfold key_inv. simpl. rewrite Hk. exists rec'. split; [|done].
    apply list_lookup_insert_eq, lookup_lt_is_Some. destruct (heap s !! r); [by eexists|done].
Qed.

(** The record with no waiter is removed from the table. *)
Lemma unlock_cleans_inv s k r rec rec' c :
  inv s → lockTable s !! k = Some r → heap s !! r = Some rec → rec_inv s k r rec →
  waiter rec = [] → holder rec = Some c → depth rec = 1 →
  inv (State (<[r := rec']> (heap s)) (delete k (lockTable s)) (pos s)
         (<[(c, k) := count s c k - 1]> (held s))).
Proof.
  intros Hinv Hk Hr Hrec Hnow Hh Hd.
  assert (∀ c', pos s !! c' ≠ Some (Waits k r)) as Hnp.
  { intros c' Hp. destruct Hrec as (_ & _ & Hw & _). apply Hw in Hp. rewrite Hnow in Hp.
    by apply elem_of_nil in Hp. }
  eapply (inv_frame s _ k); [done| | | |].
  - apply unlock_elsewhere; [done|done|]. intros k' Hne. by rewrite lookup_delete_ne.
  - simpl. intros c' p Hp. destruct (inv_pos _ Hinv c' p Hp) as (k' & r' & -> & Hk').
    exists k', r'. split; [done|]. destruct (decide (k' = k)) as [->|Hne].
    + exfalso. rewrite Hk in Hk'. simplify_eq. by apply (Hnp c').
    + by rewrite lookup_delete_ne.
  - simpl. intros r' k'. by rewrite lookup_delete_eq.
  - unfold key_inv. cbn [lockTable]. rewrite lookup_delete_eq. intros c'.
    destruct Hrec as (_ & _ & _ & Hrest). rewrite Hh in Hrest. destruct Hrest as [_ Hcnt].
    rewrite (count_released _ _ _ _ _ _ _ Hcnt). case_decide; lia.
Qed.

Lemma Unlock_inv s c k s' : inv s → exec s (Unlock c k) = Ret s' → inv s'.
Proof.
  intros Hinv. unfold exec. destruct (pos s !! c); [done|]. unfold UnlockKey.
  destruct (lockTable s !! k) as [r|] eqn:Hk; [|by intros [= <-]].
  pose proof (inv_key _ Hinv k) as Hki. unfold key_inv in Hki. rewrite Hk in Hki.
  destruct Hki as (rec & Hr & Hrec). rewrite Hr. cbn [obind of_opt].
  assert (heap s !! r ≠ None) as Hrn by congruence.
  pose proof Hrec as (Hnd & Hperm & Hw & Hrest).
  unfold unlockContext. case_bool_decide as Hh; [done|].
  rewrite Hh in Hrest. destruct Hrest as [Hd Hcnt].
  destruct (Z.leb_spec (depth rec - 1) 0).
  - destruct (Nat.eqb_spec (Len (waiter rec)) 0) as [El|El].
    + cbn [obind]. intros [= <-]. apply (unlock_cleans_inv s k r rec); [done..| |done|lia].
      by apply length_zero_iff_nil.
    + cbn [obind]. intros [= <-]. apply unlock_keeps_inv; [done..|].
      destruct (sleeping rec) as [|w ws] eqn:Es; split_and!; simpl; try done.
      * split; [intros Ha; rewrite Ha in Hperm; apply El; by rewrite Hperm|].
        intros c'. rewrite (count_released _ _ _ _ _ _ _ Hcnt). case_decide; lia.
      * rewrite Hperm. simpl. by rewrite app_assoc, <- Permutation_cons_append.
      * split; [by destruct (awake rec)|].
        intros c'. rewrite (count_released _ _ _ _ _ _ _ Hcnt). case_decide; lia.
  - cbn [obind]. intros [= <-]. apply unlock_keeps_inv; [done..|].
    split_and!; simpl; try done. split; [lia|].
    intros c'. by rewrite (count_released _ _ _ _ _ _ _ Hcnt).
Qed.

Lemma reachable_inv s : reachable s → inv s.
Proof.
  induction 1 as [|s [c k|c|c k] s' _ IH E].
  - split; [done|done|]. intros k. unfold key_inv. simpl. rewrite lookup_empty.
    intros c. unfold count. simpl. by rewrite lookup_empty.
  - simpl in E. destruct (pos s !! c) eqn:Ec; [by rewrite LockKey_eq, Ec in E|].
    destruct (lockTable s !! k) as [r|] eqn:Ek.
    + by apply (LockKey_old_inv s c k r).
    + by apply (LockKey_new_inv s c k).
  - by apply (Wake_inv s c).
  - by apply (Unlock_inv s c k).
Qed.

(** C5 Mutual exclusion: in every reachable state, for all runs of locks, wake-ups and
    unlocks in which the two halves of [LockKey] are not separated, at most one
    context holds a key, and it holds it at most 32 times. *)
Theorem LockKey_mutual_exclusion (s : state) (k : string) (c1 c2 : nat) :
  reachable s → 0 < count s c1 k → 0 < count s c2 k → c1 = c2 ∧ count s c1 k ≤ 32.
Proof.
  intros Hs H1 H2. pose proof (inv_key _ (reachable_inv _ Hs) k) as Hk. unfold key_inv in Hk.
  destruct (lockTable s !! k) as [r|]; [|rewrite Hk in H1; lia].
  destruct Hk as (rec & _ & _ & _ & _ & Hrest).
  destruct (holder rec) as [h|]; destruct Hrest as [Hd Hcnt]; [|rewrite Hcnt in H1; lia].
  rewrite Hcnt in H1, H2. rewrite Hcnt. repeat case_decide; subst; lia.
Qed.

(** A context that holds a key and is not waiting can always unlock it: the fatal error
    of [unlockContext] is not taken. *)
Theorem UnlockKey_of_holder_succeeds (s : state) (k : string) (c : nat) :
  reachable s → 0 < count s c k → pos s !! c = None →
  ∃ s', exec s (Unlock c k) = Ret s' ∧ count s' c k = count s c k - 1.
Proof.
  intros Hs Hc Hp. pose proof (inv_key _ (reachable_inv _ Hs) k) as Hk. unfold key_inv in Hk.
  unfold exec. rewrite Hp. unfold UnlockKey.
  destruct (lockTable s !! k) as [r|]; [|rewrite Hk in Hc; lia].
  destruct Hk as (rec & Hr & _ & _ & _ & Hrest). rewrite Hr. cbn [obind of_opt].
  destruct (holder rec) as [h|] eqn:Eh; destruct Hrest as [Hd Hcnt]; [|rewrite Hcnt in Hc; lia].
  assert (h = c) as -> by (rewrite Hcnt in Hc; case_decide; [done|lia]).
  unfold unlockContext. rewrite bool_decide_false by (intros Hx; done).
  repeat case_go; cbn [obind]; simplify_eq; eexists; (split; [done|apply count_insert_eq]).
Qed.

(** C27 No lost wake-up: in every reachable state, for runs in which the two halves of
    [LockKey] are not separated, when the record of a key has no holder, some waiter has been
    signalled, and letting it run gives it the lock. *)
Theorem no_lost_wakeup (s : state) (k : string) (r : nat) (rec : SInMemoryLockRecord) :
  reachable s → lockTable s !! k = Some r → heap s !! r = Some rec → holder rec = None →
  ∃ c s', exec s (Wake c) = Ret s' ∧ count s' c k = 1.
Proof.
  intros Hs Hk Hr Eh. pose proof (inv_key _ (reachable_inv _ Hs) k) as Hki.
  unfold key_inv in Hki. rewrite Hk in Hki. destruct Hki as (rec' & Hr' & Hnd & Hperm & Hw & Hrest).
  rewrite Hr in Hr'. injection Hr' as <-. rewrite Eh in Hrest. destruct Hrest as [Ha Hcnt].
  destruct (awake rec) as [|c aw] eqn:Ea; [done|]. exists c.
  assert (pos s !! c = Some (Waits k r)) as Hp.
  { apply Hw. rewrite Hperm. apply elem_of_app. right. by left. }
  unfold exec. rewrite Hp, Hr. cbn [obind of_opt].
  rewrite bool_decide_true by (rewrite Ea; by left).
  unfold lockContext_wake. rewrite Eh. eexists. split; [done|].
  cbn [settle]. rewrite count_insert_eq, Hcnt. lia.
Qed.

(** A run in which context 2 waits for context 1. *)
Fixpoint arun (s : state) (es : list aevent) : outcome lock_error state :=
  match es with [] => Ret s | e :: es => let! s' := aexec s e in arun s' es end.

Lemma arun_reachable es : ∀ s s', reachable s → arun s es = Ret s' → reachable s'.
Proof.
  induction es as [|e es IH]; intros s s' Hs E; simpl in E; [by simplify_eq|].
  destruct (aexec s e) as [s1| | |] eqn:E1; simpl in E; try done.
  eapply IH; [|done]. by eapply reachable_step.
Qed.

Definition contended : list aevent := [ALock 1 "k"; ALock 1 "k"; ALock 2 "k"; AUnlock 1 "k"].

Lemma LockKey_mutual_exclusion_witness :
  ∃ s, arun NewInMemoryLockManager contended = Ret s ∧ (1 = 1)%nat ∧ count s 1 "k" ≤ 32.
Proof.
  eexists. split; [vm_compute; reflexivity|].
  eapply LockKey_mutual_exclusion; [|vm_compute; reflexivity..].
  apply (arun_reachable contended NewInMemoryLockManager); [constructor|vm_compute; reflexivity].
Defined.

Lemma UnlockKey_of_holder_succeeds_witness :
  ∃ s s', arun NewInMemoryLockManager contended = Ret s ∧ exec s (Unlock 1 "k") = Ret s' ∧
    count s' 1 "k" = count s 1 "k" - 1.
Proof.
  eexists.
  edestruct UnlockKey_of_holder_succeeds as (s' & ? & ?); cycle -1.
  - exists s'. split_and!; [vm_compute; reflexivity|done|done].
  - apply (arun_reachable contended NewInMemoryLockManager); [constructor|vm_compute; reflexivity].
  - vm_compute; reflexivity.
  - vm_compute; reflexivity.
Defined.

Lemma no_lost_wakeup_witness :
  ∃ s, arun NewInMemoryLockManager (contended ++ [AUnlock 1 "k"]) = Ret s ∧
    ∃ c s', exec s (Wake c) = Ret s' ∧ count s' c "k" = 1.
Proof.
  eexists. split; [vm_compute; reflexivity|].
  eapply (no_lost_wakeup _ "k").
  - apply (arun_reachable (contended ++ [AUnlock 1 "k"]) NewInMemoryLockManager);
      [constructor|vm_compute; reflexivity].
  - vm_compute; reflexivity.
  - vm_compute; reflexivity.
  - reflexivity.
Defined.

End LockSafety.
