(* ===== verification/Ring.v ===== *)
(** * The task queue of the workers: pkg/appsrv/ring.go

    A circular buffer with one slot more than its capacity.  [None] is the nil
    interface. *)

From S2P Require Import Prelude.
Local Open Scope go_scope.

Module Ring.

Section Values.

Context {V : Type}.

Record Ring := MkRing { buffer : list (option V); header : nat; tail : nat }.

Definition NewRing (size : nat) : Ring := MkRing (replicate (size + 1) None) 0 0.

Definition nextPointer (idx size : nat) : nat :=
  let idx := idx + 1 in if size <=? idx then 0 else idx.

Definition Push (r : Ring) (val : option V) : Ring * bool :=
  if nextPointer (header r) (length (buffer r)) =? tail r then (r, false)
  else (MkRing (<[header r := val]> (buffer r))
          (nextPointer (header r) (length (buffer r))) (tail r), true).

Definition Pop (r : Ring) : Ring * option V :=
  if tail r =? header r then (r, None)
  else (MkRing (buffer r) (header r) (nextPointer (tail r) (length (buffer r))),
        default None (buffer r !! tail r)).

Definition Capacity (r : Ring) : nat := length (buffer r) - 1.

Definition Size (r : Ring) : nat :=
  if tail r <=? header r then header r - tail r
  else length (buffer r) - tail r + header r.

(** ** A ring is a bounded queue *)

Definition wf (r : Ring) : Prop := header r < length (buffer r) ∧ tail r < length (buffer r).

(** The slot [i] places after the tail. *)
Definition at_offset (r : Ring) (i : nat) : nat :=
  if tail r + i <? length (buffer r) then tail r + i else tail r + i - length (buffer r).

Definition contents (r : Ring) : list (option V) :=
  (λ i, default None (buffer r !! at_offset r i)) <$> seq 0 (Size r).

Lemma length_contents r : length (contents r) = Size r.
Proof. unfold contents. by rewrite length_fmap, length_seq. Qed.

Lemma wf_NewRing size : wf (NewRing size).
Proof. unfold wf. simpl. rewrite length_replicate. lia. Qed.

Lemma contents_NewRing size : contents (NewRing size) = [].
Proof. done. Qed.

Ltac pointers := unfold wf, Capacity, Size, nextPointer, at_offset in *; simpl in *;
  repeat match goal with
  | |- context [?a <=? ?b] => destruct (Nat.leb_spec a b)
  | |- context [?a <? ?b] => destruct (Nat.ltb_spec a b)
  | |- context [?a =? ?b] => destruct (Nat.eqb_spec a b)
  | H : context [?a <=? ?b] |- _ => destruct (Nat.leb_spec a b)
  | H : context [?a <? ?b] |- _ => destruct (Nat.ltb_spec a b)
  | H : context [?a =? ?b] |- _ => destruct (Nat.eqb_spec a b)
  end; try lia.

Lemma Size_bound r : wf r → Size r ≤ Capacity r.
Proof. intros [? ?]. pointers. Qed.

Lemma Push_full r v : wf r → Size r = Capacity r → Push r v = (r, false).
Proof. intros [? ?] Hs. unfold Push. pointers; done. Qed.

Lemma Push_room r v : wf r → Size r < Capacity r →
  ∃ r', Push r v = (r', true) ∧ wf r' ∧ Capacity r' = Capacity r ∧
    contents r' = contents r ++ [v].
Proof.
  intros [Hh Ht] Hs. unfold Push.
  destruct (Nat.eqb_spec (nextPointer (header r) (length (buffer r))) (tail r)) as [E|E];
    [exfalso; pointers|].
  eexists. split; [done|]. split; [|split].
  - unfold wf. simpl. rewrite length_insert. pointers.
  - unfold Capacity. simpl. by rewrite length_insert.
  - set (r' := MkRing _ _ _).
    assert (length (buffer r') = length (buffer r)) as El by apply length_insert.
    assert (Size r' = S (Size r)) as Es by (unfold Size; rewrite El; subst r'; pointers).
    unfold contents. rewrite Es, seq_S, fmap_app. simpl. f_equal.
    + apply list_fmap_ext. intros j i [-> Hi]%lookup_seq. f_equal. simpl.
      unfold at_offset. rewrite El. subst r'. simpl. rewrite list_lookup_insert_ne; [done|].
      pointers.
    + f_equal. unfold at_offset. rewrite El. subst r'. simpl.
      replace (if tail r + Size r <? length (buffer r) then tail r + Size r
        else tail r + Size r - length (buffer r)) with (header r) by pointers.
      by rewrite list_lookup_insert_eq.
Qed.

Lemma Pop_empty r : Size r = 0 → wf r → Pop r = (r, None).
Proof. intros Hs [? ?]. unfold Pop. pointers; done. Qed.

Lemma Pop_some r v l : wf r → contents r = v :: l →
  ∃ r', Pop r = (r', v) ∧ wf r' ∧ Capacity r' = Capacity r ∧ contents r' = l.
Proof.
  intros [Hh Ht] Hc.
  assert (0 < Size r) as Hs by (rewrite <- length_contents, Hc; simpl; lia).
  unfold Pop. destruct (Nat.eqb_spec (tail r) (header r)) as [E|E]; [exfalso; pointers|].
  set (r' := MkRing _ _ _).
  assert (Size r = S (Size r')) as Es by (subst r'; pointers).
  unfold contents in Hc. rewrite Es in Hc. rewrite <- cons_seq in Hc. simpl in Hc.
  injection Hc as Hv Hl.
  exists r'. split; [|split; [|split]].
  - f_equal. rewrite <- Hv. do 2 f_equal. pointers.
  - subst r'. pointers.
  - done.
  - rewrite <- Hl. unfold contents. rewrite <- fmap_S_seq, <- list_fmap_compose.
    apply list_fmap_ext. intros j i [-> Hi]%lookup_seq. simpl. do 2 f_equal. subst r'. pointers.
Qed.

(** ** Runs *)

Inductive op := OPush (v : option V) | OPop | OSize.
Inductive answer := APushed (ok : bool) | APopped (v : option V) | ASize (n : nat).

Definition exec (r : Ring) (o : op) : Ring * answer :=
  match o with
  | OPush v => let (r', ok) := Push r v in (r', APushed ok)
  | OPop => let (r', v) := Pop r in (r', APopped v)
  | OSize => (r, ASize (Size r))
  end.

(** The specification: a list of bounded length. *)
Definition spec (cap : nat) (q : list (option V)) (o : op) : list (option V) * answer :=
  match o with
  | OPush v => if length q <? cap then (q ++ [v], APushed true) else (q, APushed false)
  | OPop => match q with [] => ([], APopped None) | v :: q => (q, APopped v) end
  | OSize => (q, ASize (length q))
  end.

Fixpoint run {S} (step : S → op → S * answer) (s : S) (ops : list op) : list answer :=
  match ops with
  | [] => []
  | o :: ops => let (s', a) := step s o in a :: run step s' ops
  end.

Lemma exec_refines r o :
  wf r → ∃ r' a, exec r o = (r', a) ∧ wf r' ∧ Capacity r' = Capacity r ∧
    spec (Capacity r) (contents r) o = (contents r', a).
Proof.
  intros Hr. pose proof (Size_bound r Hr). destruct o as [v| |]; simpl.
  - rewrite length_contents. destruct (Nat.ltb_spec (Size r) (Capacity r)).
    + destruct (Push_room r v) as (r' & -> & ? & ? & <-); [done..|]. by eexists _, _.
    + rewrite Push_full by (done || lia). by eexists _, _.
  - destruct (contents r) as [|v l] eqn:Ec.
    + rewrite Pop_empty; [|by rewrite <- length_contents, Ec|done].
      exists r, (APopped None). by rewrite Ec.
    + destruct (Pop_some r v l) as (r' & -> & ? & ? & <-); [done..|]. by eexists _, _.
  - rewrite length_contents. by eexists _, _.
Qed.

Lemma run_refines ops r : wf r →
  run exec r ops = run (spec (Capacity r)) (contents r) ops.
Proof.
  revert r. induction ops as [|o ops IH]; intros r Hr; [done|]. simpl.
  destruct (exec_refines r o Hr) as (r' & a & -> & Hr' & Hc & ->).
  f_equal. rewrite <- Hc. by apply IH.
Qed.

End Values.

Arguments Ring V : clear implicits.

(** C32 Refinement: every sequence of pushes, pops and size queries on a new ring answers
    like a first-in first-out queue that refuses more than [size] elements. *)
Theorem Ring_refines_queue {V : Type} (size : nat) (ops : list (op (V := V))) :
  run exec (NewRing size) ops = run (spec size) [] ops.
Proof.
  rewrite (run_refines ops (NewRing size) (wf_NewRing size)), contents_NewRing.
  unfold Capacity. simpl. by rewrite length_replicate, Nat.add_sub.
Qed.

End Ring.
