(* ===== verification/Workers.v ===== *)
(** * The worker pools: pkg/appsrv/workers.go

    A pool runs tasks from its ring on at most [workerCount] goroutines.  Every section
    under a lock and every queue operation is one event; the events of the callers of
    [Run] and of the workers interleave freely.  A task is a number; panics of a task
    are recovered by [execCallback], so its execution is one event too. *)

From S2P Require Import Prelude Ring.
Local Open Scope go_scope.

Module Workers.

(** Which list [worker.container] is an element of. *)
Inductive container := InActive | InDetached.

(** Where the goroutine of a worker is in [run]. *)
Inductive worker_pc :=
| Checking
| Popping
| Executing (task : nat)
| Leaving
| Gone.

Record SWorker := Worker {
  state_detach : bool;
  worker_container : option container;
  pc : worker_pc }.

Definition newWorker : SWorker := Worker false None Checking.

Record SWorkerManager := Manager {
  queue : Ring.Ring nat;
  workerCount : nat;
  backlog : nat;
  activeWorker : list nat;
  detachedWorker : list nat;
  workerId : nat;
  workers : gmap nat SWorker }.

Definition NewWorkerManager (workerCount backlog : nat) : SWorkerManager :=
  Manager (Ring.NewRing (workerCount * backlog)) workerCount backlog [] [] 0 ∅.

Definition set_worker (wm : SWorkerManager) (id : nat) (w : SWorker) : SWorkerManager :=
  Manager (queue wm) (workerCount wm) (backlog wm) (activeWorker wm) (detachedWorker wm)
    (workerId wm) (<[id := w]> (workers wm)).

Definition set_pc (wm : SWorkerManager) (id : nat) (w : SWorker) (p : worker_pc) : SWorkerManager :=
  set_worker wm id (Worker (state_detach w) (worker_container w) p).

(** Removing the element a worker points to: the one that was added last for it. *)
Fixpoint remove_first (id : nat) (l : list nat) : list nat :=
  match l with [] => [] | i :: l => if i =? id then l else i :: remove_first id l end.
Definition remove_element (id : nat) (l : list nat) : list nat := rev (remove_first id (rev l)).

(** [removeWithLock]: [list.Remove] dereferences the element and removes it only from
    the list it belongs to. *)
Definition removeWithLock {E} (l : list nat) (which : container) (id : nat) (w : SWorker)
  : outcome E (list nat * SWorker) :=
  match worker_container w, which with
  | None, _ => Panic
  | Some InActive, InActive | Some InDetached, InDetached =>
    Ret (remove_element id l, Worker (state_detach w) None (pc w))
  | Some _, _ => Ret (l, Worker (state_detach w) None (pc w))
  end.

Definition scheduleWithLock (wm : SWorkerManager) : SWorkerManager :=
  if (length (activeWorker wm) <? workerCount wm) && (0 <? Ring.Size (queue wm)) then
    let id := workerId wm + 1 in
    Manager (queue wm) (workerCount wm) (backlog wm) (activeWorker wm ++ [id])
      (detachedWorker wm) id
      (<[id := Worker (state_detach newWorker) (Some InActive) (pc newWorker)]> (workers wm))
  else wm.

Definition removeWorker {E} (wm : SWorkerManager) (id : nat) (w : SWorker)
  : outcome E SWorkerManager :=
  if state_detach w then
    let! (l, w') := removeWithLock (detachedWorker wm) InDetached id w in
    Ret (Manager (queue wm) (workerCount wm) (backlog wm) (activeWorker wm) l (workerId wm)
           (<[id := Worker (state_detach w') (worker_container w') Gone]> (workers wm)))
  else
    let! (l, w') := removeWithLock (activeWorker wm) InActive id w in
    Ret (Manager (queue wm) (workerCount wm) (backlog wm) l (detachedWorker wm) (workerId wm)
           (<[id := Worker (state_detach w') (worker_container w') Gone]> (workers wm))).

Definition Detach {E} (wm : SWorkerManager) (id : nat) (w : SWorker) : outcome E SWorkerManager :=
  let! (l, w') := removeWithLock (activeWorker wm) InActive id
                    (Worker true (worker_container w) (pc w)) in
  Ret (scheduleWithLock
         (Manager (queue wm) (workerCount wm) (backlog wm) l (detachedWorker wm ++ [id])
            (workerId wm) (<[id := Worker true (Some InDetached) (pc w')]> (workers wm)))).

(** ** Events *)

(** The manager, the calls of [Run] that have pushed and not yet scheduled, the tasks
    that were accepted and those that have been started, in order. *)
Record world := World {
  man : SWorkerManager;
  toSchedule : nat;
  accepted : list nat;
  started : list nat }.

Inductive event :=
| RunPush (task : nat)
| RunSchedule
| Work (id : nat)
| DetachWorker (id : nat).

Inductive not_enabled := NotEnabled.

(** One action of the loop of [SWorker.run]. *)
Definition work (s : world) (id : nat) (w : SWorker) : outcome not_enabled world :=
  match pc w with
  | Checking =>
    Ret (World (set_pc (man s) id w (if state_detach w then Leaving else Popping))
           (toSchedule s) (accepted s) (started s))
  | Popping =>
    let (q, req) := Ring.Pop (queue (man s)) in
    let wm := Manager q (workerCount (man s)) (backlog (man s)) (activeWorker (man s))
                (detachedWorker (man s)) (workerId (man s)) (workers (man s)) in
    match req with
    | Some task => Ret (World (set_pc wm id w (Executing task)) (toSchedule s) (accepted s)
                          (started s ++ [task]))
    | None => Ret (World (set_pc wm id w Leaving) (toSchedule s) (accepted s) (started s))
    end
  | Executing _ => Ret (World (set_pc (man s) id w Checking) (toSchedule s) (accepted s) (started s))
  | Leaving =>
    let! wm := removeWorker (man s) id w in
    Ret (World wm (toSchedule s) (accepted s) (started s))
  | Gone => Fail NotEnabled
  end.

Definition exec (s : world) (e : event) : outcome not_enabled world :=
  match e with
  | RunPush task =>
    let (q, ok) := Ring.Push (queue (man s)) (Some task) in
    let wm := Manager q (workerCount (man s)) (backlog (man s)) (activeWorker (man s))
                (detachedWorker (man s)) (workerId (man s)) (workers (man s)) in
    if ok then Ret (World wm (toSchedule s + 1) (accepted s ++ [task]) (started s))
    else Ret (World wm (toSchedule s) (accepted s) (started s))
  | RunSchedule =>
    match toSchedule s with
    | O => Fail NotEnabled
    | S n => Ret (World (scheduleWithLock (man s)) n (accepted s) (started s))
    end
  | Work id =>
    match workers (man s) !! id with
    | Some w => work s id w
    | None => Fail NotEnabled
    end
  | DetachWorker id =>
    match workers (man s) !! id with
    | Some w =>
      let! wm := Detach (man s) id w in
      Ret (World wm (toSchedule s) (accepted s) (started s))
    | None => Fail NotEnabled
    end
  end.

Fixpoint run (s : world) (es : list event) : outcome not_enabled world :=
  match es with
  | [] => Ret s
  | e :: es => let! s' := exec s e in run s' es
  end.

Definition initial (workerCount backlog : nat) : world :=
  World (NewWorkerManager workerCount backlog) 0 [] [].

Record SWorkerManagerStates := States {
  Backlog : nat; QueueCnt : nat; MaxWorkerCnt : nat; ActiveWorkerCnt : nat;
  DetachWorkerCnt : nat }.

Definition getState (wm : SWorkerManager) : SWorkerManagerStates :=
  States (backlog wm) (Ring.Size (queue wm)) (workerCount wm) (length (activeWorker wm))
    (length (detachedWorker wm)).

Fixpoint GetDBConnectionCount (pools : list (SWorkerManager * bool)) : nat :=
  match pools with
  | [] => 0
  | (wm, dbWorker) :: pools =>
    (if dbWorker then workerCount wm else 0) + GetDBConnectionCount pools
  end.

(** ** Bounded workers, tasks in order *)

Definition ok (n b : nat) (s : world) : Prop :=
  workerCount (man s) = n ∧ Ring.wf (queue (man s)) ∧ Ring.Capacity (queue (man s)) = n * b ∧
  length (activeWorker (man s)) ≤ n ∧
  Some <$> accepted s = (Some <$> started s) ++ Ring.contents (queue (man s)).

Lemma remove_element_length id l : length (remove_element id l) ≤ length l.
Proof.
  unfold remove_element. rewrite length_rev, <- (length_rev l).
  induction (rev l) as [|i r IH]; simpl; [done|]. destruct (i =? id); simpl; lia.
Qed.

Lemma schedule_ok n b s k :
  ok n b s → ok n b (World (scheduleWithLock (man s)) k (accepted s) (started s)).
Proof.
  intros (Hn & Hwf & Hc & Ha & Hf). unfold scheduleWithLock.
  destruct (_ && _) eqn:E; [|done]. apply andb_prop in E as [E _]. apply Nat.ltb_lt in E.
  split_and!; simpl; try done. rewrite length_app. simpl. lia.
Qed.

Lemma removeWithLock_length {E} l which id w l' w' :
  removeWithLock (E := E) l which id w = Ret (l', w') → length l' ≤ length l.
Proof.
  unfold removeWithLock. destruct (worker_container w) as [[]|], which; intros ?; simplify_eq;
    try done; apply remove_element_length.
Qed.

Lemma Detach_ok n b s id w wm :
  ok n b s → Detach (E := not_enabled) (man s) id w = Ret wm →
  ok n b (World wm (toSchedule s) (accepted s) (started s)).
Proof.
  intros (Hn & Hwf & Hc & Ha & Hf) E. unfold Detach in E.
  destruct (removeWithLock _ _ _ _) as [[l w']| | |] eqn:Er; try done. simpl in E.
  injection E as <-. apply removeWithLock_length in Er.
  apply (schedule_ok n b (World (Manager _ _ _ _ _ _ _) (toSchedule s) (accepted s) (started s))).
  split_and!; simpl; try done. lia.
Qed.

Lemma work_ok n b s id w s' : ok n b s → work s id w = Ret s' → ok n b s'.
Proof.
  intros (Hn & Hwf & Hc & Ha & Hf). unfold work. destruct (pc w).
  - intros [= <-]. by split_and!.
  - destruct (Ring.contents (queue (man s))) as [|v l] eqn:Ec.
    + rewrite Ring.Pop_empty; [|by rewrite <- Ring.length_contents, Ec|done].
      intros [= <-]. split_and!; simpl; try done. by rewrite Ec.
    + destruct (Ring.Pop_some _ v l Hwf Ec) as (q & -> & Hwf' & Hc' & Ec').
      assert (∃ t, v = Some t) as [t ->].
      { assert (v ∈ Some <$> accepted s) as (t & -> & _)%list_elem_of_fmap; [|by eexists].
        rewrite Hf. apply elem_of_app. right. by left. }
      intros [= <-]. split_and!; simpl; [done|done|congruence|done|].
      rewrite Ec', Hf, fmap_app, <- app_assoc. done.
  - intros [= <-]. by split_and!.
  - unfold removeWorker. destruct (state_detach w);
      destruct (removeWithLock _ _ _ _) as [[l w']| | |] eqn:Er; try done; simpl;
      intros [= <-]; split_and!; simpl; try done.
    apply removeWithLock_length in Er. lia.
  - done.
Qed.

Lemma exec_ok n b s e s' : ok n b s → exec s e = Ret s' → ok n b s'.
Proof.
  intros Hok. pose proof Hok as (Hn & Hwf & Hc & Ha & Hf).
  destruct e as [task| |id|id]; simpl.
  - destruct (decide (Ring.Size (queue (man s)) < Ring.Capacity (queue (man s)))) as [Hlt|Hge].
    + destruct (Ring.Push_room _ (Some task) Hwf Hlt) as (q & -> & Hwf' & Hc' & Ec').
      intros [= <-]. split_and!; simpl; [done|done|congruence|done|].
      rewrite Ec', fmap_app, Hf, <- app_assoc. done.
    + pose proof (Ring.Size_bound _ Hwf). rewrite Ring.Push_full by (done || lia).
      intros [= <-]. by split_and!.
  - destruct (toSchedule s) as [|k]; [done|]. intros [= <-]. by apply schedule_ok.
  - destruct (workers (man s) !! id) as [w|]; [|done]. by apply work_ok.
  - destruct (workers (man s) !! id) as [w|]; [|done].
    destruct (Detach (man s) id w) as [wm| | |] eqn:E; try done. simpl. intros [= <-].
    by eapply Detach_ok.
Qed.

Lemma run_ok n b es : ∀ s s', ok n b s → run s es = Ret s' → ok n b s'.
Proof.
  induction es as [|e es IH]; intros s s' Hs E; simpl in E; [by simplify_eq|].
  destruct (exec s e) as [s1| | |] eqn:E1; simpl in E; try done. eauto using exec_ok.
Qed.

Lemma initial_ok n b : ok n b (initial n b).
Proof.
  split_and!; simpl; [done|apply Ring.wf_NewRing| |lia|done].
  unfold Ring.Capacity. simpl. rewrite length_replicate. lia.
Qed.

(** C30 Whatever the interleaving of submissions, workers and detachments, at most
    [workerCount] workers are active, at most [workerCount * backlog] tasks are queued,
    and every accepted task is started at most once and in the order of acceptance:
    the accepted tasks are the started ones followed by the queue. *)
Theorem workers_bounded_fifo (n b : nat) (es : list event) (s : world) :
  run (initial n b) es = Ret s →
  length (activeWorker (man s)) ≤ n ∧ Ring.Size (queue (man s)) ≤ n * b ∧
  Some <$> accepted s = (Some <$> started s) ++ Ring.contents (queue (man s)).
Proof.
  intros E. destruct (run_ok n b es _ _ (initial_ok n b) E) as (_ & Hwf & Hc & Ha & Hf).
  split_and!; [done| |done]. rewrite <- Hc. by apply Ring.Size_bound.
Qed.

Lemma workers_bounded_fifo_witness :
  ∃ s, run (initial 1 4) [RunPush 7; RunSchedule; RunPush 8; RunSchedule; Work 1; Work 1] = Ret s ∧
    length (activeWorker (man s)) ≤ 1 ∧ Ring.Size (queue (man s)) ≤ 1 * 4 ∧
    Some <$> accepted s = (Some <$> started s) ++ Ring.contents (queue (man s)).
Proof.
  eexists. split; [vm_compute; reflexivity|].
  apply (workers_bounded_fifo 1 4 [RunPush 7; RunSchedule; RunPush 8; RunSchedule; Work 1; Work 1]).
  vm_compute. reflexivity.
Defined.

(** ** Races *)

(** The only worker finds the queue empty; before it removes itself, a task arrives and
    is not given a worker because the pool looks full. *)
Definition stuck_run : list event :=
  [RunPush 1; RunSchedule; Work 1; Work 1; Work 1; Work 1; Work 1; RunPush 2; RunSchedule; Work 1].

(** An accepted task can be left behind: a state is reachable in which a task is
    queued, no call of [Run] is under way and no worker is left, so that nothing
    starts the task until another one is submitted. *)
Theorem task_left_behind :
  ∃ s, run (initial 1 4) stuck_run = Ret s ∧ accepted s = [1; 2] ∧ started s = [1] ∧
    Ring.Size (queue (man s)) = 1 ∧ activeWorker (man s) = [] ∧ detachedWorker (man s) = [] ∧
    toSchedule s = 0 ∧
    map_fold (λ _ w n, match pc w with Gone => n | _ => S n end) 0 (workers (man s)) = 0.
Proof. eexists. split; [vm_compute; reflexivity|]. vm_compute. tauto. Qed.

(** A caller that detaches a worker which has just left dereferences its nil list
    element. *)
Lemma Detach_after_exit_panics :
  ∃ s, run (initial 1 4) [RunPush 1; RunSchedule; Work 1; Work 1; Work 1; Work 1; Work 1; Work 1]
       = Ret s ∧ exec s (DetachWorker 1) = Panic.
Proof. eexists. split; vm_compute; reflexivity. Qed.

End Workers.
