(* ===== verification/Radix.v ===== *)
(** * The request router: pkg/appsrv/radix.go

    A tree of path segments: plain segments in a map and regular expressions, written
    [<name:regexp>] or [<name>], in a list.  Compiling and running a regular expression
    is a parameter; a pattern that does not compile panics. *)

From S2P Require Import Prelude.
Local Open Scope go_scope.

Module Radix.

Section Data.

Context {D : Type}.

(** A map is the list of its pairs; nil and empty maps of names do not differ. *)
Inductive RadixNode := Node {
  data : option D;
  stringNodes : list (string * RadixNode);
  regexpNodes : list (string * RadixNode);
  segNames : list (nat * string) }.

Definition NewRadix : RadixNode := Node None [] [] [].

Fixpoint lookup_node (k : string) (l : list (string * RadixNode)) : option RadixNode :=
  match l with
  | [] => None
  | (k', n) :: l => if String.eqb k k' then Some n else lookup_node k l
  end.

(** The child updated in place, or added at the end. *)
Fixpoint set_node (k : string) (n : RadixNode) (l : list (string * RadixNode))
  : list (string * RadixNode) :=
  match l with
  | [] => [(k, n)]
  | (k', n') :: l => if String.eqb k k' then (k', n) :: l else (k', n') :: set_node k n l
  end.

Definition isRegstrInRegexpNodes (regNodes : list (string * RadixNode)) (regStr : string)
  : option RadixNode := lookup_node regStr regNodes.

Abbreviation chars := String.list_ascii_of_string.
Abbreviation str := String.string_of_list_ascii.

Definition is_char (c : nat) (a : Ascii.ascii) : bool := (Ascii.nat_of_ascii a =? c)%nat.

(** [len(seg) > 2 && seg[0] == '<' && seg[len(seg)-1] == '>']. *)
Definition isRegexSegment (seg : string) : bool :=
  (2 <? String.length seg) &&
  match chars seg with a :: _ => is_char 60 a | [] => false end &&
  match last (chars seg) with Some a => is_char 62 a | None => false end.

(** [strings.IndexByte(s, ':')]: the parts before and after the first colon. *)
Fixpoint split_colon (l : list Ascii.ascii) : option (list Ascii.ascii * list Ascii.ascii) :=
  match l with
  | [] => None
  | a :: l => if is_char 58 a then Some ([], l)
              else '(x, y) ← split_colon l; Some (a :: x, y)
  end.

(** The expression and the name of a segment [<...>]. *)
Definition regex_parts (seg : string) : string * string :=
  let segStr := take (String.length seg - 2) (drop 1 (chars seg)) in
  match split_colon segStr with
  | None => (".*", "<" +:+ str segStr +:+ ">")
  | Some (name, re) => (str re, "<" +:+ str name +:+ ">")
  end.

Inductive add_error := DuplicateData.

Fixpoint add (r : RadixNode) (segments : list string) (d : D) (depth : nat)
    (names : list (nat * string)) : outcome add_error RadixNode :=
  match segments with
  | [] =>
    match data r with
    | Some _ => Fail DuplicateData
    | None => Ret (Node (Some d) (stringNodes r) (regexpNodes r) names)
    end
  | seg :: rest =>
    if isRegexSegment seg then
      let (regStr, segName) := regex_parts seg in
      let names := names ++ [(depth - 1, segName)] in
      let next := default NewRadix (isRegstrInRegexpNodes (regexpNodes r) regStr) in
      let! next' := add next rest d (depth + 1) names in
      Ret (Node (data r) (stringNodes r) (set_node regStr next' (regexpNodes r)) (segNames r))
    else
      let next := default NewRadix (lookup_node seg (stringNodes r)) in
      let! next' := add next rest d (depth + 1) names in
      Ret (Node (data r) (set_node seg next' (stringNodes r)) (regexpNodes r) (segNames r))
  end.

Definition Add (r : RadixNode) (segments : list string) (d : D) : outcome add_error RadixNode :=
  add r segments d 1 [].

Section Match.

Context (compile : string → option (string → bool)).

(** The loop over the regular expressions; [tmp] is a partial match found before. *)
Fixpoint match_regexps (match_ : RadixNode → outcome Empty_set (RadixNode * bool)) (seg : string)
    (r : RadixNode) (regs : list (string * RadixNode)) (tmp : option RadixNode)
  : outcome Empty_set (RadixNode * bool) :=
  match regs with
  | [] => Ret (match tmp with Some n => (n, false) | None => (r, false) end)
  | (regStr, node) :: regs =>
    let! re := of_opt (compile regStr) in
    if re seg then
      let! (hit, fullMatch) := match_ node in
      match data hit with
      | None => match_regexps match_ seg r regs tmp
      | Some _ =>
        if (fullMatch : bool) then Ret (hit, true)
        else match_regexps match_ seg r regs (match tmp with Some n => Some n | None => Some hit end)
      end
    else match_regexps match_ seg r regs tmp
  end.

Fixpoint match_ (segments : list string) (r : RadixNode) : outcome Empty_set (RadixNode * bool) :=
  match segments with
  | [] => Ret (r, true)
  | seg :: rest =>
    match stringNodes r, regexpNodes r with
    | [], [] => Ret (r, false)
    | _, _ =>
      let! found :=
        match lookup_node seg (stringNodes r) with
        | Some node =>
          let! (hit, _) := match_ rest node in
          Ret (match data hit with Some _ => Some hit | None => None end)
        | None => Ret None
        end in
      match found with
      | Some hit => Ret (hit, true)
      | None => match_regexps (match_ rest) seg r (regexpNodes r) None
      end
    end
  end.

(** [Match]: the data of the node and the parameters, one per named segment. *)
Fixpoint bind_params (names : list (nat * string)) (segments : list string)
    (params : list (string * string)) : outcome Empty_set (list (string * string)) :=
  match names with
  | [] => Ret params
  | (index, segName) :: names =>
    let! seg := of_opt (segments !! index) in
    bind_params names segments (params ++ [(segName, seg)])
  end.

Definition Match (r : RadixNode) (segments : list string)
  : outcome Empty_set (option D * list (string * string)) :=
  let! (node, _) := match_ segments r in
  let! params := bind_params (segNames node) segments [] in
  Ret (data node, params).

(** ** Routes *)

Inductive pattern := PString (s : string) | PRegexp (re : string).

(** [route r path d]: the tree holds [d] at the end of [path]. *)
Inductive route : RadixNode → list pattern → D → Prop :=
| route_here r d : data r = Some d → route r [] d
| route_string r s n path d :
    lookup_node s (stringNodes r) = Some n → route n path d → route r (PString s :: path) d
| route_regexp r re n path d :
    (re, n) ∈ regexpNodes r → route n path d → route r (PRegexp re :: path) d.

Definition pattern_matches (p : pattern) (seg : string) : Prop :=
  match p with
  | PString s => s = seg
  | PRegexp re => ∃ f, compile re = Some f ∧ f seg = true
  end.

(** The loop over the expressions returns a partial match found before, the node itself,
    or what an expression that matches leads to. *)
Lemma match_regexps_sound m seg r regs tmp n b :
  match_regexps m seg r regs tmp = Ret (n, b) →
  n = r ∨ tmp = Some n ∨
  ∃ re f node b', (re, node) ∈ regs ∧ compile re = Some f ∧ f seg = true ∧ m node = Ret (n, b').
Proof.
  revert tmp. induction regs as [|[re node] regs IH]; intros tmp E; simpl in E.
  { destruct tmp; simplify_eq; auto. }
  assert (∀ tmp', match_regexps m seg r regs tmp' = Ret (n, b) →
    n = r ∨ tmp' = Some n ∨ ∃ re' f node' b', (re', node') ∈ (re, node) :: regs ∧
      compile re' = Some f ∧ f seg = true ∧ m node' = Ret (n, b')) as IH'.
  { intros tmp' E'. destruct (IH tmp' E') as [?|[?|(re' & f & nd & b' & Hin & ?)]]; [auto..|].
    right; right. exists re', f, nd, b'. split; [by right|done]. }
  destruct (compile re) as [f|] eqn:Ec; [|done]. cbn [obind of_opt] in E.
  destruct (f seg) eqn:Ef; [|by auto].
  destruct (m node) as [[hit full]| | |] eqn:Em; try done. cbn [obind] in E.
  destruct (data hit) eqn:Ed; [|by auto].
  destruct full; simplify_eq.
  - right; right. exists re, f, node, true. split; [by left|done].
  - destruct (IH' _ E) as [?|[Ht|?]]; [auto| |auto]. destruct tmp; simplify_eq; [auto|].
    right; right. exists re, f, node, false. split; [by left|done].
Qed.

(** If an expression that matches leads to data, the loop returns a node with data. *)
Lemma match_regexps_complete m seg r regs tmp :
  (∀ re n, (re, n) ∈ regs → compile re ≠ None) →
  (∀ re n, (re, n) ∈ regs → ∃ h b, m n = Ret (h, b)) →
  (∀ n, tmp = Some n → data n ≠ None) →
  ∃ n b, match_regexps m seg r regs tmp = Ret (n, b) ∧
    ((tmp ≠ None ∨ ∃ re f node h b', (re, node) ∈ regs ∧ compile re = Some f ∧ f seg = true ∧
        m node = Ret (h, b') ∧ data h ≠ None) → data n ≠ None).
Proof.
  revert tmp. induction regs as [|[re node] regs IH]; intros tmp Hc Hm Ht; simpl.
  { destruct tmp as [n|]; eexists _, _; (split; [done|]); intros Hx.
    { by apply Ht. }
    destruct Hx as [|(re & ? & nd & ? & ? & Hin & _)]; [done|]. by apply elem_of_nil in Hin. }
  destruct (compile re) as [f|] eqn:Ec; [|exfalso; apply (Hc re node); [by left|done]].
  cbn [obind of_opt].
  destruct (Hm re node) as (h & b & Eh); [by left|].
  assert (∀ tmp', (∀ n, tmp' = Some n → data n ≠ None) → (f seg = true → data h ≠ None → tmp' ≠ None) →
    (tmp ≠ None → tmp' ≠ None) →
    ∃ n b', match_regexps m seg r regs tmp' = Ret (n, b') ∧
     ((tmp ≠ None ∨ ∃ re' f' node' h' b'', (re', node') ∈ (re, node) :: regs ∧ compile re' = Some f' ∧
         f' seg = true ∧ m node' = Ret (h', b'') ∧ data h' ≠ None) → data n ≠ None)) as IH'.
  { intros tmp' Ht' Hf Htt. destruct (IH tmp') as (n & b' & E & Hd); [..|done|].
    { intros re' n' Hin. apply (Hc re' n'). by right. }
    { intros re' n' Hin. apply (Hm re' n'). by right. }
    exists n, b'. split; [done|]. intros Hx. apply Hd.
    destruct Hx as [Hx|(re' & f' & nd & h' & b2 & [[= -> ->]|Hin]%elem_of_cons & Hc' & Hs & Hmm & Hdd)].
    - left. auto.
    - left. rewrite Hmm in Eh. simplify_eq. auto.
    - right. by exists re', f', nd, h', b2. }
  rewrite Eh. destruct (f seg) eqn:Ef; cbn [obind]; [|by apply IH'].
  destruct (data h) eqn:Ed; [|apply IH'; [done|done|done]].
  destruct b; [eexists _, _; split; [done|by rewrite Ed]|].
  apply IH'; [|by destruct tmp..].
  destruct tmp; intros n [= <-]; [by apply Ht|by rewrite Ed].
Qed.

(** Every expression in the tree compiles. *)
Inductive compiles : RadixNode → Prop :=
| compiles_node r :
    (∀ s n, lookup_node s (stringNodes r) = Some n → compiles n) →
    (∀ re n, (re, n) ∈ regexpNodes r → compile re ≠ None ∧ compiles n) → compiles r.

Lemma match_cons seg rest r :
  match_ (seg :: rest) r =
    match stringNodes r, regexpNodes r with
    | [], [] => Ret (r, false)
    | _, _ =>
      let! found :=
        match lookup_node seg (stringNodes r) with
        | Some node =>
          let! (hit, _) := match_ rest node in
          Ret (match data hit with Some _ => Some hit | None => None end)
        | None => Ret None
        end in
      match found with
      | Some hit => Ret (hit, true)
      | None => match_regexps (match_ rest) seg r (regexpNodes r) None
      end
    end.
Proof. done. Qed.

Lemma match_sound segments : ∀ r n b d,
  match_ segments r = Ret (n, b) → data n = Some d →
  ∃ path k, route r path d ∧ Forall2 pattern_matches path (take k segments).
Proof.
  induction segments as [|seg rest IH]; intros r n b d E Hd.
  { simpl in E. simplify_eq. exists [], 0. split; [by constructor|constructor]. }
  assert (∃ path k, n = r → route r path d ∧ Forall2 pattern_matches path (take k (seg :: rest))) as Hr.
  { exists [], 0. intros ->. split; [by constructor|constructor]. }
  rewrite match_cons in E.
  assert (n = r ∨ (∃ node b', lookup_node seg (stringNodes r) = Some node ∧ match_ rest node = Ret (n, b')) ∨
          match_regexps (match_ rest) seg r (regexpNodes r) None = Ret (n, b)) as Hcase.
  { destruct (lookup_node seg (stringNodes r)) as [node|] eqn:El.
    - assert (stringNodes r ≠ []) as Hne by (by intros Hx; rewrite Hx in El).
      destruct (match_ rest node) as [[hit b1]| | |] eqn:Em;
        destruct (stringNodes r); try done; cbn [obind] in E.
      destruct (data hit) eqn:Ed; [|by auto]. simplify_eq. right; left. by exists node, b1.
    - destruct (stringNodes r), (regexpNodes r) eqn:Er; simplify_eq; auto. }
  destruct Hcase as [Hn|[(node & b' & El & Em)|Em]].
  - destruct Hr as (path & k & Hr). exists path, k. by apply Hr.
  - destruct (IH node n b' d Em Hd) as (path & k & Hp & Hf).
    exists (PString seg :: path), (S k). split; [by econstructor|]. by constructor.
  - apply match_regexps_sound in Em as [Hn|[|(re & f & node & b' & Hin & Hc & Hf & Em)]]; [|done|].
    { destruct Hr as (path & k & Hr). exists path, k. by apply Hr. }
    destruct (IH node n b' d Em Hd) as (path & k & Hp & Hfa).
    exists (PRegexp re :: path), (S k). split; [by econstructor|].
    constructor; [by exists f|done].
Qed.

Lemma match_total segments : ∀ r, compiles r → ∃ n b, match_ segments r = Ret (n, b).
Proof.
  induction segments as [|seg rest IH]; intros r Hc; [by eexists _, _|].
  inversion Hc as [r' Hs Hre]; subst r'. rewrite match_cons.
  destruct (match_regexps_complete (match_ rest) seg r (regexpNodes r) None) as (n & b & Em & _);
    [intros re n Hin; by apply (Hre re n)|intros re n Hin; by apply IH, (Hre re n)|done|].
  assert (∃ found, match lookup_node seg (stringNodes r) with
    | Some node => let! (hit, _) := match_ rest node in
                   Ret (match data hit with Some _ => Some hit | None => None end)
    | None => Ret None end = Ret (E := Empty_set) found) as [found ->].
  { destruct (lookup_node seg (stringNodes r)) as [node|] eqn:El; [|by eexists].
    destruct (IH node (Hs seg node El)) as (h & b1 & ->). by eexists. }
  cbn [obind]. rewrite Em.
  destruct (stringNodes r), (regexpNodes r), found; by eexists _, _.
Qed.

Lemma match_complete segments : ∀ r path d,
  compiles r → route r path d → Forall2 pattern_matches path segments →
  ∃ n b, match_ segments r = Ret (n, b) ∧ data n ≠ None.
Proof.
  induction segments as [|seg rest IH]; intros r path d Hc Hroute Hf.
  { inversion Hf; subst. inversion Hroute as [? ? Hd| |]; subst.
    exists r, true. split; [done|]. by rewrite Hd. }
  inversion Hf as [|p ? path' ? Hp Hf']; subst.
  inversion Hc as [r' Hs Hre]; subst r'. rewrite match_cons.
  destruct (match_regexps_complete (match_ rest) seg r (regexpNodes r) None) as (n & b & Em & Hn);
    [intros re n Hin; by apply (Hre re n)|intros re n Hin; by apply match_total, (Hre re n)|done|].
  assert (∃ found, match lookup_node seg (stringNodes r) with
    | Some node => let! (hit, _) := match_ rest node in
                   Ret (match data hit with Some _ => Some hit | None => None end)
    | None => Ret None end = Ret (E := Empty_set) found ∧
    (∀ h, found = Some h → data h ≠ None) ∧ (found = None → data n ≠ None)) as (found & -> & Hh & Hno).
  { inversion Hroute as [|? s node ? ? Hl Hr'|? re node ? ? Hin Hr']; subst.
    - simpl in Hp. subst s. rewrite Hl.
      destruct (IH node path' d (Hs _ _ Hl) Hr' Hf') as (h & b1 & -> & Hd). cbn [obind].
      destruct (data h) eqn:Ed; [|done]. eexists. split_and!; [done| |done].
      intros h' [= <-]. by rewrite Ed.
    - destruct Hp as (f & Hcf & Hfs).
      destruct (IH node path' d (proj2 (Hre _ _ Hin)) Hr' Hf') as (h & b1 & Emh & Hd).
      assert (data n ≠ None) as Hdn by (apply Hn; right; by exists re, f, node, h, b1).
      destruct (lookup_node seg (stringNodes r)) as [node'|] eqn:El; [|by eexists].
      destruct (match_total rest node' (Hs _ _ El)) as (h' & b2 & ->). cbn [obind].
      eexists. split_and!; [done| |done]. intros h2. destruct (data h') eqn:Ed; [|done].
      intros [= <-]. by rewrite Ed. }
  cbn [obind]. rewrite Em.
  assert (stringNodes r ≠ [] ∨ regexpNodes r ≠ []) as Hne.
  { inversion Hroute as [|? s node ? ? Hl Hr'|? re node ? ? Hin Hr']; subst.
    - left. intros Hx. by rewrite Hx in Hl.
    - right. intros Hx. rewrite Hx in Hin. by apply elem_of_nil in Hin. }
  destruct found as [h|].
  - exists h, true. split; [|by apply Hh]. destruct (stringNodes r), (regexpNodes r); naive_solver.
  - exists n, b. split; [|by apply Hno]. destruct (stringNodes r), (regexpNodes r); naive_solver.
Qed.

End Match.

(** ** Plain routes *)

(** The node at the end of a path of plain segments. *)
Fixpoint leaf (r : RadixNode) (segments : list string) : option RadixNode :=
  match segments with
  | [] => Some r
  | seg :: rest => n ← lookup_node seg (stringNodes r); leaf n rest
  end.

Lemma lookup_set_eq k n l : lookup_node k (set_node k n l) = Some n.
Proof.
  induction l as [|[k' n'] l IH]; simpl; [by rewrite String.eqb_refl|].
  destruct (String.eqb k k') eqn:E; simpl; by rewrite E.
Qed.

Lemma lookup_set_ne k k' n l : k ≠ k' → lookup_node k (set_node k' n l) = lookup_node k l.
Proof.
  intros Hne. induction l as [|[k2 n2] l IH]; simpl.
  { by destruct (String.eqb_spec k k'). }
  destruct (String.eqb_spec k' k2) as [->|]; simpl.
  - by destruct (String.eqb_spec k k2).
  - by rewrite IH.
Qed.

Lemma match_leaf compile segments : ∀ r n,
  leaf r segments = Some n → data n ≠ None → match_ compile segments r = Ret (n, true).
Proof.
  induction segments as [|seg rest IH]; intros r n El Hd; simpl in El; [by simplify_eq|].
  rewrite match_cons. destruct (lookup_node seg (stringNodes r)) as [node|] eqn:En; [|done].
  simpl in El. rewrite (IH node n El Hd). cbn [obind].
  destruct (data n); [|done]. by destruct (stringNodes r).
Qed.

Definition plain (segments : list string) : Prop :=
  Forall (λ s, isRegexSegment s = false) segments.

Lemma add_leaf segments : ∀ r d depth names r',
  plain segments → add r segments d depth names = Ret r' →
  ∃ n, leaf r' segments = Some n ∧ data n = Some d ∧ segNames n = names.
Proof.
  induction segments as [|seg rest IH]; intros r d depth names r' Hp E; simpl in E.
  { destruct (data r); simplify_eq. by eexists. }
  apply Forall_cons in Hp as [Hs Hp]. rewrite Hs in E.
  destruct (add _ rest d _ _) as [next'| | |] eqn:Ea; simpl in E; simplify_eq.
  simpl. rewrite lookup_set_eq. by eapply IH.
Qed.

Lemma add_keeps_leaf segs' : ∀ r d' depth names r' segments n d,
  add r segs' d' depth names = Ret r' → leaf r segments = Some n → data n = Some d →
  ∃ n', leaf r' segments = Some n' ∧ data n' = Some d ∧ segNames n' = segNames n.
Proof.
  induction segs' as [|y ys IH]; intros r d' depth names r' segments n d E El Hd; simpl in E.
  { destruct segments as [|x xs]; simpl in *; simplify_eq.
    - by rewrite Hd in E.
    - destruct (data r); simplify_eq. simpl. by exists n. }
  destruct (isRegexSegment y).
  - destruct (regex_parts y) as [re name].
    destruct (add _ ys d' _ _) as [next'| | |]; simpl in E; simplify_eq.
    destruct segments as [|x xs]; simpl in *; simplify_eq; by eexists.
  - destruct (add _ ys d' _ _) as [next'| | |] eqn:Ea; simpl in E; simplify_eq.
    destruct segments as [|x xs]; simpl in *; simplify_eq; [by eexists|].
    destruct (decide (x = y)) as [->|Hne].
    + rewrite lookup_set_eq. simpl. destruct (lookup_node y (stringNodes r)) as [nd|]; [|done].
      simpl in *. by eapply IH.
    + rewrite lookup_set_ne by done. by exists n.
Qed.

(** A sequence of registrations. *)
Fixpoint add_all (r : RadixNode) (routes : list (list string * D)) : outcome add_error RadixNode :=
  match routes with
  | [] => Ret r
  | (segs, d) :: routes => let! r' := Add r segs d in add_all r' routes
  end.

Lemma add_all_keeps_leaf routes : ∀ r r' segments n d,
  add_all r routes = Ret r' → leaf r segments = Some n → data n = Some d →
  ∃ n', leaf r' segments = Some n' ∧ data n' = Some d ∧ segNames n' = segNames n.
Proof.
  induction routes as [|[segs d'] routes IH]; intros r r' segments n d E El Hd; simpl in E.
  { simplify_eq. by exists n. }
  unfold Add in E. destruct (add r segs d' 1 []) as [r1| | |] eqn:Ea; simpl in E; try done.
  destruct (add_keeps_leaf _ _ _ _ _ _ _ _ _ Ea El Hd) as (n1 & El1 & Hd1 & Hn1).
  destruct (IH _ _ _ _ _ E El1 Hd1) as (n2 & ? & ? & ?). exists n2. split_and!; [done|done|congruence].
Qed.

Lemma add_duplicate segments : ∀ r n d d' depth names,
  plain segments → leaf r segments = Some n → data n = Some d →
  add r segments d' depth names = Fail DuplicateData.
Proof.
  induction segments as [|seg rest IH]; intros r n d d' depth names Hp El Hd; simpl in *.
  { simplify_eq. by rewrite Hd. }
  apply Forall_cons in Hp as [Hs Hp]. rewrite Hs.
  destruct (lookup_node seg (stringNodes r)) as [nd|]; [|done]. simpl in *.
  by rewrite (IH nd n d d' _ _ Hp El Hd).
Qed.

End Data.

Arguments RadixNode D : clear implicits.

(** Once a plain path has been registered, it is served with its data whatever is
    registered before and after it, and registering it again is refused. *)
Theorem Add_then_Match {D : Type} (compile : string → option (string → bool)) (r r1 r2 : RadixNode D)
    (segments : list string) (d d' : D) (later : list (list string * D)) :
  plain segments → Add r segments d = Ret r1 → add_all r1 later = Ret r2 →
  Match compile r2 segments = Ret (Some d, []) ∧ Add r2 segments d' = Fail DuplicateData.
Proof.
  intros Hp E1 E2. destruct (add_leaf _ _ _ _ _ _ Hp E1) as (n & El & Hd & Hn).
  destruct (add_all_keeps_leaf _ _ _ _ _ _ E2 El Hd) as (n2 & El2 & Hd2 & Hn2).
  split; [|by eapply add_duplicate].
  unfold Match. rewrite (match_leaf compile segments r2 n2 El2) by (by rewrite Hd2).
  cbn [obind]. rewrite Hn2, Hn, Hd2. done.
Qed.

(** C36 The router on a tree whose expressions compile: it never panics; it finds data
    whenever some route matches the whole request; and the data it finds belongs to a
    route that matches the request or a prefix of it. *)
Theorem match_finds_routes {D : Type} (compile : string → option (string → bool))
    (r : RadixNode D) (segments : list string) :
  compiles compile r →
  ∃ n b, match_ compile segments r = Ret (n, b) ∧
    ((∃ path d, route r path d ∧ Forall2 (pattern_matches compile) path segments) → data n ≠ None) ∧
    (∀ d, data n = Some d →
       ∃ path k, route r path d ∧ Forall2 (pattern_matches compile) path (take k segments)).
Proof.
  intros Hc. destruct (match_total compile segments r Hc) as (n & b & E).
  exists n, b. split_and!; [done| |].
  - intros (path & d & Hr & Hf). destruct (match_complete compile segments r path d Hc Hr Hf)
      as (n' & b' & E' & Hd). rewrite E in E'. by simplify_eq.
  - intros d Hd. by eapply match_sound.
Qed.

(** A compiler that knows one expression. *)
Definition any_regexp (re : string) : option (string → bool) :=
  if String.eqb re ".*" then Some (λ _, true) else None.

Definition server_routes : outcome add_error (RadixNode nat) :=
  add_all NewRadix [(["servers"; "<id>"], 1); (["servers"; "statistics"], 2)].

Lemma Add_then_Match_witness :
  ∃ r, server_routes = Ret r ∧ Match any_regexp r ["servers"; "statistics"] = Ret (Some 2, []) ∧
    Add r ["servers"; "statistics"] 3 = Fail DuplicateData.
Proof.
  eexists. split; [vm_compute; reflexivity|].
  eapply (Add_then_Match any_regexp _ _ _ _ _ _ []); [repeat constructor| |reflexivity].
  instantiate (1 := Node None [("servers", Node None [] [(".*", Node (Some 1) [] [] [(1, "<id>")])] [])] [] []).
  vm_compute. reflexivity.
Defined.

Lemma match_finds_routes_witness :
  let r := Node None [("servers", Node None [] [(".*", Node (Some 1) [] [] [(1, "<id>")])] [])] [] [] in
  ∃ n b, match_ any_regexp ["servers"; "x"] r = Ret (n, b) ∧
    ((∃ path d, route r path d ∧ Forall2 (pattern_matches any_regexp) path ["servers"; "x"]) →
     data n ≠ None) ∧
    (∀ d, data n = Some d →
       ∃ path k, route r path d ∧ Forall2 (pattern_matches any_regexp) path (take k ["servers"; "x"])).
Proof.
  intros r. apply (match_finds_routes any_regexp r ["servers"; "x"]).
  constructor; simpl; [|by intros ?? ?%elem_of_nil].
  intros s n. destruct (String.eqb s "servers"); [|done]. intros [= <-].
  constructor; simpl; [done|]. intros re n' [[= -> ->]|?%elem_of_nil]%elem_of_cons; [|done].
  split; [done|]. constructor; simpl; [done|by intros ?? ?%elem_of_nil].
Defined.

End Radix.
