(* ===== verification/Score.v ===== *)
(** * Scheduling scores: pkg/scheduler/core/score/score.go and the host order of
      pkg/scheduler/core/types.go

    A bucket is a list of named digits.  Hosts are ordered by comparing their buckets and
    then their names. *)

From stdpp Require Import pretty.
From S2P Require Import Prelude.
Local Open Scope Z_scope.

Module Score.

Definition MinScore : Z := -1.
Definition ZeroScore : Z := 0.
Definition MidScore : Z := 1.
Definition MaxScore : Z := 2.
Definition ZeroScoreName : string := "zero".

Record SScore := NewScore { Score : Z; Name : string }.

Definition NewMinScore (name : string) : SScore := NewScore MinScore name.
Definition NewZeroScore : SScore := NewScore ZeroScore ZeroScoreName.
Definition NewMidScore (name : string) : SScore := NewScore MidScore name.
Definition NewMaxScore (name : string) : SScore := NewScore MaxScore name.

Definition GetScore (v : SScore) : Z := Score v.
Definition String_ (v : SScore) : string := Name v +:+ ": " +:+ pretty (Score v).

(** A bucket is its list of scores. *)
Abbreviation ScoreBucket := (list SScore).

Definition Append (s : ScoreBucket) (scores : list SScore) : ScoreBucket := s ++ scores.
Definition AddToFirst (s : ScoreBucket) (score : SScore) : ScoreBucket := score :: s.

(** The first score of that name, changed by [f]; [None] when there is none. *)
Fixpoint update_first (f : Z → Z) (name : string) (s : ScoreBucket) : option ScoreBucket :=
  match s with
  | [] => None
  | o :: s => if String.eqb (Name o) name then Some (NewScore (f (Score o)) (Name o) :: s)
              else s' ← update_first f name s; Some (o :: s')
  end.

Definition SetScore (s : ScoreBucket) (score : SScore) : ScoreBucket :=
  default (Append s [score]) (update_first (λ _, Score score) (Name score) s).

Definition AddScore (s : ScoreBucket) (score : SScore) : ScoreBucket :=
  default (Append s [score])
    (update_first (λ o, int64_wrap (o + Score score)) (Name score) s).

Definition Len (s : ScoreBucket) : nat := length s.

(** [GetScore(name)]: the index and the score, or -1. *)
Fixpoint find_score (i : Z) (s : ScoreBucket) (scoreName : string) : Z * SScore :=
  match s with
  | [] => (-1, NewScore 0 "")
  | o :: s => if String.eqb (Name o) scoreName then (i, o) else find_score (i + 1) s scoreName
  end.
Definition GetScoreByName (s : ScoreBucket) (scoreName : string) : Z * SScore :=
  find_score 0 s scoreName.

Definition DigitString (s : ScoreBucket) : string :=
  foldl (λ acc o, acc +:+ pretty (Score o)) "" s.

Definition extend (scores : ScoreBucket) (len : nat) : ScoreBucket :=
  if (len <=? length scores)%nat then scores
  else replicate (len - length scores) NewZeroScore ++ scores.

(** The loop of [compare] returns in its first round whatever the test says. *)
Fixpoint compare_loop (s1 s2 : ScoreBucket) (cf : Z → Z → bool) : bool :=
  match s1, s2 with
  | a :: s1, b :: s2 => if cf (GetScore a) (GetScore b) then true
                        else if negb (cf (GetScore a) (GetScore b)) then false
                        else compare_loop s1 s2 cf
  | _, _ => false
  end.

Definition compare (b1 b2 : ScoreBucket) (cf : Z → Z → bool) : bool :=
  let maxLen := Nat.max (Len b1) (Len b2) in
  compare_loop (extend b1 maxLen) (extend b2 maxLen) cf.

Definition Equal (b1 b2 : ScoreBucket) : bool := compare b1 b2 Z.eqb.
Definition Less (b1 b2 : ScoreBucket) : bool := compare b1 b2 Z.ltb.

Fixpoint debugString (vals : list SScore) : string :=
  match vals with
  | [] => ""
  | [v] => String_ v
  | v :: rest => String_ v +:+ ", " +:+ debugString rest
  end.

(** ** Intervals *)

Record Interval := NewInterval { start : Z; end_ : Z }.

Definition IsContain (i : Interval) (val : Z) : bool := (start i <=? val) && (val <? end_ i).

Record Intervals := MkIntervals {
  MinInterval : option Interval;
  ZeroInterval : option Interval;
  MidInterval : option Interval;
  MaxInterval : option Interval }.

Definition NewIntervals (min zero mid : Z) : Intervals :=
  MkIntervals (Some (NewInterval min_int64 min)) (Some (NewInterval min zero))
    (Some (NewInterval zero mid)) (Some (NewInterval mid max_int64)).

(** The map of [ToScore], and its loop in a given order of the map's pairs. *)
Definition interval_map (ivs : Intervals) : list (Z * option Interval) :=
  [(MinScore, MinInterval ivs); (ZeroScore, ZeroInterval ivs); (MidScore, MidInterval ivs);
   (MaxScore, MaxInterval ivs)].

Fixpoint score_loop (m : list (Z * option Interval)) (val : Z) : Z :=
  match m with
  | [] => ZeroScore
  | (score, Some i) :: m => if IsContain i val then score else score_loop m val
  | (_, None) :: m => score_loop m val
  end.

Definition ToScore (ivs : Intervals) (val : Z) : Z := score_loop (interval_map ivs) val.

(** ** The order of hosts (types.go) *)

Record HostPriority := MkHost { Host : string; HostScore : ScoreBucket }.

Definition HostLess (h1 h2 : HostPriority) : bool :=
  if Equal (HostScore h1) (HostScore h2) then String.ltb (Host h1) (Host h2)
  else Less (HostScore h1) (HostScore h2).

(** ** Only the first digit counts *)

Definition first_digit (b : ScoreBucket) : Z := match b with [] => 0 | s :: _ => Score s end.

Lemma extend_id b : extend b (length b) = b.
Proof. unfold extend. by rewrite Nat.leb_refl. Qed.

Lemma compare_first b1 b2 cf :
  length b1 = length b2 → b1 ≠ [] → compare b1 b2 cf = cf (first_digit b1) (first_digit b2).
Proof.
  intros Hl Hne. unfold compare, Len. rewrite <- Hl, Nat.max_id, extend_id, Hl, extend_id.
  destruct b1 as [|a b1], b2 as [|b b2]; try done. simpl. unfold GetScore.
  by destruct (cf (Score a) (Score b)).
Qed.

(** Buckets of one length: the hosts compare by first digit, then by name. *)
Lemma HostLess_spec h1 h2 n :
  length (HostScore h1) = S n → length (HostScore h2) = S n →
  HostLess h1 h2 = true ↔
    first_digit (HostScore h1) < first_digit (HostScore h2) ∨
    (first_digit (HostScore h1) = first_digit (HostScore h2) ∧ str_lt (Host h1) (Host h2)).
Proof.
  intros H1 H2. unfold HostLess, Equal, Less.
  assert (HostScore h1 ≠ []) by (by destruct (HostScore h1)).
  rewrite !compare_first by congruence.
  destruct (Z.eqb_spec (first_digit (HostScore h1)) (first_digit (HostScore h2))).
  - unfold str_lt. split; [by right|]. intros [?|[_ ?]]; [lia|done].
  - rewrite Z.ltb_lt. split; [by left|]. intros [?|[? _]]; lia.
Qed.

(** For hosts whose buckets have the same positive length, the order the selection
    sorts by is a strict total order on hosts with different names.  It looks at the
    first digit only: every later digit of the buckets is ignored. *)
Theorem HostLess_strict_order (n : nat) (h1 h2 h3 : HostPriority) :
  length (HostScore h1) = S n → length (HostScore h2) = S n → length (HostScore h3) = S n →
  HostLess h1 h1 = false ∧
  (HostLess h1 h2 = true → HostLess h2 h3 = true → HostLess h1 h3 = true) ∧
  (Host h1 ≠ Host h2 → HostLess h1 h2 = true ∨ HostLess h2 h1 = true) ∧
  (first_digit (HostScore h1) = first_digit (HostScore h2) →
   HostLess h1 h2 = String.ltb (Host h1) (Host h2)).
Proof.
  intros L1 L2 L3. split_and!.
  - apply not_true_iff_false. rewrite (HostLess_spec _ _ n) by done.
    intros [?|[_ ?]]; [lia|by eapply str_lt_irrefl].
  - rewrite !(HostLess_spec _ _ n) by done. intros [?|[? ?]] [?|[? ?]];
      [left; lia..|right; split; [congruence|by etrans]].
  - intros Hne. rewrite !(HostLess_spec _ _ n) by done.
    destruct (Z.lt_trichotomy (first_digit (HostScore h1)) (first_digit (HostScore h2)))
      as [?|[?|?]]; [by auto| |by auto].
    destruct (str_lt_trichotomy (Host h1) (Host h2)) as [?|[?|?]]; [by auto|done|by auto].
  - intros Hd. apply eq_bool_prop_intro. split; intros H%Is_true_true; apply Is_true_true.
    + apply (HostLess_spec _ _ n L1 L2) in H as [?|[_ ?]]; [lia|done].
    + apply (HostLess_spec _ _ n L1 L2). by right.
Qed.

Lemma HostLess_strict_order_witness :
  let h1 := MkHost "a" [NewMidScore "cpu"; NewMaxScore "mem"] in
  let h2 := MkHost "b" [NewMidScore "cpu"; NewMinScore "mem"] in
  let h3 := MkHost "c" [NewMaxScore "cpu"; NewMinScore "mem"] in
  HostLess h1 h2 = true ∧ HostLess h2 h3 = true ∧ HostLess h1 h3 = true.
Proof.
  intros h1 h2 h3.
  destruct (HostLess_strict_order 1 h1 h2 h3) as (_ & Htrans & _ & Hfirst); [done..|].
  split; [rewrite Hfirst by done; vm_compute; reflexivity|].
  split; [vm_compute; reflexivity|].
  apply Htrans; vm_compute; reflexivity.
Defined.

(** With buckets of different lengths the order is cyclic: the shorter bucket is extended
    with zeros in front, so the digit that is compared depends on the other host. *)
Theorem HostLess_cyclic :
  let h1 := MkHost "a" [NewMidScore "cpu"] in
  let h2 := MkHost "b" [NewZeroScore; NewMaxScore "mem"] in
  let h3 := MkHost "c" [NewZeroScore] in
  HostLess h1 h2 = true ∧ HostLess h2 h3 = true ∧ HostLess h3 h1 = true.
Proof. vm_compute. tauto. Qed.

(** ** Intervals cover the integers once *)

Lemma score_loop_spec min zero mid val m :
  min ≤ zero → zero ≤ mid → is_int64 val → val < max_int64 →
  m ≡ₚ interval_map (NewIntervals min zero mid) →
  score_loop m val = if val <? min then MinScore else if val <? zero then ZeroScore
                     else if val <? mid then MidScore else MaxScore.
Proof.
  intros H1 H2 Hv Hm Hp. unfold is_int64, max_int64 in *.
  set (want := if val <? min then _ else _).
  assert (∀ s i, (s, Some i) ∈ m → IsContain i val = true → s = want) as Honly.
  { intros s i. rewrite Hp. unfold interval_map, NewIntervals. simpl.
    rewrite !elem_of_cons, elem_of_nil. unfold IsContain, want.
    intros Hin Hc; destruct_or!; simplify_eq; simpl in Hc; apply andb_prop in Hc as [? ?];
      unfold min_int64, max_int64 in *;
      repeat match goal with |- context [?x <? ?y] => destruct (Z.ltb_spec x y) end; lia || done. }
  assert (∃ i, (want, Some i) ∈ m ∧ IsContain i val = true) as (iw & Hiw & Hcw).
  { assert (∃ i, (want, Some i) ∈ interval_map (NewIntervals min zero mid) ∧ IsContain i val = true)
      as (i & Hi & Hc); [|exists i; by rewrite Hp].
    unfold want, interval_map, NewIntervals, IsContain. simpl.
    unfold min_int64, max_int64.
    repeat match goal with |- context [?x <? ?y] => destruct (Z.ltb_spec x y) end;
      eexists; (split; [rewrite !elem_of_cons; auto 6|]); simpl; lia. }
  clear Hp. induction m as [|[s [i|]] m IH]; [by apply elem_of_nil in Hiw| |]; simpl.
  - destruct (IsContain i val) eqn:Ec; [by apply (Honly s i); [left|]|].
    apply IH; [intros; eapply Honly; [by right|done]|].
    apply elem_of_cons in Hiw as [[= -> ->]|]; [congruence|done].
  - apply IH; [intros; eapply Honly; [by right|done]|].
    by apply elem_of_cons in Hiw as [[=]|].
Qed.

(** [ToScore] does not depend on the order in which Go ranges over the map of
    intervals: it gives the score of the interval that holds the value, for every
    value but the largest integer, which the half-open last interval leaves out and
    which scores zero. *)
Theorem ToScore_intervals (min zero mid val : Z) (m : list (Z * option Interval)) :
  min ≤ zero → zero ≤ mid → mid ≤ max_int64 → is_int64 val →
  m ≡ₚ interval_map (NewIntervals min zero mid) →
  score_loop m val = ToScore (NewIntervals min zero mid) val ∧
  ToScore (NewIntervals min zero mid) val =
    if val =? max_int64 then ZeroScore
    else if val <? min then MinScore else if val <? zero then ZeroScore
    else if val <? mid then MidScore else MaxScore.
Proof.
  intros H1 H2 H3 Hv Hp. unfold ToScore. destruct (Z.eqb_spec val max_int64) as [->|Hne].
  - assert (∀ m', m' ≡ₚ interval_map (NewIntervals min zero mid) →
              score_loop m' max_int64 = ZeroScore) as H; [|split; [by rewrite !H|by apply H]].
    intros m' Hp'.
    assert (∀ s i, (s, Some i) ∈ m' → IsContain i max_int64 = false) as Hout.
    { intros s i. rewrite Hp'. unfold interval_map, NewIntervals. simpl.
      rewrite !elem_of_cons, elem_of_nil. unfold IsContain.
      assert (∀ a b, b ≤ max_int64 → (a <=? max_int64) && (max_int64 <? b) = false) as Ho.
      { intros a b Hb. apply andb_false_iff. right. by apply Z.ltb_ge. }
      intros Hin; destruct_or!; simplify_eq; apply Ho; simpl; lia. }
    clear Hp'. induction m' as [|[s [i|]] m' IH]; [done| |]; simpl.
    + rewrite (Hout s i) by left. apply IH. intros; eapply Hout; by right.
    + apply IH. intros; eapply Hout; by right.
  - assert (val < max_int64) by (unfold is_int64, max_int64 in *; lia).
    by rewrite !(score_loop_spec min zero mid).
Qed.

Lemma ToScore_intervals_witness :
  score_loop (rev (interval_map (NewIntervals 0 1 2))) 7 = ToScore (NewIntervals 0 1 2) 7 ∧
  ToScore (NewIntervals 0 1 2) 7 =
    if 7 =? max_int64 then ZeroScore
    else if 7 <? 0 then MinScore else if 7 <? 1 then ZeroScore
    else if 7 <? 2 then MidScore else MaxScore.
Proof.
  apply (ToScore_intervals 0 1 2 7); [lia|lia|vm_compute; discriminate|split; vm_compute; congruence|].
  symmetry. apply Permutation_rev.
Defined.

End Score.
