(* ===== verification/Scheduler.v ===== *)
(** * The generic scheduler: pkg/scheduler/core/generic_scheduler.go, resource.go

    Selecting hosts by priority and capacity, and building the result list.  The capacities of the unit and the
    sorting library are parameters. *)

From S2P Require Import Prelude Score.
Import Score.
Local Open Scope Z_scope.
Local Open Scope go_scope.

Module Scheduler.

(** ** Selecting hosts *)

(** [selectedMap]: the hosts selected so far with their counts, in insertion order. *)
Abbreviation selection := (list (string * Z)).

Fixpoint selected (sel : selection) (host : string) : Z :=
  match sel with
  | [] => 0
  | (h, c) :: sel => if String.eqb h host then c else selected sel host
  end.

(** [selectedItem.Count++], creating the item when the host is new. *)
Fixpoint select_one (sel : selection) (host : string) : selection :=
  match sel with
  | [] => [(host, 1)]
  | (h, c) :: sel => if String.eqb h host then (h, c + 1) :: sel else (h, c) :: select_one sel host
  end.

Inductive select_error := EmptyPriorityList | NoEnoughResource.

Section Select.

(** [unit.GetCapacity], and [sort.Sort(sort.Reverse(...))]. *)
Context (capacity : string → Z) (sort_reverse : list HostPriority → list HostPriority).

(** One pass over the list; [None] in the last component is [break completed]. *)
Fixpoint select_pass (l : list HostPriority) (count : Z) (sel : selection)
    (acc : list HostPriority) : Z * selection * option (list HostPriority) :=
  match l with
  | [] => (count, sel, Some acc)
  | it :: l =>
    if count <=? 0 then (count, sel, None)
    else
      let sel := select_one sel (Host it) in
      let count := count - 1 in
      select_pass l count sel
        (if selected sel (Host it) <? capacity (Host it) then acc ++ [it] else acc)
  end.

Fixpoint select_loop (fuel : nat) (l : list HostPriority) (count : Z) (sel : selection)
  : outcome select_error (Z * selection) :=
  match l with
  | [] => Ret (count, sel)
  | _ =>
    match fuel with
    | O => OutOfFuel
    | S fuel =>
      match select_pass l count sel [] with
      | (count, sel, None) => Ret (count, sel)
      | (count, sel, Some l) => select_loop fuel (sort_reverse l) count sel
      end
    end
  end.

(** The loops over the list: what is left of the count, and the selection. *)
Definition select_hosts (fuel : nat) (count : Z) (priorityList : list HostPriority)
  : outcome select_error (Z * selection) :=
  match priorityList with
  | [] => Fail EmptyPriorityList
  | _ => select_loop fuel (sort_reverse priorityList) count []
  end.

(** The selection, without the calls of the plugins; the order of the result is the order of a Go map. *)
Definition SelectHosts (fuel : nat) (count : Z) (isSuggestion bestEffort : bool)
    (priorityList : list HostPriority) : outcome select_error selection :=
  let! (rest, sel) := select_hosts fuel count priorityList in
  if negb isSuggestion && negb bestEffort && (0 <? rest) then Fail NoEnoughResource
  else Ret sel.

End Select.

(** ** The result list *)

Section Result.
Context {C D : Type} (IndexKey : C → string).

(** [GetCapacity] and [GetAllocatedResource] of the unit. *)
Context (capacity : string → Z) (allocated : string → D).

(** What of [newSchedResultByCtx] depends on the arguments. *)
Record SchedResultItem := ResultItem { ID : string; Count : Z; ItemCapacity : Z; Allocated : D }.

Definition newSchedResultByCtx (count : Z) (c : C) : SchedResultItem :=
  ResultItem (IndexKey c) count (capacity (IndexKey c)) (allocated (IndexKey c)).

(** The loops over the candidates that were not selected: up to the limit, those that
    pass the test and are not in the result yet. *)
Fixpoint suggest (limit : Z) (want : C → bool) (cs : list C) (ids : list string)
    (results : list SchedResultItem) : list string * list SchedResultItem :=
  match cs with
  | [] => (ids, results)
  | c :: cs =>
    if limit <=? Z.of_nat (length results) then (ids, results)
    else if bool_decide (IndexKey c ∉ ids) && want c
         then suggest limit want cs (IndexKey c :: ids) (results ++ [newSchedResultByCtx 0 c])
         else suggest limit want cs ids results
  end.

Definition generateScheduleResult (suggestionLimit : Z) (suggestionAll hasCandidates : bool)
    (scs : list (C * Z)) (cs : list C) : list SchedResultItem :=
  let results := (λ it, newSchedResultByCtx it.2 it.1) <$> scs in
  let ids := (λ it, IndexKey it.1) <$> scs in
  let (ids, results) := suggest suggestionLimit (λ c, 0 <? capacity (IndexKey c)) cs ids results in
  if suggestionAll || hasCandidates
  then (suggest suggestionLimit (λ _, true) cs ids results).2
  else results.

End Result.

Arguments SchedResultItem D : clear implicits.

(** ** Reserved resources (resource.go) *)

(** A value of a candidate: nil or an [int64]. *)
Abbreviation value_t := (option Z).

Definition ResSum (values : list value_t) : Z :=
  foldl (λ ret v, match v with Some z => int64_wrap (ret + z) | None => ret end) 0 values.

Definition ResSub (sum reserved : value_t) : value_t :=
  match sum, reserved with
  | None, _ => None
  | Some s, None => Some s
  | Some s, Some r => Some (int64_wrap (s - r))
  end.

(** [GetResourceAlgorithm] returns the default algorithm or nil. *)
Definition GetResourceAlgorithm (res_name : string) : bool :=
  bool_decide (res_name ∈ ["FreeCPUCount"; "FreeMemSize"; "FreeLocalStorageSize"; "Ports"]) ||
  String.prefix "FreeStorageSize:" res_name.

Definition ReservedSub (key : string) (value reserved : value_t) : value_t :=
  if GetResourceAlgorithm key then ResSub value reserved else value.

Inductive Kind := KindFree | KindRaw | KindReserved.

Definition XGetCalculator (get : string → value_t) (key : string) (kind : Kind) : value_t :=
  match kind with
  | KindFree => ReservedSub key (get key) None
  | KindRaw => get key
  | KindReserved => None
  end.

End Scheduler.
