(* ===== verification/SchedulerProofs.v ===== *)
(** * Host selection and filtering: proofs about the generic scheduler *)

From S2P Require Import Prelude Score Scheduler.
Import Score Scheduler.
Local Open Scope Z_scope.
Local Open Scope go_scope.

Module SchedulerProofs.

(** ** Counting selections *)

Definition total (sel : selection) : Z := foldr (λ p s, p.2 + s) 0 sel.

Lemma selected_select_one sel h h' :
  selected (select_one sel h) h' = selected sel h' + if decide (h = h') then 1 else 0.
Proof.
  induction sel as [|[k c] sel IH]; simpl.
  { destruct (String.eqb_spec h h'); case_decide; done. }
  destruct (String.eqb_spec k h) as [->|Hne]; simpl.
  - destruct (String.eqb_spec h h'); case_decide; try done. lia.
  - destruct (String.eqb_spec k h') as [->|]; [|done]. rewrite decide_False by congruence. lia.
Qed.

Lemma total_select_one sel h : total (select_one sel h) = total sel + 1.
Proof.
  induction sel as [|[k c] sel IH]; [done|]. simpl.
  destruct (String.eqb k h); unfold total in *; simpl; lia.
Qed.

Definition select_all (sel : selection) (hs : list string) : selection := foldl select_one sel hs.

Lemma selected_select_all hs sel h :
  NoDup hs → selected (select_all sel hs) h = selected sel h + if decide (h ∈ hs) then 1 else 0.
Proof.
  intros Hnd. revert sel. induction Hnd as [|x hs Hx Hnd IH]; intros sel; simpl; [lia|].
  rewrite IH, selected_select_one.
  destruct (decide (x = h)) as [->|Hne].
  - rewrite decide_False by done. rewrite decide_True by (by left). lia.
  - destruct (decide (h ∈ hs)); [rewrite decide_True by (by right); lia|].
    rewrite decide_False; [lia|]. by intros [->|?]%elem_of_cons.
Qed.

Lemma total_select_all hs sel : total (select_all sel hs) = total sel + Z.of_nat (length hs).
Proof.
  revert sel. induction hs as [|x hs IH]; intros sel; simpl; [lia|].
  rewrite IH, total_select_one. lia.
Qed.

(** The sum of a function of the hosts of a list. *)
Definition sum_over (f : string → Z) (hs : list string) : Z := foldr (λ h s, f h + s) 0 hs.

Lemma sum_over_perm f l1 l2 : l1 ≡ₚ l2 → sum_over f l1 = sum_over f l2.
Proof. induction 1; unfold sum_over in *; simpl in *; lia. Qed.

Lemma sum_over_le f g l :
  (∀ h, h ∈ l → f h ≤ g h) → sum_over f l ≤ sum_over g l.
Proof.
  induction l as [|h l IH]; intros Hle; [done|]. unfold sum_over in *. simpl.
  assert (f h ≤ g h) by (apply Hle; by left). assert (∀ h', h' ∈ l → f h' ≤ g h') as Hl.
  { intros. apply Hle. by right. }
  specialize (IH Hl). lia.
Qed.

Lemma sum_over_one h hs : NoDup hs → h ∈ hs →
  sum_over (λ x, if decide (h = x) then 1 else 0) hs = 1.
Proof.
  induction 1 as [|x hs Hx Hnd IH]; [by intros ?%elem_of_nil|].
  unfold sum_over in *. simpl. intros [->|Hin]%elem_of_cons.
  - rewrite decide_True by done.
    assert (∀ l, x ∉ l → foldr (λ h s, (if decide (x = h) then 1 else 0) + s) 0 l = 0) as H0.
    { induction l as [|y l IHl]; intros Hl; [done|]. simpl. rewrite IHl by (by intros ?; apply Hl; right).
      rewrite decide_False; [done|]. intros ->. apply Hl. by left. }
    rewrite H0 by done. lia.
  - rewrite decide_False by (by intros ->). rewrite IH by done. lia.
Qed.

Lemma sum_over_plus f g hs : sum_over (λ h, f h + g h) hs = sum_over f hs + sum_over g hs.
Proof. induction hs as [|h hs IH]; [done|]. unfold sum_over in *. simpl. lia. Qed.

Lemma sum_over_ext f g hs : (∀ h, h ∈ hs → f h = g h) → sum_over f hs = sum_over g hs.
Proof.
  intros H. apply Z.le_antisymm; apply sum_over_le; intros h Hh; rewrite H by done; lia.
Qed.

(** Selecting hosts of [H] keeps the total equal to the sum over [H]. *)
Lemma total_select_all_sum H hs sel :
  NoDup H → (∀ h, h ∈ hs → h ∈ H) → total sel = sum_over (selected sel) H →
  total (select_all sel hs) = sum_over (selected (select_all sel hs)) H.
Proof.
  intros HH. revert sel. induction hs as [|x hs IH]; intros sel Hin Hs; [done|]. simpl.
  apply IH; [intros; apply Hin; by right|].
  rewrite total_select_one, Hs.
  rewrite (sum_over_ext (selected (select_one sel x)) (λ h, selected sel h + if decide (x = h) then 1 else 0))
    by (intros; apply selected_select_one).
  rewrite sum_over_plus, sum_over_one; [done|done|apply Hin; by left].
Qed.

Section Select.

Context (capacity : string → Z) (sort_reverse : list HostPriority → list HostPriority).
Context (sort_perm : ∀ l, sort_reverse l ≡ₚ l).

(** A host is selected at least once if the request reaches it, whatever its capacity. *)
Definition weight (h : string) : Z := Z.max 1 (capacity h).

Abbreviation hosts l := (Host <$> l).

Lemma select_pass_part l : ∀ count sel acc,
  0 ≤ count < Z.of_nat (length l) →
  select_pass capacity l count sel acc =
    (0, select_all sel (take (Z.to_nat count) (hosts l)), None).
Proof.
  induction l as [|it l IH]; intros count sel acc Hc; simpl in *; [lia|].
  destruct (Z.leb_spec count 0).
  - assert (count = 0) as -> by lia. done.
  - rewrite IH by lia. replace (Z.to_nat count) with (S (Z.to_nat (count - 1))) by lia. done.
Qed.

Lemma select_pass_full l : ∀ count sel acc,
  NoDup (hosts l) → Z.of_nat (length l) ≤ count →
  select_pass capacity l count sel acc =
    (count - Z.of_nat (length l), select_all sel (hosts l),
     Some (acc ++ filter (λ it, selected sel (Host it) + 1 < capacity (Host it)) l)).
Proof.
  induction l as [|it l IH]; intros count sel acc Hnd Hc; simpl in *.
  { rewrite app_nil_r. do 2 f_equal. lia. }
  apply NoDup_cons in Hnd as [Hit Hnd].
  destruct (Z.leb_spec count 0); [lia|]. rewrite IH by (done || lia).
  rewrite filter_cons, selected_select_one, decide_True by done.
  rewrite (list_filter_ext_in (λ it0, selected (select_one sel (Host it)) (Host it0) + 1 < capacity (Host it0))
             (λ it0, selected sel (Host it0) + 1 < capacity (Host it0))).
  2:{ intros it' Hin. rewrite selected_select_one, decide_False; [by rewrite Z.add_0_r|].
      intros E. apply Hit. rewrite E. by apply list_elem_of_fmap_2. }
  f_equal; [f_equal; lia|].
  destruct (Z.ltb_spec (selected sel (Host it) + 1) (capacity (Host it))); case_decide; try lia.
  - by rewrite <- app_assoc.
  - done.
Qed.

(** What holds of a selection between two passes: [l] are the hosts with room left. *)
Definition between (H : list string) (l : list HostPriority) (sel : selection) : Prop :=
  NoDup (hosts l) ∧ (∀ h, h ∈ hosts l → h ∈ H ∧ selected sel h < weight h) ∧
  (∀ h, h ∈ H → 0 ≤ selected sel h ≤ weight h) ∧
  (∀ h, h ∈ H → h ∉ hosts l → selected sel h = weight h) ∧
  (∀ h, h ∉ H → selected sel h = 0) ∧ total sel = sum_over (selected sel) H.

Lemma between_perm H l l' sel : l' ≡ₚ l → between H l sel → between H l' sel.
Proof.
  intros Hp (H1 & H2 & H3 & H4 & H5 & H6). unfold between.
  split_and!; [by rewrite Hp| |done| |done|done]; intros h; rewrite Hp; auto.
Qed.

Lemma selected_select_all_in hs sel h :
  NoDup hs → h ∈ hs → selected (select_all sel hs) h = selected sel h + 1.
Proof. intros Hnd Hin. by rewrite selected_select_all, decide_True. Qed.

Lemma selected_select_all_out hs sel h :
  NoDup hs → h ∉ hs → selected (select_all sel hs) h = selected sel h.
Proof. intros Hnd Hin. rewrite selected_select_all, decide_False by done. lia. Qed.

Lemma between_full H l sel :
  NoDup H → between H l sel →
  between H (filter (λ it, selected sel (Host it) + 1 < capacity (Host it)) l)
    (select_all sel (hosts l)).
Proof.
  intros HH (Hnd & Hl & Hb & Hout & Hz & Ht). unfold between. split_and!.
  - eapply sublist_NoDup; [exact Hnd|]. apply fmap_sublist, sublist_filter.
  - intros h (it & -> & [Hc Hin]%list_elem_of_filter)%list_elem_of_fmap.
    assert (Host it ∈ hosts l) as Hh by (by apply list_elem_of_fmap_2).
    split; [by apply Hl|]. rewrite selected_select_all_in by done. unfold weight. lia.
  - intros h Hh. rewrite selected_select_all by done. specialize (Hb h Hh).
    destruct (decide (h ∈ hosts l)) as [Hin|]; [|lia]. destruct (Hl h Hin). lia.
  - intros h Hh Hn. destruct (decide (h ∈ hosts l)) as [Hin|Hnin].
    + rewrite selected_select_all_in by done. destruct (Hl h Hin) as [_ Hlt].
      apply list_elem_of_fmap in Hin as (it & -> & Hin).
      assert (¬ selected sel (Host it) + 1 < capacity (Host it)) as Hc.
      { intros Hc. apply Hn. apply list_elem_of_fmap_2, list_elem_of_filter. done. }
      specialize (Hb _ Hh). unfold weight in *. lia.
    + rewrite selected_select_all_out by done. by apply Hout.
  - intros h Hh. rewrite selected_select_all_out; [by apply Hz|done|].
    intros Hin. apply Hh. by apply Hl.
  - apply total_select_all_sum; [done|intros h Hin; by apply Hl|done].
Qed.

Lemma select_loop_spec H fuel : ∀ l count sel,
  NoDup H → between H l sel → 0 ≤ count < Z.of_nat fuel →
  ∃ rest sel', select_loop capacity sort_reverse fuel l count sel = Ret (rest, sel') ∧
    0 ≤ rest ∧ total sel' + rest = total sel + count ∧
    (∀ h, h ∈ H → 0 ≤ selected sel' h ≤ weight h) ∧ (∀ h, h ∉ H → selected sel' h = 0) ∧
    total sel' = sum_over (selected sel') H ∧
    (0 < rest → ∀ h, h ∈ H → selected sel' h = weight h).
Proof.
  induction fuel as [|fuel IH]; intros l count sel HH Hb Hc; [lia|].
  destruct l as [|it l0] eqn:El; [|rewrite <- El in *].
  { destruct Hb as (_ & _ & Hw & Hout & Hz & Ht). simpl. exists count, sel.
    split_and!; try done; [lia|]. intros _ h Hh. apply Hout; [done|by intros ?%elem_of_nil]. }
  assert (select_loop capacity sort_reverse (S fuel) l count sel =
    match select_pass capacity l count sel [] with
    | (count, sel, None) => Ret (count, sel)
    | (count, sel, Some l) => select_loop capacity sort_reverse fuel (sort_reverse l) count sel
    end) as -> by (by rewrite El).
  destruct (decide (Z.of_nat (length l) ≤ count)) as [Hle|Hgt].
  - rewrite select_pass_full by (done || apply Hb). cbn [app].
    assert (0 < length l)%nat as Hl by (rewrite El; simpl; lia).
    destruct (IH (sort_reverse (filter (λ it, selected sel (Host it) + 1 < capacity (Host it)) l))
      (count - Z.of_nat (length l)) (select_all sel (hosts l)) HH) as (rest & sel' & E & H1 & H2 & H3);
      [eapply between_perm; [apply sort_perm|by apply between_full]|lia|].
    exists rest, sel'. split_and!; [done|done| |apply H3..].
    rewrite H2, total_select_all, length_fmap. lia.
  - rewrite select_pass_part by lia. pose proof Hb as (Hnd & Hin & Hw & Hout & Hz & Ht).
    exists 0, (select_all sel (take (Z.to_nat count) (hosts l))).
    assert (NoDup (take (Z.to_nat count) (hosts l))) as Hndt by (eapply sublist_NoDup; [done|apply sublist_take]).
    assert (∀ h, h ∈ take (Z.to_nat count) (hosts l) → h ∈ hosts l) as Hsub
      by (intros h Hh; by eapply elem_of_sublist; [|apply sublist_take]).
    split_and!; [done|lia| | | | |lia].
    + rewrite total_select_all, length_take, length_fmap. lia.
    + intros h Hh. rewrite selected_select_all by done. specialize (Hw h Hh).
      destruct (decide (h ∈ take _ _)) as [Hx|]; [|lia]. destruct (Hin h (Hsub h Hx)). lia.
    + intros h Hh. rewrite selected_select_all_out; [by apply Hz|done|].
      intros Hx. apply Hh, Hin, Hsub, Hx.
    + apply total_select_all_sum; [done|intros h Hx; apply Hin, Hsub, Hx|done].
Qed.

End Select.

Lemma SelectHosts_spec (capacity : string → Z)
    (sort_reverse : list HostPriority → list HostPriority) (fuel : nat) (count : Z)
    (isSuggestion bestEffort : bool) (l : list HostPriority) :
  (∀ l, sort_reverse l ≡ₚ l) → l ≠ [] → NoDup (Host <$> l) → 0 ≤ count < Z.of_nat fuel →
  let room := sum_over (weight capacity) (Host <$> l) in
  if negb isSuggestion && negb bestEffort && (room <? count)
  then SelectHosts capacity sort_reverse fuel count isSuggestion bestEffort l = Fail NoEnoughResource
  else ∃ sel, SelectHosts capacity sort_reverse fuel count isSuggestion bestEffort l = Ret sel ∧
    total sel = Z.min count room ∧
    (∀ h, h ∈ Host <$> l → 0 ≤ selected sel h ≤ weight capacity h) ∧
    (∀ h, h ∉ Host <$> l → selected sel h = 0).
Proof.
  intros Hs Hne Hnd Hc room. unfold SelectHosts, select_hosts.
  destruct (select_loop_spec capacity sort_reverse Hs (Host <$> l) fuel (sort_reverse l) count []
              Hnd) as (rest & sel & E & Hr & Ht & Hw & Hz & Hsum & Hfull); [|done|].
  { eapply (between_perm _ _ l); [apply Hs|]. unfold between, weight. simpl.
    split_and!; try done; [intros; split; [done|lia]|intros; lia|].
    induction (Host <$> l) as [|h hs IHh]; [done|]. unfold sum_over in *. simpl. apply NoDup_cons in Hnd as [_ Hnd]. by rewrite <- IHh. }
  assert (sum_over (selected sel) (Host <$> l) ≤ room) by (apply sum_over_le; intros; by apply Hw).
  assert (0 < rest → total sel = room) as Hroom.
  { intros Hp. rewrite Hsum. apply sum_over_ext. intros h Hh. by apply Hfull. }
  change (total []) with 0 in Ht.
  destruct l as [|it l]; [done|]. rewrite E. cbn [obind].
  destruct (negb isSuggestion && negb bestEffort); cbn [andb].
  - destruct (Z.ltb_spec room count), (Z.ltb_spec 0 rest); try lia; [done|].
    exists sel. split_and!; try done. lia.
  - exists sel. split_and!; try done. lia.
Qed.

Lemma select_one_elem sel h x : x ∈ (select_one sel h).*1 → x ∈ sel.*1 ∨ x = h.
Proof.
  induction sel as [|[k c] sel IH]; cbn; [intros ->%list_elem_of_singleton; by right|].
  destruct (String.eqb k h); cbn; rewrite !elem_of_cons; [tauto|]. intros [->|Hx]; [tauto|]. destruct (IH Hx); tauto.
Qed.

(** No host is selected twice: its selections are counted in one entry, which is positive. *)
Definition sel_ok (sel : selection) : Prop := NoDup sel.*1 ∧ Forall (λ p, 1 ≤ p.2) sel.

Lemma select_one_ok sel h : sel_ok sel → sel_ok (select_one sel h).
Proof.
  unfold sel_ok. induction sel as [|[k c] sel IH]; cbn; [intros _; split; [apply NoDup_singleton|by constructor]|].
  intros [Hnd Hpos]. apply NoDup_cons in Hnd as [Hk Hnd]. apply Forall_cons in Hpos as [Hc Hpos]. cbn in Hc.
  destruct (String.eqb_spec k h) as [->|Hne]; cbn; rewrite NoDup_cons, Forall_cons; cbn; [by split_and!; [..|lia|]|].
  destruct IH as [IHn IHp]; [done|]. split_and!; try done. intros Hx. by destruct (select_one_elem sel h k Hx).
Qed.

Lemma select_pass_ok capacity l : ∀ count sel acc, sel_ok sel → sel_ok (select_pass capacity l count sel acc).1.2.
Proof.
  induction l as [|it l IH]; intros count sel acc Hnd; cbn [select_pass]; [done|].
  destruct (count <=? 0); [done|]. by apply IH, select_one_ok.
Qed.

Lemma select_loop_ok capacity sort fuel : ∀ l count sel rest sel',
  sel_ok sel → select_loop capacity sort fuel l count sel = Ret (rest, sel') → sel_ok sel'.
Proof.
  induction fuel as [|fuel IH]; intros [|it l] count sel rest sel' Hnd E; cbn [select_loop] in E; try (by simplify_eq).
  pose proof (select_pass_ok capacity (it :: l) count sel [] Hnd) as Hp.
  destruct (select_pass _ _ _ _ _) as [[count' sel1] [l'|]]; [by apply IH in E|by simplify_eq].
Qed.

Lemma select_hosts_ok capacity sort fuel count l rest sel :
  select_hosts capacity sort fuel count l = Ret (rest, sel) → sel_ok sel.
Proof. unfold select_hosts. destruct l; [done|]. apply select_loop_ok. split; constructor. Qed.

Lemma selected_entry sel h n : NoDup sel.*1 → (h, n) ∈ sel → selected sel h = n.
Proof.
  induction sel as [|[k c] sel IH]; cbn; intros Hnd Hin; [by apply elem_of_nil in Hin|].
  apply NoDup_cons in Hnd as [Hk Hnd]. apply elem_of_cons in Hin as [[= -> ->]|Hin]; [by rewrite String.eqb_refl|].
  destruct (String.eqb_spec k h) as [->|]; [|by apply IH]. destruct Hk. by apply (list_elem_of_fmap_2 fst _ (h, n)).
Qed.

(** The entries of a selection stay within the room of their hosts. *)
Lemma SelectHosts_entries capacity sort_reverse fuel count isSuggestion bestEffort l sel :
  (∀ l, sort_reverse l ≡ₚ l) → NoDup (Host <$> l) → 0 ≤ count < Z.of_nat fuel →
  SelectHosts capacity sort_reverse fuel count isSuggestion bestEffort l = Ret sel →
  ∀ h n, (h, n) ∈ sel → n ≤ weight capacity h.
Proof.
  intros Hs Hnd Hc E h n Hin. destruct l as [|it l]; [done|].
  pose proof (SelectHosts_spec capacity sort_reverse fuel count isSuggestion bestEffort (it :: l) Hs ltac:(done) Hnd Hc) as Hspec.
  cbv zeta in Hspec. destruct (_ && _); [congruence|]. destruct Hspec as (sel' & E' & _ & Hw & Hz).
  assert (sel' = sel) as -> by congruence.
  assert (NoDup sel.*1) as Hf.
  { unfold SelectHosts in E. destruct (select_hosts _ _ _ _ _) as [[rest sel1]| | |] eqn:El; cbn [obind] in E; try done.
    assert (sel1 = sel) as -> by (by destruct (_ && _); simplify_eq). by apply select_hosts_ok in El as [? _]. }
  rewrite <- (selected_entry sel h n Hf Hin). destruct (decide (h ∈ Host <$> it :: l)); [by apply Hw|].
  rewrite Hz by done. unfold weight. lia.
Qed.

(** C9 Host selection terminates and is exact: every host has room for its capacity, and for one guest at least.  A
    request that must be met in full fails exactly when it exceeds the sum of the
    rooms; otherwise the selected counts add up to the request, or to the sum if that
    is less, and no host gets more than its room. *)
Theorem SelectHosts_correct (capacity : string → Z)
    (sort_reverse : list HostPriority → list HostPriority) (fuel : nat) (count : Z)
    (isSuggestion bestEffort : bool) (l : list HostPriority) :
  (∀ l, sort_reverse l ≡ₚ l) → l ≠ [] → NoDup (Host <$> l) → 0 ≤ count < Z.of_nat fuel →
  let room := sum_over (weight capacity) (Host <$> l) in
  if negb isSuggestion && negb bestEffort && (room <? count)
  then SelectHosts capacity sort_reverse fuel count isSuggestion bestEffort l = Fail NoEnoughResource
  else ∃ sel, SelectHosts capacity sort_reverse fuel count isSuggestion bestEffort l = Ret sel ∧
    total sel = Z.min count room ∧
    (∀ h, h ∈ Host <$> l → 0 ≤ selected sel h ≤ weight capacity h) ∧
    (∀ h, h ∉ Host <$> l → selected sel h = 0).
Proof. apply SelectHosts_spec. Qed.

Definition two_hosts : list HostPriority :=
  [MkHost "a" [NewMidScore "cpu"]; MkHost "b" [NewMaxScore "cpu"]].

Lemma SelectHosts_correct_witness :
  ∃ sel, SelectHosts (λ _, 3) (λ l, l) 10 5 false false two_hosts = Ret sel ∧
    total sel = 5 ∧
    (∀ h, h ∈ Host <$> two_hosts → 0 ≤ selected sel h ≤ weight (λ _, 3) h) ∧
    (∀ h, h ∉ Host <$> two_hosts → selected sel h = 0).
Proof.
  apply (SelectHosts_correct (λ _, 3) (λ l, l) 10 5 false false two_hosts);
    [done|done| |lia].
  repeat constructor; set_solver.
Defined.



End SchedulerProofs.
