(* ===== verification/DiskConfig.v ===== *)
(** * Baremetal disk layouts: pkg/compute/baremetal/diskconfig.go, types.go

    The disks of a machine are dealt out to a list of RAID configurations.  The storages
    are shared pointers whose [Index] the first visit sets, so the model returns the
    updated storages.  Splitting a volume by a textual description uses floating-point
    percentages; [GetSplitSizes] is a parameter. *)

From stdpp Require Import pretty.
From S2P Require Import Prelude.
Local Open Scope Z_scope.
Local Open Scope go_scope.

Module DiskConfig.

Definition DISK_CONF_RAID0 : string := "raid0".
Definition DISK_CONF_RAID1 : string := "raid1".
Definition DISK_CONF_RAID5 : string := "raid5".
Definition DISK_CONF_RAID10 : string := "raid10".
Definition DISK_CONF_NONE : string := "none".
Definition DEFAULT_DISK_CONF : string := DISK_CONF_NONE.
Definition DISK_TYPE_ROTATE : string := "rotate".
Definition DISK_TYPE_SSD : string := "ssd".
Definition DISK_TYPE_HYBRID : string := "hybrid".
Definition DISK_DRIVER_MEGARAID : string := "MegaRaid".
Definition DISK_DRIVER_LINUX : string := "Linux".
Definition DISK_DRIVER_HPSARAID : string := "HPSARaid".
Definition DISK_DRIVER_MPT2SAS : string := "Mpt2SAS".
Definition DISK_DRIVER_MARVELRAID : string := "MarvelRaid".
Definition DISK_DRIVER_PCIE : string := "PCIE".
Definition HDD_DISK_SPEC_TYPE : string := "HDD".
Definition SSD_DISK_SPEC_TYPE : string := "SSD".
Definition DISK_DRIVERS_RAID : list string :=
  [DISK_DRIVER_MEGARAID; DISK_DRIVER_HPSARAID; DISK_DRIVER_MPT2SAS; DISK_DRIVER_MARVELRAID].
(** [DISK_DRIVERS.List()] is sorted. *)
Definition DISK_DRIVERS : list string :=
  [DISK_DRIVER_HPSARAID; DISK_DRIVER_LINUX; DISK_DRIVER_MARVELRAID; DISK_DRIVER_MEGARAID;
   DISK_DRIVER_MPT2SAS; DISK_DRIVER_PCIE].

(** The fields of a storage and of a configuration that the layout reads. *)
Record BaremetalStorage := Storage {
  Size : Z;
  Driver : string;
  Rotate : bool;
  Block : Z;
  Adapter : Z;
  MinStripSize : Z;
  MaxStripSize : Z;
  Index : Z }.

Definition GetBlock (s : BaremetalStorage) : Z := if Block s <=? 0 then 512 else Block s.

Record BaremetalDiskConfig := DiskConf {
  Type_ : string;
  Conf : string;
  Count : Z;
  Range : list Z;
  Splits : string;
  ConfSize : list Z;
  ConfAdapter : option Z;
  ConfDriver : string;
  Strip : option Z }.

Definition none_config : BaremetalDiskConfig :=
  DiskConf DISK_TYPE_HYBRID DISK_CONF_NONE 0 [] "" [] None "" None.

Definition str_in (s : string) (l : list string) : bool := existsb (String.eqb s) l.

(** [None] is a nil pointer. *)
Definition isDiskConfigStorageMatch (config : BaremetalDiskConfig) (confDriver : option string)
    (confAdapter : option Z) (storage : BaremetalStorage) (selected : list BaremetalStorage) : bool :=
  let typeIsHybrid := String.eqb (Type_ config) DISK_TYPE_HYBRID in
  let typeIsRotate := String.eqb (Type_ config) DISK_TYPE_ROTATE && Rotate storage in
  let typeIsSSD := String.eqb (Type_ config) DISK_TYPE_SSD && negb (Rotate storage) in
  let rangeNone := (length (Range config) =? 0)%nat in
  let rangeIsNoneAndCountZero := rangeNone && (Count config =? 0) in
  let rangeIsNotNoneAndIndexInRange := negb rangeNone && existsb (Z.eqb (Index storage)) (Range config) in
  let rangeIsNoneAndSmallThanCount := rangeNone && (Z.of_nat (length selected) <? Count config) in
  let adapterIsEqual :=
    match confAdapter with None => true | Some a => a =? Adapter storage end &&
    match confDriver with None => true | Some d => String.eqb d (Driver storage) end in
  (typeIsHybrid || typeIsRotate || typeIsSSD) &&
  (rangeIsNoneAndCountZero || rangeIsNotNoneAndIndexInRange || rangeIsNoneAndSmallThanCount) &&
  adapterIsEqual.

Definition set_index (s : BaremetalStorage) (idx : Z) : BaremetalStorage :=
  if Index s =? 0
  then Storage (Size s) (Driver s) (Rotate s) (Block s) (Adapter s) (MinStripSize s)
         (MaxStripSize s) idx
  else s.

Fixpoint retrieve_loop (conf : BaremetalDiskConfig) (confDriver : option string)
    (confAdapter : option Z) (idx : Z) (storages selected rest : list BaremetalStorage)
  : list BaremetalStorage * list BaremetalStorage :=
  match storages with
  | [] => (selected, rest)
  | s :: storages =>
    let storage := set_index s idx in
    if isDiskConfigStorageMatch conf confDriver confAdapter storage selected then
      retrieve_loop conf
        (match confDriver with None => Some (Driver storage) | Some d => Some d end)
        (match confAdapter with None => Some (Adapter storage) | Some a => Some a end)
        (idx + 1) storages (selected ++ [storage]) rest
    else retrieve_loop conf confDriver confAdapter (idx + 1) storages selected (rest ++ [storage])
  end.

Definition RetrieveStorages (conf : BaremetalDiskConfig) (storages : list BaremetalStorage)
  : list BaremetalStorage * list BaremetalStorage :=
  retrieve_loop conf (if String.eqb (ConfDriver conf) "" then None else Some (ConfDriver conf))
    (ConfAdapter conf) 0 storages [] [].

Definition GetMinDiskRequirement (diskConfig : string) : Z :=
  let minDisk := if String.eqb diskConfig DISK_CONF_RAID1 then 2 else 1 in
  if String.eqb diskConfig DISK_CONF_RAID5 then 3
  else if String.eqb diskConfig DISK_CONF_RAID10 then 4 else minDisk.

Definition RequireEvenDisks (diskConfig : string) : bool :=
  str_in diskConfig [DISK_CONF_RAID10; DISK_CONF_RAID1].

(** The set of drivers; [sets.String.List] is sorted. *)
Definition RetrieveStorageDrivers (storages : list BaremetalStorage) : list string :=
  merge_sort String.le (remove_dups (Driver <$> storages)).

Inductive meet_error :=
| MoreThanOneDriver
| NoRaidDriver
| TooFewDisks
| OddDisks
| SplitOfNormalDisk
| Mpt2sasRaid5
| Mpt2sasRaid0
| Mpt2sasRaid10
| StripOutOfRange.

Definition MeetConfig (conf : BaremetalDiskConfig) (storages : list BaremetalStorage)
  : outcome meet_error unit :=
  let drvs := RetrieveStorageDrivers storages in
  if (1 <? length drvs)%nat then Fail MoreThanOneDriver else
  let! driver := of_opt (drvs !! 0%nat) in
  let n := Z.of_nat (length storages) in
  if negb (String.eqb (Conf conf) DISK_CONF_NONE) && negb (str_in driver DISK_DRIVERS_RAID)
  then Fail NoRaidDriver else
  if n <? GetMinDiskRequirement (Conf conf) then Fail TooFewDisks else
  if RequireEvenDisks (Conf conf) && negb (n mod 2 =? 0) then Fail OddDisks else
  if negb (String.eqb (Splits conf) "") && str_in (Conf conf) [DISK_CONF_NONE; DISK_DRIVER_MPT2SAS]
  then Fail SplitOfNormalDisk else
  let! _ :=
    if String.eqb driver DISK_DRIVER_MPT2SAS then
      if String.eqb (Conf conf) DISK_CONF_RAID5 then Fail Mpt2sasRaid5
      else if String.eqb (Conf conf) DISK_CONF_RAID0 && (n <? 2) then Fail Mpt2sasRaid0
      else if String.eqb (Conf conf) DISK_CONF_RAID10 && (10 <? n) then Fail Mpt2sasRaid10
      else Ret tt
    else Ret tt in
  match Strip conf with
  | Some size =>
    if String.eqb driver DISK_DRIVER_MEGARAID then
      let! s0 := of_opt (storages !! 0%nat) in
      if negb (MaxStripSize s0 =? -1) && negb (MinStripSize s0 =? -1) &&
         ((MaxStripSize s0 <? size) || (size <? MinStripSize s0))
      then Fail StripOutOfRange else Ret tt
    else Ret tt
  | None => Ret tt
  end.

Definition GetStoragesMinSize (ss : list BaremetalStorage) : Z :=
  foldl (λ minSize s, if (minSize <? 0) || (Size s <? minSize) then Size s else minSize) (-1) ss.

Definition CalculateSize (conf : string) (storages : list BaremetalStorage) : Z :=
  let conf := if String.eqb conf "" then DEFAULT_DISK_CONF else conf in
  let n := Z.of_nat (length storages) in
  if String.eqb conf DISK_CONF_RAID5 then int64_wrap (GetStoragesMinSize storages * (n - 1))
  else if str_in conf [DISK_CONF_RAID10; DISK_CONF_RAID1]
       then int64_wrap (GetStoragesMinSize storages * Z.quot n 2)
       else foldl (λ size s, int64_wrap (size + Size s)) 0 storages.

Record Layout := MkLayout {
  Disks : list BaremetalStorage;
  LConf : BaremetalDiskConfig;
  LSize : Z }.

Definition with_size (conf : BaremetalDiskConfig) (sizes : list Z) : BaremetalDiskConfig :=
  DiskConf (Type_ conf) (Conf conf) (Count conf) (Range conf) (Splits conf) sizes
    (ConfAdapter conf) (ConfDriver conf) (Strip conf).

Definition with_count (conf : BaremetalDiskConfig) (count : Z) : BaremetalDiskConfig :=
  DiskConf (Type_ conf) (Conf conf) count (Range conf) (Splits conf) (ConfSize conf)
    (ConfAdapter conf) (ConfDriver conf) (Strip conf).

Inductive layout_error :=
| NoMatchedStorages
| NotMeetConfig (e : meet_error)
| NotEnoughDisks.

Section Splits.

Variable GetSplitSizes : Z → string → list Z.

(** The loop of [CalculateLayout]; each round takes at least one storage. *)
Fixpoint layout_loop (fuel : nat) (confs : list BaremetalDiskConfig)
    (storages : list BaremetalStorage) (layouts : list Layout)
  : outcome layout_error (list BaremetalDiskConfig * list Layout) :=
  match storages with
  | [] => Ret (confs, layouts)
  | _ =>
    match fuel with
    | O => OutOfFuel
    | S fuel =>
      let conf := match confs with c :: _ => c | [] => none_config end in
      let (selected, storage1) := RetrieveStorages conf storages in
      match selected with
      | [] => Fail NoMatchedStorages
      | _ =>
        match MeetConfig conf selected with
        | Fail e => Fail (NotMeetConfig e)
        | Panic => Panic
        | OutOfFuel => OutOfFuel
        | Ret _ =>
          let sz := CalculateSize (Conf conf) selected in
          let conf := if String.eqb (Splits conf) "" then conf
                      else with_size conf (GetSplitSizes sz (Splits conf)) in
          layout_loop fuel (tail confs) storage1 (layouts ++ [MkLayout selected conf sz])
        end
      end
    end
  end.

Definition CalculateLayout (fuel : nat) (confs : list BaremetalDiskConfig)
    (storages : list BaremetalStorage) : outcome layout_error (list Layout) :=
  let! (unused, layouts) := layout_loop fuel confs storages [] in
  match unused with
  | [] => Ret layouts
  | _ => Fail NotEnoughDisks
  end.

(** [ExpandNoneConf] writes [Count] through the pointer that a layout shares with the
    configurations its layouts were made of.  The layouts it returns hold the changed
    configuration, as in the model; what it leaves in the caller's configurations is
    [expanded_confs]. *)
Fixpoint ExpandNoneConf (layouts : list Layout) : list Layout :=
  match layouts with
  | [] => []
  | l :: layouts =>
    (if String.eqb (Conf (LConf l)) DISK_CONF_NONE && (0 <? length (Disks l))%nat
     then (λ d, MkLayout [d] (with_count (LConf l) 1) (Size d)) <$> Disks l
     else [l]) ++ ExpandNoneConf layouts
  end.

(** The configurations of the caller after [ExpandNoneConf] on the layouts that
    [CalculateLayout] made of them, one each and in order. *)
Fixpoint expanded_confs (confs : list BaremetalDiskConfig) (layouts : list Layout)
  : list BaremetalDiskConfig :=
  match confs, layouts with
  | c :: confs, l :: layouts =>
    (if String.eqb (Conf c) DISK_CONF_NONE && (0 <? length (Disks l))%nat
     then with_count c 1 else c) :: expanded_confs confs layouts
  | _, _ => confs
  end.

Fixpoint expandLayoutSplits (layouts : list Layout) : list Layout :=
  match layouts with
  | [] => []
  | l :: layouts =>
    match GetSplitSizes (LSize l) (Splits (LConf l)) with
    | [] => [l]
    | sizes => (λ ssz, MkLayout (Disks l) (LConf l) ssz) <$> sizes
    end ++ expandLayoutSplits layouts
  end.

(** The loop of [CheckDisksAllocable] over the sizes of the requested disks: the number
    of disks placed. *)
Fixpoint alloc_loop (layouts : list Layout) (disks : list Z) (storeIndex : nat)
    (storeFreeSize : Z) (diskIndex : nat) : nat :=
  match disks with
  | [] => diskIndex
  | disk :: disks =>
    match layouts !! storeIndex with
    | None => diskIndex
    | Some l =>
      let free := if storeFreeSize <? 0 then int64_wrap (LSize l - 2) else storeFreeSize in
      if 0 <? disk then
        if disk <=? free then
          let free := free - disk in
          if free =? 0 then alloc_loop layouts disks (S storeIndex) (-1) (S diskIndex)
          else alloc_loop layouts disks storeIndex free (S diskIndex)
        else alloc_loop layouts disks (S storeIndex) (-1) diskIndex
      else alloc_loop layouts disks (S storeIndex) (-1) (S diskIndex)
    end
  end.

Definition CheckDisksAllocable (layouts : list Layout) (disks : list Z) : bool :=
  let layouts := expandLayoutSplits (ExpandNoneConf layouts) in
  (length disks <=? alloc_loop layouts disks 0 (-1) 0)%nat.

End Splits.

(** ** Specifications of the disks *)

Abbreviation SpecSizeCount := (gmap string Z).
Abbreviation DiskSpec := (gmap string SpecSizeCount).

Definition disk_type (s : BaremetalStorage) : string :=
  if Rotate s then HDD_DISK_SPEC_TYPE else SSD_DISK_SPEC_TYPE.

Definition add_spec (spec : DiskSpec) (s : BaremetalStorage) : DiskSpec :=
  let sc := default ∅ (spec !! disk_type s) in
  <[disk_type s := <[pretty (Size s) := default 0 (sc !! pretty (Size s)) + 1]> sc]> spec.

Definition GetDiskSpec (storages : list BaremetalStorage) : DiskSpec := foldl add_spec ∅ storages.

Definition getStoragesByDriver (driver : string) (storages : list BaremetalStorage)
  : list BaremetalStorage := filter (λ s, Driver s = driver) storages.

Definition adapterKey (s : BaremetalStorage) : string := "adapter" +:+ pretty (Adapter s).

Definition groupByAdapter (storages : list BaremetalStorage)
  : gmap string (list BaremetalStorage) :=
  foldl (λ m s, <[adapterKey s := default [] (m !! adapterKey s) ++ [s]]> m) ∅ storages.

Definition getSpec (storages : list BaremetalStorage) : gmap string DiskSpec :=
  GetDiskSpec <$> groupByAdapter storages.

(** [getSpec] is called with all storages, not with those of the driver. *)
Definition GetDiskSpecV2 (storages : list BaremetalStorage) : gmap string (gmap string DiskSpec) :=
  foldl (λ m driver,
    match getStoragesByDriver driver storages with
    | [] => m
    | _ => <[driver := getSpec storages]> m
    end) ∅ DISK_DRIVERS.

(** ** Configurations for the agent *)

Record DiskConfiguration := DiskCfg {
  DcDriver : string; DcAdapter : Z; DcBlock : Z; DcSize : Z }.

Fixpoint GetDiskConfigurations (layouts : list Layout)
  : outcome Empty_set (list DiskConfiguration) :=
  match layouts with
  | [] => Ret []
  | rr :: layouts =>
    let! d0 := of_opt (Disks rr !! 0%nat) in
    let mk := DiskCfg (Driver d0) (Adapter d0) (GetBlock d0) in
    let! rest := GetDiskConfigurations layouts in
    Ret ((if String.eqb (Conf (LConf rr)) DISK_CONF_NONE then mk <$> (Size <$> Disks rr)
          else if (0 <? length (ConfSize (LConf rr)))%nat then mk <$> ConfSize (LConf rr)
          else [mk (LSize rr)]) ++ rest)
  end.

(** The items in the order in which their driver and adapter first appear. *)
Fixpoint group_conf (driver : string) (adapter : Z) (conf : BaremetalDiskConfig)
    (ret : list (string * Z * list BaremetalDiskConfig))
  : list (string * Z * list BaremetalDiskConfig) :=
  match ret with
  | [] => [(driver, adapter, [conf])]
  | (d, a, cs) :: ret =>
    if String.eqb (d +:+ "." +:+ pretty a) (driver +:+ "." +:+ pretty adapter)
    then (d, a, cs ++ [conf]) :: ret else (d, a, cs) :: group_conf driver adapter conf ret
  end.

Fixpoint group_layouts (layouts : list Layout) (ret : list (string * Z * list BaremetalDiskConfig))
  : outcome Empty_set (list (string * Z * list BaremetalDiskConfig)) :=
  match layouts with
  | [] => Ret ret
  | l :: layouts =>
    let! d0 := of_opt (Disks l !! 0%nat) in
    group_layouts layouts (group_conf (Driver d0) (Adapter d0) (LConf l) ret)
  end.

Definition GroupLayoutResultsByDriverAdapter (layouts : list Layout) := group_layouts layouts [].

End DiskConfig.
