(* ===== verification/DiskLayout.v ===== *)
(** * Baremetal disk layouts: proofs about diskconfig.go *)

From S2P Require Import Prelude DiskConfig.
Import DiskConfig.
Local Open Scope Z_scope.
Local Open Scope go_scope.

Module DiskLayout.

(** ** Retrieving storages *)

(** A storage without the index that the retrieval assigns. *)
Definition strip (s : BaremetalStorage) : BaremetalStorage :=
  Storage (Size s) (Driver s) (Rotate s) (Block s) (Adapter s) (MinStripSize s)
    (MaxStripSize s) 0.

Lemma strip_set_index s i : strip (set_index s i) = strip s.
Proof. unfold set_index. by destruct (Index s =? 0). Qed.

(** The kind of disk a configuration asks for. *)
Definition type_ok (conf : BaremetalDiskConfig) (s : BaremetalStorage) : Prop :=
  Type_ conf = DISK_TYPE_HYBRID ∨ (Type_ conf = DISK_TYPE_ROTATE ∧ Rotate s = true) ∨
  (Type_ conf = DISK_TYPE_SSD ∧ Rotate s = false).

(** What the selected storages have in common. *)
Definition chosen (conf : BaremetalDiskConfig) (d : option string) (a : option Z)
    (sel : list BaremetalStorage) : Prop :=
  (∀ s, s ∈ sel → type_ok conf s ∧ d = Some (Driver s) ∧ a = Some (Adapter s)) ∧
  (Range conf = [] → 0 < Count conf → Z.of_nat (length sel) ≤ Count conf).

Lemma match_inv conf d a s sel :
  isDiskConfigStorageMatch conf d a s sel = true →
  type_ok conf s ∧ (d = None ∨ d = Some (Driver s)) ∧ (a = None ∨ a = Some (Adapter s)) ∧
  (Range conf = [] → 0 < Count conf → Z.of_nat (length sel) < Count conf).
Proof.
  unfold isDiskConfigStorageMatch. intros H.
  apply andb_prop in H as [H Had]. apply andb_prop in H as [Hty Hrg].
  apply andb_prop in Had as [Ha Hd]. split_and!.
  - unfold type_ok. apply orb_prop in Hty as [Hty|Hty]; [apply orb_prop in Hty as [Hty|Hty]|].
    + left. by apply String.eqb_eq.
    + apply andb_prop in Hty as [H1%String.eqb_eq H2]. by right; left.
    + apply andb_prop in Hty as [H1%String.eqb_eq H2%negb_true_iff]. by right; right.
  - destruct d as [d|]; [|by left]. right. f_equal. by apply String.eqb_eq.
  - destruct a as [a|]; [|by left]. right. f_equal. by apply Z.eqb_eq.
  - intros Hr Hc. rewrite Hr in Hrg. simpl in Hrg. rewrite orb_false_r in Hrg.
    apply orb_prop in Hrg as [?|?]; lia.
Qed.

Lemma retrieve_loop_spec conf storages : ∀ d a idx sel rest sel' rest',
  chosen conf d a sel →
  retrieve_loop conf d a idx storages sel rest = (sel', rest') →
  (∃ d' a', chosen conf d' a' sel') ∧
  strip <$> (sel' ++ rest') ≡ₚ strip <$> (sel ++ rest ++ storages).
Proof.
  induction storages as [|s storages IH]; intros d a idx sel rest sel' rest' Hc E; simpl in E.
  { simplify_eq. rewrite app_nil_r. eauto. }
  destruct (isDiskConfigStorageMatch _ _ _ _ _) eqn:Em.
  - apply match_inv in Em as (Hty & Hd & Ha & Hcnt).
    apply IH in E as [Hex Hp].
    + split; [done|]. rewrite Hp, !fmap_app. simpl. rewrite strip_set_index.
      rewrite <- app_assoc. apply Permutation_app_head. simpl.
      by rewrite Permutation_middle.
    + destruct Hc as [Hc Hlen]. split.
      * intros s' [Hin| ->%list_elem_of_singleton]%elem_of_app.
        -- destruct (Hc s' Hin) as (? & -> & ->). done.
        -- split; [done|]. destruct Hd as [-> | ->], Ha as [-> | ->]; done.
      * intros Hr Hpos. rewrite length_app. simpl. specialize (Hcnt Hr Hpos). lia.
  - apply IH in E as [Hex Hp]; [|done]. split; [done|].
    rewrite Hp, !fmap_app. simpl. rewrite strip_set_index. by rewrite <- app_assoc.
Qed.

(** The selected storages have the wanted type and share driver and adapter; selected
    and remaining storages together are the given ones. *)
Lemma RetrieveStorages_spec conf storages sel rest :
  RetrieveStorages conf storages = (sel, rest) →
  (∀ s, s ∈ sel → type_ok conf s) ∧
  (∀ s s', s ∈ sel → s' ∈ sel → Driver s = Driver s' ∧ Adapter s = Adapter s') ∧
  (Range conf = [] → 0 < Count conf → Z.of_nat (length sel) ≤ Count conf) ∧
  strip <$> (sel ++ rest) ≡ₚ strip <$> storages.
Proof.
  intros E. apply retrieve_loop_spec in E as [(d & a & Hc & Hlen) Hp].
  - split_and!; [intros s Hs; by apply Hc| |done|done].
    intros s s' Hs Hs'. destruct (Hc s Hs) as (_ & ? & ?), (Hc s' Hs') as (_ & ? & ?).
    split; congruence.
  - split; [by intros s ?%elem_of_nil|]. simpl. lia.
Qed.

Lemma RetrieveStorages_length conf storages sel rest :
  RetrieveStorages conf storages = (sel, rest) →
  (length sel + length rest = length storages)%nat.
Proof.
  intros E. apply RetrieveStorages_spec in E as (_ & _ & _ & Hp).
  apply Permutation_length in Hp. by rewrite !length_fmap, length_app in Hp.
Qed.

(** ** The checks of a configuration do not panic *)

Lemma drivers_nonempty storages : storages ≠ [] → ∃ d l, RetrieveStorageDrivers storages = d :: l.
Proof.
  intros Hne. destruct (RetrieveStorageDrivers storages) as [|d l] eqn:E; [|eauto].
  exfalso. unfold RetrieveStorageDrivers in E.
  destruct storages as [|s storages]; [done|].
  assert (Driver s ∈ merge_sort String.le (remove_dups (Driver <$> s :: storages))) as Hin.
  { rewrite merge_sort_Permutation. apply elem_of_remove_dups. by left. }
  rewrite E in Hin. by apply elem_of_nil in Hin.
Qed.

Lemma MeetConfig_total conf storages :
  storages ≠ [] → MeetConfig conf storages = Ret tt ∨ ∃ e, MeetConfig conf storages = Fail e.
Proof.
  intros Hne. destruct (drivers_nonempty storages Hne) as (d & l & E).
  unfold MeetConfig. rewrite E. simpl. destruct storages as [|s0 storages]; [done|].
  repeat (case_go; simpl; try (by eauto)); by eauto.
Qed.

(** The configuration [none], used once the given ones are exhausted, always finds and
    accepts storages. *)
Lemma retrieve_loop_selected conf storages : ∀ d a idx sel rest,
  sel ≠ [] → (retrieve_loop conf d a idx storages sel rest).1 ≠ [].
Proof.
  induction storages as [|s storages IH]; intros d a idx sel rest Hne; simpl; [done|].
  destruct (isDiskConfigStorageMatch _ _ _ _ _); apply IH; [|done]. by destruct sel.
Qed.

Lemma none_selects storages : storages ≠ [] → (RetrieveStorages none_config storages).1 ≠ [].
Proof.
  intros Hne. destruct storages as [|s storages]; [done|]. unfold RetrieveStorages. simpl.
  by apply retrieve_loop_selected.
Qed.

Lemma one_driver storages : storages ≠ [] →
  (∀ s s', s ∈ storages → s' ∈ storages → Driver s = Driver s') →
  ∃ d, RetrieveStorageDrivers storages = [d].
Proof.
  intros Hne Hsame. destruct (drivers_nonempty storages Hne) as (d & l & E). exists d. rewrite E. f_equal.
  assert (∀ x, x ∈ d :: l → ∃ s, s ∈ storages ∧ Driver s = x) as Hin.
  { intros x Hx. rewrite <- E in Hx. unfold RetrieveStorageDrivers in Hx.
    rewrite merge_sort_Permutation, elem_of_remove_dups in Hx.
    apply list_elem_of_fmap in Hx as (s & -> & Hs). eauto. }
  assert (NoDup (d :: l)) as Hnd.
  { rewrite <- E. unfold RetrieveStorageDrivers. rewrite merge_sort_Permutation. apply NoDup_remove_dups. }
  destruct l as [|d' l]; [done|]. exfalso.
  destruct (Hin d) as (s & Hs & Hd); [by left|]. destruct (Hin d') as (s' & Hs' & Hd'); [by right; left|].
  apply NoDup_cons in Hnd as [Hnd _]. apply Hnd. rewrite <- Hd, (Hsame s s' Hs Hs'), Hd'. by left.
Qed.

Lemma none_meets storages : storages ≠ [] →
  (∀ s s', s ∈ storages → s' ∈ storages → Driver s = Driver s') →
  MeetConfig none_config storages = Ret tt.
Proof.
  intros Hne Hsame. destruct (one_driver storages Hne Hsame) as [d E].
  unfold MeetConfig. rewrite E. simpl. destruct storages as [|s storages]; [done|].
  rewrite (proj2 (Z.ltb_ge _ _)) by (unfold GetMinDiskRequirement; simpl; lia). simpl.
  by destruct (String.eqb d DISK_DRIVER_MPT2SAS).
Qed.

(** ** Layouts *)

(** A layout belongs to its configuration: the disks meet it and share driver and
    adapter, and the size is the one the RAID level gives. *)
Definition layout_ok (conf : BaremetalDiskConfig) (l : Layout) : Prop :=
  Disks l ≠ [] ∧ MeetConfig conf (Disks l) = Ret tt ∧
  (∀ s, s ∈ Disks l → type_ok conf s) ∧
  (∀ s s', s ∈ Disks l → s' ∈ Disks l → Driver s = Driver s' ∧ Adapter s = Adapter s') ∧
  LSize l = CalculateSize (Conf conf) (Disks l).

Section Splits.

Context (GetSplitSizes : Z → string → list Z).

(** The configuration of the [i]-th layout. *)
Definition conf_at (confs : list BaremetalDiskConfig) (i : nat) : BaremetalDiskConfig :=
  default none_config (confs !! i).

(** What a failure means: the configurations before the one to blame have their layouts,
    and with the remaining storages this one selects nothing, selects storages that do
    not meet it, or nothing remains for it.  It is one of the given configurations. *)
Definition blamed (confs : list BaremetalDiskConfig) (storages : list BaremetalStorage)
    (e : layout_error) : Prop :=
  ∃ (done_ : list Layout) (rest : list BaremetalStorage) (conf : BaremetalDiskConfig),
    strip <$> (concat (Disks <$> done_) ++ rest) ≡ₚ strip <$> storages ∧
    (∀ i l, done_ !! i = Some l → layout_ok (conf_at confs i) l) ∧
    confs !! length done_ = Some conf ∧
    match e with
    | NoMatchedStorages => rest ≠ [] ∧ (RetrieveStorages conf rest).1 = []
    | NotMeetConfig e => MeetConfig conf (RetrieveStorages conf rest).1 = Fail e
    | NotEnoughDisks => rest = []
    end.

Lemma blamed_later confs storages l rest sel e :
  layout_ok (conf_at confs 0) l → Disks l = sel → strip <$> (sel ++ rest) ≡ₚ strip <$> storages →
  blamed (tail confs) rest e → blamed confs storages e.
Proof.
  intros Hl Hd Hp (ds & r & conf & Hp' & Hok & Hc & He). exists (l :: ds), r, conf. split_and!; [| |by destruct confs|done].
  - simpl. rewrite Hd, <- Hp, <- app_assoc, fmap_app, Hp', <- fmap_app. done.
  - intros i l' Hi. destruct i as [|i]; simpl in Hi; [by simplify_eq|].
    specialize (Hok i l' Hi). unfold conf_at in *. by destruct confs.
Qed.

Lemma layout_loop_spec fuel : ∀ confs storages layouts,
  (length storages ≤ fuel)%nat →
  match layout_loop GetSplitSizes fuel confs storages layouts with
  | Ret (unused, layouts') =>
    ∃ new, layouts' = layouts ++ new ∧ unused = drop (length new) confs ∧
      strip <$> concat (Disks <$> new) ≡ₚ strip <$> storages ∧
      ∀ i l, new !! i = Some l → layout_ok (conf_at confs i) l
  | Fail e => blamed confs storages e
  | _ => False
  end.
Proof.
  induction fuel as [|fuel IH]; intros confs storages layouts Hlen.
  { destruct storages; [|simpl in Hlen; lia]. simpl. exists [].
    rewrite app_nil_r. split_and!; done. }
  destruct storages as [|s0 storages0] eqn:Es; [|rewrite <- Es in *].
  { simpl. exists []. rewrite app_nil_r. split_and!; done. }
  assert (layout_loop GetSplitSizes (S fuel) confs storages layouts =
    let (selected, storage1) := RetrieveStorages (conf_at confs 0) storages in
    match selected with
    | [] => Fail NoMatchedStorages
    | _ =>
      match MeetConfig (conf_at confs 0) selected with
      | Fail e => Fail (NotMeetConfig e)
      | Panic => Panic
      | OutOfFuel => OutOfFuel
      | Ret _ =>
        let sz := CalculateSize (Conf (conf_at confs 0)) selected in
        let conf := if String.eqb (Splits (conf_at confs 0)) "" then conf_at confs 0
                    else with_size (conf_at confs 0) (GetSplitSizes sz (Splits (conf_at confs 0))) in
        layout_loop GetSplitSizes fuel (tail confs) storage1 (layouts ++ [MkLayout selected conf sz])
      end
    end) as -> by (rewrite Es; by destruct confs).
  destruct (RetrieveStorages (conf_at confs 0) storages) as [sel rest] eqn:Er.
  pose proof (RetrieveStorages_length _ _ _ _ Er) as Hl.
  pose proof (RetrieveStorages_spec _ _ _ _ Er) as (Hty & Hsame & _ & Hp).
  assert (storages ≠ []) as Hne by (by rewrite Es).
  destruct sel as [|s1 sel1] eqn:Esel; [|rewrite <- Esel in *].
  { destruct confs as [|c confs].
    - exfalso. apply (none_selects storages Hne). by change none_config with (conf_at [] 0); rewrite Er.
    - exists [], storages, c. split_and!; simpl; try done. by change c with (conf_at (c :: confs) 0); rewrite Er. }
  assert (sel ≠ []) as Hsel by (by rewrite Esel).
  destruct (MeetConfig_total (conf_at confs 0) sel Hsel) as [Em|[e Em]]; rewrite Em; cbv zeta.
  2: { destruct confs as [|c confs].
    - exfalso. change (conf_at [] 0) with none_config in Em. rewrite none_meets in Em; [done|done|].
      intros s s' Hs Hs'. by apply Hsame.
    - exists [], storages, c. split_and!; simpl; try done. change c with (conf_at (c :: confs) 0). by rewrite Er. }
  match goal with |- context [MkLayout sel ?c ?z] => set (l := MkLayout sel c z) end.
  assert (layout_ok (conf_at confs 0) l) as Hl0 by (split_and!; done).
  specialize (IH (tail confs) rest (layouts ++ [l])).
  destruct (layout_loop GetSplitSizes fuel (tail confs) rest (layouts ++ [l])) as [[un ls]|e| |];
    [|apply (blamed_later confs storages l rest sel e Hl0); [done|done|];
      apply IH; rewrite Esel in Hl; simpl in Hl; lia
     |by apply IH; rewrite Esel in Hl; simpl in Hl; lia..].
  destruct IH as (new & -> & -> & Hnew & Hok); [rewrite Esel in Hl; simpl in Hl; lia|].
  exists (l :: new). split_and!.
  - by rewrite <- app_assoc.
  - destruct confs; simpl; [by rewrite drop_nil|done].
  - simpl. rewrite fmap_app, Hnew, <- fmap_app. exact Hp.
  - intros i l' Hi. destruct i as [|i]; simpl in Hi.
    + simplify_eq. split_and!; simpl; done.
    + specialize (Hok i l' Hi). unfold conf_at in *. by destruct confs.
Qed.

End Splits.

(** C35 [CalculateLayout] terminates without a panic.  When it succeeds, every disk is in
    exactly one layout, every configuration has its layout, in order, and further
    layouts use the configuration [none]; the disks of a layout meet its
    configuration, have its type, share driver and adapter, and the size is the one
    of its RAID level.  When it fails, the layouts of some of the given configurations
    are made and the next one finds no storage, is not met by what it selects, or has
    no disk left; without configurations it always succeeds. *)
Theorem CalculateLayout_correct (GetSplitSizes : Z → string → list Z) (fuel : nat)
    (confs : list BaremetalDiskConfig) (storages : list BaremetalStorage) :
  (length storages ≤ fuel)%nat →
  match CalculateLayout GetSplitSizes fuel confs storages with
  | Ret layouts =>
    strip <$> concat (Disks <$> layouts) ≡ₚ strip <$> storages ∧
    (length confs ≤ length layouts)%nat ∧
    ∀ i l, layouts !! i = Some l → layout_ok (conf_at confs i) l
  | Fail e => blamed confs storages e
  | _ => False
  end.
Proof.
  intros Hlen. unfold CalculateLayout.
  pose proof (layout_loop_spec GetSplitSizes fuel confs storages [] Hlen) as H.
  destruct (layout_loop GetSplitSizes fuel confs storages []) as [[un ls]| | |]; [|done..].
  cbn [obind]. destruct H as (new & -> & -> & Hp & Hok).
  destruct (drop (length new) confs) as [|c rest] eqn:Ed; cycle 1.
  { exists new, [], c. rewrite app_nil_r. split_and!; [done|done| |done].
    rewrite <- (Nat.add_0_r (length new)), <- lookup_drop. by rewrite Ed. }
  split_and!; [done| |done].
  apply (f_equal length) in Ed. rewrite length_drop in Ed. simpl in *. lia.
Qed.

Definition raid1_config : BaremetalDiskConfig :=
  DiskConf DISK_TYPE_HYBRID DISK_CONF_RAID1 2 [] "" [] None "" None.
Definition mega (size : Z) : BaremetalStorage := Storage size DISK_DRIVER_MEGARAID true 512 0 (-1) (-1) 0.

Lemma CalculateLayout_correct_witness :
  ∃ layouts, CalculateLayout (λ _ _, []) 3 [raid1_config] [mega 100; mega 120; mega 80] = Ret layouts ∧
    strip <$> concat (Disks <$> layouts) ≡ₚ strip <$> [mega 100; mega 120; mega 80] ∧
    (length [raid1_config] ≤ length layouts)%nat ∧
    ∀ i l, layouts !! i = Some l → layout_ok (conf_at [raid1_config] i) l.
Proof.
  pose proof (CalculateLayout_correct (λ _ _, []) 3 [raid1_config] [mega 100; mega 120; mega 80]
                (le_n 3)) as H.
  destruct (CalculateLayout (λ _ _, []) 3 [raid1_config] [mega 100; mega 120; mega 80])
    as [layouts| | |] eqn:E; [by exists layouts|vm_compute in E; discriminate E..].
Defined.

(** ** Sizes *)

Definition sum_sizes (ss : list BaremetalStorage) : Z := foldr (λ s z, Size s + z) 0 ss.

Lemma min_loop_spec ss : ∀ m,
  0 ≤ m → (∀ s, s ∈ ss → 0 ≤ Size s) →
  let r := foldl (λ minSize s, if (minSize <? 0) || (Size s <? minSize) then Size s else minSize) m ss in
  0 ≤ r ≤ m ∧ ∀ s, s ∈ ss → r ≤ Size s.
Proof.
  induction ss as [|s ss IH]; intros m Hm Hpos; simpl; [split; [lia|by intros s ?%elem_of_nil]|].
  assert (0 ≤ Size s) by (apply Hpos; by left).
  replace (m <? 0) with false by lia. simpl.
  destruct (IH (if Size s <? m then Size s else m)) as [H1 H2];
    [destruct (Size s <? m); lia|intros; apply Hpos; by right|].
  destruct (Z.ltb_spec (Size s) m); (split; [lia|]); intros s' [->|Hs]%elem_of_cons; try lia; auto.
Qed.

Lemma GetStoragesMinSize_spec ss :
  ss ≠ [] → (∀ s, s ∈ ss → 0 ≤ Size s) →
  0 ≤ GetStoragesMinSize ss ∧ ∀ s, s ∈ ss → GetStoragesMinSize ss ≤ Size s.
Proof.
  intros Hne Hpos. destruct ss as [|s ss]; [done|]. unfold GetStoragesMinSize. simpl.
  assert (0 ≤ Size s) by (apply Hpos; by left).
  destruct (min_loop_spec ss (Size s)) as [H1 H2]; [done|intros; apply Hpos; by right|].
  split; [lia|]. intros s' [->|Hs]%elem_of_cons; [lia|auto].
Qed.

Lemma min_times_length ss m :
  (∀ s, s ∈ ss → m ≤ Size s) → m * Z.of_nat (length ss) ≤ sum_sizes ss.
Proof.
  induction ss as [|s ss IH]; intros Hm; [simpl; lia|]. unfold sum_sizes in *. simpl length.
  assert (m ≤ Size s) by (apply Hm; by left).
  assert (m * Z.of_nat (length ss) ≤ foldr (λ s z, Size s + z) 0 ss) by (apply IH; intros; apply Hm; by right).
  simpl. nia.
Qed.

Lemma sum_loop_exact ss : ∀ z,
  0 ≤ z → (∀ s, s ∈ ss → 0 ≤ Size s) → z + sum_sizes ss < 2 ^ 63 →
  foldl (λ size s, int64_wrap (size + Size s)) z ss = z + sum_sizes ss.
Proof.
  induction ss as [|s ss IH]; intros z Hz Hpos Hlt; unfold sum_sizes in *; simpl in *; [lia|].
  assert (0 ≤ Size s) by (apply Hpos; by left).
  assert (0 ≤ foldr (λ s z, Size s + z) 0 ss) as Hs.
  { assert (∀ s, s ∈ ss → 0 ≤ Size s) as Hp by (intros; apply Hpos; by right).
    clear -Hp. induction ss as [|s ss IH]; simpl; [lia|].
    assert (0 ≤ Size s) by (apply Hp; by left).
    assert (0 ≤ foldr (λ s z, Size s + z) 0 ss) by (apply IH; intros; apply Hp; by right). lia. }
  rewrite int64_wrap_id by (unfold is_int64; lia).
  rewrite IH; [lia|lia|intros; apply Hpos; by right|lia].
Qed.

(** The size of a layout is between zero and the sum of its disks, when that sum fits
    the machine integers. *)
Lemma CalculateSize_bounds conf ss :
  ss ≠ [] → (∀ s, s ∈ ss → 0 ≤ Size s) → sum_sizes ss < 2 ^ 63 →
  0 ≤ CalculateSize conf ss ≤ sum_sizes ss.
Proof.
  intros Hne Hpos Hlt. destruct (GetStoragesMinSize_spec ss Hne Hpos) as [H0 Hmin].
  pose proof (min_times_length ss _ Hmin) as Hmul.
  assert (1 ≤ Z.of_nat (length ss)) as Hn by (destruct ss; simpl; [done|lia]).
  unfold CalculateSize. cbv zeta. destruct (String.eqb (if String.eqb conf "" then _ else _) DISK_CONF_RAID5).
  { rewrite int64_wrap_id by (unfold is_int64; nia). nia. }
  destruct (str_in _ _).
  { assert (0 ≤ Z.of_nat (length ss) ÷ 2 ≤ Z.of_nat (length ss)) as Hq.
    { split; [apply Z.quot_pos; lia|]. apply Z.quot_le_upper_bound; lia. }
    rewrite int64_wrap_id by (unfold is_int64; nia). nia. }
  rewrite sum_loop_exact; [|lia|done|lia].
  pose proof (Z.mul_nonneg_nonneg _ _ H0 (Zle_0_nat (length ss))). lia.
Qed.

(** ** Allocating the requested disks *)

Definition sum (l : list Z) : Z := foldr Z.add 0 l.

(** Disks of a given size, followed by at most one disk that takes the rest, in a
    volume with [cap] available. *)
Definition group_ok (cap : Z) (g : list Z) : Prop :=
  ∃ ps auto, g = ps ++ auto ∧ Forall (λ d, 0 < d) ps ∧ Forall (λ d, d ≤ 0) auto ∧
    (length auto ≤ 1)%nat ∧ (ps ≠ [] → sum ps ≤ cap).

Lemma group_one cap d : 0 < d ≤ cap → group_ok cap [d].
Proof.
  intros Hd. exists [d], []. split; [done|]. split; [apply Forall_singleton; lia|].
  split; [by apply Forall_nil|]. simpl. lia.
Qed.

Lemma group_rest cap d : d ≤ 0 → group_ok cap [d].
Proof.
  intros Hd. exists [], [d]. split; [done|]. split; [by apply Forall_nil|].
  split; [by apply Forall_singleton|]. done.
Qed.

Lemma group_cons cap d g : 0 < d ≤ cap → group_ok (cap - d) g → group_ok cap (d :: g).
Proof.
  intros Hd (ps & auto & -> & Hps & Hau & Hla & Hsum).
  exists (d :: ps), auto. split; [done|]. split; [constructor; [lia|done]|].
  split_and!; [done|done|]. intros _. simpl. destruct ps; simpl in *; [lia|].
  specialize (Hsum ltac:(done)). lia.
Qed.

(** What a volume offers: all but the first and the last megabyte. *)
Definition room (l : Layout) : Z := int64_wrap (LSize l - 2).

Lemma alloc_loop_le ls disks : ∀ si free di, (alloc_loop ls disks si free di ≤ di + length disks)%nat.
Proof.
  induction disks as [|d disks IH]; intros si free di; simpl; [lia|].
  destruct (ls !! si) as [l|]; [|lia].
  repeat match goal with |- context [if ?b then _ else _] => destruct b end;
    (etrans; [apply IH|lia]).
Qed.

(** The groups of the layouts from [si] on; the first layout may be partly used. *)
Definition groups_ok (ls : list Layout) (si : nat) (free : Z) (groups : list (list Z)) : Prop :=
  ∀ i g, groups !! i = Some g → ∃ l, ls !! (si + i)%nat = Some l ∧
    group_ok (if (i =? 0)%nat && (0 <=? free) then free else room l) g.

Lemma groups_ok_cons ls si free l g groups :
  ls !! si = Some l → group_ok (if 0 <=? free then free else room l) g →
  groups_ok ls (S si) (-1) groups → groups_ok ls si free (g :: groups).
Proof.
  intros Hl Hg Hrest [|i] g' Hi; simpl in Hi; simplify_eq.
  - exists l. by rewrite Nat.add_0_r.
  - destruct (Hrest i g' Hi) as (l' & Hl' & Hok). exists l'.
    rewrite <- Nat.add_succ_comm. split; [done|]. by destruct i.
Qed.

Lemma alloc_loop_groups ls disks : ∀ si free di,
  alloc_loop ls disks si free di = (di + length disks)%nat →
  ∃ groups, concat groups = disks ∧ groups_ok ls si free groups.
Proof.
  induction disks as [|d disks IH]; intros si free di E; simpl in E.
  { exists []. split; [done|]. intros i g Hi. by rewrite lookup_nil in Hi. }
  destruct (ls !! si) as [l|] eqn:El; [|lia].
  set (avail := if free <? 0 then int64_wrap (LSize l - 2) else free) in *.
  assert ((if 0 <=? free then free else room l) = avail) as Hav.
  { unfold avail, room. destruct (Z.leb_spec 0 free), (Z.ltb_spec free 0); lia || done. }
  destruct (Z.ltb_spec 0 d) as [Hd|Hd].
  - destruct (Z.leb_spec d avail) as [Hle|Hgt]; [|pose proof (alloc_loop_le ls disks (S si) (-1) di); lia].
    destruct (Z.eqb_spec (avail - d) 0) as [E0|E0].
    + destruct (IH (S si) (-1) (S di)) as (groups & <- & Hok); [lia|].
      exists ([d] :: groups). split; [done|]. apply (groups_ok_cons _ _ _ l); [done| |done].
      rewrite Hav. apply group_one. lia.
    + destruct (IH si (avail - d) (S di)) as (groups & <- & Hok); [lia|].
      destruct groups as [|g groups].
      * exists [[d]]. split; [done|]. apply (groups_ok_cons _ _ _ l); [done| |].
        { rewrite Hav. apply group_one. lia. }
        intros i g Hi. by rewrite lookup_nil in Hi.
      * exists ((d :: g) :: groups). split; [done|]. apply (groups_ok_cons _ _ _ l); [done| |].
        { rewrite Hav. apply group_cons; [lia|].
          destruct (Hok 0%nat g eq_refl) as (l' & _ & Hg). simpl in Hg.
          by replace (0 <=? avail - d) with true in Hg by lia. }
        intros i g' Hi. destruct (Hok (S i) g' Hi) as (l' & Hl' & Hgo). exists l'.
        split; [by rewrite Nat.add_succ_comm|]. simpl in Hgo. by destruct i.
  - destruct (IH (S si) (-1) (S di)) as (groups & <- & Hok); [lia|].
    exists ([d] :: groups). split; [done|]. apply (groups_ok_cons _ _ _ l); [done| |done].
    by apply group_rest.
Qed.

(** When [CheckDisksAllocable] says yes, the requested disks can be placed in order: consecutive groups
    of them go to the first layouts, one group each, the disks of a given size fit into
    the layout less two megabytes, and only the last disk of a group may take the rest. *)
Theorem CheckDisksAllocable_sound (GetSplitSizes : Z → string → list Z) (layouts : list Layout)
    (disks : list Z) :
  CheckDisksAllocable GetSplitSizes layouts disks = true →
  ∃ groups, concat groups = disks ∧
    ∀ i g, groups !! i = Some g → ∃ l,
      expandLayoutSplits GetSplitSizes (ExpandNoneConf layouts) !! i = Some l ∧ group_ok (room l) g.
Proof.
  unfold CheckDisksAllocable. cbv zeta. intros E%Nat.leb_le.
  set (ls := expandLayoutSplits GetSplitSizes (ExpandNoneConf layouts)) in *.
  pose proof (alloc_loop_le ls disks 0 (-1) 0).
  destruct (alloc_loop_groups ls disks 0 (-1) 0) as (groups & Hc & Hok); [simpl; lia|].
  exists groups. split; [done|]. intros i g Hi. destruct (Hok i g Hi) as (l & Hl & Hg).
  exists l. split; [done|]. by rewrite andb_false_r in Hg.
Qed.

Definition plain_layout (size : Z) : Layout := MkLayout [mega size] none_config size.

Lemma CheckDisksAllocable_sound_witness :
  ∃ groups, concat groups = [40; 50; -1] ∧
    ∀ i g, groups !! i = Some g → ∃ l,
      expandLayoutSplits (λ _ _, []) (ExpandNoneConf [plain_layout 92; plain_layout 100]) !! i = Some l ∧
      group_ok (room l) g.
Proof.
  apply (CheckDisksAllocable_sound (λ _ _, []) [plain_layout 92; plain_layout 100]).
  vm_compute. reflexivity.
Defined.

(** Disks that would fit are refused: a disk too large for the current layout makes the loop move on to the
    next layout and to the next disk at once, so a machine with a small and a large
    disk refuses a disk that fits the large one. *)
Theorem CheckDisksAllocable_skips :
  CheckDisksAllocable (λ _ _, []) [plain_layout 10; plain_layout 100] [50] = false ∧
  CheckDisksAllocable (λ _ _, []) [plain_layout 100; plain_layout 10] [50] = true ∧
  room (plain_layout 100) = 98.
Proof. vm_compute. tauto. Qed.

(** A check changes the configurations for the next one: two configurations [none] without
    a count take all the disks of an adapter each and refuse a machine whose two disks are
    on one adapter; after a machine with two adapters was checked they take one disk each,
    and the same machine is accepted. *)
Lemma checked_configurations_change :
  let confs := [none_config; none_config] in
  let two_adapters := [mega 100; Storage 100 DISK_DRIVER_MEGARAID true 512 1 (-1) (-1) 0] in
  let one_adapter := [mega 100; mega 100] in
  CalculateLayout (λ _ _, []) 2 confs one_adapter = Fail NotEnoughDisks ∧
  ∃ layouts, CalculateLayout (λ _ _, []) 2 confs two_adapters = Ret layouts ∧
    ∃ layouts', CalculateLayout (λ _ _, []) 2 (expanded_confs confs layouts) one_adapter = Ret layouts'.
Proof.
  split; [vm_compute; reflexivity|]. eexists. split; [vm_compute; reflexivity|].
  eexists. vm_compute. reflexivity.
Qed.

(** The per-driver specification counts the disks of all drivers: one Linux disk is
    reported twice. *)
Definition disk_count (spec : option (gmap string DiskSpec)) (adapter type size : string) : option Z :=
  m ← spec; d ← m !! adapter; c ← d !! type; c !! size.

Lemma GetDiskSpecV2_counts_all_drivers :
  let linux := Storage 7 DISK_DRIVER_LINUX true 512 0 (-1) (-1) 0 in
  disk_count (GetDiskSpecV2 [mega 7; linux] !! DISK_DRIVER_LINUX) "adapter0" "HDD" "7" = Some 2 ∧
  disk_count (Some (getSpec (getStoragesByDriver DISK_DRIVER_LINUX [mega 7; linux])))
    "adapter0" "HDD" "7" = Some 1.
Proof. vm_compute. tauto. Qed.

End DiskLayout.
