(* ===== verification/Ethernet.v ===== *)
(** * Ethernet frames and VLAN tags: pkg/util/ethernet

    Bytes are integers from 0 to 255.  Marshalling writes into a zeroed buffer through
    slice expressions, which panic when they are out of range. *)

From S2P Require Import Prelude.
Local Open Scope Z_scope.
Local Open Scope go_scope.

Module Ethernet.

Abbreviation bytes := (list Z).

(** ** Slices and big-endian integers *)

Definition make (n : nat) : bytes := replicate n 0.

(** [b[lo:hi]] of a buffer whose capacity is its length. *)
Definition slice {E} (b : bytes) (lo hi : nat) : outcome E bytes :=
  if (lo <=? hi)%nat && (hi <=? length b)%nat then Ret (take (hi - lo) (drop lo b)) else Panic.

(** [copy(b[lo:hi], src)]: the buffer afterwards. *)
Definition copy {E} (b : bytes) (lo hi : nat) (src : bytes) : outcome E bytes :=
  if (lo <=? hi)%nat && (hi <=? length b)%nat
  then Ret (take lo b ++ take (hi - lo) src ++ drop (lo + Nat.min (hi - lo) (length src)) b)
  else Panic.

Definition be16 (v : Z) : bytes := [Z.land (Z.shiftr v 8) 255; Z.land v 255].

Definition PutUint16 {E} (b : bytes) (n : nat) (v : Z) : outcome E bytes := copy b n (n + 2) (be16 v).

(** [binary.BigEndian.Uint16] of a slice. *)
Definition Uint16 {E} (b : bytes) : outcome E Z :=
  match b with b0 :: b1 :: _ => Ret (Z.lor (Z.shiftl b0 8) b1) | _ => Panic end.

(** ** VLAN tags (vlan.go) *)

Definition VLANMax : Z := 4095.
Definition PriorityNetworkControl : Z := 7.

Record VLAN := MkVLAN { Priority : Z; DropEligible : bool; ID : Z }.

Inductive frame_error := ErrInvalidVLAN | ErrUnexpectedEOF | ErrInvalidFCS.

(** The sixteen bits of a tag. *)
Definition vlan_bits (v : VLAN) : Z :=
  Z.lor (Z.lor (uint_wrap 16 (Z.shiftl (Priority v) 13))
           (Z.shiftl (if DropEligible v then 1 else 0) 12)) (ID v).

(** [VLAN.read] at an offset of the buffer. *)
Definition vlan_read (v : VLAN) (b : bytes) (n : nat) : outcome frame_error bytes :=
  if PriorityNetworkControl <? Priority v then Fail ErrInvalidVLAN
  else if VLANMax <=? ID v then Fail ErrInvalidVLAN
  else PutUint16 b n (vlan_bits v).

Definition vlan_MarshalBinary (v : VLAN) : outcome frame_error bytes := vlan_read v (make 2) 0.

Definition vlan_of_bits (ub : Z) : VLAN :=
  MkVLAN (Z.shiftr ub 13) (negb (Z.land ub 4096 =? 0)) (Z.land ub 4095).

Definition vlan_UnmarshalBinary (b : bytes) : outcome frame_error VLAN :=
  if negb (length b =? 2)%nat then Fail ErrUnexpectedEOF
  else
    let! ub := Uint16 b in
    let v := vlan_of_bits ub in
    if VLANMax <=? ID v then Fail ErrInvalidVLAN else Ret v.

(** ** Frames (ethernet.go) *)

Definition minPayload : nat := 46.
Definition EtherTypeIPv4 : Z := 2048.
Definition EtherTypeARP : Z := 2054.
Definition EtherTypeVLAN : Z := 33024.
Definition EtherTypeServiceVLAN : Z := 34984.

Record Frame := MkFrame {
  Destination : bytes;
  Source : bytes;
  ServiceVLAN : option VLAN;
  CVLAN : option VLAN;
  EtherType : Z;
  Payload : bytes }.

Definition frame_length (f : Frame) : nat :=
  let pl := Nat.max (length (Payload f)) minPayload in
  let vlanLen := match ServiceVLAN f, CVLAN f with
                 | Some _, Some _ => 8
                 | _, Some _ => 4
                 | _, None => 0
                 end%nat in
  (6 + 6 + vlanLen + 2 + pl)%nat.

(** The loop over the two tags: the buffer and the offset after them. *)
Fixpoint read_vlans (vlans : list (option VLAN * Z)) (b : bytes) (n : nat)
  : outcome frame_error (bytes * nat) :=
  match vlans with
  | [] => Ret (b, n)
  | (None, _) :: vlans => read_vlans vlans b n
  | (Some v, tpid) :: vlans =>
    let! b := PutUint16 b n tpid in
    let! _ := slice b (n + 2) (n + 4) in
    let! b := vlan_read v b (n + 2) in
    read_vlans vlans b (n + 4)
  end.

(** [Frame.read]: the buffer it fills. *)
Definition frame_read (f : Frame) (b : bytes) : outcome frame_error bytes :=
  match ServiceVLAN f, CVLAN f with
  | Some _, None => Fail ErrInvalidVLAN
  | _, _ =>
    let! b := copy b 0 6 (Destination f) in
    let! b := copy b 6 12 (Source f) in
    let! (b, n) := read_vlans [(ServiceVLAN f, EtherTypeServiceVLAN); (CVLAN f, EtherTypeVLAN)] b 12 in
    let! b := PutUint16 b n (EtherType f) in
    copy b (n + 2) (length b) (Payload f)
  end.

Definition MarshalBinary (f : Frame) : outcome frame_error bytes :=
  frame_read f (make (frame_length f)).

(** The tags and the type after them, and the number of bytes consumed. *)
Definition unmarshalCVLAN (b : bytes) (svlan : option VLAN) (n : nat)
  : outcome frame_error (option VLAN * option VLAN * Z * nat) :=
  let! tag := slice b n (n + 2) in
  let! vlan := vlan_UnmarshalBinary tag in
  let! t := slice b (n + 2) (n + 4) in
  let! et := Uint16 t in
  Ret (svlan, Some vlan, et, (n + 4)%nat).

Definition unmarshalVLANs (tpid : Z) (b : bytes)
  : outcome frame_error (option VLAN * option VLAN * Z * nat) :=
  if (length b <? 4)%nat then Fail ErrUnexpectedEOF
  else if tpid =? EtherTypeServiceVLAN then
    let! tag := slice b 0 2 in
    let! vlan := vlan_UnmarshalBinary tag in
    let! t := slice b 2 4 in
    let! et := Uint16 t in
    if negb (et =? EtherTypeVLAN) then Fail ErrInvalidVLAN
    else if (length (drop 4 b) <? 4)%nat then Fail ErrUnexpectedEOF
    else unmarshalCVLAN b (Some vlan) 4
  else if tpid =? EtherTypeVLAN then unmarshalCVLAN b None 0
  else Panic.

(** A frame is unmarshalled into a new one. *)
Definition UnmarshalBinary (b : bytes) : outcome frame_error Frame :=
  if (length b <? 14)%nat then Fail ErrUnexpectedEOF
  else
    let! t := slice b 12 14 in
    let! et := Uint16 t in
    let! (svlan, cvlan, et, n) :=
      if (et =? EtherTypeServiceVLAN) || (et =? EtherTypeVLAN) then
        let! (s, c, et', nn) := unmarshalVLANs et (drop 14 b) in
        Ret (s, c, et', (14 + nn)%nat)
      else Ret (None, None, et, 14%nat) in
    let! dst := slice b 0 6 in
    let! src := slice b 6 12 in
    Ret (MkFrame dst src svlan cvlan et (drop n b)).

(** ** Frame check sequences *)

Definition be32 (v : Z) : bytes :=
  [Z.land (Z.shiftr v 24) 255; Z.land (Z.shiftr v 16) 255; Z.land (Z.shiftr v 8) 255; Z.land v 255].

(** [binary.BigEndian.Uint32] of a slice. *)
Definition Uint32 {E} (b : bytes) : outcome E Z :=
  match b with
  | b0 :: b1 :: b2 :: b3 :: _ =>
    Ret (Z.lor (Z.lor (Z.lor b3 (Z.shiftl b2 8)) (Z.shiftl b1 16)) (Z.shiftl b0 24))
  | _ => Panic
  end.

Section FCS.

(** crc32.ChecksumIEEE. *)
Variable crc : bytes → Z.

Definition MarshalFCS (f : Frame) : outcome frame_error bytes :=
  let! b := frame_read f (make (frame_length f + 4)) in
  copy b (length b - 4) (length b) (be32 (crc (take (length b - 4) b))).

Definition UnmarshalFCS (b : bytes) : outcome frame_error Frame :=
  if (length b <? 4)%nat then Fail ErrUnexpectedEOF
  else
    let! want := Uint32 (drop (length b - 4) b) in
    let got := crc (take (length b - 4) b) in
    if negb (want =? got) then Fail ErrInvalidFCS
    else UnmarshalBinary (take (length b - 4) b).

End FCS.

(** ** Integers and tags *)

Definition be16_check (v : Z) : bool :=
  match Uint16 (E := Empty_set) (be16 v) with Ret w => w =? v | _ => false end &&
  forallb (λ b, (0 <=? b) && (b <? 256)) (be16 v).

Definition vlan_check (n : Z) : bool :=
  let v := MkVLAN (n / 8192) (negb ((n / 4096) mod 2 =? 0)) (n mod 4096) in
  let w := vlan_of_bits (vlan_bits v) in
  (Priority w =? Priority v) && Bool.eqb (DropEligible w) (DropEligible v) && (ID w =? ID v) &&
  (0 <=? vlan_bits v) && (vlan_bits v <? 65536).

(** [p] holds of the [fuel] integers from [i] on. *)
Fixpoint all_from (fuel : nat) (i : Z) (p : Z → bool) : bool :=
  match fuel with O => true | S fuel => p i && all_from fuel (i + 1) p end.

Lemma all_from_spec fuel : ∀ i p v,
  all_from fuel i p = true → i ≤ v < i + Z.of_nat fuel → p v = true.
Proof.
  induction fuel as [|fuel IH]; intros i p v H Hv; [lia|]. simpl in H.
  apply andb_prop in H as [H0 H]. destruct (decide (i = v)) as [<-|Hne]; [done|].
  apply (IH (i + 1) p v H). lia.
Qed.

Lemma be16_all : all_from (Z.to_nat 65536) 0 be16_check = true.
Proof. vm_compute. reflexivity. Qed.

Lemma vlan_all : all_from (Z.to_nat 65536) 0 vlan_check = true.
Proof. vm_compute. reflexivity. Qed.

Lemma sixteen_bits (p : Z → bool) v :
  all_from (Z.to_nat 65536) 0 p = true → 0 ≤ v < 65536 → p v = true.
Proof. intros Hall Hv. apply (all_from_spec _ _ _ v Hall). rewrite Z2Nat.id; lia. Qed.

Lemma Uint16_be16 {E} v rest : 0 ≤ v < 65536 → Uint16 (E := E) (be16 v ++ rest) = Ret v.
Proof.
  intros Hv. pose proof (sixteen_bits _ v be16_all Hv) as H. unfold be16_check in H.
  apply andb_prop in H as [H _]. simpl in *. f_equal. lia.
Qed.

(** A tag the writer accepts. *)
Definition vlan_ok (v : VLAN) : Prop := 0 ≤ Priority v ≤ 7 ∧ 0 ≤ ID v < 4095.

Lemma vlan_bits_ok v : vlan_ok v →
  vlan_of_bits (vlan_bits v) = v ∧ 0 ≤ vlan_bits v < 65536.
Proof.
  intros [Hp Hi]. destruct v as [p d i]. simpl in *.
  set (n := p * 8192 + (if d then 1 else 0) * 4096 + i).
  assert (n / 8192 = p) as E1.
  { symmetry. apply (Z.div_unique _ _ p ((if d then 1 else 0) * 4096 + i)); [left|]; destruct d; lia. }
  assert (n / 4096 = 2 * p + if d then 1 else 0) as E2.
  { symmetry. apply (Z.div_unique _ _ _ i); destruct d; lia. }
  assert (n mod 4096 = i) as E3.
  { symmetry. apply (Z.mod_unique _ _ (2 * p + if d then 1 else 0)); destruct d; lia. }
  pose proof (sixteen_bits _ n vlan_all) as H.
  assert (0 ≤ n < 65536) as Hn by (destruct d; lia). specialize (H Hn).
  unfold vlan_check in H. rewrite E1, E2, E3 in H.
  assert (negb ((2 * p + (if d then 1 else 0)) mod 2 =? 0) = d) as E4.
  { rewrite Z.add_comm, Z.mul_comm, Z.mod_add by lia. by destruct d. }
  rewrite E4 in H. rewrite !andb_true_iff in H. destruct H as ((((H1 & H2) & H3) & H4) & H5).
  split; [|simpl in *; lia].
  destruct (vlan_of_bits _) as [p' d' i']. simpl in *. apply eqb_prop in H2. f_equal; [lia|done|lia].
Qed.

(** A VLAN tag survives marshalling: every tag with a priority up to 7 and an
    identifier below 4095 marshals to two bytes that unmarshal to the same tag, and
    every other tag is refused. *)
Theorem vlan_roundtrip (v : VLAN) :
  0 ≤ Priority v → 0 ≤ ID v →
  if (Priority v <=? 7) && (ID v <? 4095)
  then ∃ b, vlan_MarshalBinary v = Ret b ∧ length b = 2%nat ∧ vlan_UnmarshalBinary b = Ret v
  else vlan_MarshalBinary v = Fail ErrInvalidVLAN.
Proof.
  intros Hp Hi. unfold vlan_MarshalBinary, vlan_read, PriorityNetworkControl, VLANMax.
  destruct (Z.leb_spec (Priority v) 7), (Z.ltb_spec (ID v) 4095),
    (Z.ltb_spec 7 (Priority v)), (Z.leb_spec 4095 (ID v)); try lia; simpl; try done.
  destruct (vlan_bits_ok v) as [Hv Hb]; [split; lia|].
  eexists. split; [done|]. split; [done|].
  unfold vlan_UnmarshalBinary. cbn [length Nat.eqb negb].
  match goal with |- context [Uint16 ?l] =>
    replace (Uint16 l) with (Ret (E := frame_error) (vlan_bits v))
      by (symmetry; by apply (Uint16_be16 _ [])) end.
  cbn [obind].
  rewrite Hv. unfold VLANMax. destruct (Z.leb_spec 4095 (ID v)); [lia|done].
Qed.

Lemma vlan_roundtrip_witness :
  ∃ b, vlan_MarshalBinary (MkVLAN 5 true 100) = Ret b ∧ length b = 2%nat ∧
    vlan_UnmarshalBinary b = Ret (MkVLAN 5 true 100).
Proof. apply (vlan_roundtrip (MkVLAN 5 true 100)); simpl; lia. Defined.

(** ** Filling a zeroed buffer from the left *)

Lemma length_be16 v : length (be16 v) = 2%nat.
Proof. done. Qed.

Lemma copy_fill {E} (p s : bytes) (m k : nat) : (length s ≤ m ≤ k)%nat →
  copy (E := E) (p ++ make k) (length p) (length p + m) s = Ret ((p ++ s) ++ make (k - length s)).
Proof.
  intros Hm. unfold copy, make. rewrite length_app, length_replicate.
  rewrite (proj2 (Nat.leb_le _ _)) by lia. rewrite (proj2 (Nat.leb_le _ _)) by lia. cbn [andb].
  rewrite take_app_length. replace (length p + m - length p)%nat with m by lia.
  rewrite (take_ge s) by lia. rewrite Nat.min_r by lia.
  rewrite drop_app_ge by lia. replace (length p + length s - length p)%nat with (length s) by lia.
  rewrite drop_replicate. by rewrite <- app_assoc.
Qed.

(** The same with the offsets and the remaining length computed. *)
Lemma copy_fill_at {E} (p s : bytes) (k lo hi : nat) :
  lo = length p → (lo + length s ≤ hi ≤ lo + k)%nat →
  copy (E := E) (p ++ make k) lo hi s = Ret ((p ++ s) ++ make (k - length s)).
Proof.
  intros -> Hs. replace hi with (length p + (hi - length p))%nat by lia. apply copy_fill. lia.
Qed.

Lemma slice_mid {E} (p s r : bytes) (lo hi : nat) :
  lo = length p → hi = (lo + length s)%nat → slice (E := E) (p ++ s ++ r) lo hi = Ret s.
Proof.
  intros -> ->. unfold slice. rewrite !length_app.
  rewrite (proj2 (Nat.leb_le _ _)) by lia. rewrite (proj2 (Nat.leb_le _ _)) by lia. cbn [andb].
  rewrite drop_app_length. replace (length p + length s - length p)%nat with (length s) by lia.
  by rewrite take_app_length.
Qed.

Lemma slice_fits {E} (b : bytes) lo hi : (lo ≤ hi ≤ length b)%nat →
  slice (E := E) b lo hi = Ret (take (hi - lo) (drop lo b)).
Proof.
  intros H. unfold slice. rewrite (proj2 (Nat.leb_le _ _)) by lia.
  by rewrite (proj2 (Nat.leb_le _ _)) by lia.
Qed.

(** ** The bytes of a frame *)

(** The four bytes of a tag: its protocol identifier and its bits. *)
Definition tag_bytes (tpid : Z) (v : option VLAN) : bytes :=
  match v with Some v => be16 tpid ++ be16 (vlan_bits v) | None => [] end.

Definition frame_header (f : Frame) : bytes :=
  Destination f ++ Source f ++ tag_bytes EtherTypeServiceVLAN (ServiceVLAN f) ++
  tag_bytes EtherTypeVLAN (CVLAN f) ++ be16 (EtherType f).

Definition opt_vlan_ok (v : option VLAN) : Prop := match v with Some v => vlan_ok v | None => True end.

(** A frame that can be sent: six-byte addresses, valid tags, no service tag without a
    customer tag, and a type that is no tag identifier when there is no tag. *)
Definition frame_ok (f : Frame) : Prop :=
  length (Destination f) = 6%nat ∧ length (Source f) = 6%nat ∧
  opt_vlan_ok (ServiceVLAN f) ∧ opt_vlan_ok (CVLAN f) ∧
  0 ≤ EtherType f < 65536 ∧
  match ServiceVLAN f, CVLAN f with
  | Some _, None => False
  | None, None => EtherType f ≠ EtherTypeVLAN ∧ EtherType f ≠ EtherTypeServiceVLAN
  | _, Some _ => True
  end.

Definition pad_payload (p : bytes) : bytes := p ++ make (minPayload - length p).

Definition set_payload (f : Frame) (p : bytes) : Frame :=
  MkFrame (Destination f) (Source f) (ServiceVLAN f) (CVLAN f) (EtherType f) p.

Lemma vlan_read_ok v b n : vlan_ok v → vlan_read v b n = PutUint16 b n (vlan_bits v).
Proof.
  intros [Hp Hi]. unfold vlan_read, PriorityNetworkControl, VLANMax.
  destruct (Z.ltb_spec 7 (Priority v)); [lia|]. by destruct (Z.leb_spec 4095 (ID v)); [lia|].
Qed.

Lemma read_vlans_fill vlans : ∀ p k n,
  Forall (λ vt : option VLAN * Z, opt_vlan_ok vt.1) vlans → n = length p →
  (length (concat (map (λ vt : option VLAN * Z, tag_bytes vt.2 vt.1) vlans)) ≤ k)%nat →
  let tags := concat (map (λ vt : option VLAN * Z, tag_bytes vt.2 vt.1) vlans) in
  read_vlans vlans (p ++ make k) n =
  Ret ((p ++ tags) ++ make (k - length tags), (n + length tags)%nat).
Proof.
  induction vlans as [|[[v|] tpid] vlans IH]; intros p k n Hok -> Hk; cbn zeta.
  - simpl. by rewrite app_nil_r, Nat.sub_0_r, Nat.add_0_r.
  - inversion Hok as [|? ? Hv Hok']; subst. cbn [map concat fst snd tag_bytes] in Hk |- *.
    rewrite !length_app, !length_be16 in Hk. cbn [read_vlans]. unfold PutUint16 at 1.
    rewrite copy_fill_at by (rewrite ?length_be16; lia). cbn [obind].
    rewrite slice_fits by (unfold make; rewrite !length_app, !length_replicate, length_be16; lia).
    cbn [obind]. rewrite vlan_read_ok by done. unfold PutUint16.
    rewrite copy_fill_at by (rewrite ?length_app, ?length_be16; lia). cbn [obind].
    rewrite IH by (done || (rewrite ?length_app, ?length_be16; lia)).
    rewrite !length_app, !length_be16, <- !app_assoc. do 2 f_equal; [|lia]. do 4 f_equal. f_equal. lia.
  - inversion Hok; subst. cbn [map concat fst snd tag_bytes read_vlans] in *. by apply IH.
Qed.

Lemma frame_read_eq f extra : frame_ok f →
  frame_read f (make (frame_length f + extra)) =
  Ret (frame_header f ++ pad_payload (Payload f) ++ make extra).
Proof.
  intros (Hd & Hs & Hsv & Hcv & Het & Hsc). unfold frame_read.
  set (tags := tag_bytes EtherTypeServiceVLAN (ServiceVLAN f) ++ tag_bytes EtherTypeVLAN (CVLAN f)).
  assert (frame_length f + extra =
    6 + (6 + (length tags + (2 + (length (Payload f) + (minPayload - length (Payload f) + extra))))))%nat as ->.
  { subst tags. unfold frame_length. destruct (ServiceVLAN f), (CVLAN f); simpl; try done; lia. }
  assert (∀ A (x y : A), match ServiceVLAN f, CVLAN f with Some _, None => x | _, _ => y end = y)
    as -> by (intros; destruct (ServiceVLAN f), (CVLAN f); done).
  rewrite <- (app_nil_l (make _)).
  rewrite copy_fill_at by (simpl; lia). cbn [obind].
  rewrite copy_fill_at by (simpl; lia). cbn [obind].
  rewrite read_vlans_fill; [| by repeat constructor | simpl; rewrite length_app; lia |];
    cbn [map concat fst snd]; rewrite app_nil_r; fold tags; [|lia].
  cbn [obind]. unfold PutUint16.
  rewrite copy_fill_at by (rewrite ?length_app, ?length_be16, ?Hd, ?Hs; simpl length; lia). cbn [obind].
  rewrite copy_fill_at by
    (unfold make; rewrite ?length_app, ?length_be16, ?length_replicate, ?Hd, ?Hs; simpl length; lia).
  unfold frame_header, pad_payload. rewrite Hd, Hs, length_be16. subst tags.
  rewrite app_nil_l, <- !app_assoc. do 7 f_equal.
  unfold make. rewrite <- replicate_add. f_equal. lia.
Qed.

(** ** Reading the bytes back *)

Lemma vlan_Unmarshal_bits v : vlan_ok v → vlan_UnmarshalBinary (be16 (vlan_bits v)) = Ret v.
Proof.
  intros Hok. destruct (vlan_bits_ok v Hok) as [Hv Hb]. destruct Hok as [_ Hi].
  unfold vlan_UnmarshalBinary. rewrite length_be16. cbn [Nat.eqb negb].
  rewrite <- (app_nil_r (be16 _)), Uint16_be16 by done. cbn [obind]. rewrite Hv.
  unfold VLANMax. destruct (Z.leb_spec 4095 (ID v)); [lia|done].
Qed.

Lemma unmarshalCVLAN_eq p cv et P svlan n : vlan_ok cv → 0 ≤ et < 65536 → n = length p →
  unmarshalCVLAN (p ++ be16 (vlan_bits cv) ++ be16 et ++ P) svlan n =
  Ret (svlan, Some cv, et, (n + 4)%nat).
Proof.
  intros Hcv Het ->. unfold unmarshalCVLAN.
  rewrite slice_mid by (rewrite ?length_be16; done). cbn [obind].
  rewrite vlan_Unmarshal_bits by done. cbn [obind]. rewrite app_assoc.
  rewrite slice_mid by (rewrite ?length_app, ?length_be16; lia). cbn [obind].
  rewrite <- (app_nil_r (be16 et)), Uint16_be16 by done. done.
Qed.

Lemma unmarshalVLANs_eq sv cv et P : vlan_ok cv → opt_vlan_ok sv → 0 ≤ et < 65536 →
  let '(tpid, p) := match sv with
                    | Some s => (EtherTypeServiceVLAN, be16 (vlan_bits s) ++ be16 EtherTypeVLAN)
                    | None => (EtherTypeVLAN, [])
                    end in
  unmarshalVLANs tpid (p ++ be16 (vlan_bits cv) ++ be16 et ++ P) =
  Ret (sv, Some cv, et, (length p + 4)%nat).
Proof.
  intros Hcv Hsv Het. destruct sv as [s|]; cbn beta iota; unfold unmarshalVLANs.
  - rewrite (proj2 (Nat.ltb_ge _ _)) by (rewrite ?length_app, ?length_be16; lia).
    rewrite Z.eqb_refl.
    rewrite <- (app_nil_l ((be16 _ ++ be16 _) ++ _)), <- (app_assoc (be16 (vlan_bits s))).
    rewrite slice_mid by (rewrite ?length_be16; done). cbn [obind].
    rewrite vlan_Unmarshal_bits by done. cbn [obind]. rewrite app_nil_l.
    rewrite slice_mid by (rewrite ?length_be16; done). cbn [obind].
    rewrite <- (app_nil_r (be16 EtherTypeVLAN)), Uint16_be16 by done. cbn [obind].
    rewrite Z.eqb_refl, app_nil_r, app_assoc. cbn [negb].
    rewrite drop_app_length' by done.
    rewrite (proj2 (Nat.ltb_ge _ _)) by (rewrite ?length_app, ?length_be16; lia).
    by rewrite unmarshalCVLAN_eq by done.
  - rewrite (proj2 (Nat.ltb_ge _ _)) by (rewrite ?length_app, ?length_be16; lia).
    replace (EtherTypeVLAN =? EtherTypeServiceVLAN) with false by done. rewrite Z.eqb_refl.
    by rewrite unmarshalCVLAN_eq by done.
Qed.

(** What is read after the addresses and the first type. *)
Lemma UnmarshalBinary_addrs dst src t rest sv cv et n :
  length dst = 6%nat → length src = 6%nat → 0 ≤ t < 65536 →
  (if (t =? EtherTypeServiceVLAN) || (t =? EtherTypeVLAN)
   then unmarshalVLANs t rest = Ret (sv, cv, et, n)
   else (sv, cv, et, n) = (None, None, t, O)) →
  UnmarshalBinary (dst ++ src ++ be16 t ++ rest) = Ret (MkFrame dst src sv cv et (drop n rest)).
Proof.
  intros Hd Hs Ht Hcase. unfold UnmarshalBinary.
  rewrite (proj2 (Nat.ltb_ge _ _)) by (rewrite !length_app, length_be16; lia).
  rewrite (app_assoc dst), slice_mid by (rewrite ?length_app, ?length_be16; lia). cbn [obind].
  rewrite <- (app_nil_r (be16 t)), Uint16_be16 by done. cbn [obind].
  rewrite app_nil_r, (app_assoc (dst ++ src)), drop_app_length' by (rewrite !length_app, length_be16; lia).
  assert (∀ k, drop (14 + k) (((dst ++ src) ++ be16 t) ++ rest) = drop k rest) as Hdrop.
  { intros k. rewrite drop_app_ge by (rewrite !length_app, length_be16; lia).
    f_equal. rewrite !length_app, length_be16. lia. }
  assert ((if (t =? EtherTypeServiceVLAN) || (t =? EtherTypeVLAN)
    then let! (s, c, et', nn) := unmarshalVLANs t rest in Ret (s, c, et', (14 + nn)%nat)
    else Ret (None, None, t, 14%nat)) = Ret (E := frame_error) (sv, cv, et, (14 + n)%nat)) as ->.
  { destruct (_ || _); [by rewrite Hcase|by simplify_eq]. }
  cbn [obind]. rewrite Hdrop, <- !app_assoc.
  rewrite <- (app_nil_l (dst ++ _)), slice_mid by (simpl; lia). cbn [obind]. rewrite app_nil_l.
  by rewrite slice_mid by lia.
Qed.

Lemma UnmarshalBinary_eq f P : frame_ok f →
  UnmarshalBinary (frame_header f ++ P) = Ret (set_payload f P).
Proof.
  intros (Hd & Hs & Hsv & Hcv & Het & Hsc). destruct f as [dst src sv cv et pl].
  unfold frame_header, set_payload. cbn [Destination Source ServiceVLAN CVLAN EtherType Payload] in *.
  destruct cv as [c|].
  - pose proof (unmarshalVLANs_eq sv c et P Hcv Hsv Het) as HV.
    destruct sv as [s|]; cbn beta iota in HV; cbn [tag_bytes]; rewrite ?app_nil_l, <- ?app_assoc in *;
      erewrite UnmarshalBinary_addrs; try exact HV; done.
  - destruct sv as [s|]; [done|]. destruct Hsc as [H1 H2]. cbn [tag_bytes].
    rewrite !app_nil_l, <- !app_assoc. rewrite (UnmarshalBinary_addrs dst src et P None None et O); try done.
    by rewrite (proj2 (Z.eqb_neq _ _) H1), (proj2 (Z.eqb_neq _ _) H2).
Qed.

Lemma length_frame_header f : frame_ok f →
  (length (frame_header f) + length (pad_payload (Payload f)) = frame_length f)%nat.
Proof.
  intros (Hd & Hs & _ & _ & _ & Hsc). unfold frame_header, pad_payload, frame_length, make.
  rewrite !length_app, length_replicate, length_be16, Hd, Hs.
  destruct (ServiceVLAN f), (CVLAN f); try done; simpl; lia.
Qed.

(** An Ethernet frame survives marshalling: a frame with six-byte addresses, valid
    tags and an untagged type that is no tag identifier marshals, without a panic, to
    the computed number of bytes, and these unmarshal to the frame with its payload
    zero-padded to the minimum of 46 bytes. *)
Theorem frame_roundtrip (f : Frame) : frame_ok f →
  ∃ b, MarshalBinary f = Ret b ∧ length b = frame_length f ∧
    UnmarshalBinary b = Ret (set_payload f (pad_payload (Payload f))).
Proof.
  intros Hok. eexists. split_and!.
  - unfold MarshalBinary. rewrite <- (Nat.add_0_r (frame_length f)). by apply frame_read_eq.
  - rewrite app_nil_r, length_app. by apply length_frame_header.
  - rewrite app_nil_r. by apply UnmarshalBinary_eq.
Qed.

Definition sample_frame : Frame :=
  MkFrame [1;2;3;4;5;6] [7;8;9;10;11;12] (Some (MkVLAN 1 false 20)) (Some (MkVLAN 5 true 100))
    EtherTypeARP [170; 187].

Lemma sample_frame_ok : frame_ok sample_frame.
Proof. repeat split; simpl; unfold EtherTypeARP; lia. Qed.

Lemma frame_roundtrip_witness : ∃ b,
  MarshalBinary sample_frame = Ret b ∧ length b = frame_length sample_frame ∧
  UnmarshalBinary b = Ret (set_payload sample_frame (pad_payload [170; 187])).
Proof. apply (frame_roundtrip sample_frame). apply sample_frame_ok. Defined.

(** ** Frame check sequences *)

Lemma Uint32_be32 {E} v : 0 ≤ v < 4294967296 → Uint32 (E := E) (be32 v) = Ret v.
Proof.
  intros Hv. unfold Uint32, be32. f_equal. change 255 with (Z.ones 8).
  rewrite !Z.land_ones, !Z.shiftr_div_pow2 by lia.
  replace (v / 2 ^ 24) with (v / 256 / 256 / 256) by (rewrite !Z.div_div by lia; done).
  replace (v / 2 ^ 16) with (v / 256 / 256) by (rewrite !Z.div_div by lia; done).
  change (2 ^ 8) with 256. set (q := v / 256). set (q2 := q / 256). set (q3 := q2 / 256).
  pose proof (Z.div_mod v 256 ltac:(lia)) as D0. pose proof (Z.div_mod q 256 ltac:(lia)) as D1.
  pose proof (Z.div_mod q2 256 ltac:(lia)) as D2. fold q in D0. fold q2 in D1. fold q3 in D2.
  pose proof (Z.mod_pos_bound v 256 ltac:(lia)). pose proof (Z.mod_pos_bound q 256 ltac:(lia)).
  pose proof (Z.mod_pos_bound q2 256 ltac:(lia)). rewrite (Z.mod_small q3) by lia.
  rewrite (lor_shift _ _ 8), (lor_shift _ _ 16), (lor_shift _ _ 24) by lia. lia.
Qed.

(** A frame with its check sequence survives too, whatever the checksum function is:
    what MarshalFCS writes is four bytes longer than the frame and UnmarshalFCS reads the
    padded frame from it; when the checksum of the received bytes differs from the one
    at their end, the frame is refused. *)
Theorem fcs_roundtrip (crc : bytes → Z) (f : Frame) (b' : bytes) (w : Z) :
  (∀ x, 0 ≤ crc x < 4294967296) → frame_ok f → 0 ≤ w < 4294967296 →
  (∃ b, MarshalFCS crc f = Ret b ∧ length b = (frame_length f + 4)%nat ∧
    UnmarshalFCS crc b = Ret (set_payload f (pad_payload (Payload f)))) ∧
  (w ≠ crc b' → UnmarshalFCS crc (b' ++ be32 w) = Fail ErrInvalidFCS).
Proof.
  intros Hcrc Hok Hw.
  assert (∀ x v, 0 ≤ v < 4294967296 → UnmarshalFCS crc (x ++ be32 v) =
    if negb (v =? crc x) then Fail ErrInvalidFCS else UnmarshalBinary x) as HU.
  { intros x v Hv. unfold UnmarshalFCS. rewrite length_app. change (length (be32 v)) with 4%nat.
    rewrite (proj2 (Nat.ltb_ge _ _)) by lia.
    rewrite drop_app_length' by lia. rewrite take_app_length' by lia.
    by rewrite Uint32_be32 by done. }
  split.
  - set (x := frame_header f ++ pad_payload (Payload f)). exists (x ++ be32 (crc x)). split_and!.
    + unfold MarshalFCS. rewrite frame_read_eq by done. cbn [obind]. rewrite app_assoc. fold x.
      rewrite !length_app. change (length (make 4)) with 4%nat.
      rewrite take_app_length' by lia.
      rewrite copy_fill_at by (simpl; lia). simpl. by rewrite app_nil_r.
    + rewrite length_app. subst x. rewrite length_app, length_frame_header by done. done.
    + rewrite HU by done. rewrite Z.eqb_refl. by apply UnmarshalBinary_eq.
  - intros Hne. rewrite HU by done. by rewrite (proj2 (Z.eqb_neq _ _) Hne).
Qed.

(** A checksum to exercise the statement: the sum of the bytes. *)
Definition sum_crc (b : bytes) : Z := foldr Z.add 0 b mod 4294967296.

Lemma fcs_roundtrip_witness :
  (∃ b, MarshalFCS sum_crc sample_frame = Ret b ∧ length b = (frame_length sample_frame + 4)%nat ∧
    UnmarshalFCS sum_crc b = Ret (set_payload sample_frame (pad_payload [170; 187]))) ∧
  (7 ≠ sum_crc [1; 2] → UnmarshalFCS sum_crc ([1; 2] ++ be32 7) = Fail ErrInvalidFCS).
Proof.
  apply (fcs_roundtrip sum_crc sample_frame [1; 2] 7); [| apply sample_frame_ok | lia].
  intros x. unfold sum_crc. apply Z.mod_pos_bound. lia.
Defined.

End Ethernet.
