(* ===== verification/Arp.v ===== *)
(** * ARP packets: pkg/util/ethernet/arp

    The packet, its constructor and its marshalling, over the buffers of [Ethernet].  The
    length of the marshalled buffer is computed in eight bits, as the code does. *)

From S2P Require Import Prelude Ethernet.
Import Ethernet.
Local Open Scope Z_scope.
Local Open Scope go_scope.

Module Arp.

Inductive arp_error := ErrInvalidHardwareAddr | ErrInvalidIP | errInvalidARPPacket | EUnexpectedEOF
  | EFrame (e : frame_error).

Definition OperationRequest : Z := 1.
Definition OperationReply : Z := 2.

Record Packet := MkPacket {
  HardwareType : Z;
  ProtocolType : Z;
  HardwareAddrLength : Z;
  IPLength : Z;
  Operation : Z;
  SenderHardwareAddr : bytes;
  SenderIP : bytes;
  TargetHardwareAddr : bytes;
  TargetIP : bytes }.

(** [net.IP.To4]: four bytes, or sixteen of the IPv4-mapped form. *)
Definition To4 (ip : bytes) : option bytes :=
  if (length ip =? 4)%nat then Some ip
  else if (length ip =? 16)%nat && bool_decide (take 12 ip = replicate 10 0 ++ [255; 255])
  then Some (drop 12 ip)
  else None.

Definition NewPacket (op : Z) (srcHW srcIP dstHW dstIP : bytes) : outcome arp_error Packet :=
  if (length srcHW <? 6)%nat then Fail ErrInvalidHardwareAddr
  else if (length dstHW <? 6)%nat then Fail ErrInvalidHardwareAddr
  else if negb (length srcHW =? length dstHW)%nat then Fail ErrInvalidHardwareAddr
  else
    match To4 srcIP with
    | None => Fail ErrInvalidIP
    | Some srcIP =>
      match To4 dstIP with
      | None => Fail ErrInvalidIP
      | Some dstIP =>
        Ret (MkPacket 1 EtherTypeIPv4 (uint_wrap 8 (Z.of_nat (length srcHW)))
               (uint_wrap 8 (Z.of_nat (length srcIP))) op srcHW srcIP dstHW dstIP)
      end
    end.

(** The length of the buffer: every term is a [uint8]. *)
Definition buffer_length (p : Packet) : Z :=
  uint_wrap 8 (uint_wrap 8 (8 + uint_wrap 8 (IPLength p * 2)) + uint_wrap 8 (HardwareAddrLength p * 2)).

Definition arp_MarshalBinary (p : Packet) : outcome arp_error bytes :=
  let b := make (Z.to_nat (buffer_length p)) in
  let! b := PutUint16 b 0 (HardwareType p) in
  let! b := PutUint16 b 2 (ProtocolType p) in
  let! b := copy b 4 5 [HardwareAddrLength p] in
  let! b := copy b 5 6 [IPLength p] in
  let! b := PutUint16 b 6 (Operation p) in
  let n := 8%nat in
  let hal := Z.to_nat (HardwareAddrLength p) in
  let pl := Z.to_nat (IPLength p) in
  let! b := copy b n (n + hal) (SenderHardwareAddr p) in
  let n := (n + hal)%nat in
  let! b := copy b n (n + pl) (SenderIP p) in
  let n := (n + pl)%nat in
  let! b := copy b n (n + hal) (TargetHardwareAddr p) in
  let n := (n + hal)%nat in
  copy b n (n + pl) (TargetIP p).

(** [b[i]]. *)
Definition index {E} (b : bytes) (i : nat) : outcome E Z :=
  match b !! i with Some x => Ret x | None => Panic end.

Definition arp_UnmarshalBinary (b : bytes) : outcome arp_error Packet :=
  if (length b <? 8)%nat then Fail EUnexpectedEOF
  else
    let! s := slice b 0 2 in
    let! hardwareType := Uint16 s in
    let! s := slice b 2 4 in
    let! protocolType := Uint16 s in
    let! hal := index b 4 in
    let! ipl := index b 5 in
    let! s := slice b 6 8 in
    let! op := Uint16 s in
    let n := 8%nat in
    let ml := Z.to_nat hal in
    let il := Z.to_nat ipl in
    let addrl := (n + ml * 2 + il * 2)%nat in
    if (length b <? addrl)%nat then Fail EUnexpectedEOF
    else
      let! sha := slice b n (n + ml) in
      let n := (n + ml)%nat in
      let! spa := slice b n (n + il) in
      let n := (n + il)%nat in
      let! tha := slice b n (n + ml) in
      let n := (n + ml)%nat in
      let! tpa := slice b n (n + il) in
      Ret (MkPacket hardwareType protocolType hal ipl op sha spa tha tpa).

(** A frame error, as the error of a packet. *)
Definition lift_frame {A} (m : outcome frame_error A) : outcome arp_error A :=
  match m with Ret x => Ret x | Fail e => Fail (EFrame e) | Panic => Panic | OutOfFuel => OutOfFuel end.

Definition parsePacket (buf : bytes) : outcome arp_error (Packet * Frame) :=
  let! f := lift_frame (UnmarshalBinary buf) in
  if negb (EtherType f =? EtherTypeARP) then Fail errInvalidARPPacket
  else
    let! p := arp_UnmarshalBinary (Payload f) in
    Ret (p, f).

(** ** Packets whose lengths tell the truth *)

Definition byte_ok (x : Z) : Prop := 0 ≤ x < 256.

Definition packet_ok (p : Packet) : Prop :=
  0 ≤ HardwareType p < 65536 ∧ 0 ≤ ProtocolType p < 65536 ∧ 0 ≤ Operation p < 65536 ∧
  byte_ok (HardwareAddrLength p) ∧ byte_ok (IPLength p) ∧
  Z.of_nat (length (SenderHardwareAddr p)) = HardwareAddrLength p ∧
  Z.of_nat (length (TargetHardwareAddr p)) = HardwareAddrLength p ∧
  Z.of_nat (length (SenderIP p)) = IPLength p ∧
  Z.of_nat (length (TargetIP p)) = IPLength p.

(** The number of bytes the packet needs. *)
Definition packet_size (p : Packet) : Z := 8 + 2 * IPLength p + 2 * HardwareAddrLength p.

Definition packet_bytes (p : Packet) : bytes :=
  be16 (HardwareType p) ++ be16 (ProtocolType p) ++ [HardwareAddrLength p] ++ [IPLength p] ++
  be16 (Operation p) ++ SenderHardwareAddr p ++ SenderIP p ++ TargetHardwareAddr p ++ TargetIP p.

(** ** The buffer *)

Lemma buffer_length_eq p : buffer_length p = packet_size p mod 256.
Proof.
  unfold buffer_length, uint_wrap, packet_size. change (2 ^ 8) with 256.
  rewrite (Zplus_mod_idemp_r (IPLength p * 2)), Zplus_mod_idemp_l, Zplus_mod_idemp_r. f_equal. lia.
Qed.

Lemma copy_cases {E} (b : bytes) lo hi s :
  copy (E := E) b lo hi s = Panic ∨ ∃ b', copy (E := E) b lo hi s = Ret b' ∧ length b' = length b.
Proof.
  unfold copy. destruct (Nat.leb_spec lo hi), (Nat.leb_spec hi (length b)); simpl; [|by left..].
  right. eexists. split; [done|]. rewrite !length_app, !length_take, length_drop. lia.
Qed.

(** Follow a write to the buffer: a panic ends, anything else keeps the length. *)
Ltac follow_copy :=
  match goal with
  | |- context [obind (copy ?b ?lo ?hi ?s) _] =>
    let H := fresh in let b' := fresh "b" in let Hl := fresh "Hl" in
    destruct (copy_cases (E := arp_error) b lo hi s) as [H|(b' & H & Hl)]; rewrite H; cbn [obind]; [done|]
  end.

Lemma copy_short {E} (b : bytes) lo hi s : (length b < hi)%nat → copy (E := E) b lo hi s = Panic.
Proof.
  intros H. unfold copy. rewrite (proj2 (Nat.leb_gt hi (length b))) by done. by rewrite andb_false_r.
Qed.

Lemma Marshal_overflow p : byte_ok (HardwareAddrLength p) → byte_ok (IPLength p) →
  255 < packet_size p → arp_MarshalBinary p = Panic.
Proof.
  intros Hh Hi Hs. unfold arp_MarshalBinary, PutUint16. cbn zeta.
  repeat follow_copy. apply copy_short.
  repeat match goal with H : length _ = length _ |- _ => rewrite H; clear H end.
  unfold make. rewrite length_replicate, buffer_length_eq. unfold packet_size, byte_ok in *.
  pose proof (Z.mod_pos_bound (8 + 2 * IPLength p + 2 * HardwareAddrLength p) 256). lia.
Qed.

Lemma Marshal_fits p : packet_ok p → packet_size p ≤ 255 → arp_MarshalBinary p = Ret (packet_bytes p).
Proof.
  intros (_ & _ & _ & [Hh _] & [Hi _] & Hsh & Hth & Hsi & Hti) Hs.
  unfold arp_MarshalBinary, PutUint16, packet_bytes. cbn zeta.
  rewrite buffer_length_eq, Z.mod_small by (unfold packet_size in *; lia).
  unfold packet_size in *. rewrite <- (app_nil_l (make _)).
  do 8 (rewrite copy_fill_at by (rewrite ?length_app, ?length_be16; simpl length; lia); cbn [obind]).
  rewrite copy_fill_at by (rewrite ?length_app, ?length_be16; simpl length; lia).
  rewrite !length_be16, <- !app_assoc, app_nil_l. f_equal. do 8 f_equal.
  match goal with |- _ ++ make ?k = _ => replace k with O by (simpl length; lia) end.
  apply app_nil_r.
Qed.

Lemma Uint16_be16_nil {E} v : 0 ≤ v < 65536 → Uint16 (E := E) (be16 v) = Ret v.
Proof. intros H. rewrite <- (app_nil_r (be16 v)). by apply Uint16_be16. Qed.

Lemma Unmarshal_bytes p rest : packet_ok p →
  arp_UnmarshalBinary (packet_bytes p ++ rest) = Ret p.
Proof.
  intros (Ht & Hp & Ho & [Hh _] & [Hi _] & Hsh & Hth & Hsi & Hti).
  unfold arp_UnmarshalBinary, packet_bytes. rewrite <- !app_assoc.
  set (addrs := SenderHardwareAddr p ++ _). set (b := be16 (HardwareType p) ++ _).
  assert (length b = 8 + length addrs)%nat as Hlen by done.
  assert (length addrs = length (SenderHardwareAddr p) + (length (SenderIP p) +
    (length (TargetHardwareAddr p) + (length (TargetIP p) + length rest))))%nat as Ha
    by (subst addrs; by rewrite !length_app).
  rewrite (proj2 (Nat.ltb_ge _ _)) by lia.
  change (slice b 0 2) with (Ret (E := arp_error) (be16 (HardwareType p))).
  change (slice b 2 4) with (Ret (E := arp_error) (be16 (ProtocolType p))).
  change (slice b 6 8) with (Ret (E := arp_error) (be16 (Operation p))).
  change (index b 4) with (Ret (E := arp_error) (HardwareAddrLength p)).
  change (index b 5) with (Ret (E := arp_error) (IPLength p)). cbn [obind].
  rewrite !Uint16_be16_nil by done. cbn [obind].
  rewrite (proj2 (Nat.ltb_ge _ _)) by lia.
  change b with (take 8 b ++ addrs). assert (length (take 8 b) = 8%nat) as H8 by done.
  set (hd := take 8 b) in *. clearbody hd. subst addrs.
  rewrite slice_mid by lia. cbn [obind].
  rewrite app_assoc, slice_mid by (rewrite ?length_app; lia). cbn [obind].
  rewrite app_assoc, slice_mid by (rewrite ?length_app; lia). cbn [obind].
  rewrite app_assoc, slice_mid by (rewrite ?length_app; lia). cbn [obind]. by destruct p.
Qed.

(** ARP packets survive marshalling exactly as long as they fit 255 bytes: a packet
    whose length fields are the lengths of its addresses marshals to bytes that, followed by any
    padding, unmarshal to the same packet; when the packet needs 256 bytes or more the
    buffer, whose size is computed in eight bits, is too short and marshalling panics. *)
Theorem arp_roundtrip (p : Packet) (rest : bytes) : packet_ok p →
  if packet_size p <=? 255
  then ∃ b, arp_MarshalBinary p = Ret b ∧ Z.of_nat (length b) = packet_size p ∧
    arp_UnmarshalBinary (b ++ rest) = Ret p
  else arp_MarshalBinary p = Panic.
Proof.
  intros Hok. destruct (Z.leb_spec (packet_size p) 255) as [Hs|Hs].
  - exists (packet_bytes p). split_and!; [by apply Marshal_fits| |by apply Unmarshal_bytes].
    destruct Hok as (_ & _ & _ & _ & _ & Hsh & Hth & Hsi & Hti). unfold packet_bytes, packet_size.
    rewrite !length_app, !length_be16. simpl length. lia.
  - destruct Hok as (_ & _ & _ & Hh & Hi & _). apply Marshal_overflow; [done|done|lia].
Qed.

Definition sample_packet : Packet :=
  MkPacket 1 EtherTypeIPv4 6 4 OperationRequest [2;0;0;0;0;1] [10;0;0;1] [0;0;0;0;0;0] [10;0;0;2].

Lemma arp_roundtrip_witness : ∃ b, arp_MarshalBinary sample_packet = Ret b ∧
  Z.of_nat (length b) = 28 ∧ arp_UnmarshalBinary (b ++ make 18) = Ret sample_packet.
Proof.
  apply (arp_roundtrip sample_packet (make 18)).
  repeat split; simpl; unfold byte_ok, EtherTypeIPv4, OperationRequest; simpl; lia.
Defined.

Lemma To4_length ip ip' : To4 ip = Some ip' → length ip' = 4%nat.
Proof.
  unfold To4. destruct (Nat.eqb_spec (length ip) 4); [by intros [= <-]|].
  destruct (Nat.eqb_spec (length ip) 16); [|done]. simpl. case_bool_decide; [|done].
  intros [= <-]. rewrite length_drop. lia.
Qed.

(** An ARP request built by NewPacket, marshalled, sent as the payload of an untagged
    frame of the ARP type and parsed again by parsePacket is the packet that was built,
    for hardware addresses of at most 119 bytes: the zero padding of short frames does not
    disturb it. *)
Theorem arp_over_ethernet (op : Z) (srcHW srcIP dstHW dstIP eth_dst eth_src : bytes) (p : Packet) :
  0 ≤ op < 65536 → (length srcHW ≤ 119)%nat → length eth_dst = 6%nat → length eth_src = 6%nat →
  NewPacket op srcHW srcIP dstHW dstIP = Ret p →
  ∃ b buf f, arp_MarshalBinary p = Ret b ∧
    MarshalBinary (MkFrame eth_dst eth_src None None EtherTypeARP b) = Ret buf ∧
    parsePacket buf = Ret (p, f) ∧ Destination f = eth_dst ∧ Source f = eth_src.
Proof.
  intros Hop Hhw Hed Hes Hnew. unfold NewPacket in Hnew.
  destruct (Nat.ltb_spec (length srcHW) 6); [done|]. destruct (Nat.ltb_spec (length dstHW) 6); [done|].
  destruct (Nat.eqb_spec (length srcHW) (length dstHW)) as [Heq|]; [|done]. cbn [negb] in Hnew.
  destruct (To4 srcIP) as [sip|] eqn:Hs; [|done]. destruct (To4 dstIP) as [dip|] eqn:Hd; [|done].
  apply To4_length in Hs, Hd. injection Hnew as <-.
  unfold uint_wrap. change (2 ^ 8) with 256. rewrite Hs, !Z.mod_small by lia.
  set (p := MkPacket _ _ _ _ _ _ _ _ _).
  assert (packet_ok p) as Hok by (subst p; repeat split; simpl; unfold EtherTypeIPv4; lia).
  set (f := MkFrame eth_dst eth_src None None EtherTypeARP (packet_bytes p)).
  assert (frame_ok f) as Hf by (subst f; repeat split; simpl; unfold EtherTypeARP; done || lia).
  exists (packet_bytes p), (frame_header f ++ pad_payload (packet_bytes p)), (set_payload f (pad_payload (packet_bytes p))).
  split_and!; [apply Marshal_fits; [done|unfold packet_size; subst p; cbn [IPLength HardwareAddrLength]; lia]| | |done..].
  - unfold MarshalBinary. fold f. rewrite <- (Nat.add_0_r (frame_length f)), frame_read_eq by done.
    by rewrite app_nil_r.
  - unfold parsePacket. rewrite UnmarshalBinary_eq by done. cbn [lift_frame obind set_payload EtherType Payload].
    replace (EtherType f =? EtherTypeARP) with true by done. cbn [negb].
    unfold pad_payload. by rewrite Unmarshal_bytes by done.
Qed.

Lemma arp_over_ethernet_witness : ∃ b buf f, arp_MarshalBinary sample_packet = Ret b ∧
  MarshalBinary (MkFrame [255;255;255;255;255;255] [2;0;0;0;0;1] None None EtherTypeARP b) = Ret buf ∧
  parsePacket buf = Ret (sample_packet, f) ∧ Destination f = [255;255;255;255;255;255] ∧ Source f = [2;0;0;0;0;1].
Proof.
  apply (arp_over_ethernet OperationRequest [2;0;0;0;0;1] [10;0;0;1] [0;0;0;0;0;0] [10;0;0;2]);
    [unfold OperationRequest; lia | simpl; lia | done | done | vm_compute; reflexivity].
Defined.

End Arp.
