(* ===== verification/Heap.v ===== *)
(** * Binary heaps: Go's container/heap over a slice

    [Init], [Push] and [Fix] of the standard library, as far as the cron manager uses them,
    for any element type and any [Less] that is a strict weak order.  A slice is a list;
    the indices are in range by construction. *)

From S2P Require Import Prelude.

Module Heap.

(** ** The operations *)

Section Ops.

Context {A : Type} `{Inhabited A} (less : A → A → bool).

Definition Swap (h : list A) (i j : nat) : list A := <[i := h !!! j]> (<[j := h !!! i]> h).

Definition Less (h : list A) (i j : nat) : bool := less (h !!! i) (h !!! j).

(** [(j - 1) / 2]: the parent, and 0 for the root. *)
Definition parent (j : nat) : nat := (j - 1) / 2.

Fixpoint up (fuel : nat) (h : list A) (j : nat) : list A :=
  match fuel with
  | O => h
  | S fuel =>
    let i := parent j in
    if (i =? j) || negb (Less h j i) then h else up fuel (Swap h i j) i
  end.

(** The smaller child of [i], whose first child is [j1]. *)
Definition smaller_child (h : list A) (j1 : nat) : nat :=
  if (j1 + 1 <? length h) && Less h (j1 + 1) j1 then j1 + 1 else j1.

(** The slice and the final position. *)
Fixpoint down_loop (fuel : nat) (h : list A) (i : nat) : list A * nat :=
  match fuel with
  | O => (h, i)
  | S fuel =>
    let j1 := 2 * i + 1 in
    if length h <=? j1 then (h, i)
    else
      let j := smaller_child h j1 in
      if negb (Less h j i) then (h, i) else down_loop fuel (Swap h i j) j
  end.

Definition down (h : list A) (i0 : nat) : list A * bool :=
  let '(h', i) := down_loop (length h) h i0 in (h', i0 <? i).

(** [for i := n/2 - 1; i >= 0; i--]. *)
Fixpoint init_loop (h : list A) (i : nat) : list A :=
  match i with O => h | S i => init_loop (down h i).1 i end.

Definition Init (h : list A) : list A := init_loop h (length h / 2).

Definition Push (h : list A) (x : A) : list A :=
  let h := h ++ [x] in up (length h) h (length h - 1).

Definition Fix (h : list A) (i : nat) : list A :=
  let (h', moved) := down h i in if moved then h' else up (length h') h' i.

End Ops.

(** ** Swapping *)

Section Swaps.

Context {A : Type} `{Inhabited A}.
Implicit Types h : list A.

Lemma length_Swap h i j : length (Swap h i j) = length h.
Proof. unfold Swap. by rewrite !length_insert. Qed.

Lemma Swap_lookup h i j k : i < length h → j < length h →
  Swap h i j !!! k = if decide (k = i) then h !!! j else if decide (k = j) then h !!! i else h !!! k.
Proof.
  intros Hi Hj. unfold Swap. destruct (decide (k = i)) as [->|].
  { rewrite list_lookup_total_insert_eq; [done|]. by rewrite length_insert. }
  rewrite list_lookup_total_insert_ne by done. destruct (decide (k = j)) as [->|].
  - by rewrite list_lookup_total_insert_eq.
  - by rewrite list_lookup_total_insert_ne by done.
Qed.

Lemma Swap_Permutation h i j : i < length h → j < length h → Swap h i j ≡ₚ h.
Proof.
  intros Hi Hj. apply Permutation_inj. split; [apply length_Swap|].
  exists (λ k, if decide (k = i) then j else if decide (k = j) then i else k). split.
  - intros k1 k2. repeat case_decide; congruence.
  - intros k. destruct (decide (k < length h)) as [Hk|Hk].
    + assert (∀ m, m < length h → h !! m = Some (h !!! m)) as Hs by (intros; by apply list_lookup_lookup_total_lt).
      rewrite (list_lookup_lookup_total_lt (Swap h i j)) by (by rewrite length_Swap).
      rewrite Swap_lookup by done. repeat case_decide; by rewrite Hs.
    + rewrite lookup_ge_None_2 by (rewrite length_Swap; lia).
      repeat case_decide; subst; try lia. by rewrite lookup_ge_None_2 by lia.
Qed.

End Swaps.

(** ** The heap invariant *)

(** What is asked of [Less]. *)
Class StrictWeak {A} (less : A → A → bool) := {
  less_asym x y : less x y = true → less y x = false;
  le_trans x y z : less y x = false → less z y = false → less z x = false }.

Section Order.

Context {A : Type} `{Inhabited A} (less : A → A → bool) `{!StrictWeak less}.
Implicit Types h : list A.

(** [x] is not after [y]. *)
Definition le (x y : A) : Prop := less y x = false.

(** Position [k] is in order with its parent. *)
Definition ordered h (k : nat) : Prop := le (h !!! parent k) (h !!! k).

Definition heap h : Prop := ∀ k, 0 < k < length h → ordered h k.

Lemma parent_lt k : 0 < k → parent k < k.
Proof. intros Hk. unfold parent. apply Nat.Div0.div_lt_upper_bound. lia. Qed.

Lemma parent_child k i : 0 < k → parent k = i ↔ k = 2 * i + 1 ∨ k = 2 * i + 2.
Proof.
  intros Hk. unfold parent. pose proof (Nat.div_mod_eq (k - 1) 2).
  pose proof (Nat.mod_upper_bound (k - 1) 2). lia.
Qed.

Lemma le_of_less x y : less x y = true → le x y.
Proof. intros Hl. by apply less_asym. Qed.

Lemma le_refl x : le x x.
Proof. unfold le. destruct (less x x) eqn:E; [|done]. by rewrite (less_asym x x E) in E. Qed.

Lemma le_le x y z : le x y → le y z → le x z.
Proof. apply le_trans. Qed.

(** The root of a heap is least. *)
Lemma heap_root h : heap h → ∀ k, k < length h → le (h !!! 0) (h !!! k).
Proof.
  intros Hh k. induction (lt_wf k) as [k _ IH]. intros Hk.
  destruct (decide (k = 0)) as [->|Hne]; [apply le_refl|].
  apply (le_le _ (h !!! parent k)); [|apply Hh; lia].
  pose proof (parent_lt k). apply IH; lia.
Qed.

(** ** Moving up *)

(** Everything is in order but perhaps [j] with its parent, and the children of [j] are in
    order with the parent of [j]. *)
Definition up_inv h (j : nat) : Prop :=
  (∀ k, 0 < k < length h → k ≠ j → ordered h k) ∧
  (∀ k, 0 < k < length h → parent k = j → 0 < j → le (h !!! parent j) (h !!! k)).

Lemma up_step h j : 0 < j < length h → up_inv h j → Less less h j (parent j) = true →
  up_inv (Swap h (parent j) j) (parent j).
Proof.
  intros Hj [Ho Hg] Hl. pose proof (parent_lt j). apply le_of_less in Hl.
  set (i := parent j) in *.
  assert (∀ k, Swap h i j !!! k = if decide (k = i) then h !!! j else if decide (k = j) then h !!! i else h !!! k)
    as Hs by (intros; apply Swap_lookup; lia).
  split; intros k Hk; rewrite length_Swap in Hk.
  - intros Hki. unfold ordered. rewrite !Hs. rewrite (decide_False (P := k = i)) by done.
    destruct (decide (k = j)) as [->|Hkj]; [by rewrite decide_True by done|].
    pose proof (Ho k Hk Hkj) as Hok. unfold ordered in Hok. pose proof (Hg k Hk) as Hgk.
    destruct (decide (parent k = i)) as [Hp|]; [rewrite Hp in Hok; by apply (le_le _ (h !!! i))|].
    destruct (decide (parent k = j)) as [Hp|]; [|done]. apply Hgk; [done|lia].
  - intros Hki Hi. rewrite !Hs. pose proof (parent_lt i Hi).
    rewrite (decide_False (P := parent i = i)), (decide_False (P := parent i = j)) by lia.
    rewrite (decide_False (P := k = i)) by (pose proof (parent_lt k); lia).
    assert (le (h !!! parent i) (h !!! i)) as Hpi by (apply Ho; lia).
    destruct (decide (k = j)) as [->|Hkj]; [done|].
    apply (le_le _ (h !!! i)); [done|]. rewrite <- Hki. by apply Ho.
Qed.

Lemma up_spec fuel : ∀ h j, j < length h → j < fuel → up_inv h j →
  heap (up less fuel h j) ∧ up less fuel h j ≡ₚ h.
Proof.
  induction fuel as [|fuel IH]; intros h j Hj Hf Hinv; [lia|]. simpl.
  destruct (Nat.eqb_spec (parent j) j) as [Hp|Hp]; simpl.
  { split; [|done]. intros k Hk. apply Hinv; [done|]. intros ->. pose proof (parent_lt j). lia. }
  assert (0 < j) as H0 by (destruct j; [by unfold parent in Hp|lia]). pose proof (parent_lt j H0).
  destruct (Less less h j (parent j)) eqn:El; simpl.
  - destruct (IH (Swap h (parent j) j) (parent j)) as [Hh Hperm];
      [rewrite length_Swap; lia|lia|by apply up_step|].
    split; [done|]. rewrite Hperm. apply Swap_Permutation; lia.
  - split; [|done]. intros k Hk. destruct (decide (k = j)) as [->|]; [exact El|by apply Hinv].
Qed.

(** ** Moving down *)

(** From [lo] on, everything is in order but perhaps [i] with its parent and its
    children, and these are in order with the parent of [i]. *)
Definition down_inv (lo : nat) h (i : nat) : Prop :=
  (∀ k, 0 < k < length h → lo ≤ parent k → parent k ≠ i → k ≠ i → ordered h k) ∧
  (∀ k, 0 < k < length h → parent k = i → 0 < i → lo ≤ parent i → le (h !!! parent i) (h !!! k)).

Lemma smaller_child_spec h i : 2 * i + 1 < length h →
  let j := smaller_child less h (2 * i + 1) in
  0 < j < length h ∧ parent j = i ∧
  ∀ k, 0 < k < length h → parent k = i → le (h !!! j) (h !!! k).
Proof.
  intros Hi j. assert ((j = 2 * i + 1 ∨ j = 2 * i + 2) ∧ j < length h ∧
    (∀ k, k = 2 * i + 1 ∨ k = 2 * i + 2 → k < length h → le (h !!! j) (h !!! k))) as (Hj & Hlt & Hmin).
  { subst j. unfold smaller_child, Less. destruct (Nat.ltb_spec (2 * i + 1 + 1) (length h)); cbn [andb].
    - replace (2 * i + 1 + 1) with (2 * i + 2) in * by lia.
      destruct (less (h !!! (2 * i + 2)) (h !!! (2 * i + 1))) eqn:E.
      + split_and!; [by right|lia|]. intros k [-> | ->] _; [by apply le_of_less|apply le_refl].
      + split_and!; [by left|lia|]. intros k [-> | ->] _; [apply le_refl|exact E].
    - split_and!; [by left|lia|]. intros k [-> | ->] Hk; [apply le_refl|lia]. }
  split_and!; [lia|lia| |].
  - apply parent_child; [lia|done].
  - intros k Hk Hp. apply Hmin; [|lia]. apply parent_child; [lia|done].
Qed.

Lemma down_step lo h i : lo ≤ i → down_inv lo h i → 2 * i + 1 < length h →
  let j := smaller_child less h (2 * i + 1) in Less less h j i = true →
  down_inv lo (Swap h i j) j ∧ ordered (Swap h i j) j.
Proof.
  intros Hlo [Ho Hg] Hi j Hl. destruct (smaller_child_spec h i Hi) as (Hj & Hp & Hmin). fold j in Hj, Hp, Hmin.
  apply le_of_less in Hl. assert (i < j) as Hij by (rewrite <- Hp; apply parent_lt; lia).
  assert (∀ k, Swap h i j !!! k = if decide (k = i) then h !!! j else if decide (k = j) then h !!! i else h !!! k)
    as Hs by (intros; apply Swap_lookup; lia).
  split; [split|].
  - intros k Hk Hlk Hpk Hkj. rewrite length_Swap in Hk. unfold ordered. rewrite !Hs.
    rewrite (decide_False (P := parent k = j)), (decide_False (P := k = j)) by done.
    destruct (decide (k = i)) as [->|Hki].
    + pose proof (parent_lt i). rewrite decide_False by lia. apply Hg; [lia|done|lia|done].
    + destruct (decide (parent k = i)) as [Hpi|Hpi]; [by apply Hmin|by apply Ho].
  - intros k Hk Hpk Hj0 Hlp. rewrite length_Swap in Hk. rewrite !Hs, Hp. rewrite decide_True by done.
    pose proof (parent_lt k). rewrite !decide_False by lia. rewrite <- Hpk. apply Ho; lia.
  - unfold ordered. rewrite !Hs, Hp. rewrite decide_True, (decide_False (P := j = i)), decide_True by (done || lia).
    done.
Qed.

Lemma down_loop_spec fuel : ∀ lo h i i0, lo ≤ i0 ≤ i → i < length h → length h ≤ fuel + i →
  down_inv lo h i → (i0 < i → ordered h i) →
  let '(h', i') := down_loop less fuel h i in
  h' ≡ₚ h ∧ i ≤ i' ∧ (i' = i → h' = h) ∧
  (∀ k, 0 < k < length h → lo ≤ parent k → k ≠ i0 ∨ i0 < i' → ordered h' k).
Proof.
  induction fuel as [|fuel IH]; intros lo h i i0 Hlo Hi Hf Hinv Hord; [lia|]. cbn [down_loop].
  assert (∀ k, 0 < k < length h → lo ≤ parent k → parent k ≠ i → k ≠ i0 ∨ i0 < i → ordered h k) as Hrest.
  { intros k Hk Hlk Hpk Hki. destruct (decide (k = i)) as [->|]; [|by apply Hinv].
    destruct (decide (i0 < i)); [by apply Hord|]. assert (i = i0) by lia. lia. }
  destruct (Nat.leb_spec (length h) (2 * i + 1)) as [Hj1|Hj1].
  { split_and!; [done|done|done|]. intros k Hk Hlk Hki. apply Hrest; try done.
    intros Hpk. apply parent_child in Hpk; lia. }
  destruct (smaller_child_spec h i Hj1) as (Hj & Hp & Hmin). set (j := smaller_child less h (2 * i + 1)) in *.
  assert (i < j) as Hij by (rewrite <- Hp; apply parent_lt; lia).
  destruct (Less less h j i) eqn:El; simpl.
  - destruct (down_step lo h i ltac:(lia) Hinv Hj1 El) as [Hinv' Hord'].
    specialize (IH lo (Swap h i j) j i0). rewrite length_Swap in IH. fold j in Hinv', Hord'.
    destruct (down_loop less fuel (Swap h i j) j) as [h' i'].
    destruct IH as (Hperm & Hle & _ & Hall); [lia..|done|done|].
    split_and!; [|lia|lia|done]. rewrite Hperm. apply Swap_Permutation; lia.
  - split_and!; [done|done|done|]. intros k Hk Hlk Hki.
    destruct (decide (parent k = i)) as [Hpk|]; [|by apply Hrest].
    unfold ordered. rewrite Hpk. apply (le_le _ (h !!! j)); [exact El|by apply Hmin].
Qed.

Lemma down_spec lo h i : lo ≤ i < length h → down_inv lo h i →
  let '(h', moved) := down less h i in
  h' ≡ₚ h ∧ (moved = false → h' = h) ∧
  (∀ k, 0 < k < length h → lo ≤ parent k → k ≠ i ∨ moved = true → ordered h' k).
Proof.
  intros Hi Hinv. unfold down. pose proof (down_loop_spec (length h) lo h i i) as Hd.
  destruct (down_loop less (length h) h i) as [h' i'].
  destruct Hd as (Hp & Hle & Heq & Hall); [lia..|done|lia|].
  split_and!; [done| |]; destruct (Nat.ltb_spec i i'); intros; try done.
  - apply Heq. lia.
  - apply Hall; [done|done|tauto].
  - apply Hall; [done|done|]. left. naive_solver.
Qed.

(** ** The operations keep the heap *)

Lemma init_loop_spec i : ∀ h, i ≤ length h / 2 →
  (∀ k, 0 < k < length h → i ≤ parent k → ordered h k) →
  heap (init_loop less h i) ∧ init_loop less h i ≡ₚ h.
Proof.
  induction i as [|i IH]; intros h Hi Hord; simpl.
  { split; [|done]. intros k Hk. apply Hord; [done|lia]. }
  assert (i < length h) as Hlt.
  { assert (length h / 2 ≤ length h) by (apply Nat.Div0.div_le_upper_bound; lia). lia. }
  pose proof (down_spec i h i) as Hd. destruct (down less h i) as [h' moved]. simpl.
  destruct Hd as (Hp & _ & Hall); [lia| |].
  { split; intros k Hk; intros; [apply Hord; lia|pose proof (parent_lt i); lia]. }
  pose proof (Permutation_length Hp) as Hl.
  destruct (IH h') as [Hh Hperm]; [rewrite Hl; lia| |split; [done|by rewrite Hperm]].
  intros k Hk Hik. rewrite Hl in Hk. apply Hall; [done|done|]. left. pose proof (parent_lt k). lia.
Qed.

Lemma Init_spec h : heap (Init less h) ∧ Init less h ≡ₚ h.
Proof.
  apply init_loop_spec; [done|]. intros k Hk Hp. exfalso.
  unfold parent in Hp. pose proof (Nat.div_mod_eq (k - 1) 2). pose proof (Nat.div_mod_eq (length h) 2).
  pose proof (Nat.mod_upper_bound (length h) 2). lia.
Qed.

Lemma Fix_spec h i x : i < length h → heap h →
  heap (Fix less (<[i := x]> h) i) ∧ Fix less (<[i := x]> h) i ≡ₚ <[i := x]> h.
Proof.
  intros Hi Hh. unfold Fix. set (h1 := <[i := x]> h).
  assert (length h1 = length h) as Hl by apply length_insert.
  assert (∀ k, k ≠ i → h1 !!! k = h !!! k) as Hlk by (intros; by apply list_lookup_total_insert_ne).
  assert (down_inv 0 h1 i) as Hinv.
  { split; intros k Hk; rewrite Hl in Hk.
    - intros _ Hpk Hki. unfold ordered. rewrite !Hlk by done. by apply Hh.
    - intros Hpk H0 _. pose proof (parent_lt i H0). pose proof (parent_lt k).
      rewrite !Hlk by lia. apply (le_le _ (h !!! i)); [by apply Hh|]. rewrite <- Hpk. by apply Hh. }
  pose proof (down_spec 0 h1 i) as Hd. destruct (down less h1 i) as [h' moved].
  destruct Hd as (Hp & Heq & Hall); [lia|done|]. pose proof (Permutation_length Hp) as Hl'. destruct moved.
  - split; [|done]. intros k Hk. apply Hall; [lia|lia|by right].
  - rewrite (Heq eq_refl) in *. apply up_spec; [lia|lia|]. split; [|intros; apply Hinv; auto; lia].
    intros k Hk Hki. apply Hall; [done|lia|by left].
Qed.

Lemma Push_spec h x : heap h → heap (Push less h x) ∧ Push less h x ≡ₚ x :: h.
Proof.
  intros Hh. unfold Push. set (h1 := h ++ [x]).
  assert (length h1 = length h + 1) as Hl by (subst h1; by rewrite length_app).
  assert (∀ k, k < length h → h1 !!! k = h !!! k) as Hlk.
  { intros k Hk. rewrite !list_lookup_total_alt. subst h1. by rewrite lookup_app_l. }
  destruct (up_spec (length h1) h1 (length h1 - 1)) as [Hheap Hp]; [lia|lia| |].
  - split; intros k Hk.
    + intros Hne. unfold ordered. pose proof (parent_lt k). rewrite !Hlk by lia. apply Hh. lia.
    + intros Hpk. pose proof (parent_lt k). lia.
  - split; [done|]. rewrite Hp. subst h1. by rewrite Permutation_app_comm.
Qed.

End Order.

End Heap.
