(* ===== verification/Cronman.v ===== *)
(** * Periodic jobs: pkg/cloudcommon/cronman/cronman.go

    The manager keeps its jobs in a heap ordered by their next run.  Instants are
    nanoseconds, and 0 is the zero time.  The loop of [run] is a step function: from its top
    it sets the timer, runs the jobs that want to run at the start and waits in the [select], of which
    it then takes one branch.  [runJob] hands a job to the worker pool (Workers.v); here it appends the name and
    [isStart] to a log. *)

From S2P Require Import Prelude Heap.
Local Open Scope Z_scope.
Local Open Scope go_scope.

Module Cronman.

Definition second : Z := 1000000000.
Definition hour_ns : Z := 3600 * second.
Definition day_ns : Z := 24 * hour_ns.

Inductive ICronTimer :=
| Timer1 (dur : Z)
| Timer2 (day hour min sec : Z).

(** [Next] of the two timers, in a location that is [zone] nanoseconds ahead of UTC.
    [time.Date] is the midnight of the day and then the time of day. *)
Definition timer_Next (zone : Z) (t : ICronTimer) (now : Z) : Z :=
  match t with
  | Timer1 dur => now + dur
  | Timer2 day hour min sec =>
    let next := now + int64_wrap (int64_wrap (hour_ns * day) * 24) in
    (next + zone) / day_ns * day_ns - zone + (hour * 3600 + min * 60 + sec) * second
  end.

Record SCronJob := Job {
  Name : string;
  Timer : ICronTimer;
  Next : Z;
  StartRun : bool }.

#[export] Instance job_inhabited : Inhabited SCronJob := populate (Job "" (Timer1 0) 0 false).

(** [CronJobTimerHeap.Less]: the zero time is last. *)
Definition job_less (x y : SCronJob) : bool :=
  if Next x =? 0 then false else if Next y =? 0 then true else Next x <? Next y.

(** A channel is nil or has the jobs whose senders wait. *)
Record SCronJobManager := Manager {
  jobs : list SCronJob;
  add : option (list SCronJob);
  stop : option bool;
  running : bool }.

Definition GetCronJobManager (manager : option SCronJobManager) : SCronJobManager :=
  default (Manager [] None None false) manager.

(** A send on a nil channel never returns. *)
Inductive blocked := SendBlocks.

Definition add_job (self : SCronJobManager) (job : SCronJob) : outcome blocked SCronJobManager :=
  if negb (running self)
  then Ret (Manager (jobs self ++ [job]) (add self) (stop self) (running self))
  else match add self with
       | None => Fail SendBlocks
       | Some q => Ret (Manager (jobs self) (Some (q ++ [job])) (stop self) (running self))
       end.

Definition AddJob1WithStartRun (self : SCronJobManager) (name : string) (interval : Z) (startRun : bool)
  : outcome blocked SCronJobManager :=
  add_job self (Job name (Timer1 interval) 0 startRun).

Definition AddJob1 (self : SCronJobManager) (name : string) (interval : Z)
  : outcome blocked SCronJobManager := AddJob1WithStartRun self name interval false.

Definition AddJob2 (self : SCronJobManager) (name : string) (day hour min sec : Z) (startRun : bool)
  : outcome blocked SCronJobManager :=
  add_job self (Job name (Timer2 day hour min sec) 0 startRun).

Definition set_next (zone : Z) (now : Z) (job : SCronJob) : SCronJob :=
  Job (Name job) (Timer job) (timer_Next zone (Timer job) now) (StartRun job).

Definition manager_Next (zone : Z) (self : SCronJobManager) (now : Z) : SCronJobManager :=
  Manager (set_next zone now <$> jobs self) (add self) (stop self) (running self).

(** [Stop] closes the channel unless it is nil. *)
Definition Stop (self : SCronJobManager) : SCronJobManager :=
  match stop self with
  | Some _ => Manager (jobs self) (add self) (Some true) (running self)
  | None => self
  end.

(** Where the loop is: not started or ended, at its top with its [now], or in the
    [select] with the instant at which the timer fires. *)
Inductive position := Idle | Top (now : Z) | Selecting (deadline : Z).

(** The manager, the loop, and the jobs run so far. *)
Record world := World { man : SCronJobManager; pos : position; log : list (string * bool) }.

(** [Start] and the first lines of [run], at the time [t]. *)
Definition Start (zone : Z) (w : world) (t : Z) : world :=
  if running (man w) then w
  else
    let m := manager_Next zone (man w) t in
    World (Manager (Heap.Init job_less (jobs m)) (add m) (stop m) true) (Top t) (log w).

(** The duration of the timer. *)
Definition timer_duration (js : list SCronJob) (now : Z) : Z :=
  match js with
  | [] => 100000 * hour_ns
  | j :: _ => if Next j =? 0 then 100000 * hour_ns else Next j - now
  end.

Definition clear_start (job : SCronJob) : SCronJob := Job (Name job) (Timer job) (Next job) false.

(** The loop over the jobs with [StartRun]. *)
Definition run_starts (js : list SCronJob) : list SCronJob * list (string * bool) :=
  ((λ j, if StartRun j then clear_start j else j) <$> js,
   (λ j, (Name j, true)) <$> filter (λ j, StartRun j = true) js).

(** The loop of a timer event: [count] positions from [i] on are left.  The slice is
    shared with the heap, so a position holds what [Fix] has moved there. *)
Fixpoint tick_loop (zone : Z) (count i : nat) (now : Z) (js : list SCronJob)
  : list SCronJob * list (string * bool) :=
  match count with
  | O => (js, [])
  | S count =>
    let job := js !!! i in
    if (now <? Next job) || (Next job =? 0) then (js, [])
    else
      let js := Heap.Fix job_less (<[i := set_next zone now job]> js) i in
      let (js, l) := tick_loop zone count (i + 1) now js in
      (js, (Name job, false) :: l)
  end.

Inductive event := Enter | Tick (t : Z) | Receive (t : Z) | Stopped.

Inductive not_enabled := NotEnabled.

Definition with_jobs (m : SCronJobManager) (js : list SCronJob) : SCronJobManager :=
  Manager js (add m) (stop m) (running m).

(** The loop of [run]: from its top to the [select], and the branches of the [select].
    The timer does not fire early. *)
Definition step (zone : Z) (w : world) (e : event) : outcome not_enabled world :=
  let m := man w in
  match pos w, e with
  | Top now, Enter =>
    let d := timer_duration (jobs m) now in
    let (js, started) := run_starts (jobs m) in
    Ret (World (with_jobs m js) (Selecting (now + d)) (log w ++ started))
  | Selecting deadline, Tick t =>
    if t <? deadline then Fail NotEnabled
    else
      let (js, ran) := tick_loop zone (length (jobs m)) 0 t (jobs m) in
      Ret (World (with_jobs m js) (Top t) (log w ++ ran))
  | Selecting _, Receive t =>
    match add m with
    | Some (job :: q) =>
      Ret (World (Manager (Heap.Push job_less (jobs m) (set_next zone t job)) (Some q) (stop m) (running m))
             (Top t) (log w))
    | _ => Fail NotEnabled
    end
  | Selecting _, Stopped =>
    match stop m with
    | Some true => Ret (World m Idle (log w))
    | _ => Fail NotEnabled
    end
  | _, _ => Fail NotEnabled
  end.

Fixpoint steps (zone : Z) (w : world) (es : list event) : outcome not_enabled world :=
  match es with
  | [] => Ret w
  | e :: es => let! w := step zone w e in steps zone w es
  end.

(** ** The order of the jobs *)

#[export] Instance job_less_strict : Heap.StrictWeak job_less.
Proof.
  split; unfold job_less; intros x y *;
    repeat (match goal with |- context [?a =? 0] => destruct (Z.eqb_spec a 0) end; try done); lia.
Qed.

(** ** One timer event *)

(** A job that is due at [t]. *)
Definition due (t : Z) (j : SCronJob) : Prop := Next j ≠ 0 ∧ Next j ≤ t.

#[export] Instance due_decision t j : Decision (due t j).
Proof. unfold due. apply _. Defined.

(** The timer of the job moves forward. *)
Definition advances (zone t : Z) (j : SCronJob) : Prop := t < timer_Next zone (Timer j) t.

Section Tick.

Context (zone t : Z).

Lemma not_due j : (t <? Next j) || (Next j =? 0) = bool_decide (¬ due t j).
Proof.
  unfold due. destruct (Z.ltb_spec t (Next j)), (Z.eqb_spec (Next j) 0); simpl; symmetry;
    (apply bool_decide_eq_true || apply bool_decide_eq_false); lia.
Qed.

Lemma set_next_not_due j : advances zone t j → ¬ due t (set_next zone t j).
Proof. unfold advances, due. simpl. lia. Qed.

Lemma insert_Permutation (js : list SCronJob) i x : (i < length js)%nat →
  ∃ rest, js ≡ₚ js !!! i :: rest ∧ <[i := x]> js ≡ₚ x :: rest.
Proof.
  intros Hi. exists (take i js ++ drop (S i) js).
  pose proof (list_lookup_lookup_total_lt js i Hi) as E. split.
  - rewrite <- (take_drop_middle js i _ E) at 1. by rewrite Permutation_middle.
  - rewrite insert_take_drop by done. by rewrite Permutation_middle.
Qed.

(** The jobs that [tick_loop] runs are due, they are rescheduled, and the others stay as they
    are. *)
Lemma tick_loop_spec count : ∀ i js ran rest,
  (i + count = length js)%nat → Heap.heap job_less js → Forall (advances zone t) js →
  Forall (advances zone t) ran → js ≡ₚ (set_next zone t <$> ran) ++ rest →
  let '(js', l) := tick_loop zone count i t js in
  ∃ more rest', rest ≡ₚ more ++ rest' ∧ js' ≡ₚ (set_next zone t <$> ran ++ more) ++ rest' ∧
    Forall (due t) more ∧ l = (λ j, (Name j, false)) <$> more ∧
    Heap.heap job_less js' ∧ ((0 < count)%nat → due t (js !!! i) → more ≠ []).
Proof.
  induction count as [|count IH]; intros i js ran rest Hlen Hh Hadv Hadvr Hp; cbn [tick_loop].
  { exists [], rest. rewrite app_nil_r. split_and!; try done. lia. }
  rewrite not_due. case_bool_decide as Hdue.
  { exists [], rest. rewrite app_nil_r. split_and!; done. }
  set (job := js !!! i) in *.
  destruct (insert_Permutation js i (set_next zone t job)) as (others & Hjs & Hins); [lia|]. fold job in Hjs.
  destruct (Heap.Fix_spec job_less js i (set_next zone t job)) as [Hheap Hfix]; [lia|done|].
  set (js1 := Heap.Fix _ _ _) in *.
  assert (advances zone t job) as Hja.
  { rewrite Hjs in Hadv. by apply Forall_cons in Hadv as [? _]. }
  assert (job ∈ rest) as Hin.
  { assert (job ∈ js) as Hin by (rewrite Hjs; by left). rewrite Hp in Hin.
    apply elem_of_app in Hin as [Hin|Hin]; [|done]. exfalso.
    apply list_elem_of_fmap in Hin as (j & Hj & Hjr). rewrite Forall_forall in Hadvr.
    apply (set_next_not_due j (Hadvr j Hjr)). by rewrite <- Hj. }
  apply elem_of_Permutation in Hin as [rest1 Hrest].
  assert (js1 ≡ₚ (set_next zone t <$> ran ++ [job]) ++ rest1) as Hp1.
  { rewrite Hfix, Hins, fmap_app, <- app_assoc. simpl. rewrite <- Permutation_middle. constructor.
    apply (Permutation_cons_inv (a := job)). rewrite <- Hjs, Hp, Hrest. by rewrite Permutation_middle. }
  assert (Forall (advances zone t) js1) as Hadv1.
  { rewrite Hfix, Hins. rewrite Hjs in Hadv. apply Forall_cons in Hadv as [_ Hadv]. by constructor. }
  specialize (IH (i + 1)%nat js1 (ran ++ [job]) rest1).
  destruct (tick_loop zone count (i + 1) t js1) as [js' l].
  destruct IH as (more & rest' & H1 & H2 & H3 & -> & H5 & _); try done.
  - rewrite (Permutation_length Hfix), length_insert. lia.
  - apply Forall_app. by split; [|constructor].
  - exists (job :: more), rest'. rewrite <- app_assoc in H2. split_and!; try done.
    + rewrite Hrest, H1. done.
    + by constructor.
Qed.

End Tick.

Lemma tick_loop_heap zone t count : ∀ i js, (i + count = length js)%nat → Heap.heap job_less js →
  Heap.heap job_less (tick_loop zone count i t js).1.
Proof.
  induction count as [|count IH]; intros i js Hlen Hh; cbn [tick_loop]; [done|].
  destruct (_ || _); [done|].
  destruct (Heap.Fix_spec job_less js i (set_next zone t (js !!! i))) as [Hheap Hfix]; [lia|done|].
  set (js1 := Heap.Fix _ _ _) in *. specialize (IH (i + 1)%nat js1).
  destruct (tick_loop zone count (i + 1) t js1). apply IH; [|done].
  rewrite (Permutation_length Hfix), length_insert. lia.
Qed.

(** ** Reachable managers *)

Inductive reachable (zone : Z) : world → Prop :=
| reach_new : reachable zone (World (GetCronJobManager None) Idle [])
| reach_add w m job : reachable zone w → add_job (man w) job = Ret m → reachable zone (World m (pos w) (log w))
| reach_start w t : reachable zone w → reachable zone (Start zone w t)
| reach_stop w : reachable zone w → reachable zone (World (Stop (man w)) (pos w) (log w))
| reach_step w e w' : reachable zone w → step zone w e = Ret w' → reachable zone w'.

(** While the loop runs the jobs are a heap; in the [select] no job is due before the timer
    fires and no job waits for its first run. *)
Definition loop_ok (js : list SCronJob) (p : position) : Prop :=
  match p with
  | Idle => True
  | Top _ => Heap.heap job_less js
  | Selecting d =>
    Heap.heap job_less js ∧ (∀ j, j ∈ js → Next j ≠ 0 → d ≤ Next j) ∧ Forall (λ j, StartRun j = false) js
  end.

Definition inv (w : world) : Prop :=
  add (man w) = None ∧ stop (man w) = None ∧
  (running (man w) = false → pos w = Idle) ∧ loop_ok (jobs (man w)) (pos w).

Lemma root_first js j : Heap.heap job_less js → j ∈ js → Next j ≠ 0 →
  ∃ r rest, js = r :: rest ∧ Next r ≠ 0 ∧ Next r ≤ Next j.
Proof.
  intros Hh Hj Hne. destruct js as [|r rest]; [by apply elem_of_nil in Hj|]. exists r, rest. split; [done|].
  apply list_elem_of_lookup in Hj as [k Hk].
  pose proof (Heap.heap_root job_less (r :: rest) Hh k (lookup_lt_Some _ _ _ Hk)) as Hle.
  rewrite (list_lookup_total_correct _ _ _ Hk) in Hle. unfold Heap.le, job_less in Hle. cbn in Hle.
  destruct (Z.eqb_spec (Next j) 0); [done|]. destruct (Z.eqb_spec (Next r) 0); [done|]. lia.
Qed.

(** Clearing [StartRun] changes no order. *)
Definition cleared (j : SCronJob) : SCronJob := if StartRun j then clear_start j else j.

Lemma Next_cleared j : Next (cleared j) = Next j.
Proof. unfold cleared. by destruct (StartRun j). Qed.

Lemma heap_cleared js : Heap.heap job_less js → Heap.heap job_less (cleared <$> js).
Proof.
  intros Hh k Hk. rewrite length_fmap in Hk. specialize (Hh k Hk).
  pose proof (Heap.parent_lt k). unfold Heap.ordered, Heap.le in *.
  assert (∀ m, (m < length js)%nat → (cleared <$> js) !!! m = cleared (js !!! m)) as Hl.
  { intros m Hm. apply list_lookup_total_correct. rewrite list_lookup_fmap.
    by rewrite (list_lookup_lookup_total_lt js m Hm). }
  rewrite !Hl by lia. unfold job_less in *. by rewrite !Next_cleared.
Qed.

Lemma Enter_ok js t : Heap.heap job_less js →
  loop_ok (run_starts js).1 (Selecting (t + timer_duration js t)).
Proof.
  intros Hh. split_and!; [by apply heap_cleared| |].
  - intros j' Hj Hne. apply list_elem_of_fmap in Hj as (j & -> & Hj).
    change (Next (cleared j) ≠ 0) in Hne. change (t + timer_duration js t ≤ Next (cleared j)).
    rewrite Next_cleared in *. destruct (root_first js j Hh Hj Hne) as (r & rest & -> & Hr & Hle).
    simpl. rewrite (proj2 (Z.eqb_neq _ _) Hr). lia.
  - apply Forall_forall. intros j' Hj. apply list_elem_of_fmap in Hj as (j & -> & _).
    by destruct (StartRun j) eqn:E.
Qed.

Lemma cron_inv zone w : reachable zone w → inv w.
Proof.
  induction 1 as [|w m job _ (Ha & Hs & Hr & Hok) E|w t _ (Ha & Hs & Hr & Hok)|w _ (Ha & Hs & Hr & Hok)
    |w e w' _ (Ha & Hs & Hr & Hok) E].
  - done.
  - unfold add_job in E. destruct (running (man w)) eqn:Er; simpl in E; [by rewrite Ha in E|].
    simplify_eq. split_and!; try done. simpl. by rewrite (Hr eq_refl).
  - unfold Start. destruct (running (man w)) eqn:Er; [split_and!; try done; by rewrite Er|].
    split_and!; try done. simpl. apply Heap.Init_spec. apply _.
  - unfold Stop. rewrite Hs. done.
  - unfold step in E. destruct (pos w) as [|now|d] eqn:Ep, e as [|t|t|]; try done.
    + simpl in E. simplify_eq. split_and!; try done; [intros Hf; by specialize (Hr Hf)|]. by apply Enter_ok.
    + destruct (t <? d); [done|]. destruct (tick_loop _ _ _ _ _) as [js ran] eqn:Et. simplify_eq.
      split_and!; try done; [intros Hf; by specialize (Hr Hf)|]. simpl.
      pose proof (tick_loop_heap zone t (length (jobs (man w))) 0 (jobs (man w)) eq_refl (proj1 Hok)) as Hh.
      by rewrite Et in Hh.
    + by rewrite Ha in E.
    + by rewrite Hs in E.
Qed.

(** ** Every due job runs, once *)

(** [k] timer events at [t], each followed by a return to the [select]. *)
Fixpoint ticks (k : nat) (t : Z) : list event :=
  match k with O => [] | S k => Tick t :: Enter :: ticks k t end.

Definition due_jobs (t : Z) (js : list SCronJob) : list SCronJob := filter (due t) js.
Definition other_jobs (t : Z) (js : list SCronJob) : list SCronJob := filter (λ j, ¬ due t j) js.

Lemma due_split t js : js ≡ₚ due_jobs t js ++ other_jobs t js.
Proof. symmetry. apply (filter_app_complement (due t)). Qed.

Lemma cleared_id js : Forall (λ j, StartRun j = false) js → run_starts js = (js, []).
Proof.
  induction 1 as [|j js Hj _ IH]; [done|]. unfold run_starts in *. injection IH as E1 E2.
  rewrite filter_cons_False by (by rewrite Hj). f_equal; [|done].
  rewrite fmap_cons, Hj. f_equal. exact E1.
Qed.

(** One timer event and the way back to the [select]. *)
Lemma tick_enter zone w d t : pos w = Selecting d → loop_ok (jobs (man w)) (Selecting d) → d ≤ t →
  Forall (advances zone t) (jobs (man w)) →
  ∃ w' d' ran rest, steps zone w [Tick t; Enter] = Ret w' ∧ pos w' = Selecting d' ∧
    loop_ok (jobs (man w')) (Selecting d') ∧ Forall (advances zone t) (jobs (man w')) ∧
    jobs (man w) ≡ₚ ran ++ rest ∧ jobs (man w') ≡ₚ (set_next zone t <$> ran) ++ rest ∧
    Forall (due t) ran ∧ log w' = log w ++ ((λ j, (Name j, false)) <$> ran) ∧
    (due_jobs t (jobs (man w)) ≠ [] → ran ≠ []).
Proof.
  intros Hpos (Hh & Hd & Hst) Ht Hadv. cbn [steps]. unfold step at 1. rewrite Hpos.
  rewrite (proj2 (Z.ltb_ge _ _)) by lia.
  pose proof (tick_loop_spec zone t (length (jobs (man w))) 0 (jobs (man w)) [] (jobs (man w))
    eq_refl Hh Hadv (Forall_nil_2 _) (Permutation_refl _)) as Hl.
  destruct (tick_loop _ _ _ _ _) as [js l].
  destruct Hl as (ran & rest & Hp & Hp' & Hdue & -> & Hheap & Hsome). simpl app in Hp'.
  assert (Forall (λ j, StartRun j = false) js) as Hst'.
  { rewrite Hp'. rewrite Hp in Hst. apply Forall_app in Hst as [H1 H2]. apply Forall_app. split; [|done].
    by apply Forall_fmap. }
  assert (Forall (advances zone t) js) as Hadv'.
  { rewrite Hp'. rewrite Hp in Hadv. apply Forall_app in Hadv as [H1 H2]. apply Forall_app. split; [|done].
    by apply Forall_fmap. }
  cbn [obind]. unfold step. cbn [pos man with_jobs jobs log].
  pose proof (Enter_ok js t Hheap) as Hok. rewrite cleared_id in * by done. cbn [obind].
  eexists _, _, ran, rest. split_and!; try done; cbn [log].
  - by rewrite app_nil_r.
  - intros Hne. destruct (due_jobs t (jobs (man w))) as [|j dj] eqn:E; [done|].
    assert (j ∈ due_jobs t (jobs (man w))) as Hj by (rewrite E; by left).
    apply list_elem_of_filter in Hj as [[Hn Hle] Hj].
    destruct (root_first _ _ Hh Hj Hn) as (r & rs & Er & Hrn & Hrle). rewrite Er in *.
    apply Hsome; [simpl; lia|]. split; cbn; [done|lia].
Qed.

Lemma steps_app zone es1 : ∀ w es2,
  steps zone w (es1 ++ es2) = let! w := steps zone w es1 in steps zone w es2.
Proof.
  induction es1 as [|e es1 IH]; intros w es2; [done|]. cbn [steps app].
  destruct (step zone w e); cbn [obind]; [apply IH|done..].
Qed.

Lemma due_of_ran t ran rest : Forall (due t) ran → due_jobs t (ran ++ rest) ≡ₚ ran ++ due_jobs t rest.
Proof.
  intros Hr. unfold due_jobs. rewrite filter_app. apply Permutation_app_tail.
  induction Hr as [|j ran Hj _ IH]; [done|]. rewrite filter_cons_True by done. by constructor.
Qed.

Lemma none_due t js : Forall (λ j, ¬ due t j) js → due_jobs t js = [] ∧ other_jobs t js = js.
Proof.
  induction 1 as [|j js Hj _ [IH1 IH2]]; [done|]. unfold due_jobs, other_jobs in *.
  rewrite filter_cons_False by done. rewrite filter_cons_True by done. by rewrite IH1, IH2.
Qed.

Lemma due_jobs_Permutation t js js' : js ≡ₚ js' →
  due_jobs t js ≡ₚ due_jobs t js' ∧ other_jobs t js ≡ₚ other_jobs t js'.
Proof. intros Hp. unfold due_jobs, other_jobs. by rewrite Hp. Qed.

(** After a timer event the jobs that ran are no longer due. *)
Lemma due_after zone t ran rest : Forall (advances zone t) ran → Forall (due t) ran →
  due_jobs t ((set_next zone t <$> ran) ++ rest) = due_jobs t rest ∧
  other_jobs t ((set_next zone t <$> ran) ++ rest) = (set_next zone t <$> ran) ++ other_jobs t rest ∧
  other_jobs t (ran ++ rest) = other_jobs t rest.
Proof.
  intros Ha Hd. assert (Forall (λ j, ¬ due t j) (set_next zone t <$> ran)) as Hn.
  { apply Forall_fmap. eapply Forall_impl; [exact Ha|]. intros j Hj. by apply set_next_not_due. }
  apply none_due in Hn as [H1 H2]. unfold due_jobs, other_jobs in *. rewrite !filter_app, H1, H2.
  split_and!; [done|done|]. clear Ha H1 H2. induction Hd as [|j ran Hj _ IH]; [done|].
  rewrite filter_cons_False by tauto. exact IH.
Qed.

Lemma drain zone t n : ∀ w d, pos w = Selecting d → loop_ok (jobs (man w)) (Selecting d) →
  Forall (advances zone t) (jobs (man w)) → (length (due_jobs t (jobs (man w))) ≤ n)%nat →
  ∃ k w' ran, (k ≤ n)%nat ∧ steps zone w (ticks k t) = Ret w' ∧
    ran ≡ₚ due_jobs t (jobs (man w)) ∧ log w' = log w ++ ((λ j, (Name j, false)) <$> ran) ∧
    jobs (man w') ≡ₚ (set_next zone t <$> ran) ++ other_jobs t (jobs (man w)).
Proof.
  induction n as [|n IH]; intros w d Hpos Hok Hadv Hn.
  { exists O, w, []. split_and!; try done; cbn; rewrite ?app_nil_r; try done.
    - destruct (due_jobs t (jobs (man w))); [done|simpl in Hn; lia].
    - rewrite (due_split t (jobs (man w))) at 1. destruct (due_jobs t (jobs (man w))); [done|simpl in Hn; lia]. }
  destruct (due_jobs t (jobs (man w))) as [|j0 js0] eqn:E.
  { exists O, w, []. split_and!; try done; cbn; rewrite ?app_nil_r; try done; try lia.
    rewrite (due_split t (jobs (man w))) at 1. by rewrite E. }
  rewrite <- E in *.
  assert (d ≤ t) as Hdt.
  { assert (j0 ∈ due_jobs t (jobs (man w))) as Hj by (rewrite E; by left).
    apply list_elem_of_filter in Hj as [[Hne Hle] Hj]. destruct Hok as (_ & Hd & _). specialize (Hd j0 Hj Hne). lia. }
  destruct (tick_enter zone w d t Hpos Hok Hdt Hadv)
    as (w1 & d1 & ran1 & rest & Hs & Hpos1 & Hok1 & Hadv1 & Hp & Hp1 & Hdue & Hlog & Hsome).
  assert (ran1 ≠ []) as Hne by (apply Hsome; by rewrite E).
  assert (Forall (advances zone t) ran1) as Hadvr by (rewrite Hp in Hadv; by apply Forall_app in Hadv as [? _]).
  destruct (due_after zone t ran1 rest Hadvr Hdue) as (E1 & E2 & E3).
  pose proof (due_jobs_Permutation t _ _ Hp) as [HD HO]. pose proof (due_jobs_Permutation t _ _ Hp1) as [HD1 HO1].
  rewrite (due_of_ran t ran1 rest Hdue) in HD. rewrite E1 in HD1. rewrite E2 in HO1. rewrite E3 in HO.
  destruct (IH w1 d1 Hpos1 Hok1 Hadv1) as (k & w' & ran2 & Hk & Hs' & Hr2 & Hl2 & Hj2).
  { rewrite HD1. rewrite HD, length_app in Hn. destruct ran1; [done|]. simpl in Hn. lia. }
  exists (S k), w', (ran1 ++ ran2). split_and!.
  - lia.
  - change (ticks (S k) t) with ([Tick t; Enter] ++ ticks k t). rewrite steps_app, Hs. exact Hs'.
  - by rewrite Hr2, HD1, HD.
  - rewrite Hl2, Hlog, fmap_app. by rewrite app_assoc.
  - rewrite Hj2, HO1, HO, fmap_app, app_assoc. apply Permutation_app_tail. apply Permutation_app_comm.
Qed.

(** C29 The cron manager runs every job that is due, once: from any reachable waiting
    state in which the timer of every job moves forward at that time (an interval that is
    positive, or a daily time at least one day ahead, see [forward_timer_advances]; a daily
    timer of zero days does not), at most as many timer events as there are due
    jobs (each possible at once, since the timer of an overdue job has expired) run
    exactly the jobs due at that time, each once, reschedule them from that time and leave all other
    jobs unchanged. *)
Theorem due_jobs_run (zone t d : Z) (w : world) :
  reachable zone w → pos w = Selecting d → Forall (advances zone t) (jobs (man w)) →
  ∃ k w' ran, (k ≤ length (due_jobs t (jobs (man w))))%nat ∧
    steps zone w (ticks k t) = Ret w' ∧
    ran ≡ₚ due_jobs t (jobs (man w)) ∧ log w' = log w ++ ((λ j, (Name j, false)) <$> ran) ∧
    jobs (man w') ≡ₚ (set_next zone t <$> ran) ++ other_jobs t (jobs (man w)).
Proof.
  intros Hr Hpos Hadv. destruct (cron_inv zone w Hr) as (_ & _ & _ & Hok). rewrite Hpos in Hok.
  by apply (drain zone t _ w d).
Qed.

(** Two jobs, registered, started at 1000 s and waiting for the timer. *)
Definition job_a : SCronJob := Job "a" (Timer1 (60 * second)) (1060 * second) false.
Definition job_b : SCronJob := Job "b" (Timer1 (30 * second)) (1030 * second) false.
Definition sample_world : world :=
  World (Manager [job_b; job_a] None None true) (Selecting (1030 * second)) [("b", true)].

Lemma sample_reachable : reachable 0 sample_world.
Proof.
  apply (reach_step 0 (Start 0 (World (Manager [Job "a" (Timer1 (60 * second)) 0 false;
      Job "b" (Timer1 (30 * second)) 0 true] None None false) Idle []) (1000 * second)) Enter);
    [|vm_compute; reflexivity].
  apply reach_start.
  apply (reach_add 0 (World (Manager [Job "a" (Timer1 (60 * second)) 0 false] None None false) Idle []) _
    (Job "b" (Timer1 (30 * second)) 0 true)); [|vm_compute; reflexivity].
  apply (reach_add 0 (World (Manager [] None None false) Idle []) _
    (Job "a" (Timer1 (60 * second)) 0 false)); [|vm_compute; reflexivity].
  apply reach_new.
Qed.

Lemma due_jobs_run_witness : ∃ k w' ran, (k ≤ 2)%nat ∧
  steps 0 sample_world (ticks k (1070 * second)) = Ret w' ∧ ran ≡ₚ [job_b; job_a] ∧
  log w' = [("b", true)] ++ ((λ j, (Name j, false)) <$> ran) ∧
  jobs (man w') ≡ₚ (set_next 0 (1070 * second) <$> ran) ++ [].
Proof.
  apply (due_jobs_run 0 (1070 * second) (1030 * second) sample_world); [apply sample_reachable|done|].
  repeat constructor.
Defined.

(** The timer of the loop is never late: in every reachable state that waits in the
    [select], no job is to run before the timer fires, and the jobs are a heap whose
    first element decides the timer. *)
Theorem timer_not_late (zone d : Z) (w : world) (j : SCronJob) :
  reachable zone w → pos w = Selecting d → j ∈ jobs (man w) → Next j ≠ 0 →
  Heap.heap job_less (jobs (man w)) ∧ d ≤ Next j.
Proof.
  intros Hr Hpos Hj Hne. destruct (cron_inv zone w Hr) as (_ & _ & _ & Hok).
  rewrite Hpos in Hok. destruct Hok as (Hh & Hd & _). split; [done|by apply Hd].
Qed.

Lemma timer_not_late_witness :
  Heap.heap job_less (jobs (man sample_world)) ∧ 1030 * second ≤ Next job_a.
Proof.
  apply (timer_not_late 0 (1030 * second) sample_world job_a); [apply sample_reachable|done| |done].
  right. left.
Defined.

(** A job cannot be added to a started manager: its channel is nil in every
    reachable state, so AddJob1, AddJob1WithStartRun and AddJob2 block for ever once [Start] was
    called, and [Stop] has no effect, because the channel it would close is nil as well. *)
Theorem add_after_start_blocks (zone : Z) (w : world) (name : string) (interval day hour min sec : Z)
    (startRun : bool) :
  reachable zone w → running (man w) = true →
  AddJob1 (man w) name interval = Fail SendBlocks ∧
  AddJob1WithStartRun (man w) name interval startRun = Fail SendBlocks ∧
  AddJob2 (man w) name day hour min sec startRun = Fail SendBlocks ∧
  Stop (man w) = man w.
Proof.
  intros Hr Hrun. destruct (cron_inv zone w Hr) as (Ha & Hs & _).
  unfold AddJob1, AddJob1WithStartRun, AddJob2, add_job, Stop. by rewrite Hrun, Ha, Hs.
Qed.

Lemma add_after_start_blocks_witness :
  AddJob1 (man sample_world) "c" second = Fail SendBlocks ∧
  AddJob1WithStartRun (man sample_world) "c" second true = Fail SendBlocks ∧
  AddJob2 (man sample_world) "c" 1 2 0 0 true = Fail SendBlocks ∧
  Stop (man sample_world) = man sample_world.
Proof. apply (add_after_start_blocks 0 sample_world "c" second 1 2 0 0 true); [apply sample_reachable|done]. Defined.

(** ** Timers *)

Lemma day_duration day : 0 ≤ day ≤ 100000 →
  int64_wrap (int64_wrap (hour_ns * day) * 24) = day * day_ns.
Proof.
  intros Hd. unfold day_ns, hour_ns, second in *.
  rewrite !int64_wrap_id; unfold is_int64; rewrite ?int64_wrap_id; unfold is_int64; lia.
Qed.

(** The daily timer fires at the given time of day, the given number of days later: for
    a valid time of day and one day or more, the next run is after now, falls on the
    local day that is that many days after today, and has the given local time.  With zero days
    the next run is on the same day, and not after now once its time has passed. *)
Theorem daily_timer (zone now day hour min sec : Z) :
  0 ≤ day ≤ 100000 → 0 ≤ hour < 24 → 0 ≤ min < 60 → 0 ≤ sec < 60 →
  let next := timer_Next zone (Timer2 day hour min sec) now in
  let time_of_day := (hour * 3600 + min * 60 + sec) * second in
  (next + zone) / day_ns = (now + zone) / day_ns + day ∧
  (next + zone) mod day_ns = time_of_day ∧
  (1 ≤ day → now < next) ∧
  (day = 0 → next ≤ now ↔ time_of_day ≤ (now + zone) mod day_ns).
Proof.
  intros Hday Hh Hm Hs next tod. unfold next, timer_Next. rewrite day_duration by done. fold tod.
  assert (0 ≤ tod < day_ns) as Ht by (unfold tod, day_ns, hour_ns, second; lia).
  assert (0 < day_ns) as Hpos by done.
  replace (now + day * day_ns + zone) with (now + zone + day * day_ns) by lia. rewrite Z.div_add by lia.
  set (q := (now + zone) / day_ns).
  pose proof (Z.div_mod (now + zone) day_ns ltac:(lia)) as Hdm. fold q in Hdm.
  pose proof (Z.mod_pos_bound (now + zone) day_ns Hpos) as Hb.
  replace ((q + day) * day_ns - zone + tod + zone) with (tod + (q + day) * day_ns) by lia.
  rewrite Z.div_add, Z.mod_add by lia. rewrite Z.div_small, Z.mod_small by lia.
  split_and!; [lia|done| |].
  - intros H1. assert (1 * day_ns ≤ day * day_ns) by (apply Z.mul_le_mono_nonneg_r; lia). lia.
  - intros ->. lia.
Qed.

Lemma daily_timer_witness :
  let next := timer_Next (8 * hour_ns) (Timer2 1 2 0 0) (5 * day_ns) in
  let time_of_day := (2 * 3600 + 0 * 60 + 0) * second in
  (next + 8 * hour_ns) / day_ns = (5 * day_ns + 8 * hour_ns) / day_ns + 1 ∧
  (next + 8 * hour_ns) mod day_ns = time_of_day ∧
  (1 ≤ 1 → 5 * day_ns < next) ∧
  (1 = 0 → next ≤ 5 * day_ns ↔ time_of_day ≤ (5 * day_ns + 8 * hour_ns) mod day_ns).
Proof. apply (daily_timer (8 * hour_ns) (5 * day_ns) 1 2 0 0); lia. Defined.

(** The timers that move forward whenever they are asked. *)
Definition forward_timer (t : ICronTimer) : Prop :=
  match t with
  | Timer1 dur => 0 < dur
  | Timer2 day hour min sec => 1 ≤ day ≤ 100000 ∧ 0 ≤ hour < 24 ∧ 0 ≤ min < 60 ∧ 0 ≤ sec < 60
  end.

Lemma forward_timer_advances (zone now : Z) (j : SCronJob) :
  forward_timer (Timer j) → advances zone now j.
Proof.
  unfold advances. destruct (Timer j) as [dur|day hour min sec]; simpl forward_timer.
  - intros H. simpl. lia.
  - intros (Hd & Hh & Hm & Hs). apply (daily_timer zone now day hour min sec); lia.
Qed.

End Cronman.
