(* ===== verification/Netutils.v ===== *)
(** * IPv4 addresses and ranges: vendor/yunion.io/x/pkg/util/netutils

    An [IPV4Addr] is a 32-bit unsigned integer.  Parsing follows the code: every part of a
    dotted quad goes through [strconv.Atoi] and is shifted into place without a check of
    its size. *)

From Stdlib Require Import Ascii.
From stdpp Require Import pretty.
From S2P Require Import Prelude.
Local Open Scope Z_scope.
Local Open Scope go_scope.

Module Netutils.

Inductive addr_error := InvalidNumber | InvalidAddress.

(** ** strconv.Atoi *)

Definition digit (c : Ascii.ascii) : option Z :=
  let n := Z.of_nat (Ascii.nat_of_ascii c) in
  if (48 <=? n) && (n <=? 57) then Some (n - 48) else None.

Fixpoint digits (s : string) (acc : Z) : option Z :=
  match s with
  | EmptyString => Some acc
  | String c s => d ← digit c; digits s (10 * acc + d)
  end.

(** An optional sign and one digit or more. *)
Definition parse_int (s : string) : option Z :=
  let '(neg, s) := match s with
                   | String c r =>
                     if Ascii.eqb c "+"%char then (false, r) else if Ascii.eqb c "-"%char then (true, r) else (false, s)
                   | EmptyString => (false, s)
                   end in
  match s with
  | EmptyString => None
  | _ => n ← digits s 0; Some (if neg : bool then - n else n)
  end.

(** The value has to fit an [int]. *)
Definition Atoi (s : string) : option Z :=
  n ← parse_int s; if (min_int64 <=? n) && (n <=? max_int64) then Some n else None.

(** [n, _ := strconv.Atoi(s)]: zero for what is no number, the nearest [int] for what is too
    large. *)
Definition Atoi_value (s : string) : Z :=
  match parse_int s with Some n => Z.max min_int64 (Z.min n max_int64) | None => 0 end.

(** ** Addresses *)

Definition dot : Ascii.ascii := "."%char.

(** The loop of [IP2Number] from the part [i] on. *)
Fixpoint ip_parts (parts : list string) (i : Z) (num : Z) : outcome addr_error Z :=
  match parts with
  | [] => Ret num
  | p :: parts =>
    match Atoi p with
    | None => Fail InvalidNumber
    | Some n => ip_parts parts (i + 1) (Z.lor num (uint_wrap 32 (Z.shiftl (uint_wrap 32 n) (24 - i * 8))))
    end
  end.

Definition IP2Number (ipstr : string) : outcome addr_error Z :=
  let parts := Split dot ipstr in
  if (length parts =? 4)%nat then ip_parts parts 0 0 else Fail InvalidAddress.

Definition Number2Bytes (num : Z) : list Z :=
  let a := Z.shiftr num 24 in
  let num := num - Z.shiftl a 24 in
  let b := Z.shiftr num 16 in
  let num := num - Z.shiftl b 16 in
  let c := Z.shiftr num 8 in
  let num := num - Z.shiftl c 8 in
  [uint_wrap 8 a; uint_wrap 8 b; uint_wrap 8 c; uint_wrap 8 num].

(** ["%d"] of a byte. *)
Definition byte_string (b : Z) : string := pretty (Z.to_N b).

Definition Number2IP (num : Z) : string := join (String dot "") (byte_string <$> Number2Bytes num).

Definition NewIPV4Addr (ipstr : string) : outcome addr_error Z :=
  if String.eqb ipstr "" then Ret 0 else IP2Number ipstr.

(** [addr, _ := NewIPV4Addr(s)]: the error is dropped and the address is zero. *)
Definition addr_of (s : string) : Z := match NewIPV4Addr s with Ret a => a | _ => 0 end.

Definition StepDown (addr : Z) : Z := uint_wrap 32 (addr - 1).
Definition StepUp (addr : Z) : Z := uint_wrap 32 (addr + 1).
Definition addr_String (addr : Z) : string := Number2IP addr.

(** [for i := 0; i < maskLen; i++ { mask |= 1 << uint(31-i) }]. *)
Definition Masklen2Mask (maskLen : Z) : Z :=
  foldl (λ mask i, Z.lor mask (Z.shiftl 1 (31 - Z.of_nat i))) 0 (seq 0 (Z.to_nat maskLen)).

Definition NetAddr (addr maskLen : Z) : Z := Z.land (Masklen2Mask maskLen) addr.
Definition BroadcastAddr (addr maskLen : Z) : Z :=
  Z.lor addr (uint_wrap 32 (4294967295 - Masklen2Mask maskLen)).
Definition CliAddr (addr maskLen : Z) : Z := uint_wrap 32 (addr - Z.land addr (Masklen2Mask maskLen)).

(** ** Ranges *)

Record IPV4AddrRange := MkRange { start : Z; end_ : Z }.

Definition NewIPV4AddrRange (ip1 ip2 : Z) : IPV4AddrRange :=
  if ip1 <? ip2 then MkRange ip1 ip2 else MkRange ip2 ip1.

Definition Contains (ar : IPV4AddrRange) (ip : Z) : bool := (start ar <=? ip) && (ip <=? end_ ar).

Definition ContainsRange (ar ar2 : IPV4AddrRange) : bool :=
  (start ar <=? start ar2) && (end_ ar2 <=? end_ ar).

Definition AddressCount (ar : IPV4AddrRange) : Z := uint_wrap 32 (uint_wrap 32 (end_ ar - start ar) + 1).

Definition IsOverlap (ar ar2 : IPV4AddrRange) : bool :=
  negb ((end_ ar2 <? start ar) || (end_ ar <? start ar2)).

(** [Random] draws with [rand.Intn], which panics unless its argument is positive. *)
Definition Random {E} (Intn : Z → Z) (ar : IPV4AddrRange) : outcome E Z :=
  let n := uint_wrap 32 (end_ ar - start ar) in
  if n <=? 0 then Panic else Ret (uint_wrap 32 (start ar + Intn n)).

(** ** Prefixes *)

Record IPV4Prefix := MkPrefix { Address : Z; MaskLen : Z }.

(** The loop of [Mask2Len] stops at the latest after 32 ones: the shift by a negative
    count, as an unsigned one, yields zero. *)
Fixpoint mask_ones (fuel : nat) (mask : Z) (i : Z) : Z :=
  match fuel with
  | O => i
  | S fuel => if Z.land mask (Z.shiftl 1 (31 - i)) =? 0 then i else mask_ones fuel mask (i + 1)
  end.
Definition Mask2Len (mask : Z) : Z := mask_ones 32 mask 0.

(** [strings.IndexByte(s, '/')] and the two parts around it. *)
Fixpoint cut_slash (s : string) : option (string * string) :=
  match s with
  | EmptyString => None
  | String c s =>
    if Ascii.eqb c "/"%char then Some ("", s)
    else match cut_slash s with Some (a, b) => Some (String c a, b) | None => None end
  end.

(** [ParsePrefix] and [NewIPV4Prefix]; [MatchIP4Addr] tests for a dotted mask. *)
Definition NewIPV4Prefix (MatchIP4Addr : string → bool) (prefix : string) : outcome addr_error IPV4Prefix :=
  match cut_slash prefix with
  | Some (String c a, m) =>
    let! addr := NewIPV4Addr (String c a) in
    if MatchIP4Addr m then
      let! mask := NewIPV4Addr m in
      let maskLen := Mask2Len mask in
      Ret (MkPrefix (NetAddr addr maskLen) maskLen)
    else
      match Atoi m with
      | None => Fail InvalidNumber
      | Some maskLen =>
        if (maskLen <? 0) || (32 <? maskLen) then Fail InvalidAddress
        else Ret (MkPrefix (NetAddr addr maskLen) maskLen)
      end
  | _ => let! addr := NewIPV4Addr prefix in Ret (MkPrefix addr 32)
  end.

Definition ToIPRange (prefix : IPV4Prefix) : IPV4AddrRange :=
  MkRange (NetAddr (Address prefix) (MaskLen prefix)) (BroadcastAddr (Address prefix) (MaskLen prefix)).

(** ** Printing and parsing *)

Definition byte_check (n : Z) : bool :=
  bool_decide (Atoi (byte_string n) = Some n) && char_free dot (byte_string n) &&
  negb (String.eqb (byte_string n) "").

Fixpoint all_below (fuel : nat) (p : Z → bool) : bool :=
  match fuel with O => true | S fuel => p (Z.of_nat fuel) && all_below fuel p end.

Lemma all_below_spec fuel p v : all_below fuel p = true → 0 ≤ v < Z.of_nat fuel → p v = true.
Proof.
  induction fuel as [|fuel IH]; intros H Hv; [lia|]. simpl in H. apply andb_prop in H as [H0 H].
  destruct (decide (v = Z.of_nat fuel)) as [->|]; [done|]. apply IH; [done|lia].
Qed.

Lemma byte_all : all_below 256 byte_check = true.
Proof. vm_compute. reflexivity. Qed.

Lemma byte_string_ok n : 0 ≤ n < 256 →
  Atoi (byte_string n) = Some n ∧ char_free dot (byte_string n) ∧ byte_string n ≠ "".
Proof.
  intros Hn. pose proof (all_below_spec 256 _ n byte_all Hn) as H. unfold byte_check in H.
  rewrite !andb_true_iff in H. destruct H as [[H1%bool_decide_eq_true H2] H3]. split_and!; [done|by rewrite H2|].
  intros E. by rewrite E in H3.
Qed.

Lemma Number2Bytes_eq a : 0 ≤ a < 4294967296 →
  Number2Bytes a = [a / 16777216; a / 65536 mod 256; a / 256 mod 256; a mod 256].
Proof.
  intros Ha. unfold Number2Bytes, uint_wrap. cbv zeta.
  rewrite !Z.shiftr_div_pow2, !Z.shiftl_mul_pow2 by lia.
  change (2 ^ 24) with 16777216. change (2 ^ 16) with 65536. change (2 ^ 8) with 256.
  set (q3 := a / 16777216).
  assert (0 ≤ q3 < 256) as Hq3 by (subst q3; split; [apply Z.div_pos|apply Z.div_lt_upper_bound]; lia).
  replace (a - q3 * 16777216) with (a + (- (q3 * 256)) * 65536) by lia. rewrite Z.div_add by lia.
  set (q2 := a / 65536).
  replace (a + - (q3 * 256) * 65536 - (q2 + - (q3 * 256)) * 65536) with (a + (- (q2 * 256)) * 256) by lia.
  rewrite Z.div_add by lia. set (q1 := a / 256).
  replace (a + - (q2 * 256) * 256 - (q1 + - (q2 * 256)) * 256) with (a + (- q1) * 256) by lia.
  replace (q2 + - (q3 * 256)) with (q2 + (- q3) * 256) by lia.
  replace (q1 + - (q2 * 256)) with (q1 + (- q2) * 256) by lia.
  rewrite !Z.mod_add, (Z.mod_small q3) by lia. done.
Qed.

Lemma byte_shift n k : 0 ≤ n < 256 → 0 ≤ k ≤ 24 →
  uint_wrap 32 (Z.shiftl (uint_wrap 32 n) k) = n * 2 ^ k.
Proof.
  intros Hn Hk. unfold uint_wrap. rewrite Z.shiftl_mul_pow2, (Z.mod_small n) by lia.
  apply Z.mod_small. assert (1 * 2 ^ k ≤ 2 ^ 24) by (rewrite Z.mul_1_l; apply Z.pow_le_mono_r; lia).
  assert (0 < 2 ^ k) by (apply Z.pow_pos_nonneg; lia). change (2 ^ 32) with (256 * 2 ^ 24). nia.
Qed.

(** An address survives printing and parsing. *)
Lemma addr_roundtrip a : 0 ≤ a < 4294967296 → NewIPV4Addr (addr_String a) = Ret a.
Proof.
  intros Ha. unfold addr_String, Number2IP. rewrite Number2Bytes_eq by done.
  set (b3 := a / 16777216). set (b2 := a / 65536 mod 256). set (b1 := a / 256 mod 256). set (b0 := a mod 256).
  assert (0 ≤ b3 < 256) as H3 by (subst b3; split; [apply Z.div_pos|apply Z.div_lt_upper_bound]; lia).
  assert (0 ≤ b2 < 256) as H2 by (apply Z.mod_pos_bound; lia).
  assert (0 ≤ b1 < 256) as H1 by (apply Z.mod_pos_bound; lia).
  assert (0 ≤ b0 < 256) as H0 by (apply Z.mod_pos_bound; lia).
  destruct (byte_string_ok b3 H3) as (A3 & F3 & N3), (byte_string_ok b2 H2) as (A2 & F2 & _),
    (byte_string_ok b1 H1) as (A1 & F1 & _), (byte_string_ok b0 H0) as (A0 & F0 & _).
  set (l := byte_string <$> [b3; b2; b1; b0]).
  assert (Split dot (join (String dot "") l) = l) as HS by (apply Split_join; [done|by repeat constructor]).
  unfold NewIPV4Addr. destruct (String.eqb_spec (join (String dot "") l) "") as [E|_].
  { rewrite E in HS. discriminate HS. }
  unfold IP2Number. rewrite HS. cbn [length l fmap list_fmap Nat.eqb ip_parts].
  rewrite A3, A2, A1, A0, !byte_shift by lia. f_equal.
  change (2 ^ (24 - 0 * 8)) with 16777216. change (2 ^ (24 - (0 + 1) * 8)) with 65536.
  change (2 ^ (24 - (0 + 1 + 1) * 8)) with 256. change (2 ^ (24 - (0 + 1 + 1 + 1) * 8)) with 1.
  rewrite Z.lor_0_l. change 16777216 with (2 ^ 24) at 1. rewrite lor_high by lia.
  change (2 ^ 24) with (256 * 2 ^ 16).
  replace (b3 * (256 * 2 ^ 16) + b2 * 65536) with ((b3 * 256 + b2) * 2 ^ 16) by lia. rewrite lor_high by lia.
  replace ((b3 * 256 + b2) * 2 ^ 16 + b1 * 256) with (((b3 * 256 + b2) * 256 + b1) * 2 ^ 8) by lia.
  rewrite lor_high by lia. subst b3 b2 b1 b0.
  pose proof (Z.div_mod a 256 ltac:(lia)). pose proof (Z.div_mod (a / 256) 256 ltac:(lia)).
  pose proof (Z.div_mod (a / 256 / 256) 256 ltac:(lia)).
  replace (a / 65536) with (a / 256 / 256) in * by (rewrite Z.div_div by lia; done).
  replace (a / 16777216) with (a / 256 / 256 / 256) in * by (rewrite !Z.div_div by lia; done).
  lia.
Qed.

Lemma addr_of_String a : 0 ≤ a < 4294967296 → addr_of (addr_String a) = a.
Proof. intros Ha. unfold addr_of. by rewrite addr_roundtrip. Qed.

Lemma addr_String_inj a b : 0 ≤ a < 4294967296 → 0 ≤ b < 4294967296 → addr_String a = addr_String b → a = b.
Proof. intros Ha Hb E. rewrite <- (addr_of_String a), <- (addr_of_String b) by done. by rewrite E. Qed.

Lemma addr_String_nonempty a : 0 ≤ a < 4294967296 → addr_String a ≠ "".
Proof.
  intros Ha E. pose proof (addr_roundtrip a Ha) as H. rewrite E in H. cbn in H. injection H as <-.
  by vm_compute in E.
Qed.

Lemma ip_parts_range parts : ∀ i num x, 0 ≤ num < 4294967296 → ip_parts parts i num = Ret x → 0 ≤ x < 4294967296.
Proof.
  induction parts as [|p parts IH]; intros i num x Hn E; simpl in E; [by simplify_eq|].
  destruct (Atoi p); [|done]. eapply IH; [|exact E].
  set (y := uint_wrap 32 _). assert (0 ≤ y < 2 ^ 32) as Hy by (apply Z.mod_pos_bound; lia).
  split; [apply Z.lor_nonneg; lia|]. change 4294967296 with (2 ^ 32) in *.
  destruct (decide (Z.lor num y = 0)) as [->|Hne]; [lia|]. apply Z.log2_lt_pow2.
  - pose proof (proj2 (Z.lor_nonneg num y)). lia.
  - rewrite Z.log2_lor by lia. apply Z.max_lub_lt.
    + destruct (decide (num = 0)) as [->|]; [done|]. apply Z.log2_lt_pow2; lia.
    + destruct (decide (y = 0)) as [->|]; [done|]. apply Z.log2_lt_pow2; lia.
Qed.

(** Whatever is parsed is a 32-bit number. *)
Lemma addr_of_range s : 0 ≤ addr_of s < 4294967296.
Proof.
  unfold addr_of, NewIPV4Addr. destruct (String.eqb s ""); [lia|]. unfold IP2Number.
  destruct (length (Split dot s) =? 4)%nat; [|lia].
  destruct (ip_parts (Split dot s) 0 0) eqn:E; try lia. eapply ip_parts_range; [|exact E]. lia.
Qed.

(** ** Prefixes are aligned blocks of addresses *)

Lemma mask_all : all_below 33 (λ m, Masklen2Mask m =? Z.shiftl (Z.ones m) (32 - m)) = true.
Proof. reflexivity. Qed.

Lemma Masklen2Mask_eq m : 0 ≤ m ≤ 32 → Masklen2Mask m = Z.shiftl (Z.ones m) (32 - m).
Proof. intros Hm. apply Z.eqb_eq. apply (all_below_spec 33 _ m mask_all). lia. Qed.

(** The block of [2 ^ (32 - m)] addresses that holds an address. *)
Definition block (m a : Z) : Z := a / 2 ^ (32 - m).

Lemma NetAddr_block a m : 0 ≤ a < 4294967296 → 0 ≤ m ≤ 32 → NetAddr a m = block m a * 2 ^ (32 - m).
Proof.
  intros Ha Hm. unfold NetAddr, block. rewrite Masklen2Mask_eq, <- Z.shiftr_div_pow2, <- Z.shiftl_mul_pow2 by lia.
  apply Z.bits_inj'. intros i Hi. rewrite Z.land_spec, !Z.shiftl_spec by lia.
  destruct (decide (i < 32 - m)).
  - rewrite !(Z.testbit_neg_r _ (i - (32 - m))) by lia. done.
  - rewrite Z.shiftr_spec, Z.testbit_ones by lia. replace (i - (32 - m) + (32 - m)) with i by lia.
    destruct (Z.leb_spec 0 (i - (32 - m))); [|lia]. destruct (Z.ltb_spec (i - (32 - m)) m); [done|].
    cbn. symmetry. apply Z.testbit_false; [done|].
    assert (4294967296 ≤ 2 ^ i) by (change 4294967296 with (2 ^ 32); apply Z.pow_le_mono_r; lia).
    rewrite Z.div_small by lia. done.
Qed.

Lemma BroadcastAddr_block q m : 0 ≤ m ≤ 32 →
  BroadcastAddr (q * 2 ^ (32 - m)) m = q * 2 ^ (32 - m) + (2 ^ (32 - m) - 1).
Proof.
  intros Hm. unfold BroadcastAddr. rewrite Masklen2Mask_eq by lia.
  rewrite Z.shiftl_mul_pow2, Z.ones_equiv by lia.
  assert (0 < 2 ^ (32 - m) ≤ 2 ^ 32) as Hp by (split; [apply Z.pow_pos_nonneg|apply Z.pow_le_mono_r]; lia).
  assert (2 ^ m * 2 ^ (32 - m) = 2 ^ 32) as Hs by (rewrite <- Z.pow_add_r by lia; f_equal; lia).
  change (2 ^ 32) with 4294967296 in *. unfold uint_wrap. change (2 ^ 32) with 4294967296.
  replace (4294967295 - Z.pred (2 ^ m) * 2 ^ (32 - m)) with (2 ^ (32 - m) - 1) by nia.
  rewrite Z.mod_small by lia. apply lor_high; lia.
Qed.

(** The addresses of a prefix are the block of its address, whatever host bits it was
    written with. *)
Lemma prefix_range a m : 0 ≤ a < 4294967296 → 0 ≤ m ≤ 32 →
  ToIPRange (MkPrefix (NetAddr a m) m) =
  MkRange (block m a * 2 ^ (32 - m)) (block m a * 2 ^ (32 - m) + (2 ^ (32 - m) - 1)).
Proof.
  intros Ha Hm. assert (0 < 2 ^ (32 - m)) as Hp by (apply Z.pow_pos_nonneg; lia).
  assert (0 ≤ block m a) by (apply Z.div_pos; lia).
  pose proof (Z.mul_div_le a (2 ^ (32 - m)) Hp) as Hle. fold (block m a) in Hle.
  unfold ToIPRange. cbn [Address MaskLen]. rewrite (NetAddr_block a) by done. f_equal.
  - rewrite NetAddr_block by (done || nia). f_equal. unfold block at 1. by rewrite Z.div_mul by lia.
  - by apply BroadcastAddr_block.
Qed.

Lemma block_end a m : 0 ≤ a < 4294967296 → 0 ≤ m ≤ 32 →
  0 ≤ block m a * 2 ^ (32 - m) ∧ block m a * 2 ^ (32 - m) + 2 ^ (32 - m) ≤ 4294967296.
Proof.
  intros Ha Hm. assert (0 < 2 ^ (32 - m)) as Hp by (apply Z.pow_pos_nonneg; lia).
  assert (2 ^ m * 2 ^ (32 - m) = 2 ^ 32) as Hs by (rewrite <- Z.pow_add_r by lia; f_equal; lia).
  change (2 ^ 32) with 4294967296 in *.
  assert (0 ≤ block m a) by (apply Z.div_pos; lia).
  assert (block m a < 2 ^ m) by (apply Z.div_lt_upper_bound; lia). nia.
Qed.

Lemma NewIPV4Prefix_shape M s p : NewIPV4Prefix M s = Ret p → MaskLen p < 32 →
  ∃ a, 0 ≤ a < 4294967296 ∧ Address p = NetAddr a (MaskLen p).
Proof.
  assert (∀ t x, NewIPV4Addr t = Ret x → 0 ≤ x < 4294967296) as Hr.
  { intros t x Hx. pose proof (addr_of_range t) as Ht. unfold addr_of in Ht. by rewrite Hx in Ht. }
  unfold NewIPV4Prefix. destruct (cut_slash s) as [[[|c a] m]|].
  1, 3: destruct (NewIPV4Addr s); intros [= <-] Hlt; cbn in Hlt; lia.
  destruct (NewIPV4Addr (String c a)) as [x| | |] eqn:Ex; [|done..]. apply Hr in Ex. cbn [obind].
  destruct (M m).
  - destruct (NewIPV4Addr m); [|done..]. cbn [obind]. intros [= <-] _. by exists x.
  - destruct (Atoi m) as [len|]; [|done]. destruct ((len <? 0) || (32 <? len)); [done|].
    intros [= <-] _. by exists x.
Qed.

End Netutils.
