(* ===== verification/Networks.v ===== *)
(** * Networks and their addresses: pkg/compute/models/networks.go and the tables of addresses

    The database is a record of tables.  Five tables hold addresses of networks: the
    interfaces of guests (guestnetworks.go), of groups and of hosts (hostnetworks.go, hosts.go),
    reserved addresses (reservedips.go) and load balancers (loadbalancernetworks.go).  An operation maps a
    database to a database; the locks of the code (the object lock of the network) make each
    of them atomic.  Notifications (DNS, logs) are left out.  Random numbers, the clock,
    digests, the identifiers of new rows and the tests of address syntax by [net.ParseIP] are
    parameters. *)

From Stdlib Require Import Ascii.
From stdpp Require Import pretty.
From S2P Require Import Prelude Netutils.
Import Netutils.
Local Open Scope Z_scope.
Local Open Scope go_scope.

Module Networks.

(** ** Tables *)

Record SNetwork := Network {
  Id : string;
  Name : string;
  GuestIpStart : string;
  GuestIpEnd : string;
  GuestIpMask : Z;
  GuestGateway : string;
  GuestDns : string;
  GuestDhcp : string;
  GuestDomain : string;
  VlanId : Z;
  WireId : string;
  ServerType : string;
  IsPublic : bool;
  Status : string;
  ProjectId : string;
  IsSystem : bool;
  Description : string;
  ExternalId : string;
  AllocPolicy : string;
  AllocTimoutSeconds : Z }.

Record SGuestnetwork := Guestnetwork {
  GuestId : string;
  gn_NetworkId : string;
  Index : Z;
  Virtual : bool;
  Driver : string;
  BwLimit : Z;
  gn_MacAddr : string;
  gn_IpAddr : string;
  Ifname : string;
  TeamWith : string }.

Record SGroupnetwork := Groupnetwork { GroupId : string; gp_NetworkId : string; gp_IpAddr : string }.

Record SHostnetwork := Hostnetwork {
  BaremetalId : string;
  hn_NetworkId : string;
  hn_IpAddr : string;
  hn_MacAddr : string }.

Record SReservedip := Reservedip { rip_NetworkId : string; rip_IpAddr : string; Notes : string }.

Record SLoadbalancerNetwork := LoadbalancerNetwork {
  LoadbalancerId : string;
  lb_NetworkId : string;
  lb_IpAddr : string }.

(** What the tables of addresses have in common. *)
Class AddrRow (R : Type) := {
  row_net : R → string;
  row_ip : R → string;
  set_net : string → R → R;
  row_net_set n r : row_net (set_net n r) = n;
  row_ip_set n r : row_ip (set_net n r) = row_ip r }.

#[export] Instance guest_row : AddrRow SGuestnetwork := {|
  row_net := gn_NetworkId;
  row_ip := gn_IpAddr;
  set_net n r := Guestnetwork (GuestId r) n (Index r) (Virtual r) (Driver r) (BwLimit r) (gn_MacAddr r)
                   (gn_IpAddr r) (Ifname r) (TeamWith r);
  row_net_set _ _ := eq_refl;
  row_ip_set _ _ := eq_refl |}.

#[export] Instance group_row : AddrRow SGroupnetwork := {|
  row_net := gp_NetworkId;
  row_ip := gp_IpAddr;
  set_net n r := Groupnetwork (GroupId r) n (gp_IpAddr r);
  row_net_set _ _ := eq_refl;
  row_ip_set _ _ := eq_refl |}.

#[export] Instance host_row : AddrRow SHostnetwork := {|
  row_net := hn_NetworkId;
  row_ip := hn_IpAddr;
  set_net n r := Hostnetwork (BaremetalId r) n (hn_IpAddr r) (hn_MacAddr r);
  row_net_set _ _ := eq_refl;
  row_ip_set _ _ := eq_refl |}.

#[export] Instance reserved_row : AddrRow SReservedip := {|
  row_net := rip_NetworkId;
  row_ip := rip_IpAddr;
  set_net n r := Reservedip n (rip_IpAddr r) (Notes r);
  row_net_set _ _ := eq_refl;
  row_ip_set _ _ := eq_refl |}.

#[export] Instance lb_row : AddrRow SLoadbalancerNetwork := {|
  row_net := lb_NetworkId;
  row_ip := lb_IpAddr;
  set_net n r := LoadbalancerNetwork (LoadbalancerId r) n (lb_IpAddr r);
  row_net_set _ _ := eq_refl;
  row_ip_set _ _ := eq_refl |}.

(** The tables; a deleted interface of a guest keeps its network, address and deletion
    time. *)
Record db := Db {
  networks : list SNetwork;
  guestnetworks : list SGuestnetwork;
  groupnetworks : list SGroupnetwork;
  hostnetworks : list SHostnetwork;
  reservedips : list SReservedip;
  loadbalancernetworks : list SLoadbalancerNetwork;
  deleted_nics : list (string * string * Z) }.

(** The rows of a network, and their addresses. *)
Definition rows_of {R} `{AddrRow R} (net : string) (rows : list R) : list R :=
  filter (λ r, row_net r = net) rows.
Definition addrs_of {R} `{AddrRow R} (net : string) (rows : list R) : list string :=
  row_ip <$> rows_of net rows.

Inductive net_error :=
| ParseError
| OutOfRange
| OutOfIpAddress
| ReservedNotFound
| MacGenerateFails
| CandidateOccupied
| AddressUsed
| MissingParameter
| NotReserved
| SplitAtStart
| TargetMismatch
| Incontinuity
| InvalidMaskLen
| InvalidIp (key : string)
| Conflict
| NotFound
| InternalError
| NotReady
| NotInVpc
| InvalidServerType
| ManagedNetwork
| AddressOutOfNewRange
| NotEmpty
| InvalidStatus.

(** ** Used addresses *)

(** Every address of the network in the five tables; nil when a query fails. *)
Definition GetUsedAddresses (query_ok : bool) (d : db) (net : SNetwork) : list string :=
  if query_ok then
    addrs_of (Id net) (guestnetworks d) ++ addrs_of (Id net) (groupnetworks d) ++
    addrs_of (Id net) (hostnetworks d) ++ addrs_of (Id net) (reservedips d) ++
    addrs_of (Id net) (loadbalancernetworks d)
  else [].

Definition getIPRange (net : SNetwork) : IPV4AddrRange :=
  NewIPV4AddrRange (addr_of (GuestIpStart net)) (addr_of (GuestIpEnd net)).

Definition isAddressInRange (net : SNetwork) (address : Z) : bool := Contains (getIPRange net) address.

Definition count {R} `{AddrRow R} (rows : list R) (net ip : string) : nat :=
  length (filter (λ r, row_ip r = ip ∧ row_net r = net) rows).

Definition isAddressUsed (d : db) (net : SNetwork) (address : string) : bool :=
  (0 <? count (guestnetworks d) (Id net) address)%nat || (0 <? count (groupnetworks d) (Id net) address)%nat ||
  (0 <? count (hostnetworks d) (Id net) address)%nat || (0 <? count (reservedips d) (Id net) address)%nat ||
  (0 <? count (loadbalancernetworks d) (Id net) address)%nat.

(** The counts behind [GetTotalNicCount]; virtual interfaces of guests have no address. *)
Definition GetTotalNicCount (d : db) (net : SNetwork) : Z :=
  Z.of_nat (length (filter (λ r, Virtual r = false) (rows_of (Id net) (guestnetworks d)))) +
  Z.of_nat (length (rows_of (Id net) (groupnetworks d))) +
  Z.of_nat (length (rows_of (Id net) (hostnetworks d))) +
  Z.of_nat (length (rows_of (Id net) (reservedips d))) +
  Z.of_nat (length (rows_of (Id net) (loadbalancernetworks d))).

Definition GetPorts (net : SNetwork) : Z := AddressCount (getIPRange net).
Definition getFreeAddressCount (d : db) (net : SNetwork) : Z := GetPorts net - GetTotalNicCount d net.

(** ** Choosing a free address *)

Definition IPAllocationStepdown : string := "stepdown".
Definition IPAllocationStepup : string := "stepup".
Definition IPAllocationRadnom : string := "random".
Definition IPAllocationNone : string := "none".

Definition str_in (s : string) (l : list string) : bool := existsb (String.eqb s) l.

Definition isIpUsed (ipstr : string) (addrTable recentUsedAddrTable : list string) : bool :=
  str_in ipstr addrTable || str_in ipstr recentUsedAddrTable.

(** [for iprange.Contains(ip) { ...; ip = step(ip) }]. *)
Fixpoint scan (fuel : nat) (iprange : IPV4AddrRange) (step : Z → Z) (addrTable recent : list string)
    (ip : Z) : outcome net_error string :=
  if negb (Contains iprange ip) then Fail OutOfIpAddress
  else match fuel with
       | O => OutOfFuel
       | S fuel =>
         if negb (isIpUsed (addr_String ip) addrTable recent) then Ret (addr_String ip)
         else scan fuel iprange step addrTable recent (step ip)
       end.

(** The tries of the random policy; [None] falls back to stepping up. *)
Fixpoint random_tries (Intn : nat → Z → Z) (tries : nat) (i : nat) (iprange : IPV4AddrRange)
    (addrTable recent : list string) : outcome net_error (option string) :=
  match tries with
  | O => Ret None
  | S tries =>
    let! ip := Random (Intn i) iprange in
    if negb (isIpUsed (addr_String ip) addrTable recent) then Ret (Some (addr_String ip))
    else random_tries Intn tries (S i) iprange addrTable recent
  end.

Definition scan_fuel (iprange : IPV4AddrRange) : nat := Z.to_nat (end_ iprange - start iprange + 1).

(** The search after the candidate; the policy of the network overrides the direction
    asked for. *)
Definition search_free (Intn : nat → Z → Z) (self : SNetwork) (addrTable recent : list string)
    (allocDir : string) : outcome net_error string :=
  let iprange := getIPRange self in
  let allocDir := if negb (String.eqb (AllocPolicy self) "") &&
                     negb (String.eqb (AllocPolicy self) IPAllocationNone)
                  then AllocPolicy self else allocDir in
  if String.eqb allocDir "" || String.eqb allocDir IPAllocationStepdown
  then scan (scan_fuel iprange) iprange StepDown addrTable recent (addr_of (GuestIpEnd self))
  else
    let! r := if String.eqb allocDir IPAllocationRadnom
              then random_tries Intn 5 0 iprange addrTable recent else Ret None in
    match r with
    | Some ip => Ret ip
    | None => scan (scan_fuel iprange) iprange StepUp addrTable recent (addr_of (GuestIpStart self))
    end.

Definition getFreeIP (Intn : nat → Z → Z) (self : SNetwork) (addrTable recent : list string)
    (candidate allocDir : string) : outcome net_error string :=
  if negb (String.eqb candidate "") then
    match NewIPV4Addr candidate with
    | Ret candIP =>
      if negb (isAddressInRange self candIP) then Fail OutOfRange
      else if negb (str_in candidate addrTable) then Ret candidate
      else search_free Intn self addrTable recent allocDir
    | _ => Fail ParseError
    end
  else search_free Intn self addrTable recent allocDir.

(** ** Reserved addresses (reservedips.go) *)

Definition with_reserved (d : db) (rips : list SReservedip) : db :=
  Db (networks d) (guestnetworks d) (groupnetworks d) (hostnetworks d) rips (loadbalancernetworks d)
    (deleted_nics d).

Definition ReserveIP (d : db) (net : SNetwork) (ip notes : string) : db :=
  with_reserved d (reservedips d ++ [Reservedip (Id net) ip notes]).

Definition is_reserved (net : SNetwork) (ip : string) (r : SReservedip) : bool :=
  String.eqb (rip_NetworkId r) (Id net) && String.eqb (rip_IpAddr r) ip.

Definition GetReservedIP (d : db) (net : SNetwork) (ip : string) : option SReservedip :=
  List.find (is_reserved net ip) (reservedips d).

(** The first row that satisfies the test is deleted. *)
Fixpoint remove_first {R} (p : R → bool) (rows : list R) : list R :=
  match rows with [] => [] | r :: rows => if p r then rows else r :: remove_first p rows end.

(** [Release] of the row that [GetReservedIP] found. *)
Definition Release (d : db) (net : SNetwork) (ip : string) : db :=
  with_reserved d (remove_first (is_reserved net ip) (reservedips d)).

Definition GetFreeIP (Intn : nat → Z → Z) (d : db) (self : SNetwork) (addrTable recent : list string)
    (candidate allocDir : string) (reserved : bool) : outcome net_error (db * string) :=
  if reserved then
    match GetReservedIP d self candidate with
    | None => Fail ReservedNotFound
    | Some _ => Ret (Release d self candidate, candidate)
    end
  else
    let! cand := getFreeIP Intn self addrTable recent candidate allocDir in
    Ret (d, cand).

(** ** Interfaces of guests (guestnetworks.go) *)

Definition is_hex (c : ascii) : bool :=
  let n := nat_of_ascii c in
  ((48 <=? n) && (n <=? 57) || (65 <=? n) && (n <=? 70) || (97 <=? n) && (n <=? 102))%nat.

(** [^([0-9a-fA-F]{2}:){5}[0-9a-fA-F]{2}$]. *)
Definition MatchMacAddr (s : string) : bool :=
  let parts := Split ":"%char s in
  (length parts =? 6)%nat &&
  forallb (λ p, (String.length p =? 2)%nat && forallb is_hex (String.list_ascii_of_string p)) parts.

(** The tries of [GenerateMac]; [random_mac] fails when the random source does. *)
Fixpoint GenerateMac (random_mac : nat → option string) (tries i : nat) (rows : list SGuestnetwork)
    (netId suggestion : string) : string :=
  match tries with
  | O => ""
  | S tries =>
    let suggested := negb (String.eqb suggestion "") && MatchMacAddr suggestion in
    match (if suggested then Some suggestion else random_mac i) with
    | None => GenerateMac random_mac tries (S i) rows netId suggestion
    | Some mac =>
      if (length (filter (λ r, gn_MacAddr r = mac ∧ (netId = "" ∨ gn_NetworkId r = netId)) rows) =? 0)%nat
      then mac
      else GenerateMac random_mac tries (S i) rows netId (if suggested then "" else suggestion)
    end
  end.

Definition word_char (c : ascii) : bool :=
  let n := nat_of_ascii c in
  ((48 <=? n) && (n <=? 57) || (65 <=? n) && (n <=? 90) || (97 <=? n) && (n <=? 122) || (n =? 95))%nat.

Fixpoint keep_word (s : string) : string :=
  match s with
  | EmptyString => ""
  | String c s => if word_char c then String c (keep_word s) else keep_word s
  end.

(** [hex[:3]] of the digest of the guest, the network and, if randomised, the time. *)
Definition getVirtualRand (md5 : string → string) (self : SGuestnetwork) (time : option Z) : string :=
  String.substring 0 3
    (md5 (GuestId self +:+ gn_NetworkId self +:+ match time with Some t => pretty t | None => "" end)).

Definition generateIfname (md5 : string → string) (self : SGuestnetwork) (network : SNetwork)
    (virtual : bool) (time : option Z) : string :=
  let nName := String.substring 0 9 (keep_word (Name network)) in
  if virtual then nName +:+ "-" +:+ getVirtualRand md5 self time
  else nName +:+ "-" +:+ pretty (CliAddr (addr_of (gn_IpAddr self)) (GuestIpMask network)).

(** The loop that draws names until one is free; [unix i] is the time of the [i]-th try. *)
Fixpoint ifname_loop (fuel : nat) (md5 : string → string) (unix : nat → Z) (i : nat) (self : SGuestnetwork)
    (network : SNetwork) (ifTable : list string) (ifname : string) : outcome net_error string :=
  if negb (str_in ifname ifTable) then Ret ifname
  else match fuel with
       | O => OutOfFuel
       | S fuel =>
         ifname_loop fuel md5 unix (S i) self network ifTable
           (generateIfname md5 self network true (Some (unix i)))
       end.

Definition GetFreeIfname (fuel : nat) (md5 : string → string) (unix : nat → Z) (self : SGuestnetwork)
    (network : SNetwork) (ifTable : list string) : outcome net_error string :=
  let ifname := generateIfname md5 self network (Virtual self) None in
  if str_in ifname ifTable then
    ifname_loop fuel md5 unix 0 self network ifTable
      (if Virtual self then ifname else generateIfname md5 self network true None)
  else Ret ifname.

Definition getAllocTimoutDuration (minimal : Z) (net : SNetwork) : Z :=
  (if AllocTimoutSeconds net <? minimal then minimal else AllocTimoutSeconds net) * 1000000000.

Definition getRecentlyReleasedIPAddresses (d : db) (networkId : string) (recentDuration now : Z)
  : list string :=
  if recentDuration =? 0 then []
  else (λ r, r.1.2) <$> filter (λ r, r.1.1 = networkId ∧ now - recentDuration < r.2) (deleted_nics d).

Definition with_guests (d : db) (gns : list SGuestnetwork) : db :=
  Db (networks d) gns (groupnetworks d) (hostnetworks d) (reservedips d) (loadbalancernetworks d)
    (deleted_nics d).

(** What the environment provides to an allocation: random numbers and addresses, the
    digest, the clock, the setting of the reuse interval, and whether the query of the
    used addresses succeeds. *)
Record env := Env {
  Intn : nat → Z → Z;
  random_mac : nat → option string;
  md5 : string → string;
  unix : nat → Z;
  now : Z;
  minimal_reuse : Z;
  query_ok : bool;
  if_fuel : nat }.

Definition newGuestNetwork (e : env) (d : db) (guestId : string) (network : SNetwork) (index : Z)
    (address mac driver : string) (bwLimit : Z) (virtual reserved : bool) (allocDir : string)
    (requiredDesignatedIp : bool) (ifName teamWithMac : string) : outcome net_error (db * SGuestnetwork) :=
  let driver := if String.eqb driver "" then "virtio" else driver in
  let bw := if 0 <=? bwLimit then bwLimit else 0 in
  let macAddr := GenerateMac (random_mac e) 10 0 (guestnetworks d) (Id network) mac in
  if String.eqb macAddr "" then Fail MacGenerateFails
  else
    let! (d, ipAddr) :=
      if virtual then Ret (d, "")
      else
        let addrTable := GetUsedAddresses (query_ok e) d network in
        let recent := getRecentlyReleasedIPAddresses d (Id network)
                        (getAllocTimoutDuration (minimal_reuse e) network) (now e) in
        let! (d, ipAddr) := GetFreeIP (Intn e) d network addrTable recent address allocDir reserved in
        if negb (String.eqb address "") && negb (String.eqb ipAddr address) && requiredDesignatedIp
        then Fail CandidateOccupied else Ret (d, ipAddr) in
    let gn := Guestnetwork guestId (Id network) index virtual driver bw macAddr ipAddr "" "" in
    let ifTable := Ifname <$> rows_of (Id network) (guestnetworks d) in
    let ifName := if str_in ifName ifTable then "" else ifName in
    let! ifName := if String.eqb ifName "" then GetFreeIfname (if_fuel e) (md5 e) (unix e) gn network ifTable
                   else Ret ifName in
    let gn := Guestnetwork guestId (Id network) index virtual driver bw macAddr ipAddr ifName teamWithMac in
    Ret (with_guests d (guestnetworks d ++ [gn]), gn).

(** [DeleteGuestNics]: every row is deleted and, if asked, its address reserved. *)
Definition same_nic (g r : SGuestnetwork) : bool :=
  String.eqb (GuestId r) (GuestId g) && String.eqb (gn_NetworkId r) (gn_NetworkId g) &&
  String.eqb (gn_MacAddr r) (gn_MacAddr g) && String.eqb (gn_IpAddr r) (gn_IpAddr g).

Definition GetNetwork (d : db) (id : string) : option SNetwork :=
  List.find (λ n, String.eqb (Id n) id) (networks d).

Section Delete.

Variable MatchIP4Addr : string → bool.

(** A row whose network is gone panics when its address is taken from the DNS. *)
Fixpoint DeleteGuestNics (now : Z) (d : db) (gns : list SGuestnetwork) (reserve : bool)
  : outcome net_error db :=
  match gns with
  | [] => Ret d
  | gn :: gns =>
    let net := GetNetwork d (gn_NetworkId gn) in
    let! _ := if MatchIP4Addr (gn_IpAddr gn) then (let! _ := of_opt net in Ret tt) else Ret tt in
    let d := Db (networks d) (remove_first (same_nic gn) (guestnetworks d)) (groupnetworks d)
               (hostnetworks d) (reservedips d) (loadbalancernetworks d)
               (deleted_nics d ++ [(gn_NetworkId gn, gn_IpAddr gn, now)]) in
    let! d := if reserve && MatchIP4Addr (gn_IpAddr gn) then
                let! net := of_opt net in
                Ret (ReserveIP d net (gn_IpAddr gn) "Delete to reserve")
              else Ret d in
    DeleteGuestNics now d gns reserve
  end.

(** ** Interfaces of hosts (hosts.go, hostnetworks.go) *)

Definition with_hosts (d : db) (hns : list SHostnetwork) : db :=
  Db (networks d) (guestnetworks d) (groupnetworks d) hns (reservedips d) (loadbalancernetworks d)
    (deleted_nics d).

Definition Attach2Network (e : env) (d : db) (hostId mac : string) (net : SNetwork)
    (ipAddr allocDir : string) (reserved requireDesignatedIp : bool) : outcome net_error db :=
  let usedAddr := GetUsedAddresses (query_ok e) d net in
  let! (d, freeIp) := GetFreeIP (Intn e) d net usedAddr [] ipAddr allocDir reserved in
  if negb (String.eqb ipAddr "") && negb (String.eqb ipAddr freeIp) && requireDesignatedIp
  then Fail CandidateOccupied
  else Ret (with_hosts d (hostnetworks d ++ [Hostnetwork hostId (Id net) freeIp mac])).

Definition same_host_nic (h r : SHostnetwork) : bool :=
  String.eqb (BaremetalId r) (BaremetalId h) && String.eqb (hn_NetworkId r) (hn_NetworkId h) &&
  String.eqb (hn_MacAddr r) (hn_MacAddr h) && String.eqb (hn_IpAddr r) (hn_IpAddr h).

Definition DeleteBaremetalnetwork (d : db) (bn : SHostnetwork) (reserve : bool) : db :=
  let net := GetNetwork d (hn_NetworkId bn) in
  let d := with_hosts d (remove_first (same_host_nic bn) (hostnetworks d)) in
  match net with
  | Some net =>
    if reserve && negb (String.eqb (hn_IpAddr bn) "") && MatchIP4Addr (hn_IpAddr bn)
    then ReserveIP d net (hn_IpAddr bn) "Delete baremetalnetwork to reserve" else d
  | None => d
  end.

End Delete.

(** ** Load balancers (loadbalancernetworks.go) *)

Definition with_lbs (d : db) (lns : list SLoadbalancerNetwork) : db :=
  Db (networks d) (guestnetworks d) (groupnetworks d) (hostnetworks d) (reservedips d) lns
    (deleted_nics d).

Definition NewLoadbalancerNetwork (e : env) (d : db) (lbId networkId address strategy : string)
    (reserved : bool) : outcome net_error db :=
  match GetNetwork d networkId with
  | None => Fail MissingParameter
  | Some network =>
    let usedMap := GetUsedAddresses (query_ok e) d network in
    let! (d, ipAddr) := GetFreeIP (Intn e) d network usedMap [] address strategy reserved in
    Ret (with_lbs d (loadbalancernetworks d ++ [LoadbalancerNetwork lbId (Id network) ipAddr]))
  end.

(** [DeleteLoadbalancerNetwork]: the rows of a load balancer are deleted one by one.  To
    reserve the address of a row its network is looked up in the table of the row itself, where it
    is not found: [ReserveIP] then dereferences nil. *)
Fixpoint delete_lb_rows (MatchIP4Addr : string → bool) (reserve : bool) (lns : list SLoadbalancerNetwork)
    (d : db) : outcome net_error db :=
  match lns with
  | [] => Ret d
  | ln :: lns =>
    let d := with_lbs d (remove_first (λ r, String.eqb (LoadbalancerId r) (LoadbalancerId ln) &&
                           String.eqb (lb_NetworkId r) (lb_NetworkId ln) &&
                           String.eqb (lb_IpAddr r) (lb_IpAddr ln)) (loadbalancernetworks d)) in
    if reserve && MatchIP4Addr (lb_IpAddr ln) then Panic
    else delete_lb_rows MatchIP4Addr reserve lns d
  end.

Definition DeleteLoadbalancerNetwork (MatchIP4Addr : string → bool) (d : db) (lbId : string) (reserve : bool)
  : outcome net_error db :=
  delete_lb_rows MatchIP4Addr reserve (filter (λ r, LoadbalancerId r = lbId) (loadbalancernetworks d)) d.

(** ** Requests on a network *)

(** A network is deleted when no interface with an address, reservation or load balancer
    is left on it; [base] is the condition of every shared resource. *)
Definition ValidateDeleteCondition (base : bool) (d : db) (self : SNetwork) : outcome net_error unit :=
  if 0 <? GetTotalNicCount d self then Fail NotEmpty
  else if base then Ret tt else Fail InvalidStatus.

Definition RealDelete (d : db) (self : SNetwork) : db :=
  Db (filter (λ n, Id n ≠ Id self) (networks d)) (guestnetworks d) (groupnetworks d) (hostnetworks d)
    (reservedips d) (loadbalancernetworks d) (deleted_nics d).

(** [provider_enabled] tells that the cloud network has an enabled provider. *)
Definition PerformPurge (base provider_enabled : bool) (d : db) (self : SNetwork) : outcome net_error db :=
  let! _ := ValidateDeleteCondition base d self in
  if provider_enabled then Fail InvalidStatus else Ret (RealDelete d self).

(** [PerformReserveIp]: the addresses are reserved one by one, and those before an error
    stay reserved. *)
Fixpoint reserve_loop (d : db) (self : SNetwork) (notes : string) (ips : list string)
  : db * option net_error :=
  match ips with
  | [] => (d, None)
  | ipstr :: ips =>
    match NewIPV4Addr ipstr with
    | Ret ipAddr =>
      if negb (isAddressInRange self ipAddr) then (d, Some OutOfRange)
      else if isAddressUsed d self ipstr then (d, Some AddressUsed)
      else reserve_loop (ReserveIP d self ipstr notes) self notes ips
    | _ => (d, Some ParseError)
    end
  end.

Definition PerformReserveIp (d : db) (self : SNetwork) (ips : option (list string)) (ip notes : option string)
  : db * option net_error :=
  match (match ips with Some ips => Some ips | None => (λ ip, [ip]) <$> ip end), notes with
  | Some ips, Some notes => reserve_loop d self notes ips
  | _, _ => (d, Some MissingParameter)
  end.

Definition PerformReleaseReservedIp (d : db) (self : SNetwork) (ipstr : string) : outcome net_error db :=
  if String.eqb ipstr "" then Fail MissingParameter
  else match GetReservedIP d self ipstr with
       | None => Fail NotReserved
       | Some _ => Ret (Release d self ipstr)
       end.

(** Rows of one network whose address is in a range, moved to another network. *)
Definition move_rows {R} `{AddrRow R} (from to : string) (range : SNetwork) (rows : list R) : list R :=
  (λ r, if String.eqb (row_net r) from && isAddressInRange range (addr_of (row_ip r))
        then set_net to r else r) <$> rows.

Definition set_range (net : SNetwork) (ip_start ip_end : string) : SNetwork :=
  Network (Id net) (Name net) ip_start ip_end (GuestIpMask net) (GuestGateway net) (GuestDns net)
    (GuestDhcp net) (GuestDomain net) (VlanId net) (WireId net) (ServerType net) (IsPublic net)
    (Status net) (ProjectId net) (IsSystem net) (Description net) (ExternalId net) (AllocPolicy net)
    (AllocTimoutSeconds net).

Definition update_range (id ip_start ip_end : string) (nets : list SNetwork) : list SNetwork :=
  (λ n, if String.eqb (Id n) id then set_range n ip_start ip_end else n) <$> nets.

(** The rows that a split would move. *)
Definition to_move {R} `{AddrRow R} (from : string) (range : SNetwork) (rows : list R) : bool :=
  existsb (λ r, String.eqb (row_net r) from && isAddressInRange range (addr_of (row_ip r))) rows.

(** [PerformSplit], with the name and the identifier of the new network, and the database
    it leaves.  The tables of guests, hosts, reservations and groups are then searched for addresses to
    move.  Their rows are read with [All], which sets no model manager: the update of the first row to move calls a
    method of a nil manager and panics, after the networks have been changed. *)
Definition PerformSplit (MatchIPAddr : string → bool) (d : db) (self : SNetwork) (splitIp name new_id : string)
  : db * outcome net_error unit :=
  if negb (MatchIPAddr splitIp) then (d, Fail ParseError)
  else if String.eqb splitIp (GuestIpStart self) then (d, Fail SplitAtStart)
  else
    match NewIPV4Addr splitIp with
    | Ret iSplitIp =>
      if negb (isAddressInRange self iSplitIp) then (d, Fail OutOfRange)
      else
        let network :=
          Network new_id name splitIp (GuestIpEnd self) (GuestIpMask self) (GuestGateway self)
            (GuestDns self) (GuestDhcp self) (GuestDomain self) (VlanId self) (WireId self)
            (ServerType self) (IsPublic self) (Status self) (ProjectId self) (IsSystem self)
            (Description self) "" "" 0 in
        let nets := update_range (Id self) (GuestIpStart self) (addr_String (StepDown iSplitIp))
                      (networks d) ++ [network] in
        let d' := Db nets (guestnetworks d) (groupnetworks d) (hostnetworks d) (reservedips d)
                    (loadbalancernetworks d) (deleted_nics d) in
        (d', if to_move (Id self) network (guestnetworks d) || to_move (Id self) network (hostnetworks d) ||
                to_move (Id self) network (reservedips d) || to_move (Id self) network (groupnetworks d)
             then Panic else Ret tt)
    | _ => (d, Fail ParseError)
    end.

(** [PerformMerge] of a network into the adjacent network [net]. *)
Definition PerformMerge (d : db) (self net : SNetwork) : outcome net_error db :=
  if negb (String.eqb (WireId self) (WireId net)) || negb (String.eqb (GuestGateway self) (GuestGateway net))
  then Fail TargetMismatch
  else
    let ipNE := addr_of (GuestIpEnd net) in
    let ipNS := addr_of (GuestIpStart net) in
    let ipSS := addr_of (GuestIpStart self) in
    let ipSE := addr_of (GuestIpEnd self) in
    let! (startIp, endIp) :=
      if StepUp ipNE =? ipSS then Ret (GuestIpStart net, GuestIpEnd self)
      else if StepUp ipSE =? ipNS then Ret (GuestIpStart self, GuestIpEnd net)
      else Fail Incontinuity in
    let nets := filter (λ n, Id n ≠ Id self) (update_range (Id net) startIp endIp (networks d)) in
    Ret (Db nets (move_rows (Id self) (Id net) self (guestnetworks d))
           (move_rows (Id self) (Id net) self (groupnetworks d))
           (move_rows (Id self) (Id net) self (hostnetworks d))
           (move_rows (Id self) (Id net) self (reservedips d))
           (loadbalancernetworks d) (deleted_nics d)).

(** ** Ranges of networks *)

Definition getAllNetworks (d : db) (excludeId : string) : list SNetwork :=
  if String.eqb excludeId "" then networks d else filter (λ n, Id n ≠ excludeId) (networks d).

Definition isOverlapNetworks (nets : list SNetwork) (startIp endIp : Z) : bool :=
  let ipRange := NewIPV4AddrRange startIp endIp in
  existsb (λ n, IsOverlap (getIPRange n) ipRange) nets.

Definition isValidMaskLen (maskLen : Z) : bool := negb ((maskLen <? 12) || (30 <? maskLen)).

(** ** Creating and updating a network *)

(** The parameters of a request; an absent string is empty. *)
Record create_data := CreateData {
  guest_ip_prefix : string;
  guest_ip_start : string;
  guest_ip_end : string;
  guest_ip_mask : Z;
  guest_gateway : string;
  guest_dns : string;
  guest_dhcp : string;
  wire : string;
  zone : string;
  vpc : string;
  server_type : string }.

Record SVpc := Vpc { VpcStatus : string; CidrBlock : string }.

(** What is looked up in other tables: wires, zones and networks of clouds by name, the
    provider of the region of a zone, the wires of a cloud network, and the cloud network of a wire. *)
Inductive fetched (A : Type) := Found (a : A) | NoRows | QueryError.
Arguments Found {A} a.
Arguments NoRows {A}.
Arguments QueryError {A}.

Record lookups := Lookups {
  fetch_wire : string → fetched string;
  fetch_zone : string → fetched string;
  fetch_vpc : string → fetched string;
  zone_provider : string → option string;
  wires_of : string → option string → fetched (list string);
  wire_vpc : string → option (option SVpc) }.

Definition fetch_or {A} (f : fetched A) : outcome net_error A :=
  match f with Found a => Ret a | NoRows => Fail NotFound | QueryError => Fail InternalError end.

(** Addresses and mask length of a new network. *)
Definition create_range (MatchIP4Addr : string → bool) (data : create_data) : outcome net_error (Z * Z * Z) :=
  if negb (String.eqb (guest_ip_prefix data) "") then
    match NewIPV4Prefix MatchIP4Addr (guest_ip_prefix data) with
    | Ret prefix =>
      let iprange := ToIPRange prefix in
      Ret (StepUp (start iprange), StepDown (end_ iprange), MaskLen prefix)
    | _ => Fail (InvalidIp "guest_ip_prefix")
    end
  else
    match NewIPV4Addr (guest_ip_start data), NewIPV4Addr (guest_ip_end data) with
    | Ret startIp, Ret endIp =>
      if endIp <? startIp then Ret (endIp, startIp, guest_ip_mask data)
      else Ret (startIp, endIp, guest_ip_mask data)
    | Ret _, _ => Fail (InvalidIp "guest_ip_end")
    | _, _ => Fail (InvalidIp "guest_ip_start")
    end.

(** The wire of a new network: given, or the only one of the zone and cloud network. *)
Definition choose_wire (l : lookups) (data : create_data) : outcome net_error string :=
  if negb (String.eqb (wire data) "") then fetch_or (fetch_wire l (wire data))
  else if String.eqb (zone data) "" then Fail MissingParameter
  else if String.eqb (vpc data) "" then Fail MissingParameter
  else
    let! z := fetch_or (fetch_zone l (zone data)) in
    let! v := fetch_or (fetch_vpc l (vpc data)) in
    let! provider := match zone_provider l z with Some p => Ret p | None => Fail InternalError end in
    let! wires := fetch_or (wires_of l v (if String.eqb provider "Huawei" then None else Some z)) in
    match wires with
    | [] => Fail NotFound
    | [w] => Ret w
    | _ => Fail Conflict
    end.

Definition getIPRange_vpc (MatchIP4Addr : string → bool) (v : SVpc) : IPV4AddrRange :=
  if String.eqb (CidrBlock v) "" then ToIPRange (MkPrefix 0 0)
  else match NewIPV4Prefix MatchIP4Addr (CidrBlock v) with
       | Ret prefix => ToIPRange prefix
       | _ => ToIPRange (MkPrefix 0 0)
       end.

Definition NETWORK_TYPE_GUEST : string := "guest".
Definition ALL_NETWORK_TYPES : list string := ["guest"; "baremetal"; "container"; "pxe"; "ipmi"].

(** [ValidateCreateData]: the addresses, the mask length, the wire and the type of the new
    network. *)
Definition ValidateCreateData (MatchIP4Addr MatchIPAddr : string → bool) (l : lookups) (d : db)
    (data : create_data) : outcome net_error (string * string * Z * string * string) :=
  let! (startIp, endIp, maskLen) := create_range MatchIP4Addr data in
  if negb (isValidMaskLen maskLen) then Fail InvalidMaskLen
  else
    let bad := List.find (λ kv, negb (String.eqb kv.2 "") && negb (MatchIPAddr kv.2))
                 [("guest_gateway", guest_gateway data); ("guest_dns", guest_dns data);
                  ("guest_dhcp", guest_dhcp data)] in
    match bad with
    | Some (key, _) => Fail (InvalidIp key)
    | None =>
      if isOverlapNetworks (getAllNetworks d "") startIp endIp then Fail Conflict
      else
        let! wireId := choose_wire l data in
        if String.eqb wireId "" then Fail MissingParameter
        else match wire_vpc l wireId with
             | None => Fail NotFound
             | Some None => Fail MissingParameter
             | Some (Some v) =>
               if negb (String.eqb (VpcStatus v) "available") then Fail NotReady
               else if negb (ContainsRange (getIPRange_vpc MatchIP4Addr v) (NewIPV4AddrRange startIp endIp))
                    then Fail NotInVpc
                    else
                      let server_type := if String.eqb (server_type data) "" then NETWORK_TYPE_GUEST
                                         else server_type data in
                      if negb (str_in server_type ALL_NETWORK_TYPES) then Fail InvalidServerType
                      else Ret (addr_String startIp, addr_String endIp, maskLen, wireId, server_type)
             end
    end.

(** The range part of [ValidateUpdateData]: the new start and end, unless neither is
    given. *)
Definition update_addrs (query_ok : bool) (MatchIP4Addr : string → bool) (d : db) (self : SNetwork)
    (v : SVpc) (ipStartStr ipEndStr : string) : outcome net_error (option (string * string)) :=
  if String.eqb ipStartStr "" && String.eqb ipEndStr "" then Ret None
  else if negb (String.eqb (ExternalId self) "") then Fail ManagedNetwork
  else
    let! startIp := if String.eqb ipStartStr "" then Ret (addr_of (GuestIpStart self))
                    else match NewIPV4Addr ipStartStr with Ret a => Ret a | _ => Fail (InvalidIp "guest_ip_start") end in
    let! endIp := if String.eqb ipEndStr "" then Ret (addr_of (GuestIpEnd self))
                  else match NewIPV4Addr ipEndStr with Ret a => Ret a | _ => Fail (InvalidIp "guest_ip_end") end in
    let (startIp, endIp) := if endIp <? startIp then (endIp, startIp) else (startIp, endIp) in
    if isOverlapNetworks (getAllNetworks d (Id self)) startIp endIp then Fail Conflict
    else if negb (ContainsRange (getIPRange_vpc MatchIP4Addr v) (NewIPV4AddrRange startIp endIp)) then Fail NotInVpc
    else if existsb (λ ip, negb (Contains (NewIPV4AddrRange startIp endIp) (addr_of ip)))
              (GetUsedAddresses query_ok d self) then Fail AddressOutOfNewRange
    else Ret (Some (addr_String startIp, addr_String endIp)).

End Networks.
