(* ===== verification/NetworkAlloc.v ===== *)
(** * Free addresses: proofs about the allocation of networks.go

    What [getFreeIP] returns under every policy, that it terminates, and when it
    panics. *)

From S2P Require Import Prelude Netutils Networks.
Import Netutils Networks.
Local Open Scope Z_scope.
Local Open Scope go_scope.

Module NetworkAlloc.

(** ** Ranges *)

Definition addr32 (a : Z) : Prop := 0 ≤ a < 4294967296.

Definition lo (net : SNetwork) : Z := addr_of (GuestIpStart net).
Definition hi (net : SNetwork) : Z := addr_of (GuestIpEnd net).

(** A network whose range is given in order and is not the whole address space. *)
Definition ranged (net : SNetwork) : Prop := lo net ≤ hi net ∧ hi net - lo net < 4294967295.

Lemma ranged_range net : ranged net → getIPRange net = MkRange (lo net) (hi net).
Proof.
  intros [Hle _]. unfold getIPRange, NewIPV4AddrRange. fold (lo net) (hi net).
  destruct (Z.ltb_spec (lo net) (hi net)); [done|]. f_equal; lia.
Qed.

Lemma lo_32 net : addr32 (lo net). Proof. apply addr_of_range. Qed.
Lemma hi_32 net : addr32 (hi net). Proof. apply addr_of_range. Qed.

Lemma in_range_iff net a : ranged net → isAddressInRange net a = true ↔ lo net ≤ a ≤ hi net.
Proof.
  intros Hr. unfold isAddressInRange. rewrite ranged_range by done. unfold Contains. cbn [start end_].
  rewrite andb_true_iff, !Z.leb_le. done.
Qed.

Lemma str_in_iff s l : str_in s l = true ↔ s ∈ l.
Proof.
  unfold str_in. rewrite existsb_exists. setoid_rewrite String.eqb_eq.
  rewrite list_elem_of_In. naive_solver.
Qed.

Lemma str_in_false s l : str_in s l = false ↔ s ∉ l.
Proof. rewrite <- str_in_iff. by destruct (str_in s l). Qed.

(** An address is free when neither table has it. *)
Definition taken (used recent : list string) (a : Z) : Prop := addr_String a ∈ used ∨ addr_String a ∈ recent.

Lemma isIpUsed_iff used recent a : isIpUsed (addr_String a) used recent = true ↔ taken used recent a.
Proof. unfold isIpUsed, taken. by rewrite orb_true_iff, !str_in_iff. Qed.

(** ** Scanning *)

Section Scan.

Context (range : IPV4AddrRange) (used recent : list string) (dir : Z).
Hypothesis Hdir : dir = 1 ∨ dir = -1.
Hypothesis Hlo : addr32 (start range).
Hypothesis Hhi : addr32 (end_ range).
Hypothesis Hfull : end_ range - start range < 4294967295.

(** The number of addresses from [ip] to the end of the range in the direction. *)
Definition left_to_go (ip : Z) : Z := if dir =? 1 then end_ range - ip else ip - start range.

Lemma scan_spec fuel : ∀ ip, start range ≤ ip ≤ end_ range → left_to_go ip < Z.of_nat fuel →
  match scan fuel range (λ a, uint_wrap 32 (a + dir)) used recent ip with
  | Ret s => ∃ k, 0 ≤ k ≤ left_to_go ip ∧ s = addr_String (ip + dir * k) ∧
      ¬ taken used recent (ip + dir * k) ∧ (∀ k', 0 ≤ k' < k → taken used recent (ip + dir * k'))
  | Fail e => e = OutOfIpAddress ∧ ∀ k, 0 ≤ k ≤ left_to_go ip → taken used recent (ip + dir * k)
  | _ => False
  end.
Proof.
  induction fuel as [|fuel IH]; intros ip Hip Hf; [unfold left_to_go in Hf; destruct (dir =? 1); lia|].
  cbn [scan]. assert (Contains range ip = true) as -> by (unfold Contains; rewrite andb_true_iff, !Z.leb_le; done).
  cbn [negb]. destruct (isIpUsed (addr_String ip) used recent) eqn:Hu; cbn [negb]; cycle 1.
  { exists 0. assert (0 ≤ left_to_go ip) by (unfold left_to_go; destruct (dir =? 1); lia).
    replace (ip + dir * 0) with ip by lia. split_and!; [lia|lia|done| |lia].
    rewrite <- isIpUsed_iff. by rewrite Hu. }
  apply isIpUsed_iff in Hu. unfold addr32 in *.
  destruct (decide (left_to_go ip = 0)) as [Hz|Hz].
  - assert (Contains range (uint_wrap 32 (ip + dir)) = false) as Hc.
    { unfold left_to_go in Hz. unfold Contains, uint_wrap. change (2 ^ 32) with 4294967296.
      apply andb_false_iff. rewrite !Z.leb_gt. destruct Hdir as [-> | ->]; cbn in Hz.
      - destruct (decide (ip = 4294967295)) as [->|]; [left; replace ((4294967295 + 1) mod 4294967296) with 0 by done; lia|].
        right. rewrite Z.mod_small by lia. lia.
      - destruct (decide (ip = 0)) as [->|]; [right; replace ((0 + -1) mod 4294967296) with 4294967295 by done; lia|]. left. rewrite Z.mod_small by lia. lia. }
    destruct fuel; cbn [scan]; rewrite Hc; cbn [negb]; split; try done; intros k Hk;
      (replace (ip + dir * k) with ip by nia; done).
  - assert (uint_wrap 32 (ip + dir) = ip + dir) as ->.
    { unfold uint_wrap. change (2 ^ 32) with 4294967296. apply Z.mod_small. unfold left_to_go in Hz.
      destruct Hdir as [-> | ->]; cbn in Hz; lia. }
    assert (left_to_go (ip + dir) = left_to_go ip - 1) as Hl
      by (unfold left_to_go; destruct Hdir as [-> | ->]; cbn; lia).
    assert (start range ≤ ip + dir ≤ end_ range) as Hip'
      by (unfold left_to_go in *; destruct Hdir as [-> | ->]; cbn in *; lia).
    specialize (IH (ip + dir) Hip'). rewrite Hl in IH.
    assert (∀ k, ip + dir + dir * k = ip + dir * (k + 1)) as Hk by (intros; lia).
    assert (0 ≤ left_to_go ip) by (unfold left_to_go; destruct (dir =? 1); lia).
    destruct (scan _ _ _ _ _ (ip + dir)) as [s|err| |]; [| |apply IH; lia..].
    + destruct IH as (k & Hk0 & -> & Hn & Hall); [lia|]. exists (k + 1). rewrite <- Hk. split_and!; [lia|lia|done|done|].
      intros k' Hk'. destruct (decide (k' = 0)) as [->|]; [by replace (ip + dir * 0) with ip by lia|].
      replace (ip + dir * k') with (ip + dir + dir * (k' - 1)) by lia. apply Hall. lia.
    + destruct IH as [-> Hall]; [lia|]. split; [done|]. intros k Hk0.
      destruct (decide (k = 0)) as [->|]; [by replace (ip + dir * 0) with ip by lia|].
      replace (ip + dir * k) with (ip + dir + dir * (k - 1)) by lia. apply Hall. lia.
Qed.

End Scan.

(** ** The policies *)

(** The direction that is used in the end. *)
Definition policy (net : SNetwork) (allocDir : string) : string :=
  if negb (String.eqb (AllocPolicy net) "") && negb (String.eqb (AllocPolicy net) IPAllocationNone)
  then AllocPolicy net else allocDir.

Definition steps_down (p : string) : bool := String.eqb p "" || String.eqb p IPAllocationStepdown.

(** The address is the first free one in the direction of the policy. *)
Definition first_free (net : SNetwork) (used recent : list string) (p : string) (a : Z) : Prop :=
  if steps_down p then ∀ b, a < b ≤ hi net → taken used recent b
  else if String.eqb p IPAllocationRadnom then True
  else ∀ b, lo net ≤ b < a → taken used recent b.

Lemma random_tries_spec Intn net used recent tries : ∀ i,
  ranged net → lo net < hi net → (∀ i n, 0 < n → 0 ≤ Intn i n < n) →
  match random_tries Intn tries i (getIPRange net) used recent with
  | Ret (Some s) => ∃ a, s = addr_String a ∧ lo net ≤ a ≤ hi net ∧ ¬ taken used recent a
  | Ret None => True
  | _ => False
  end.
Proof.
  induction tries as [|tries IH]; intros i Hr Hlt Hn; [done|]. cbn [random_tries].
  rewrite ranged_range by done. unfold Random. cbn [start end_].
  pose proof (lo_32 net) as Hlo. pose proof (hi_32 net) as Hhi. unfold addr32 in *.
  unfold uint_wrap. change (2 ^ 32) with 4294967296. cbv zeta.
  rewrite (Z.mod_small (hi net - lo net)) by lia. destruct (Z.leb_spec (hi net - lo net) 0); [lia|].
  cbn [obind]. pose proof (Hn i (hi net - lo net) ltac:(lia)).
  rewrite Z.mod_small by lia.
  destruct (isIpUsed _ _ _) eqn:Hu; cbn [negb].
  - specialize (IH (S i) Hr Hlt Hn). by rewrite ranged_range in IH.
  - eexists. split_and!; [done|lia|lia|]. rewrite <- isIpUsed_iff. by rewrite Hu.
Qed.

Lemma search_free_spec Intn net used recent allocDir :
  ranged net → (∀ i n, 0 < n → 0 ≤ Intn i n < n) →
  (policy net allocDir = IPAllocationRadnom → lo net < hi net) →
  match search_free Intn net used recent allocDir with
  | Ret s => ∃ a, s = addr_String a ∧ lo net ≤ a ≤ hi net ∧ ¬ taken used recent a ∧
      first_free net used recent (policy net allocDir) a
  | Fail e => e = OutOfIpAddress ∧ ∀ a, lo net ≤ a ≤ hi net → taken used recent a
  | _ => False
  end.
Proof.
  intros Hr Hn Hrand. unfold search_free. fold (policy net allocDir). set (p := policy net allocDir) in *.
  pose proof (lo_32 net) as Hlo. pose proof (hi_32 net) as Hhi. unfold first_free, steps_down.
  rewrite ranged_range by done. unfold scan_fuel. cbn [start end_]. fold (lo net) (hi net).
  destruct Hr as [Hle Hfull].
  destruct (String.eqb p "" || String.eqb p IPAllocationStepdown) eqn:Ed.
  - pose proof (scan_spec (MkRange (lo net) (hi net)) used recent (-1) ltac:(lia) Hlo Hhi Hfull
      (Z.to_nat (hi net - lo net + 1)) (hi net)) as Hs. cbn [start end_] in Hs. unfold left_to_go in Hs. cbn in Hs.
    change (λ a, uint_wrap 32 (a + -1)) with StepDown in Hs.
    destruct (scan _ _ _ _ _ _) as [s|e| |]; [| |apply Hs; lia..].
    + destruct Hs as (k & Hk & -> & Hf & Hall); [lia|lia|]. exists (hi net + -1 * k).
      split_and!; [done|lia|lia|done|]. intros b Hb. replace b with (hi net + -1 * (hi net - b)) by lia.
      apply Hall. lia.
    + destruct Hs as [-> Hall]; [lia|lia|]. split; [done|]. intros a Ha.
      replace a with (hi net + -1 * (hi net - a)) by lia. apply Hall. lia.
  - assert (match (if String.eqb p IPAllocationRadnom
       then random_tries Intn 5 0 (MkRange (lo net) (hi net)) used recent else Ret None) with
      | Ret (Some s) => String.eqb p IPAllocationRadnom = true ∧
          ∃ a, s = addr_String a ∧ lo net ≤ a ≤ hi net ∧ ¬ taken used recent a
      | Ret None => True
      | _ => False end) as Ht.
    { destruct (String.eqb_spec p IPAllocationRadnom) as [Ep|]; [|done].
      pose proof (random_tries_spec Intn net used recent 5 0 (conj Hle Hfull) (Hrand Ep) Hn) as Ht.
      rewrite ranged_range in Ht by done. by destruct (random_tries _ _ _ _ _ _) as [[s|]| | |]. }
    destruct (if String.eqb p IPAllocationRadnom then _ else _) as [[s|]| | |]; [| |done..]; cbn [obind].
    + destruct Ht as [-> (a & -> & Ha & Hf)]. by exists a.
    + pose proof (scan_spec (MkRange (lo net) (hi net)) used recent 1 ltac:(lia) Hlo Hhi Hfull
        (Z.to_nat (hi net - lo net + 1)) (lo net)) as Hs. cbn [start end_] in Hs. unfold left_to_go in Hs. cbn in Hs.
      change (λ a, uint_wrap 32 (a + 1)) with StepUp in Hs.
      destruct (scan _ _ _ _ _ _) as [s|e| |]; [| |apply Hs; lia..].
      * destruct Hs as (k & Hk & -> & Hf & Hall); [lia|lia|]. exists (lo net + 1 * k).
        split_and!; [done|lia|lia|done|]. destruct (String.eqb p IPAllocationRadnom); [done|].
        intros b Hb. replace b with (lo net + 1 * (b - lo net)) by lia. apply Hall. lia.
      * destruct Hs as [-> Hall]; [lia|lia|]. split; [done|]. intros a Ha.
        replace a with (lo net + 1 * (a - lo net)) by lia. apply Hall. lia.
Qed.

(** ** [getFreeIP] *)

(** The answer of [getFreeIP]: a candidate is taken as it is when it parses, lies in
    the range and is not in the table of used addresses; otherwise the address is searched
    for. *)
Definition accepted (net : SNetwork) (used : list string) (candidate : string) : Prop :=
  candidate ≠ "" ∧ (∃ c, NewIPV4Addr candidate = Ret c ∧ lo net ≤ c ≤ hi net) ∧ candidate ∉ used.

Definition refused (net : SNetwork) (candidate : string) : Prop :=
  candidate ≠ "" ∧ ∀ c, NewIPV4Addr candidate = Ret c → ¬ (lo net ≤ c ≤ hi net).

Lemma candidate_cases Intn net used recent candidate allocDir : ranged net →
  (accepted net used candidate ∧ getFreeIP Intn net used recent candidate allocDir = Ret candidate) ∨
  (refused net candidate ∧ ∃ e, getFreeIP Intn net used recent candidate allocDir = Fail e ∧
    e = match NewIPV4Addr candidate with Ret _ => OutOfRange | _ => ParseError end) ∨
  (¬ accepted net used candidate ∧ ¬ refused net candidate ∧
    getFreeIP Intn net used recent candidate allocDir = search_free Intn net used recent allocDir).
Proof.
  intros Hr. unfold getFreeIP, accepted, refused. destruct (String.eqb_spec candidate "") as [->|Hne]; cbn [negb].
  { right. right. split_and!; [|naive_solver|done]. by intros []. }
  destruct (NewIPV4Addr candidate) as [c|e| |]; [|right; left; split; [done|by eexists]..].
  destruct (isAddressInRange net c) eqn:Ei; cbn [negb].
  - apply in_range_iff in Ei; [|done]. destruct (str_in candidate used) eqn:Eu; cbn [negb].
    + apply str_in_iff in Eu. right. right. split_and!; [naive_solver|naive_solver|done].
    + apply str_in_false in Eu. left. split_and!; eauto.
  - right. left. split; [|by eexists]. split; [done|]. intros ? [= <-] H%in_range_iff; [|done]. by rewrite Ei in H.
Qed.

(** The random policy on a network with a single address: [rand.Intn(0)] panics. *)
Definition crashes (net : SNetwork) (allocDir : string) : Prop :=
  policy net allocDir = IPAllocationRadnom ∧ lo net = hi net.

Lemma search_random_single Intn net used recent allocDir :
  lo net = hi net → policy net allocDir = IPAllocationRadnom →
  search_free Intn net used recent allocDir = Panic.
Proof.
  intros Hl Hp. unfold search_free. fold (policy net allocDir). rewrite Hp.
  rewrite ranged_range by (split; lia). cbn [String.eqb Ascii.eqb Bool.eqb orb IPAllocationRadnom IPAllocationStepdown random_tries].
  unfold Random. cbn [start end_]. by rewrite Hl, Z.sub_diag.
Qed.

Lemma search_not_crashing net allocDir : ranged net → ¬ crashes net allocDir →
  policy net allocDir = IPAllocationRadnom → lo net < hi net.
Proof. intros [Hle _] Hc Hp. assert (lo net ≠ hi net) by (by intros E; apply Hc). lia. Qed.

#[export] Instance crashes_dec net allocDir : Decision (crashes net allocDir).
Proof. unfold crashes. apply _. Defined.

(** C21 Allocation of an address, on every branch, for a network with a range in order and
    a random source within bounds.  [getFreeIP] returns the candidate exactly as given when
    that parses, lies in the range and is not used; otherwise an address of the range that
    is neither used nor recently released and that is the first such in the direction of
    the policy of the network.  It fails only because of the candidate (it does not parse,
    or lies outside of the range) or because no address of the range is free.  It panics
    exactly when the candidate does not decide, the policy is random and the network has a
    single address; otherwise it always returns. *)
Theorem getFreeIP_correct Intn net used recent candidate allocDir :
  ranged net → (∀ i n, 0 < n → 0 ≤ Intn i n < n) →
  match getFreeIP Intn net used recent candidate allocDir with
  | Ret s =>
    (accepted net used candidate ∧ s = candidate) ∨
    (¬ accepted net used candidate ∧ ¬ refused net candidate ∧ ¬ crashes net allocDir ∧
     ∃ a, s = addr_String a ∧ lo net ≤ a ≤ hi net ∧ ¬ taken used recent a ∧
       first_free net used recent (policy net allocDir) a)
  | Fail e =>
    (refused net candidate ∧
     e = match NewIPV4Addr candidate with Ret _ => OutOfRange | _ => ParseError end) ∨
    (e = OutOfIpAddress ∧ ¬ accepted net used candidate ∧ ¬ refused net candidate ∧
     ¬ crashes net allocDir ∧ ∀ a, lo net ≤ a ≤ hi net → taken used recent a)
  | Panic => ¬ accepted net used candidate ∧ ¬ refused net candidate ∧ crashes net allocDir
  | OutOfFuel => False
  end.
Proof.
  intros Hr Hn.
  destruct (candidate_cases Intn net used recent candidate allocDir Hr)
    as [[Ha ->]|[(Hf & e & -> & He)|(Ha & Hf & ->)]]; [by left|by left|].
  destruct (decide (crashes net allocDir)) as [[Hp Hl]|Hc].
  { by rewrite search_random_single. }
  pose proof (search_free_spec Intn net used recent allocDir Hr Hn (search_not_crashing _ _ Hr Hc)) as Hs.
  destruct (search_free _ _ _ _ _) as [s|e| |]; [by right| |done..]. destruct Hs as [-> Hall]. by right.
Qed.

Definition sample_net : SNetwork :=
  Network "n1" "net" "10.0.0.2" "10.0.0.9" 24 "10.0.0.1" "" "" "" 1 "w1" "guest" false "available" "p1"
    false "" "" "" 0.

Lemma sample_ranged : ranged sample_net.
Proof. by vm_compute. Qed.

Lemma getFreeIP_correct_witness :
  getFreeIP (λ _ _, 0) sample_net ["10.0.0.9"] ["10.0.0.8"] "" "" = Ret "10.0.0.7" ∧
  first_free sample_net ["10.0.0.9"] ["10.0.0.8"] "" (addr_of "10.0.0.7").
Proof.
  split; [reflexivity|].
  pose proof (getFreeIP_correct (λ _ _, 0) sample_net ["10.0.0.9"] ["10.0.0.8"] "" "" sample_ranged
    ltac:(lia)) as H.
  change (getFreeIP (λ _ _, 0) sample_net ["10.0.0.9"] ["10.0.0.8"] "" "") with
    (@Ret net_error _ "10.0.0.7") in H. destruct H as [[[Hne _] _]|(_ & _ & _ & a & E & Ha & _ & Hf)]; [done|].
  assert (a = addr_of "10.0.0.7") as <-; [|done].
  rewrite E. symmetry. apply addr_of_String. pose proof (lo_32 sample_net). pose proof (hi_32 sample_net).
  unfold addr32 in *. lia.
Defined.

(** ** The random policy on one address *)

(** Whatever the policy, an address that is found is a free one of the range. *)
Lemma search_free_found Intn net used recent allocDir s :
  ranged net → (∀ i n, 0 < n → 0 ≤ Intn i n < n) →
  search_free Intn net used recent allocDir = Ret s →
  ∃ a, s = addr_String a ∧ lo net ≤ a ≤ hi net ∧ ¬ taken used recent a.
Proof.
  intros Hr Hn E. destruct (decide (policy net allocDir = IPAllocationRadnom ∧ lo net = hi net)) as [[Hp Hl]|Hd].
  - by rewrite search_random_single in E.
  - pose proof (search_free_spec Intn net used recent allocDir Hr Hn) as Hs. rewrite E in Hs.
    destruct Hs as (a & ? & ? & ? & _); [|by exists a]. intros Hp. destruct Hr as [Hle _].
    destruct (decide (lo net = hi net)); [by destruct Hd|lia].
Qed.

(** The random policy crashes on a network with a single address: [rand.Intn(0)] panics,
    whatever is used, unless a candidate decides. *)
Theorem random_single_panics Intn net used recent allocDir :
  lo net = hi net → policy net allocDir = IPAllocationRadnom →
  getFreeIP Intn net used recent "" allocDir = Panic.
Proof. intros Hl Hp. by apply search_random_single. Qed.

Lemma random_single_panics_witness :
  getFreeIP (λ _ _, 0) (Network "n1" "net" "10.0.0.2" "10.0.0.2" 24 "10.0.0.1" "" "" "" 1 "w1" "guest" false
    "available" "p1" false "" "" "random" 0) [] [] "" "" = Panic.
Proof. by apply random_single_panics. Defined.

End NetworkAlloc.
