(* ===== verification/NetworkSafety.v ===== *)
(** * No address is used twice: proofs about the tables of addresses

    The invariant of the database: the ranges of the networks are disjoint, every
    address in the five tables lies in the range of its network, and no address occurs
    twice in the system.  It is preserved by creating, splitting and merging networks, by
    allocating, reserving, releasing and deleting addresses. *)

From S2P Require Import Prelude Netutils Networks NetworkAlloc.
Import Netutils Networks NetworkAlloc.
Local Open Scope Z_scope.
Local Open Scope go_scope.

Module NetworkSafety.

(** ** Addresses of the tables *)

Definition pairs {R} `{AddrRow R} (rows : list R) : list (string * string) :=
  (λ r, (row_net r, row_ip r)) <$> rows.

Definition all_pairs (d : db) : list (string * string) :=
  pairs (guestnetworks d) ++ pairs (groupnetworks d) ++ pairs (hostnetworks d) ++
  pairs (reservedips d) ++ pairs (loadbalancernetworks d).

(** The network and the address of every row that has one. *)
Definition has_addr (p : string * string) : Prop := p.2 ≠ "".
#[export] Instance has_addr_dec p : Decision (has_addr p).
Proof. unfold has_addr. apply _. Defined.
Definition addresses (d : db) : list (string * string) := filter has_addr (all_pairs d).

(** A network with a range that is in order, written in the usual way, and below the
    limited broadcast address. *)
Definition proper (n : SNetwork) : Prop :=
  lo n ≤ hi n < 4294967295 ∧ GuestIpStart n = addr_String (lo n) ∧ Id n ≠ "".

Lemma proper_ranged n : proper n → ranged n.
Proof. intros [H _]. pose proof (lo_32 n) as Hlo. unfold addr32 in Hlo. split; lia. Qed.

Record ok (nets : list SNetwork) (addrs : list (string * string)) : Prop := Ok {
  ids_distinct : NoDup (Id <$> nets);
  nets_proper : ∀ n, n ∈ nets → proper n;
  nets_disjoint : ∀ n1 n2, n1 ∈ nets → n2 ∈ nets → Id n1 ≠ Id n2 → hi n1 < lo n2 ∨ hi n2 < lo n1;
  addrs_distinct : NoDup (addrs.*2);
  addrs_owned : ∀ p, p ∈ addrs → ∃ n a, n ∈ nets ∧ Id n = p.1 ∧ p.2 = addr_String a ∧ lo n ≤ a ≤ hi n }.

Definition db_ok (d : db) : Prop := ok (networks d) (addresses d).

#[export] Instance ok_proper nets : Proper ((≡ₚ) ==> iff) (ok nets).
Proof.
  assert (∀ l l', l ≡ₚ l' → ok nets l → ok nets l') as H.
  { intros l l' Hp [H1 H2 H3 H4 H5]. split; try done.
    - by rewrite <- Hp.
    - intros p Hin. apply H5. by rewrite Hp. }
  intros l l' Hp. split; apply H; [done|by symmetry].
Qed.

Lemma net_by_id nets addrs n1 n2 : ok nets addrs → n1 ∈ nets → n2 ∈ nets → Id n1 = Id n2 → n1 = n2.
Proof.
  intros Hok H1 H2 E. destruct Hok as [Hids _ _ _ _].
  apply list_elem_of_lookup in H1 as [i Hi], H2 as [j Hj].
  assert (i = j) as ->; [|by simplify_eq].
  apply (NoDup_lookup (Id <$> nets) i j (Id n1) Hids); rewrite list_lookup_fmap; [by rewrite Hi|by rewrite Hj, E].
Qed.

(** ** Adding and removing an address *)

Lemma ok_insert nets addrs net a : ok nets addrs → net ∈ nets → lo net ≤ a ≤ hi net →
  (Id net, addr_String a) ∉ addrs → ok nets ((Id net, addr_String a) :: addrs).
Proof.
  intros Hok Hn Ha Hnot. pose proof Hok as [H1 H2 H3 H4 H5]. split; try done.
  - apply NoDup_cons. split; [|done]. intros Hin. apply list_elem_of_fmap in Hin as ([n' ip] & E & Hin).
    cbn in E. subst ip. destruct (H5 _ Hin) as (m & b & Hm & Em & Eb & Hb). cbn in *.
    pose proof (lo_32 net). pose proof (hi_32 net). pose proof (lo_32 m). pose proof (hi_32 m). unfold addr32 in *.
    apply addr_String_inj in Eb as ->; [|lia..].
    destruct (decide (Id m = Id net)) as [E|E].
    + apply Hnot. by rewrite <- E, Em.
    + destruct (H3 m net Hm Hn E); lia.
  - intros p [->|Hp]%elem_of_cons; [|by apply H5]. by exists net, a.
Qed.

Lemma ok_submseteq nets addrs addrs' : addrs' ⊆+ addrs → ok nets addrs → ok nets addrs'.
Proof.
  intros Hs [H1 H2 H3 H4 H5]. split; try done.
  - apply submseteq_Permutation in Hs as [k Hk]. rewrite Hk, fmap_app in H4. by apply NoDup_app in H4 as [? _].
  - intros p Hp. apply H5. eapply elem_of_submseteq; [done|exact Hs].
Qed.

(** ** What the operations do to the addresses *)

Lemma pairs_app {R} `{AddrRow R} (l l' : list R) : pairs (l ++ l') = pairs l ++ pairs l'.
Proof. unfold pairs. by rewrite fmap_app. Qed.

Lemma addresses_app l1 l2 : filter has_addr (l1 ++ l2) = filter has_addr l1 ++ filter has_addr l2.
Proof. apply filter_app. Qed.

Lemma used_iff d net ip : ip ≠ "" → ip ∈ GetUsedAddresses true d net ↔ (Id net, ip) ∈ addresses d.
Proof.
  intros Hne. unfold addresses. rewrite list_elem_of_filter. unfold has_addr. cbn.
  assert (∀ {R} `{AddrRow R} (rows : list R), ip ∈ addrs_of (Id net) rows ↔ (Id net, ip) ∈ pairs rows) as Hr.
  { intros R HR rows. unfold addrs_of, rows_of, pairs. rewrite !list_elem_of_fmap. split.
    - intros (r & -> & Hr). apply list_elem_of_filter in Hr as [E Hr]. exists r. by rewrite E.
    - intros (r & E & Hr). injection E as E1 E2. exists r. split; [done|]. by apply list_elem_of_filter. }
  unfold GetUsedAddresses, all_pairs. rewrite !elem_of_app, !Hr. tauto.
Qed.

(** The addresses of one table. *)
Definition tab {R} `{AddrRow R} (rows : list R) : list (string * string) := filter has_addr (pairs rows).

Lemma addresses_eq d : addresses d =
  tab (guestnetworks d) ++ tab (groupnetworks d) ++ tab (hostnetworks d) ++ tab (reservedips d) ++
  tab (loadbalancernetworks d).
Proof. unfold addresses, all_pairs, tab. by rewrite !filter_app. Qed.

Lemma tab_cons {R} `{AddrRow R} (r : R) rows :
  tab (r :: rows) = if decide (row_ip r = "") then tab rows else (row_net r, row_ip r) :: tab rows.
Proof.
  unfold tab, pairs. rewrite fmap_cons. destruct (decide (row_ip r = "")) as [E|E].
  - rewrite filter_cons_False; [done|]. unfold has_addr. cbn. naive_solver.
  - by rewrite filter_cons_True.
Qed.

Lemma tab_snoc {R} `{AddrRow R} (rows : list R) r : row_ip r ≠ "" →
  tab (rows ++ [r]) = tab rows ++ [(row_net r, row_ip r)].
Proof.
  intros Hne. induction rows as [|x rows IH]; cbn [app]; rewrite !tab_cons, ?IH; [by rewrite decide_False|].
  by destruct (decide (row_ip x = "")).
Qed.

Lemma tab_snoc_empty {R} `{AddrRow R} (rows : list R) r : row_ip r = "" → tab (rows ++ [r]) = tab rows.
Proof.
  intros E. induction rows as [|x rows IH]; cbn [app]; rewrite !tab_cons, ?IH; [by rewrite decide_True|done].
Qed.

Lemma tab_remove {R} `{AddrRow R} (p : R → bool) (rows : list R) : tab (remove_first p rows) ⊆+ tab rows.
Proof.
  induction rows as [|r rows IH]; [done|]. cbn [remove_first]. destruct (p r); rewrite !tab_cons.
  - destruct (decide (row_ip r = "")); [done|]. by apply submseteq_cons.
  - destruct (decide (row_ip r = "")); [done|]. by apply submseteq_skip.
Qed.

Lemma remove_first_submseteq {R} (p : R → bool) (rows : list R) : remove_first p rows ⊆+ rows.
Proof.
  induction rows as [|r rows IH]; [done|]. cbn [remove_first].
  destruct (p r); [by apply submseteq_cons|by apply submseteq_skip].
Qed.

Ltac tables :=
  rewrite !addresses_eq;
  cbn [with_guests with_hosts with_lbs with_reserved Release ReserveIP guestnetworks groupnetworks hostnetworks
       reservedips loadbalancernetworks networks].

(** Move a new address to the front of the tables. *)
Ltac to_front := cbn; rewrite <- ?app_assoc; cbn; rewrite <- ?Permutation_middle, ?app_nil_r; reflexivity.

Lemma addresses_add_guest d r : gn_IpAddr r ≠ "" →
  addresses (with_guests d (guestnetworks d ++ [r])) ≡ₚ (gn_NetworkId r, gn_IpAddr r) :: addresses d.
Proof.
  intros Hne. tables.
  rewrite tab_snoc by done. to_front.
Qed.

Lemma addresses_add_host d r : hn_IpAddr r ≠ "" →
  addresses (with_hosts d (hostnetworks d ++ [r])) ≡ₚ (hn_NetworkId r, hn_IpAddr r) :: addresses d.
Proof.
  intros Hne. tables.
  rewrite tab_snoc by done. to_front.
Qed.

Lemma addresses_add_lb d r : lb_IpAddr r ≠ "" →
  addresses (with_lbs d (loadbalancernetworks d ++ [r])) ≡ₚ (lb_NetworkId r, lb_IpAddr r) :: addresses d.
Proof.
  intros Hne. tables.
  rewrite tab_snoc by done. to_front.
Qed.

Lemma addresses_reserve d net ip notes : ip ≠ "" →
  addresses (ReserveIP d net ip notes) ≡ₚ (Id net, ip) :: addresses d.
Proof.
  intros Hne. tables.
  rewrite tab_snoc by done. to_front.
Qed.

(** Releasing a reserved address takes it out. *)
Lemma addresses_release d net ip r : ip ≠ "" → GetReservedIP d net ip = Some r →
  addresses d ≡ₚ (Id net, ip) :: addresses (Release d net ip).
Proof.
  intros Hne Hf. tables.
  assert (tab (reservedips d) ≡ₚ (Id net, ip) :: tab (remove_first (is_reserved net ip) (reservedips d))) as ->; [|to_front].
  unfold GetReservedIP in Hf. induction (reservedips d) as [|x l IH]; [done|]. cbn [List.find remove_first] in Hf |- *.
  rewrite tab_cons. cbn [row_ip row_net reserved_row]. destruct (is_reserved net ip x) eqn:E.
  - unfold is_reserved in E. apply andb_prop in E as [E1%String.eqb_eq E2%String.eqb_eq].
    rewrite E1, E2. by rewrite decide_False.
  - rewrite tab_cons. cbn [row_ip row_net reserved_row]. destruct (decide (rip_IpAddr x = "")); [by apply IH|].
    rewrite IH by done. apply perm_swap.
Qed.

(** ** Allocation *)

(** A candidate written in the usual way, or none. *)
Definition plain_candidate (s : string) : Prop := s = "" ∨ ∃ c, addr32 c ∧ s = addr_String c.

(** What every allocation does: the address leaves the tables if it was reserved, and is
    then free to be inserted. *)
Lemma GetFreeIP_ok Intn d net recent candidate allocDir reserved d' ip :
  db_ok d → net ∈ networks d → plain_candidate candidate → (∀ i n, 0 < n → 0 ≤ Intn i n < n) →
  GetFreeIP Intn d net (GetUsedAddresses true d net) recent candidate allocDir reserved = Ret (d', ip) →
  networks d' = networks d ∧ guestnetworks d' = guestnetworks d ∧ db_ok d' ∧
  (ip ≠ "" → ok (networks d) ((Id net, ip) :: addresses d')).
Proof.
  intros Hok Hin Hc Hn. unfold GetFreeIP. pose proof (nets_proper _ _ Hok net Hin) as Hprop.
  destruct reserved.
  - destruct (GetReservedIP d net candidate) as [r|] eqn:Er; [|done]. intros [= <- <-].
    split; [done|]. split; [done|]. destruct (decide (candidate = "")) as [->|Hne].
    + split; [|done]. unfold db_ok. cbn [with_reserved Release networks]. eapply ok_submseteq; [|exact Hok].
      tables. repeat apply submseteq_app; try done. apply tab_remove.
    + pose proof (addresses_release d net candidate r Hne Er) as Hp. unfold db_ok in *. rewrite Hp in Hok.
      split; [|by intros _]. cbn [Release with_reserved networks]. eapply ok_submseteq; [|exact Hok]. by apply submseteq_cons.
  - destruct (getFreeIP _ _ _ _ _ _) as [s| | |] eqn:Eg; [|done..]. cbn [obind]. intros [= <- <-].
    do 2 (split; [done|]). split; [done|]. intros Hne.
    assert (∃ a, s = addr_String a ∧ lo net ≤ a ≤ hi net ∧ s ∉ GetUsedAddresses true d net) as (a & -> & Ha & Hfree).
    { assert (search_free Intn net (GetUsedAddresses true d net) recent allocDir = Ret s →
        ∃ a, s = addr_String a ∧ lo net ≤ a ≤ hi net ∧ s ∉ GetUsedAddresses true d net) as Hsearch.
      { intros Es. destruct (search_free_found Intn net _ _ _ _ (proper_ranged net Hprop) Hn Es)
          as (a & -> & Ha & Ht). exists a. split_and!; [done|lia|lia|]. intros Hu. apply Ht. by left. }
      unfold getFreeIP in Eg. destruct (String.eqb_spec candidate "") as [->|Hc0]; cbn [negb] in Eg.
      { by apply Hsearch. }
      destruct Hc as [Hc|(c & Hc32 & ->)]; [done|]. rewrite addr_roundtrip in Eg by done.
      destruct (isAddressInRange net c) eqn:Ein; cbn [negb] in Eg; [|done].
      destruct (str_in (addr_String c) (GetUsedAddresses true d net)) eqn:Eu; cbn [negb] in Eg.
      - by apply Hsearch.
      - injection Eg as <-. exists c. apply in_range_iff in Ein; [|by apply proper_ranged].
        split_and!; [done|lia|lia|]. by apply str_in_false. }
    apply ok_insert; [done|done|done|]. by rewrite <- used_iff.
Qed.

(** ** Moving addresses between networks *)

Definition moved (from to : string) (range : SNetwork) (p : string * string) : string * string :=
  if String.eqb p.1 from && isAddressInRange range (addr_of p.2) then (to, p.2) else p.

Lemma tab_move {R} `{AddrRow R} from to range (rows : list R) :
  tab (move_rows from to range rows) = moved from to range <$> tab rows.
Proof.
  induction rows as [|r rows IH]; [done|]. unfold move_rows in *. rewrite fmap_cons, !tab_cons, IH.
  destruct (String.eqb (row_net r) from && isAddressInRange range (addr_of (row_ip r))) eqn:E.
  - rewrite row_ip_set, row_net_set. destruct (decide (row_ip r = "")); [done|].
    rewrite fmap_cons. unfold moved at 2. cbn [fst snd]. by rewrite E.
  - destruct (decide (row_ip r = "")); [done|]. rewrite fmap_cons. unfold moved at 2. cbn [fst snd]. by rewrite E.
Qed.

Lemma moved_snd from to range l : (moved from to range <$> l).*2 = l.*2.
Proof.
  rewrite <- list_fmap_compose. apply list_fmap_ext. intros i p _. unfold compose, moved. by case_match.
Qed.

Lemma moved_none from to range (l : list (string * string)) :
  (∀ p, p ∈ l → p.1 = from → isAddressInRange range (addr_of p.2) = false) → moved from to range <$> l = l.
Proof.
  intros Hl. rewrite <- (list_fmap_id l) at 2. apply list_fmap_ext. intros i p Hp. unfold moved.
  destruct (String.eqb_spec p.1 from) as [E|]; [|done].
  by rewrite (Hl p (list_elem_of_lookup_2 _ _ _ Hp) E).
Qed.

(** The addresses after a split or a merge, when no load balancer is concerned. *)
Lemma addresses_moved d nets from to range dn :
  (∀ p, p ∈ tab (loadbalancernetworks d) → p.1 = from → isAddressInRange range (addr_of p.2) = false) →
  addresses (Db nets (move_rows from to range (guestnetworks d)) (move_rows from to range (groupnetworks d))
    (move_rows from to range (hostnetworks d)) (move_rows from to range (reservedips d))
    (loadbalancernetworks d) dn) = moved from to range <$> addresses d.
Proof.
  intros Hlb. tables. rewrite !tab_move, !fmap_app. by rewrite (moved_none from to range (tab (loadbalancernetworks d))).
Qed.

Lemma elem_update id s e nets n : n ∈ update_range id s e nets ↔
  ∃ m, m ∈ nets ∧ n = if String.eqb (Id m) id then set_range m s e else m.
Proof. unfold update_range. rewrite list_elem_of_fmap. naive_solver. Qed.

Lemma update_ids id s e nets : Id <$> update_range id s e nets = Id <$> nets.
Proof.
  unfold update_range. rewrite <- list_fmap_compose. apply list_fmap_ext. intros i n _. unfold compose. by case_match.
Qed.

(** ** Splitting *)

Lemma ok_split nets addrs self c network :
  ok nets addrs → self ∈ nets → lo self < c ≤ hi self →
  Id network ∉ (Id <$> nets) → Id network ≠ "" → GuestIpStart network = addr_String c →
  GuestIpEnd network = GuestIpEnd self →
  ok (update_range (Id self) (GuestIpStart self) (addr_String (c - 1)) nets ++ [network])
     (moved (Id self) (Id network) network <$> addrs).
Proof.
  intros Hok Hin Hc Hnew Hne Hs He. pose proof Hok as [H1 H2 H3 H4 H5].
  pose proof (H2 self Hin) as [[Hr1 Hr2] [Hcan Hid]]. pose proof (lo_32 self) as Hl32. unfold addr32 in Hl32.
  assert (lo network = c) as Elo by (unfold lo; rewrite Hs; apply addr_of_String; lia).
  assert (hi network = hi self) as Ehi by (unfold hi; by rewrite He).
  set (self' := set_range self (GuestIpStart self) (addr_String (c - 1))).
  assert (lo self' = lo self) as Elo' by done.
  assert (hi self' = c - 1) as Ehi' by (unfold hi; cbn; apply addr_of_String; lia).
  assert (∀ n, n ∈ update_range (Id self) (GuestIpStart self) (addr_String (c - 1)) nets ++ [network] →
    n = self' ∨ n = network ∨ (n ∈ nets ∧ Id n ≠ Id self)) as Hcases.
  { intros n [Hn| ->%list_elem_of_singleton]%elem_of_app; [|by auto].
    apply elem_update in Hn as (m & Hm & ->). destruct (String.eqb_spec (Id m) (Id self)) as [E|E]; [|by auto].
    left. by rewrite (net_by_id _ _ m self Hok Hm Hin E). }
  assert (proper network) as Hpn by (split; [lia|]; rewrite Elo; done).
  split.
  - rewrite fmap_app, update_ids. apply NoDup_app. split_and!; [done| |apply NoDup_singleton].
    intros x Hx ->%list_elem_of_singleton. done.
  - intros n [->|[->|[Hn _]]]%Hcases; [|done|by apply H2]. split; [lia|]. by rewrite Elo'.
  - intros n1 n2 Hn1 Hn2 Hids.
    assert (∀ n, n ∈ nets → Id n ≠ Id self → hi n < lo self ∨ hi self < lo n) as Hd by (intros; by apply H3).
    apply Hcases in Hn1 as [->|[->|[Hn1 Hi1]]], Hn2 as [->|[->|[Hn2 Hi2]]]; rewrite ?Elo, ?Ehi, ?Elo', ?Ehi';
      try done; try lia; try (by apply H3);
      try (destruct (Hd n1 Hn1 Hi1); lia); destruct (Hd n2 Hn2 Hi2); lia.
  - by rewrite moved_snd.
  - intros p' Hp'. apply list_elem_of_fmap in Hp' as (p & -> & Hp).
    destruct (H5 p Hp) as (n & a & Hn & En & Ea & Ha). unfold moved. rewrite Ea, addr_of_String by
      (pose proof (lo_32 n); pose proof (hi_32 n); unfold addr32 in *; lia).
    assert (∀ m, m ∈ nets → Id m ≠ Id self →
      m ∈ update_range (Id self) (GuestIpStart self) (addr_String (c - 1)) nets ++ [network]) as Hkeep.
    { intros m Hm Hmi. apply elem_of_app. left. apply elem_update. exists m. split; [done|].
      by rewrite (proj2 (String.eqb_neq _ _) Hmi). }
    destruct (String.eqb_spec p.1 (Id self)) as [E|E]; cbn [andb].
    + assert (n = self) as -> by (apply (net_by_id _ _ n self Hok Hn Hin); congruence).
      destruct (isAddressInRange network a) eqn:Er.
      * apply in_range_iff in Er; [|by apply proper_ranged]. exists network, a. cbn.
        split_and!; [apply elem_of_app; right; by left|done|done|lia|lia].
      * exists self', a. split_and!; [|done|done|lia|].
        -- apply elem_of_app. left. apply elem_update. exists self. by rewrite String.eqb_refl.
        -- destruct (decide (a ≤ c - 1)); [lia|]. exfalso.
           rewrite (proj2 (in_range_iff network a (proper_ranged _ Hpn))) in Er; [done|lia].
    + exists n, a. split_and!; [apply Hkeep; [done|congruence]|done|done|lia|lia].
Qed.

(** ** Merging *)

Section Merge.

Context (nets : list SNetwork) (addrs : list (string * string)) (self net : SNetwork) (s e : string).
Hypothesis Hok : ok nets addrs.
Hypothesis Hself : self ∈ nets.
Hypothesis Hnet : net ∈ nets.
Hypothesis Hids : Id self ≠ Id net.
Let net' := set_range net s e.
Hypothesis Hproper : proper net'.
Hypothesis Hunion : ∀ a, lo net' ≤ a ≤ hi net' ↔ lo self ≤ a ≤ hi self ∨ lo net ≤ a ≤ hi net.
Let nets' := filter (λ n, Id n ≠ Id self) (update_range (Id net) s e nets).

Lemma merge_elem n : n ∈ nets' ↔ n = net' ∨ (n ∈ nets ∧ Id n ≠ Id net ∧ Id n ≠ Id self).
Proof.
  subst nets'. rewrite list_elem_of_filter, elem_update. split.
  - intros (Hn & m & Hm & ->). destruct (String.eqb_spec (Id m) (Id net)) as [E|E]; [|by right].
    left. by rewrite (net_by_id _ _ m net Hok Hm Hnet E).
  - intros [->|(Hn & H1 & H2)].
    + split; [by apply not_eq_sym|]. exists net. by rewrite String.eqb_refl.
    + split; [done|]. exists n. by rewrite (proj2 (String.eqb_neq _ _) H1).
Qed.

(** Another network is apart from the union. *)
Lemma merge_apart n : n ∈ nets → Id n ≠ Id net → Id n ≠ Id self → hi n < lo net' ∨ hi net' < lo n.
Proof.
  intros Hn H1 H2. pose proof (nets_disjoint _ _ Hok n net Hn Hnet H1) as D1.
  pose proof (nets_disjoint _ _ Hok n self Hn Hself H2) as D2.
  destruct (nets_proper _ _ Hok n Hn) as [[Hl _] _]. destruct Hproper as [[Hl' _] _].
  destruct (decide (hi n < lo net')); [by left|]. destruct (decide (hi net' < lo n)); [by right|].
  exfalso. destruct (decide (lo n < lo net')).
  - destruct (Hunion (lo net')) as [H _]. lia.
  - destruct (Hunion (lo n)) as [H _]. lia.
Qed.

Lemma ok_merge : ok nets' (moved (Id self) (Id net) self <$> addrs).
Proof.
  pose proof Hok as [H1 H2 H3 H4 H5]. split.
  - apply (sublist_NoDup _ (Id <$> update_range (Id net) s e nets)); [by rewrite update_ids|].
    apply fmap_sublist, sublist_filter.
  - intros n [->|(Hn & _)]%merge_elem; [done|by apply H2].
  - intros n1 n2 [->|(Hn1 & Ha & Hb)]%merge_elem [->|(Hn2 & Hc & Hd)]%merge_elem Hne; [done| | |by apply H3].
    + destruct (merge_apart n2 Hn2 Hc Hd); lia.
    + destruct (merge_apart n1 Hn1 Ha Hb); lia.
  - by rewrite moved_snd.
  - intros p' Hp'. apply list_elem_of_fmap in Hp' as (p & -> & Hp).
    destruct (H5 p Hp) as (n & a & Hn & En & Ea & Ha). unfold moved. rewrite Ea, addr_of_String by
      (pose proof (lo_32 n); pose proof (hi_32 n); unfold addr32 in *; lia).
    destruct (String.eqb_spec p.1 (Id self)) as [E|E]; cbn [andb].
    + assert (n = self) as -> by (apply (net_by_id _ _ n self Hok Hn Hself); congruence).
      rewrite (proj2 (in_range_iff self a (proper_ranged _ (H2 _ Hself)))) by done.
      exists net', a. split_and!; [by apply merge_elem; left|done|done|apply Hunion; by left..].
    + destruct (decide (Id n = Id net)) as [E'|E'].
      * rewrite (net_by_id _ _ n net Hok Hn Hnet E') in *. exists net', a.
        split_and!; [by apply merge_elem; left|done|done|apply Hunion; by right..].
      * exists n, a. split_and!; [apply merge_elem; right; split_and!; [done|done|congruence]|done|done|lia|lia].
Qed.

End Merge.

(** ** Creating *)

(** Ranges that do not overlap are apart. *)
Lemma apart_of_no_overlap nets n m : isOverlapNetworks nets (lo n) (hi n) = false → m ∈ nets →
  proper n → proper m → hi m < lo n ∨ hi n < lo m.
Proof.
  intros Ho Hm Hn Hpm. unfold isOverlapNetworks in Ho. apply not_true_iff_false in Ho. rewrite existsb_exists in Ho.
  pose proof (ranged_range n (proper_ranged n Hn)) as Er. unfold getIPRange in Er. fold (lo n) (hi n) in Er.
  rewrite Er in Ho. destruct (IsOverlap (getIPRange m) (MkRange (lo n) (hi n))) eqn:E.
  - exfalso. apply Ho. exists m. by rewrite <- list_elem_of_In.
  - rewrite ranged_range in E by (by apply proper_ranged). unfold IsOverlap in E. cbn [start end_] in E.
    apply negb_false_iff, orb_prop in E. rewrite !Z.ltb_lt in E. lia.
Qed.

Lemma ok_create nets addrs n : ok nets addrs → proper n → Id n ∉ (Id <$> nets) →
  isOverlapNetworks nets (lo n) (hi n) = false → ok (nets ++ [n]) addrs.
Proof.
  intros Hok Hp Hnew Ho. pose proof Hok as [H1 H2 H3 H4 H5].
  assert (∀ m, m ∈ nets → hi m < lo n ∨ hi n < lo m) as Hapart.
  { intros m Hm. eapply apart_of_no_overlap; [done|done|done|by apply H2]. }
  split; [| | |done|].
  - rewrite fmap_app. apply NoDup_app. split_and!; [done| |apply NoDup_singleton].
    by intros x Hx ->%list_elem_of_singleton.
  - intros m [Hm| ->%list_elem_of_singleton]%elem_of_app; [by apply H2|done].
  - intros n1 n2 [Hn1| ->%list_elem_of_singleton]%elem_of_app [Hn2| ->%list_elem_of_singleton]%elem_of_app Hne;
      [by apply H3|by apply Hapart|destruct (Hapart n2 Hn2); lia|done].
  - intros p Hp'. destruct (H5 p Hp') as (m & a & Hm & Hrest). exists m, a. split; [|done].
    apply elem_of_app. by left.
Qed.

(** ** Changing a range *)

Lemma ok_update nets addrs self s e :
  ok nets addrs → self ∈ nets → proper (set_range self s e) →
  isOverlapNetworks (filter (λ n, Id n ≠ Id self) nets) (lo (set_range self s e)) (hi (set_range self s e)) = false →
  (∀ ip, (Id self, ip) ∈ addrs → lo (set_range self s e) ≤ addr_of ip ≤ hi (set_range self s e)) →
  ok (update_range (Id self) s e nets) addrs.
Proof.
  intros Hok Hself Hp Ho Hin. pose proof Hok as [H1 H2 H3 H4 H5]. set (self' := set_range self s e) in *.
  assert (∀ n, n ∈ update_range (Id self) s e nets ↔ n = self' ∨ (n ∈ nets ∧ Id n ≠ Id self)) as Helem.
  { intros n. rewrite elem_update. split.
    - intros (m & Hm & ->). destruct (String.eqb_spec (Id m) (Id self)) as [E|E]; [|by right].
      left. by rewrite (net_by_id _ _ m self Hok Hm Hself E).
    - intros [->|[Hn Hne]]; [exists self; by rewrite String.eqb_refl|].
      exists n. by rewrite (proj2 (String.eqb_neq _ _) Hne). }
  assert (∀ n, n ∈ nets → Id n ≠ Id self → hi n < lo self' ∨ hi self' < lo n) as Hapart.
  { intros n Hn Hne. eapply apart_of_no_overlap; [done| |done|by apply H2]. by apply list_elem_of_filter. }
  split; [by rewrite update_ids| | |done|].
  - intros n [->|[Hn _]]%Helem; [done|by apply H2].
  - intros n1 n2 [->|[Hn1 Hi1]]%Helem [->|[Hn2 Hi2]]%Helem Hne; [done| | |by apply H3].
    + destruct (Hapart n2 Hn2 Hi2); lia.
    + by apply Hapart.
  - intros p Hp'. destruct (H5 p Hp') as (n & a & Hn & En & Ea & Ha).
    destruct (decide (Id n = Id self)) as [E|E]; [|exists n, a; split; [apply Helem; by right|done]].
    exists self', a. split_and!; [apply Helem; by left|cbn; congruence|done|..];
      specialize (Hin p.2); rewrite Ea, addr_of_String in Hin by
        (pose proof (lo_32 n); pose proof (hi_32 n); unfold addr32 in *; lia); apply Hin;
      by rewrite <- Ea, <- E, En; destruct p.
Qed.

End NetworkSafety.
