(* ===== verification/NetworkOps.v ===== *)
(** * Requests on networks keep the tables well formed

    One lemma per operation of Networks.v: what it does to the addresses of the tables, and
    that the invariant of NetworkSafety.v holds after it. *)

From S2P Require Import Prelude Netutils Networks NetworkAlloc NetworkSafety.
Import Netutils Networks NetworkAlloc NetworkSafety.
Local Open Scope Z_scope.
Local Open Scope go_scope.

Module NetworkOps.

(** ** Creating a network *)

Lemma create_range_spec M data s e m : create_range M data = Ret (s, e, m) → isValidMaskLen m = true →
  0 ≤ s ≤ e ∧ e < 4294967296 ∧ 12 ≤ m ≤ 30 ∧
  (guest_ip_prefix data ≠ "" → ∃ q, s = q * 2 ^ (32 - m) + 1 ∧ e = (q + 1) * 2 ^ (32 - m) - 2).
Proof.
  unfold create_range, isValidMaskLen. intros E Hm.
  apply negb_true_iff, orb_false_iff in Hm as [Hm1%Z.ltb_ge Hm2%Z.ltb_ge].
  destruct (String.eqb_spec (guest_ip_prefix data) "") as [Hp|Hp]; cbn [negb] in E.
  - assert (∀ t x, NewIPV4Addr t = Ret x → 0 ≤ x < 4294967296) as Hr.
    { intros t x Hx. pose proof (addr_of_range t) as Ht. unfold addr_of in Ht. by rewrite Hx in Ht. }
    destruct (NewIPV4Addr (guest_ip_start data)) as [a| | |] eqn:Ea; [|done..].
    destruct (NewIPV4Addr (guest_ip_end data)) as [b| | |] eqn:Eb; [|done..].
    apply Hr in Ea, Eb. destruct (Z.ltb_spec b a); simplify_eq; (split_and!; [lia..|done]).
  - destruct (NewIPV4Prefix M (guest_ip_prefix data)) as [p| | |] eqn:Ep; [|done..]. injection E as <- <- <-.
    destruct (NewIPV4Prefix_shape _ _ _ Ep ltac:(lia)) as (a & Ha & Eaddr). destruct p as [ad m].
    cbn [Address MaskLen] in *. subst ad.
    pose proof (prefix_range a m Ha ltac:(lia)) as Er. injection Er as -> ->.
    pose proof (block_end a m Ha ltac:(lia)) as [Hb0 Hb1].
    assert (2 ^ 2 ≤ 2 ^ (32 - m)) as Hw by (apply Z.pow_le_mono_r; lia). change (2 ^ 2) with 4 in Hw.
    unfold StepUp, StepDown, uint_wrap. change (2 ^ 32) with 4294967296. rewrite !Z.mod_small by lia.
    split_and!; try lia. intros _. exists (block m a). split; lia.
Qed.

Definition fits (iprange : IPV4AddrRange) (s e : Z) : Prop := start iprange ≤ s ∧ e ≤ end_ iprange.

Lemma ValidateCreateData_spec M4 M l d data s e m w t :
  ValidateCreateData M4 M l d data = Ret (s, e, m, w, t) →
  ∃ a b, create_range M4 data = Ret (a, b, m) ∧ s = addr_String a ∧ e = addr_String b ∧
    0 ≤ a ≤ b ∧ b < 4294967296 ∧ 12 ≤ m ≤ 30 ∧ isOverlapNetworks (networks d) a b = false ∧
    t ∈ ALL_NETWORK_TYPES ∧
    ∃ v, wire_vpc l w = Some (Some v) ∧ VpcStatus v = "available" ∧ fits (getIPRange_vpc M4 v) a b.
Proof.
  unfold ValidateCreateData. destruct (create_range M4 data) as [[[a b] m0]| | |] eqn:Er; [|done..]. cbn [obind].
  destruct (isValidMaskLen m0) eqn:Em; [|done]. cbn [negb]. destruct (List.find _ _) as [[k ?]|]; [done|].
  destruct (isOverlapNetworks _ a b) eqn:Eo; [done|].
  destruct (choose_wire l data) as [w0| | |]; [|done..]. cbn [obind]. destruct (String.eqb w0 ""); [done|].
  destruct (wire_vpc l w0) as [[v|]|] eqn:Ev; [|done..].
  destruct (String.eqb_spec (VpcStatus v) "available"); [|done]. cbn [negb].
  destruct (ContainsRange _ _) eqn:Ec; [|done]. cbn [negb].
  destruct (str_in _ ALL_NETWORK_TYPES) eqn:Et; [|done]. cbn [negb]. intros [= <- <- <- <- <-].
  apply str_in_iff in Et. destruct (create_range_spec _ _ _ _ _ Er Em) as (H1 & H2 & H3 & _).
  exists a, b. split_and!; try done; [lia..|]. exists v. split_and!; try done.
  unfold ContainsRange, NewIPV4AddrRange in Ec. apply andb_prop in Ec as [E1%Z.leb_le E2%Z.leb_le].
  unfold fits. destruct (Z.ltb_spec a b); cbn in E1, E2; lia.
Qed.

(** ** Deleting addresses *)

(** The address of a row as a list. *)
Definition one (net ip : string) : list (string * string) := filter has_addr [(net, ip)].

Lemma one_eq net ip : one net ip = if decide (ip = "") then [] else [(net, ip)].
Proof.
  unfold one. destruct (decide (ip = "")) as [->|E]; [by rewrite filter_cons_False by (by intros [])|].
  by rewrite filter_cons_True.
Qed.

Lemma tab_split {R} `{AddrRow R} (p : R → bool) net ip (rows : list R) :
  existsb p rows = true → (∀ r, p r = true → row_net r = net ∧ row_ip r = ip) →
  tab rows ≡ₚ one net ip ++ tab (remove_first p rows).
Proof.
  intros He Hp. rewrite one_eq. induction rows as [|r rows IH]; [done|]. cbn [existsb remove_first] in He |- *.
  destruct (p r) eqn:E; cbn [orb] in He; rewrite !tab_cons.
  - destruct (Hp r E) as [-> ->]. by destruct (decide (ip = "")).
  - specialize (IH He). destruct (decide (row_ip r = "")); [done|]. rewrite <- Permutation_middle. by constructor.
Qed.

Lemma addresses_reserve_any d net ip notes :
  addresses (ReserveIP d net ip notes) ≡ₚ one (Id net) ip ++ addresses d.
Proof.
  rewrite one_eq. destruct (decide (ip = "")) as [->|E]; [|by apply addresses_reserve].
  tables. by rewrite tab_snoc_empty.
Qed.

Lemma GetNetwork_some d id n : GetNetwork d id = Some n → n ∈ networks d ∧ Id n = id.
Proof.
  unfold GetNetwork. intros [H1 H2%String.eqb_eq]%List.find_some. by rewrite list_elem_of_In.
Qed.

Definition nic_key (r : SGuestnetwork) := (GuestId r, gn_NetworkId r, gn_MacAddr r, gn_IpAddr r).
Definition host_key (r : SHostnetwork) := (BaremetalId r, hn_NetworkId r, hn_MacAddr r, hn_IpAddr r).

Lemma same_nic_key g r : same_nic g r = true ↔ nic_key r = nic_key g.
Proof. unfold same_nic, nic_key. rewrite !andb_true_iff, !String.eqb_eq. split; [intros [[[-> ->] ->] ->]; done|by intros [= -> -> -> ->]]. Qed.

Lemma same_host_key g r : same_host_nic g r = true ↔ host_key r = host_key g.
Proof. unfold same_host_nic, host_key. rewrite !andb_true_iff, !String.eqb_eq. split; [intros [[[-> ->] ->] ->]; done|by intros [= -> -> -> ->]]. Qed.

Lemma remove_key (g : SGuestnetwork) rows : nic_key g ∈ nic_key <$> rows →
  nic_key <$> rows ≡ₚ nic_key g :: (nic_key <$> remove_first (same_nic g) rows) ∧
  existsb (same_nic g) rows = true.
Proof.
  induction rows as [|r rows IH]; [by intros ?%elem_of_nil|]. cbn [remove_first existsb]. rewrite fmap_cons.
  destruct (same_nic g r) eqn:E; cbn [orb].
  - intros _. by apply same_nic_key in E as ->.
  - intros [Heq|Hin]%elem_of_cons; [by rewrite (proj2 (same_nic_key g r)) in E|].
    destruct (IH Hin) as [IH1 IH2]. split; [|done]. rewrite fmap_cons, IH1. apply perm_swap.
Qed.

(** A deleted interface leaves the addresses, and its address comes back when it is
    reserved. *)
Lemma DeleteGuestNics_ok M now gns reserve : ∀ d d',
  nic_key <$> gns ⊆+ nic_key <$> guestnetworks d →
  DeleteGuestNics M now d gns reserve = Ret d' →
  networks d' = networks d ∧ addresses d' ⊆+ addresses d ∧ guestnetworks d' ⊆+ guestnetworks d.
Proof.
  induction gns as [|gn gns IH]; intros d d' Hsub; [by intros [= <-]|]. cbn [DeleteGuestNics].
  destruct (if M (gn_IpAddr gn) then _ else _); [|done..]. cbn [obind].
  set (d1 := Db _ _ _ _ _ _ _). rewrite fmap_cons in Hsub.
  destruct (remove_key gn (guestnetworks d)) as [Hk He].
  { eapply elem_of_submseteq; [|exact Hsub]. by left. }
  assert (addresses d ≡ₚ one (gn_NetworkId gn) (gn_IpAddr gn) ++ addresses d1) as Ha.
  { rewrite !addresses_eq. subst d1. cbn [guestnetworks groupnetworks hostnetworks reservedips loadbalancernetworks].
    rewrite (tab_split (same_nic gn) (gn_NetworkId gn) (gn_IpAddr gn) (guestnetworks d)); [by rewrite <- app_assoc|done|].
    intros r Hr%same_nic_key. unfold nic_key in Hr. by simplify_eq. }
  assert (nic_key <$> gns ⊆+ nic_key <$> guestnetworks d1) as Hsub1.
  { rewrite Hk in Hsub. by apply submseteq_app_inv_l with (k := [nic_key gn]) in Hsub. }
  assert (guestnetworks d1 ⊆+ guestnetworks d) as Hrows by apply remove_first_submseteq.
  destruct (reserve && M (gn_IpAddr gn)).
  - destruct (GetNetwork d (gn_NetworkId gn)) as [net|] eqn:En; [|done]. cbn [of_opt obind].
    apply GetNetwork_some in En as [_ En]. intros E. edestruct IH as (E1 & E2 & E3); [|exact E|]; [exact Hsub1|].
    split_and!; [done| |by etrans]. etrans; [exact E2|]. by rewrite addresses_reserve_any, En, Ha.
  - cbn [obind]. intros E. destruct (IH _ _ Hsub1 E) as (E1 & E2 & E3).
    split_and!; [done| |by etrans]. etrans; [exact E2|]. rewrite Ha. by apply submseteq_inserts_l.
Qed.

Lemma DeleteBaremetalnetwork_ok M d bn reserve : host_key bn ∈ host_key <$> hostnetworks d →
  networks (DeleteBaremetalnetwork M d bn reserve) = networks d ∧
  guestnetworks (DeleteBaremetalnetwork M d bn reserve) = guestnetworks d ∧
  addresses (DeleteBaremetalnetwork M d bn reserve) ⊆+ addresses d.
Proof.
  intros Hin. unfold DeleteBaremetalnetwork. set (d1 := with_hosts _ _).
  assert (existsb (same_host_nic bn) (hostnetworks d) = true) as He.
  { apply list_elem_of_fmap in Hin as (r & Er & Hr). apply existsb_exists. exists r.
    rewrite <- list_elem_of_In, same_host_key. done. }
  assert (addresses d ≡ₚ one (hn_NetworkId bn) (hn_IpAddr bn) ++ addresses d1) as Ha.
  { rewrite !addresses_eq. subst d1. cbn [with_hosts guestnetworks groupnetworks hostnetworks reservedips loadbalancernetworks].
    rewrite (tab_split (same_host_nic bn) (hn_NetworkId bn) (hn_IpAddr bn) (hostnetworks d)); [solve_Permutation|done|].
    intros r Hr%same_host_key. unfold host_key in Hr. by simplify_eq. }
  assert (addresses d1 ⊆+ addresses d) as Hd1 by (rewrite Ha; by apply submseteq_inserts_l).
  destruct (GetNetwork d (hn_NetworkId bn)) as [net|] eqn:En; [|done]. case_match; [|done].
  apply GetNetwork_some in En as [_ En]. split_and!; [done..|]. by rewrite addresses_reserve_any, En, Ha.
Qed.

Lemma delete_lb_rows_ok M reserve lns : ∀ d d', delete_lb_rows M reserve lns d = Ret d' →
  networks d' = networks d ∧ guestnetworks d' = guestnetworks d ∧ addresses d' ⊆+ addresses d.
Proof.
  induction lns as [|ln lns IH]; intros d d'; [by intros [= <-]|]. cbn [delete_lb_rows].
  destruct (reserve && M (lb_IpAddr ln)); [done|]. intros E%IH. destruct E as (E1 & E2 & E3).
  split_and!; [done..|]. etrans; [exact E3|]. tables. repeat apply submseteq_app; try done. apply tab_remove.
Qed.

(** ** Reserving *)

Lemma count_iff {R} `{AddrRow R} (rows : list R) net ip :
  (0 <? count rows net ip)%nat = true ↔ ip ∈ addrs_of net rows.
Proof.
  rewrite Nat.ltb_lt. unfold count, addrs_of, rows_of. rewrite list_elem_of_fmap. split.
  - destruct (filter _ rows) as [|r l] eqn:E; [cbn; lia|]. intros _. exists r.
    assert (r ∈ filter (λ r, row_ip r = ip ∧ row_net r = net) rows) as Hr by (rewrite E; by left).
    apply list_elem_of_filter in Hr as [[<- <-] Hr]. split; [done|]. by apply list_elem_of_filter.
  - intros (r & -> & Hr). apply list_elem_of_filter in Hr as [En Hr].
    assert (r ∈ filter (λ x, row_ip x = row_ip r ∧ row_net x = net) rows) as Hf by (by apply list_elem_of_filter).
    destruct (filter _ rows); [by apply elem_of_nil in Hf|]. cbn. lia.
Qed.

(** The two ways to ask for a used address agree. *)
Lemma isAddressUsed_iff d net ip : isAddressUsed d net ip = true ↔ ip ∈ GetUsedAddresses true d net.
Proof.
  unfold isAddressUsed, GetUsedAddresses. rewrite !orb_true_iff, !count_iff, !elem_of_app. tauto.
Qed.

Definition plain (s : string) : Prop := ∃ c, addr32 c ∧ s = addr_String c.

Lemma reserve_loop_ok self notes ips : ∀ d, db_ok d → self ∈ networks d → Forall plain ips →
  db_ok (reserve_loop d self notes ips).1 ∧ networks (reserve_loop d self notes ips).1 = networks d ∧
  guestnetworks (reserve_loop d self notes ips).1 = guestnetworks d.
Proof.
  induction ips as [|ip ips IH]; intros d Hok Hin Hp; [done|]. inversion_clear Hp as [|? ? (c & Hc & ->) Hps].
  cbn [reserve_loop]. rewrite addr_roundtrip by done. destruct (isAddressInRange self c) eqn:Ei; [|done]. cbn [negb].
  destruct (isAddressUsed d self (addr_String c)) eqn:Eu; [done|].
  assert (addr_String c ≠ "") as Hne by (by apply addr_String_nonempty).
  destruct (IH (ReserveIP d self (addr_String c) notes)) as (A & B & C); [|done|done|by split_and!].
  unfold db_ok. rewrite addresses_reserve by done. apply ok_insert; [done|done| |].
  - apply in_range_iff in Ei; [done|]. by apply proper_ranged, (nets_proper _ _ Hok).
  - rewrite <- used_iff by done. rewrite <- isAddressUsed_iff. by rewrite Eu.
Qed.

(** ** Splitting and merging *)

(** No load balancer has its address on the network. *)
Definition no_lb (d : db) (net : SNetwork) : Prop := rows_of (Id net) (loadbalancernetworks d) = [].

Lemma no_lb_tab d net p : no_lb d net → p ∈ tab (loadbalancernetworks d) → p.1 ≠ Id net.
Proof.
  unfold no_lb, tab, pairs. intros Hno [_ Hp]%list_elem_of_filter E.
  apply list_elem_of_fmap in Hp as (r & -> & Hr).
  assert (r ∈ rows_of (Id net) (loadbalancernetworks d)) as H by (by apply list_elem_of_filter).
  rewrite Hno in H. by apply elem_of_nil in H.
Qed.

Lemma to_move_iff {R} `{AddrRow R} from range (rows : list R) : to_move from range rows = true ↔
  ∃ r, r ∈ rows ∧ row_net r = from ∧ isAddressInRange range (addr_of (row_ip r)) = true.
Proof.
  unfold to_move. rewrite existsb_exists. split.
  - intros (r & Hr & [E1%String.eqb_eq E2]%andb_prop). exists r. by rewrite list_elem_of_In.
  - intros (r & Hr & E1 & E2). exists r. rewrite <- list_elem_of_In, E1, E2, String.eqb_refl. done.
Qed.

Lemma to_move_tab {R} `{AddrRow R} from range (rows : list R) ip :
  to_move from range rows = false → (from, ip) ∈ tab rows → isAddressInRange range (addr_of ip) = false.
Proof.
  unfold tab, pairs. intros Hm [_ Hp]%list_elem_of_filter. apply list_elem_of_fmap in Hp as (r & [= -> ->] & Hr).
  apply not_true_iff_false in Hm. rewrite to_move_iff in Hm. apply not_true_iff_false. intros E. apply Hm. by exists r.
Qed.

(** A split that is accepted: the networks after it. *)
Lemma PerformSplit_networks M d self splitIp name new_id d' o :
  db_ok d → self ∈ networks d → plain splitIp →
  PerformSplit M d self splitIp name new_id = (d', o) → (∀ e, o ≠ Fail e) →
  ∃ c network, splitIp = addr_String c ∧ lo self < c ≤ hi self ∧ Id network = new_id ∧
    GuestIpStart network = addr_String c ∧ GuestIpEnd network = GuestIpEnd self ∧
    networks d' = update_range (Id self) (GuestIpStart self) (addr_String (c - 1)) (networks d) ++ [network] ∧
    guestnetworks d' = guestnetworks d ∧ addresses d' = addresses d ∧ deleted_nics d' = deleted_nics d ∧
    o = (if to_move (Id self) network (guestnetworks d) || to_move (Id self) network (hostnetworks d) ||
            to_move (Id self) network (reservedips d) || to_move (Id self) network (groupnetworks d)
         then Panic else Ret tt).
Proof.
  intros Hok Hin (c & Hc & ->). unfold PerformSplit. destruct (M (addr_String c)); cbn [negb];
    [|intros [= <- <-] Hf; by destruct (Hf ParseError)].
  destruct (String.eqb_spec (addr_String c) (GuestIpStart self)) as [|Hs];
    [intros [= <- <-] Hf; by destruct (Hf SplitAtStart)|].
  rewrite addr_roundtrip by done. destruct (isAddressInRange self c) eqn:Ei; cbn [negb];
    [|intros [= <- <-] Hf; by destruct (Hf OutOfRange)].
  intros [= <- <-] _.
  pose proof (nets_proper _ _ Hok self Hin) as Hp. apply in_range_iff in Ei; [|by apply proper_ranged].
  destruct Hp as [Hr [Hcan Hid]].
  assert (lo self < c) by (destruct (decide (lo self = c)) as [E|]; [by rewrite Hcan, E in Hs|lia]).
  pose proof (lo_32 self) as Hl. unfold addr32 in Hl, Hc.
  assert (StepDown c = c - 1) as -> by (unfold StepDown, uint_wrap; change (2 ^ 32) with 4294967296; apply Z.mod_small; lia).
  eexists c, (Network _ _ _ _ _ _ _ _ _ _ _ _ _ _ _ _ _ _ _ _). split_and!; try reflexivity; lia.
Qed.

Lemma PerformSplit_ok M d self splitIp name new_id d' :
  db_ok d → self ∈ networks d → no_lb d self → plain splitIp → new_id ∉ (Id <$> networks d) → new_id ≠ "" →
  PerformSplit M d self splitIp name new_id = (d', Ret tt) → db_ok d' ∧ guestnetworks d' = guestnetworks d.
Proof.
  intros Hok Hin Hlb Hsplit Hnew Hne E.
  destruct (PerformSplit_networks _ _ _ _ _ _ _ _ Hok Hin Hsplit E ltac:(done))
    as (c & network & _ & Hc & Eid & Es & Ee & En & Eg & Ea & _ & Eo). split; [|done].
  unfold db_ok. rewrite En, Ea, <- (moved_none (Id self) new_id network (addresses d)).
  - rewrite <- Eid in *. by apply ok_split.
  - destruct (_ || _ || _ || _) eqn:Em in Eo; [done|]. rewrite !orb_false_iff in Em. destruct Em as [[[M1 M2] M3] M4].
    intros [n ip] Hp Ep. cbn [fst snd] in *. subst n. rewrite addresses_eq, !elem_of_app in Hp.
    destruct Hp as [Hp|[Hp|[Hp|[Hp|Hp]]]]; 
      [exact (to_move_tab _ _ _ _ M1 Hp)|exact (to_move_tab _ _ _ _ M4 Hp)|exact (to_move_tab _ _ _ _ M2 Hp)
      |exact (to_move_tab _ _ _ _ M3 Hp)|]. by apply (no_lb_tab d self) in Hp.
Qed.

Lemma PerformMerge_ok d self net d' : db_ok d → self ∈ networks d → net ∈ networks d → no_lb d self →
  PerformMerge d self net = Ret d' → db_ok d'.
Proof.
  intros Hok Hself Hnet Hlb. unfold PerformMerge. destruct (negb _ || negb _); [done|].
  fold (lo self) (hi self) (lo net) (hi net).
  pose proof (nets_proper _ _ Hok self Hself) as [Hs [Cs Is]].
  pose proof (nets_proper _ _ Hok net Hnet) as [Hn [Cn In]].
  pose proof (lo_32 self) as L1. pose proof (lo_32 net) as L2. unfold addr32 in L1, L2.
  assert (∀ a, a < 4294967295 → 0 ≤ a → StepUp a = a + 1) as Hup.
  { intros a Ha Ha0. unfold StepUp, uint_wrap. change (2 ^ 32) with 4294967296. apply Z.mod_small. lia. }
  assert (Id self = Id net → hi net + 1 ≠ lo self ∧ hi self + 1 ≠ lo net) as Hsame.
  { intros E. rewrite (net_by_id _ _ self net Hok Hself Hnet E). lia. }
  rewrite !Hup by lia.
  destruct (Z.eqb_spec (hi net + 1) (lo self)) as [E|]; [|destruct (Z.eqb_spec (hi self + 1) (lo net)) as [E|]; [|done]];
    cbn [obind]; intros [= <-]; unfold db_ok; cbn [networks];
    (rewrite addresses_moved; [|intros p Hp Ep; by apply (no_lb_tab d self p) in Hp]);
    (apply ok_merge; [done|done|done|intros Eid; destruct (Hsame Eid); lia|..]);
    unfold proper, lo, hi; cbn [set_range GuestIpStart GuestIpEnd Id];
    fold (lo self) (hi self) (lo net) (hi net); (split_and!; [lia|lia|done|done]) || (intros a; lia).
Qed.

(** ** Deleting a network *)

(** An interface without address is the only kind of row that the count leaves out. *)
Definition virt_ok (d : db) : Prop := Forall (λ r, Virtual r = true → gn_IpAddr r = "") (guestnetworks d).

Lemma elem_pairs {R} `{AddrRow R} net ip (rows : list R) : (net, ip) ∈ pairs rows ↔
  ∃ r, r ∈ rows_of net rows ∧ row_ip r = ip.
Proof.
  unfold pairs, rows_of. rewrite list_elem_of_fmap. split.
  - intros (r & [= -> ->] & Hr). exists r. split; [|done]. by apply list_elem_of_filter.
  - intros (r & Hr & <-). apply list_elem_of_filter in Hr as [<- Hr]. by exists r.
Qed.

Lemma length_zero_elem {A} (l : list A) x : length l = 0%nat → x ∉ l.
Proof. destruct l; [|done]. intros _ H. by apply elem_of_nil in H. Qed.

(** A network that may be deleted has no address. *)
Lemma empty_no_address d net ip : virt_ok d → GetTotalNicCount d net ≤ 0 → (Id net, ip) ∉ addresses d.
Proof.
  intros Hv Hc. unfold addresses. intros [Hne Hp]%list_elem_of_filter. unfold has_addr in Hne. cbn in Hne.
  unfold GetTotalNicCount in Hc. unfold all_pairs in Hp.
  rewrite !elem_of_app, !elem_pairs in Hp.
  destruct Hp as [(r & Hr & E)|[(r & Hr & _)|[(r & Hr & _)|[(r & Hr & _)|(r & Hr & _)]]]];
    [|by apply length_zero_elem in Hr; [|lia]..].
  apply (length_zero_elem (filter (λ r, Virtual r = false) (rows_of (Id net) (guestnetworks d))) r); [lia|].
  apply list_elem_of_filter. split; [|done].
  destruct (Virtual r) eqn:Ev; [|done]. exfalso. apply Hne. rewrite <- E.
  apply list_elem_of_filter in Hr as [_ Hr]. unfold virt_ok in Hv. rewrite Forall_forall in Hv. by apply Hv.
Qed.

Lemma ValidateDelete_ok base d self u : db_ok d → virt_ok d → ValidateDeleteCondition base d self = Ret u →
  db_ok (RealDelete d self).
Proof.
  intros Hok Hv. unfold ValidateDeleteCondition. destruct (Z.ltb_spec 0 (GetTotalNicCount d self)) as [|Hc]; [done|]. intros _.
  pose proof Hok as [H1 H2 H3 H4 H5]. unfold db_ok. change (addresses (RealDelete d self)) with (addresses d).
  cbn [RealDelete networks]. split; [| | |done|].
  - eapply sublist_NoDup; [exact H1|]. apply fmap_sublist, sublist_filter.
  - intros n [_ Hn]%list_elem_of_filter. by apply H2.
  - intros n1 n2 [_ Hn1]%list_elem_of_filter [_ Hn2]%list_elem_of_filter. by apply H3.
  - intros p Hp. destruct (H5 p Hp) as (n & a & Hn & En & Hrest). exists n, a. split; [|done].
    apply list_elem_of_filter. split; [|done]. intros E. apply (empty_no_address d self p.2 Hv Hc).
    rewrite <- E, En. by destruct p.
Qed.

(** ** Allocating *)

(** The queries of used addresses succeed, and random numbers are within bounds. *)
Definition fair (e : env) : Prop := query_ok e = true ∧ ∀ i n, 0 < n → 0 ≤ Intn e i n < n.

Definition inv (d : db) : Prop := db_ok d ∧ virt_ok d.

Lemma newGuestNetwork_ok e d guestId net index address mac driver bw virtual reserved allocDir req ifn team d' gn :
  fair e → inv d → net ∈ networks d → plain_candidate address →
  newGuestNetwork e d guestId net index address mac driver bw virtual reserved allocDir req ifn team = Ret (d', gn) →
  inv d'.
Proof.
  intros [Hq Hn] [Hok Hv] Hin Hc. unfold newGuestNetwork. generalize (GenerateMac (random_mac e) 10 0 (guestnetworks d) (Id net) mac). intros m.
  destruct (String.eqb m ""); [done|].
  destruct (if virtual then _ else _) as [[d1 ip]| | |] eqn:E1; [|done..]. cbn [obind].
  destruct (if String.eqb (if str_in ifn _ then _ else _) "" then _ else _) as [ifname| | |]; [|done..]. cbn [obind].
  intros [= <- <-].
  assert (db_ok d1 ∧ virt_ok d1 ∧ (virtual = true → ip = "") ∧
    (ip ≠ "" → ok (networks d1) ((Id net, ip) :: addresses d1))) as (H1 & H2 & H3 & H4).
  { destruct virtual; [by injection E1 as <- <-|]. rewrite Hq in E1.
    destruct (GetFreeIP _ _ _ _ _ _ _ _) as [[d2 ip2]| | |] eqn:Eg; [|done..]. cbn [obind] in E1.
    case_match; [done|]. injection E1 as <- <-.
    destruct (GetFreeIP_ok _ _ _ _ _ _ _ _ _ Hok Hin Hc Hn Eg) as (A & B & C & D).
    unfold virt_ok. rewrite B, A. by split_and!. }
  set (row := Guestnetwork _ _ _ _ _ _ _ _ _ _). split.
  - unfold db_ok. destruct (decide (ip = "")) as [->|Hne].
    + tables. rewrite tab_snoc_empty by done. by rewrite <- addresses_eq.
    + rewrite addresses_add_guest by done. by apply H4.
  - unfold virt_ok. cbn [with_guests guestnetworks]. apply Forall_app. split; [done|]. by constructor.
Qed.

Lemma Attach2Network_ok e d hostId mac net ip allocDir reserved req d' :
  fair e → inv d → net ∈ networks d → plain_candidate ip →
  Attach2Network e d hostId mac net ip allocDir reserved req = Ret d' → inv d'.
Proof.
  intros [Hq Hn] [Hok Hv] Hin Hc. unfold Attach2Network. rewrite Hq.
  destruct (GetFreeIP _ _ _ _ _ _ _ _) as [[d1 free]| | |] eqn:Eg; [|done..]. cbn [obind].
  case_match; [done|]. intros [= <-].
  destruct (GetFreeIP_ok _ _ _ _ _ _ _ _ _ Hok Hin Hc Hn Eg) as (A & B & C & D).
  split; [|unfold virt_ok; cbn [with_hosts guestnetworks]; by rewrite B]. unfold db_ok.
  destruct (decide (free = "")) as [->|Hne].
  - tables. rewrite tab_snoc_empty by done. by rewrite <- addresses_eq.
  - rewrite addresses_add_host by done. cbn [with_hosts networks]. rewrite A. by apply D.
Qed.

Lemma NewLoadbalancerNetwork_ok e d lbId netId ip strategy reserved d' :
  fair e → inv d → plain_candidate ip →
  NewLoadbalancerNetwork e d lbId netId ip strategy reserved = Ret d' → inv d'.
Proof.
  intros [Hq Hn] [Hok Hv] Hc. unfold NewLoadbalancerNetwork.
  destruct (GetNetwork d netId) as [net|] eqn:En; [|done]. apply GetNetwork_some in En as [Hin _]. rewrite Hq.
  destruct (GetFreeIP _ _ _ _ _ _ _ _) as [[d1 free]| | |] eqn:Eg; [|done..]. cbn [obind]. intros [= <-].
  destruct (GetFreeIP_ok _ _ _ _ _ _ _ _ _ Hok Hin Hc Hn Eg) as (A & B & C & D).
  split; [|unfold virt_ok; cbn [with_lbs guestnetworks]; by rewrite B]. unfold db_ok.
  destruct (decide (free = "")) as [->|Hne].
  - tables. rewrite tab_snoc_empty by done. by rewrite <- addresses_eq.
  - rewrite addresses_add_lb by done. cbn [with_lbs networks]. rewrite A. by apply D.
Qed.

(** ** Changing the range of a network *)

Definition below_broadcast (e : string) : Prop := e ≠ "255.255.255.255".

Lemma proper_of a b n : 0 ≤ a ≤ b → b < 4294967296 → below_broadcast (addr_String b) →
  GuestIpStart n = addr_String a → GuestIpEnd n = addr_String b → Id n ≠ "" →
  proper n ∧ lo n = a ∧ hi n = b.
Proof.
  intros Hab Hb Hbb Es Ee Hid. assert (lo n = a) as El by (unfold lo; rewrite Es; apply addr_of_String; lia).
  assert (hi n = b) as Eh by (unfold hi; rewrite Ee; apply addr_of_String; lia).
  unfold proper. rewrite El, Eh. split_and!; try done; try lia.
  destruct (decide (b = 4294967295)) as [->|]; [|lia]. by destruct Hbb.
Qed.

Lemma update_addrs_ok M d self v s0 e0 s e : db_ok d → self ∈ networks d → below_broadcast e →
  update_addrs true M d self v s0 e0 = Ret (Some (s, e)) →
  ok (update_range (Id self) s e (networks d)) (addresses d).
Proof.
  intros Hok Hin Hbb. unfold update_addrs. destruct (String.eqb s0 "" && String.eqb e0 ""); [done|].
  destruct (negb _); [done|].
  assert (∀ t u k x, (if String.eqb t "" then Ret (addr_of u)
    else match NewIPV4Addr t with Ret a => Ret a | _ => Fail (InvalidIp k) end) = Ret x → addr32 x) as Hr.
  { intros t u k x. destruct (String.eqb t ""); [intros [= <-]; apply addr_of_range|].
    pose proof (addr_of_range t) as Ht. unfold addr_of in Ht. by destruct (NewIPV4Addr t); intros [= <-]. }
  destruct (if String.eqb s0 "" then _ else _) as [a| | |] eqn:Ea; [|done..]. apply Hr in Ea. cbn [obind].
  destruct (if String.eqb e0 "" then _ else _) as [b| | |] eqn:Eb; [|done..]. apply Hr in Eb. cbn [obind].
  unfold addr32 in Ea, Eb. assert (∃ x y, (if b <? a then (b, a) else (a, b)) = (x, y) ∧ 0 ≤ x ≤ y ∧ y < 4294967296)
    as (x & y & -> & Hx & Hy) by (destruct (Z.ltb_spec b a); eexists _, _; (split; [done|lia])).
  destruct (isOverlapNetworks _ x y) eqn:Eo; [done|]. destruct (negb _); [done|].
  destruct (existsb _ _) eqn:Eu; [done|]. intros [= <- <-].
  destruct (nets_proper _ _ Hok self Hin) as (_ & _ & Hid).
  destruct (proper_of x y (set_range self (addr_String x) (addr_String y)) Hx Hy Hbb eq_refl eq_refl Hid)
    as (Hp & El & Eh).
  unfold getAllNetworks in Eo. rewrite (proj2 (String.eqb_neq _ _) Hid) in Eo.
  apply ok_update; [done|done|done|by rewrite El, Eh|]. intros ip Hip. rewrite El, Eh.
  apply not_true_iff_false in Eu. rewrite existsb_exists in Eu.
  assert (ip ≠ "") as Hne by (by apply list_elem_of_filter in Hip as [? _]).
  apply (used_iff d self ip Hne) in Hip. destruct (Contains (NewIPV4AddrRange x y) (addr_of ip)) eqn:Ec.
  - unfold Contains, NewIPV4AddrRange in Ec. apply andb_prop in Ec as [E1%Z.leb_le E2%Z.leb_le].
    destruct (Z.ltb_spec x y); cbn in E1, E2; lia.
  - exfalso. apply Eu. exists ip. rewrite <- list_elem_of_In. by rewrite Ec.
Qed.

End NetworkOps.
