(* ===== verification/NetworkReach.v ===== *)
(** * Reachable databases of networks

    Requests as steps of the database, and the invariant that holds after any sequence of
    them: the ranges of the networks are disjoint and no address is used twice. *)

From S2P Require Import Prelude Netutils Networks NetworkAlloc NetworkSafety NetworkOps.
Import Netutils Networks NetworkAlloc NetworkSafety NetworkOps.
Local Open Scope Z_scope.
Local Open Scope go_scope.

Module NetworkReach.

(** ** The requests *)

Section Requests.

(** The tests of address syntax. *)
Context (MatchIP4Addr MatchIPAddr : string → bool).

(** A request that succeeds, run as one step.  Left out are the requests that the service
    accepts and that break the invariant, each of which is a theorem or a finding below:
    - a candidate or reserved address that is not written in the usual way, such as
      10.0.0.05 ([candidate_in_other_form]);
    - an allocation whose query of the used addresses fails, or whose random source is out
      of bounds ([fair], [failed_query_shares]);
    - a split that panics after it has changed the tables, and a split or a merge of a
      network that carries a load balancer ([no_lb], [split_strands_addresses]);
    - a network that ends at 255.255.255.255;
    - creations and changes of ranges that interleave.  The class lock under which a
      network is created is per project and a change locks its own network only, so that
      two of them can be validated against the same tables
      ([concurrent_creations_overlap]).  The other requests hold the lock of their network
      from reading the tables to writing them. *)
Inductive request : db → db → Prop :=
| Create l d data s e m w t n :
    ValidateCreateData MatchIP4Addr MatchIPAddr l d data = Ret (s, e, m, w, t) →
    GuestIpStart n = s → GuestIpEnd n = e → below_broadcast e → Id n ∉ (Id <$> networks d) → Id n ≠ "" →
    request d (Db (networks d ++ [n]) (guestnetworks d) (groupnetworks d) (hostnetworks d) (reservedips d)
                 (loadbalancernetworks d) (deleted_nics d))
| Update d self v s0 e0 s e :
    self ∈ networks d → update_addrs true MatchIP4Addr d self v s0 e0 = Ret (Some (s, e)) → below_broadcast e →
    request d (Db (update_range (Id self) s e (networks d)) (guestnetworks d) (groupnetworks d) (hostnetworks d)
                 (reservedips d) (loadbalancernetworks d) (deleted_nics d))
| Delete base d self : ValidateDeleteCondition base d self = Ret tt → request d (RealDelete d self)
| Purge base enabled d self d' : PerformPurge base enabled d self = Ret d' → request d d'
| GuestNic env d guestId net index address mac driver bw virtual reserved allocDir req ifn team d' gn :
    fair env → net ∈ networks d → plain_candidate address →
    newGuestNetwork env d guestId net index address mac driver bw virtual reserved allocDir req ifn team =
      Ret (d', gn) → request d d'
| DeleteNics d now gns reserve d' :
    nic_key <$> gns ⊆+ nic_key <$> guestnetworks d →
    DeleteGuestNics MatchIP4Addr now d gns reserve = Ret d' → request d d'
| HostNic env d hostId mac net ip allocDir reserved req d' :
    fair env → net ∈ networks d → plain_candidate ip →
    Attach2Network env d hostId mac net ip allocDir reserved req = Ret d' → request d d'
| DeleteHostNic d bn reserve :
    host_key bn ∈ host_key <$> hostnetworks d → request d (DeleteBaremetalnetwork MatchIP4Addr d bn reserve)
| LbNic env d lbId netId ip strategy reserved d' :
    fair env → plain_candidate ip → NewLoadbalancerNetwork env d lbId netId ip strategy reserved = Ret d' →
    request d d'
| DeleteLb d lbId reserve d' : DeleteLoadbalancerNetwork MatchIP4Addr d lbId reserve = Ret d' → request d d'
| Reserve d self ips ip notes :
    self ∈ networks d → Forall plain (default [] ips) → (∀ i, ip = Some i → plain i) →
    request d (PerformReserveIp d self ips ip notes).1
| Unreserve d self ip d' : PerformReleaseReservedIp d self ip = Ret d' → request d d'
| Split d self splitIp name new_id d' :
    self ∈ networks d → no_lb d self → plain splitIp → new_id ∉ (Id <$> networks d) → new_id ≠ "" →
    PerformSplit MatchIPAddr d self splitIp name new_id = (d', Ret tt) → request d d'
| Merge d self net d' :
    self ∈ networks d → net ∈ networks d → no_lb d self → PerformMerge d self net = Ret d' → request d d'.

Definition empty_db : db := Db [] [] [] [] [] [] [].

Lemma inv_shrink d d' : inv d → networks d' = networks d → addresses d' ⊆+ addresses d →
  guestnetworks d' ⊆+ guestnetworks d → inv d'.
Proof.
  intros [Hok Hv] En Ha Hg. split.
  - unfold db_ok. rewrite En. by eapply ok_submseteq.
  - unfold virt_ok in *. rewrite Forall_forall in *. intros r Hr. apply Hv. by eapply elem_of_submseteq.
Qed.

Lemma virt_move from to range d : virt_ok d →
  Forall (λ r, Virtual r = true → gn_IpAddr r = "") (move_rows from to range (guestnetworks d)).
Proof.
  unfold virt_ok, move_rows. intros H. apply Forall_fmap. eapply Forall_impl; [exact H|].
  intros r Hr. cbn. by case_match.
Qed.

Lemma release_ok d self ip d' : inv d → PerformReleaseReservedIp d self ip = Ret d' → inv d'.
Proof.
  intros Hinv. unfold PerformReleaseReservedIp. destruct (String.eqb ip ""); [done|].
  destruct (GetReservedIP d self ip); [|done]. intros [= <-]. apply (inv_shrink d); [done..| |done].
  tables. repeat apply submseteq_app; try done. apply tab_remove.
Qed.

Lemma merge_virt d self net d' : virt_ok d → PerformMerge d self net = Ret d' → virt_ok d'.
Proof.
  intros Hv. unfold PerformMerge. destruct (negb _ || negb _); [done|].
  destruct (if StepUp _ =? _ then _ else _) as [[s e]| | |]; [|done..]. intros [= <-]. by apply virt_move.
Qed.

Lemma request_inv d d' : request d d' → inv d → inv d'.
Proof.
  intros Hs Hinv. pose proof Hinv as [Hok Hv].
  destruct Hs as [l d data s e m w t n Hc Es Ee Hbb Hnew Hid | d self v s0 e0 s e Hin Hu Hbb | base d self Hd
    | base enabled d self d' Hd | env d ? net ? ? ? ? ? ? ? ? ? ? ? d' gn Hf Hin Hc Hg | d now gns reserve d' Hsub Hd
    | env d ? ? net ? ? ? ? d' Hf Hin Hc Hg | d bn reserve Hin | env d ? ? ? ? ? d' Hf Hc Hg | d lbId reserve d' Hd
    | d self ips ip notes Hin Hips Hip | d self ip d' Hr | d self splitIp name new_id d' Hin Hlb Hp Hnew Hid Hs
    | d self net d' Hin1 Hin2 Hlb Hm].
  - destruct (ValidateCreateData_spec _ _ _ _ _ _ _ _ _ _ Hc) as (a & b & _ & -> & -> & Hab & Hb & _ & Ho & _).
    destruct (proper_of a b n Hab Hb Hbb Es Ee Hid) as (Hp & El & Eh). split; [|done].
    apply ok_create; [done|done|done|]. by rewrite El, Eh.
  - split; [|done]. by apply (update_addrs_ok MatchIP4Addr d self v s0 e0 s e).
  - split; [|done]. by eapply ValidateDelete_ok.
  - unfold PerformPurge in Hd. destruct (ValidateDeleteCondition base d self) eqn:E; [|done..]. cbn [obind] in Hd.
    destruct enabled; [done|]. injection Hd as <-. split; [|done]. by eapply ValidateDelete_ok.
  - by eapply newGuestNetwork_ok.
  - destruct (DeleteGuestNics_ok _ _ _ _ _ _ Hsub Hd) as (A & B & C). by apply (inv_shrink d).
  - by eapply Attach2Network_ok.
  - destruct (DeleteBaremetalnetwork_ok MatchIP4Addr d bn reserve Hin) as (A & B & C).
    apply (inv_shrink d); [done..|by rewrite B].
  - by eapply NewLoadbalancerNetwork_ok.
  - apply delete_lb_rows_ok in Hd as (A & B & C). apply (inv_shrink d); [done..|by rewrite B].
  - unfold PerformReserveIp.
    assert (∀ l, Forall plain l → ∀ n, inv (reserve_loop d self n l).1) as Hl.
    { intros l Hl n. destruct (reserve_loop_ok self n l d Hok Hin Hl) as (A & B & C).
      split; [done|]. unfold virt_ok. by rewrite C. }
    destruct ips as [ips|]; [destruct notes; [by apply Hl|done]|]. destruct ip as [i|]; [|done].
    destruct notes as [n|]; [|done]. apply (Hl [i]). constructor; [by apply Hip|constructor].
  - by eapply release_ok.
  - destruct (PerformSplit_ok MatchIPAddr d self splitIp name new_id d') as [A B]; [done..|].
    split; [done|]. unfold virt_ok. by rewrite B.
  - split; [by apply (PerformMerge_ok d self net d')|by eapply merge_virt].
Qed.

Lemma inv_empty : inv empty_db.
Proof.
  split; [|by constructor]. split.
  - constructor.
  - by intros n ?%elem_of_nil.
  - by intros n1 n2 ?%elem_of_nil.
  - constructor.
  - by intros p ?%elem_of_nil.
Qed.

Lemma requests_inv d : rtc request empty_db d → inv d.
Proof.
  intros Hr. assert (∀ d1 d2, rtc request d1 d2 → inv d1 → inv d2) as H.
  { induction 1 as [|x y z Hxy _ IH]; [done|]. intros Hi. by eapply IH, request_inv. }
  eapply H; [exact Hr|exact inv_empty].
Qed.

(** C6 No address is used twice.  After any sequence of successful requests on an empty
    database, each run as one step -
    creating, changing, deleting, purging, splitting and merging networks, allocating addresses for
    guests, hosts and load balancers (designated, reserved before, or chosen by any policy), deleting interfaces with
    or without reservation, reserving and releasing - the five tables together name every
    address at most once in the whole system, each address lies in the range of the network of
    its row, and the ranges of distinct networks are disjoint.  The requests are those of
    [request], which says what it leaves out: addresses written in an unusual form, failed
    queries, splits that panic, networks with load balancers in splits and merges, ranges that end at
    255.255.255.255, and creations or changes of ranges that interleave. *)
Theorem addresses_never_shared d : rtc request empty_db d →
  NoDup (addresses d).*2 ∧
  (∀ net ip, (net, ip) ∈ addresses d →
     ∃ n, n ∈ networks d ∧ Id n = net ∧ isAddressInRange n (addr_of ip) = true) ∧
  (∀ n1 n2 a, n1 ∈ networks d → n2 ∈ networks d → isAddressInRange n1 a = true → isAddressInRange n2 a = true →
     n1 = n2).
Proof.
  intros [Hok _]%requests_inv. pose proof Hok as [H1 H2 H3 H4 H5]. split_and!; [done| |].
  - intros net ip Hp. destruct (H5 _ Hp) as (n & a & Hn & En & Ea & Ha). cbn [fst snd] in En, Ea. exists n.
    split_and!; [done|done|]. rewrite Ea, addr_of_String by
      (pose proof (lo_32 n); pose proof (hi_32 n); unfold addr32 in *; lia).
    apply in_range_iff; [by apply proper_ranged, H2|done].
  - intros n1 n2 a Hn1 Hn2 E1 E2. apply in_range_iff in E1; [|by apply proper_ranged, H2].
    apply in_range_iff in E2; [|by apply proper_ranged, H2].
    apply (net_by_id _ _ n1 n2 Hok Hn1 Hn2). destruct (decide (Id n1 = Id n2)) as [|E]; [done|].
    destruct (H3 n1 n2 Hn1 Hn2 E); lia.
Qed.

End Requests.

(** ** Capacity *)

(** The rows with an address on a network. *)
Definition on_net (d : db) (net : SNetwork) : list (string * string) :=
  filter (λ p, p.1 = Id net) (addresses d).

Definition addr_list (d : db) (net : SNetwork) : list Z := addr_of <$> (on_net d net).*2.

Section Capacity.

Context (d : db) (net : SNetwork).
Hypothesis Hok : db_ok d.
Hypothesis Hin : net ∈ networks d.

Lemma on_net_addr p : p ∈ on_net d net → p.2 = addr_String (addr_of p.2) ∧ lo net ≤ addr_of p.2 ≤ hi net.
Proof.
  intros [E Hp]%list_elem_of_filter. destruct (addrs_owned _ _ Hok p Hp) as (n & a & Hn & En & Ea & Ha).
  rewrite (net_by_id _ _ n net Hok Hn Hin ltac:(congruence)) in Ha. rewrite Ea, addr_of_String; [done|].
  pose proof (lo_32 net). pose proof (hi_32 net). unfold addr32 in *. lia.
Qed.

Lemma addr_list_NoDup : NoDup (addr_list d net).
Proof.
  apply NoDup_fmap_2_strong.
  - intros x y Hx Hy E. apply list_elem_of_fmap in Hx as (p & -> & Hp), Hy as (q & -> & Hq).
    destruct (on_net_addr p Hp) as [Ep _], (on_net_addr q Hq) as [Eq _]. congruence.
  - eapply sublist_NoDup; [exact (addrs_distinct _ _ Hok)|]. apply fmap_sublist, sublist_filter.
Qed.

Definition range_list : list Z := seqZ (lo net) (hi net - lo net + 1).

Lemma addr_list_range : addr_list d net ⊆+ range_list.
Proof.
  apply NoDup_submseteq; [exact addr_list_NoDup|]. intros a Ha. unfold addr_list in Ha.
  rewrite <- list_fmap_compose in Ha. apply list_elem_of_fmap in Ha as (p & -> & Hp).
  destruct (on_net_addr p Hp) as [_ Hr]. unfold range_list. apply elem_of_seqZ. cbn [compose]. lia.
Qed.

(** The addresses of the range that are only held back because they were released
    recently. *)
Definition resting (recent : list string) : list Z :=
  filter (λ a, addr_String a ∈ recent ∧ a ∉ addr_list d net) range_list.

Lemma resting_nil : resting [] = [].
Proof.
  unfold resting. induction range_list as [|a l IH]; [done|].
  rewrite filter_cons_False; [done|]. by intros [?%elem_of_nil _].
Qed.

Lemma blocked_NoDup recent : NoDup (addr_list d net ++ resting recent).
Proof.
  apply NoDup_app. split_and!; [exact addr_list_NoDup| |apply NoDup_filter, NoDup_seqZ].
  intros a Ha [[_ Hn] _]%list_elem_of_filter. done.
Qed.

Lemma blocked_range recent : addr_list d net ++ resting recent ⊆+ range_list.
Proof.
  apply NoDup_submseteq; [apply blocked_NoDup|]. intros a [Ha|[_ Ha]%list_elem_of_filter]%elem_of_app; [|done].
  by eapply elem_of_submseteq; [|exact addr_list_range].
Qed.

Lemma taken_iff recent a : lo net ≤ a ≤ hi net →
  taken (GetUsedAddresses true d net) recent a ↔ a ∈ addr_list d net ++ resting recent.
Proof.
  intros Ha. assert (a ∈ range_list) as Hra by (apply elem_of_seqZ; lia).
  transitivity (a ∈ addr_list d net ∨ addr_String a ∈ recent); cycle 1.
  { rewrite elem_of_app. unfold resting. rewrite list_elem_of_filter.
    destruct (decide (a ∈ addr_list d net)); naive_solver. }
  cut (addr_String a ∈ GetUsedAddresses true d net ↔ a ∈ addr_list d net); [intros H; unfold taken; by rewrite H|].
  clear Hra. assert (addr32 a) as H32 by (pose proof (lo_32 net); pose proof (hi_32 net); unfold addr32 in *; lia).
  rewrite used_iff by (by apply addr_String_nonempty). unfold addr_list.
  rewrite <- list_fmap_compose, list_elem_of_fmap. split.
  - intros Hp. exists (Id net, addr_String a). cbn [compose snd].
    rewrite addr_of_String by done. split; [done|]. by apply list_elem_of_filter.
  - intros (p & -> & Hp). destruct (on_net_addr p Hp) as [E _]. cbn [compose]. rewrite <- E.
    apply list_elem_of_filter in Hp as [Ep Hp]. rewrite <- Ep. by destruct p.
Qed.

Lemma range_length : Z.of_nat (length range_list) = GetPorts net.
Proof.
  pose proof (nets_proper _ _ Hok net Hin) as Hp. unfold GetPorts. rewrite ranged_range by (by apply proper_ranged).
  destruct Hp as [Hr _]. pose proof (lo_32 net) as Hl. unfold addr32 in Hl.
  unfold range_list, AddressCount, uint_wrap. rewrite length_seqZ. cbn [start end_]. change (2 ^ 32) with 4294967296.
  rewrite (Z.mod_small (hi net - lo net)), Z.mod_small by lia. lia.
Qed.

Lemma addr_list_length : length (addr_list d net) = length (on_net d net).
Proof. unfold addr_list. by rewrite !length_fmap. Qed.

Lemma all_taken_iff recent : (∀ a, lo net ≤ a ≤ hi net → taken (GetUsedAddresses true d net) recent a) ↔
  Z.of_nat (length (on_net d net) + length (resting recent)) = GetPorts net.
Proof.
  rewrite <- range_length, <- addr_list_length, <- length_app. split.
  - intros Hall. apply f_equal, Permutation_length.
    apply submseteq_length_Permutation; [apply blocked_range|].
    apply submseteq_length, NoDup_submseteq; [apply NoDup_seqZ|]. intros a Ha. apply elem_of_seqZ in Ha.
    apply taken_iff; [lia|]. apply Hall. lia.
  - intros E a Ha. apply taken_iff; [done|].
    rewrite (submseteq_length_Permutation _ _ (blocked_range recent)) by lia.
    apply elem_of_seqZ. lia.
Qed.

Lemma blocked_ports recent :
  Z.of_nat (length (on_net d net) + length (resting recent)) ≤ GetPorts net.
Proof.
  rewrite <- range_length, <- addr_list_length, <- length_app.
  pose proof (submseteq_length _ _ (blocked_range recent)). lia.
Qed.

End Capacity.

(** C24 The capacity of a network is exact.  In every database that the requests of
    [request] reach, at most [GetPorts] rows have an address on a network, together with
    the addresses of its range that are free but were released recently.  An allocation
    without candidate is refused exactly when these are all: as long as one address is
    neither used nor recently released, such an address is found, under every policy.
    With a reuse interval of 0 no address is held back.  The exception is the random policy
    on a network with a single address, which always panics. *)
Theorem allocation_fails_only_when_full M4 M d net Intn recent allocDir :
  rtc (request M4 M) empty_db d → net ∈ networks d → (∀ i n, 0 < n → 0 ≤ Intn i n < n) →
  let free := getFreeIP Intn net (GetUsedAddresses true d net) recent "" allocDir in
  let blocked := Z.of_nat (length (on_net d net) + length (resting d net recent)) in
  blocked ≤ GetPorts net ∧ resting d net [] = [] ∧
  (crashes net allocDir → free = Panic) ∧
  (¬ crashes net allocDir →
   (free = Fail OutOfIpAddress ↔ blocked = GetPorts net) ∧
   (blocked < GetPorts net →
    ∃ ip, free = Ret ip ∧ isAddressInRange net (addr_of ip) = true ∧ isAddressUsed d net ip = false ∧
      ip ∉ recent)).
Proof.
  intros [Hok _]%requests_inv Hin Hn free blocked.
  pose proof (proper_ranged _ (nets_proper _ _ Hok net Hin)) as Hr.
  assert (free = search_free Intn net (GetUsedAddresses true d net) recent allocDir) as Hfree by done.
  split; [by apply blocked_ports|]. split; [apply resting_nil|]. split.
  { intros [Hp Hl]. rewrite Hfree. by apply search_random_single. }
  intros Hc. rewrite Hfree.
  pose proof (search_free_spec Intn net (GetUsedAddresses true d net) recent allocDir Hr Hn
    (search_not_crashing _ _ Hr Hc)) as Hs.
  unfold blocked. pose proof (all_taken_iff d net Hok Hin recent) as Hall'. rewrite <- Hall'.
  destruct (search_free _ _ _ _ _) as [s|e| |]; [| |done..].
  - destruct Hs as (a & -> & Ha & Hf & _). split; [split; [done|by intros Hall; destruct Hf; apply Hall]|].
    intros _. exists (addr_String a). split; [done|].
    assert (0 ≤ a < 4294967296) by (pose proof (lo_32 net); pose proof (hi_32 net); unfold addr32 in *; lia).
    rewrite addr_of_String by done. split; [by apply in_range_iff|]. split.
    + apply not_true_iff_false. rewrite isAddressUsed_iff. intros Hu. apply Hf. by left.
    + intros Hrec. apply Hf. by right.
  - destruct Hs as [-> Hall]. split; [done|]. rewrite Hall' in Hall. lia.
Qed.

(** ** A run *)

Definition is_ip (s : string) : bool :=
  negb (String.eqb s "") && match NewIPV4Addr s with Ret _ => true | _ => false end.

Definition sample_env : env := Env (λ _ _, 0) (λ _, Some "00:16:3e:00:00:01") id (λ _, 0) 0 0 true 10.

Definition sample_lookups : lookups :=
  Lookups Found Found Found (λ _, Some "OneCloud") (λ _ _, Found []) (λ _, Some (Some (Vpc "available" ""))).

Definition sample_data : create_data := CreateData "10.0.0.77/24" "" "" 0 "10.0.0.1" "" "" "w1" "" "" "".

Definition n1 : SNetwork :=
  Network "n1" "net-1" "10.0.0.1" "10.0.0.254" 24 "10.0.0.1" "" "" "" 1 "w1" "guest" true "available" "p" false
    "" "" "" 0.

Definition ret_or {E A} (a : A) (o : outcome E A) : A := match o with Ret x => x | _ => a end.

(** The network with a load balancer on its last address. *)
Definition d_create : db := Db [n1] [] [] [] [] [] [].
Definition d_lb : db := ret_or d_create (NewLoadbalancerNetwork sample_env d_create "lb1" "n1" "" "" false).
Definition d_guest : db :=
  (ret_or (d_lb, Guestnetwork "" "" 0 false "" 0 "" "" "" "")
     (newGuestNetwork sample_env d_lb "vm1" n1 0 "10.0.0.5" "" "" 0 false false "stepup" true "" "")).1.

Lemma sample_fair : fair sample_env.
Proof. split; [done|]. cbn. lia. Qed.

Lemma sample_run : rtc (request is_ip is_ip) empty_db d_guest.
Proof.
  eapply rtc_l; [|eapply rtc_l; [|eapply rtc_l; [|apply rtc_refl]]].
  - apply (Create is_ip is_ip sample_lookups empty_db sample_data "10.0.0.1" "10.0.0.254" 24 "w1" "guest" n1);
      [reflexivity|reflexivity|reflexivity|done|by intros ?%elem_of_nil|done].
  - apply (LbNic is_ip is_ip sample_env _ "lb1" "n1" "" "" false d_lb); [exact sample_fair|by left|reflexivity].
  - apply (GuestNic is_ip is_ip sample_env d_lb "vm1" n1 0 "10.0.0.5" "" "" 0 false false "stepup" true "" "" d_guest
      (Guestnetwork "vm1" "n1" 0 false "virtio" 0 "00:16:3e:00:00:01" "10.0.0.5" "net1-5" "")).
    + exact sample_fair.
    + by left.
    + right. exists 167772165. split; [by unfold addr32|reflexivity].
    + vm_compute. reflexivity.
Qed.

Lemma addresses_never_shared_witness :
  (addresses d_guest).*2 = ["10.0.0.5"; "10.0.0.254"] ∧ NoDup (addresses d_guest).*2.
Proof.
  split; [vm_compute; reflexivity|].
  exact (proj1 (addresses_never_shared is_ip is_ip d_guest sample_run)).
Defined.

Lemma allocation_fails_only_when_full_witness :
  ∃ ip, getFreeIP (λ _ _, 0) n1 (GetUsedAddresses true d_guest n1) ["10.0.0.253"] "" "" = Ret ip ∧
    isAddressInRange n1 (addr_of ip) = true ∧ isAddressUsed d_guest n1 ip = false ∧ ip ∉ ["10.0.0.253"].
Proof.
  apply (allocation_fails_only_when_full is_ip is_ip d_guest n1 (λ _ _, 0) ["10.0.0.253"] "" sample_run);
    [by left|lia|by intros [? _]|].
  vm_compute. reflexivity.
Defined.

(** ** What the requests leave out *)

(** A split strands addresses.  When a network of a well-formed database is split, the
    addresses at and above the split stay with the old network in every table: the new network hands each of them out
    again when it is asked for.  The request crashes exactly when a guest, a host, a reservation or a group
    has such a row (its table is read without the manager that updates it); for a load balancer it even
    succeeds. *)
Theorem split_strands_addresses M d self splitIp name new_id d' o Intn recent allocDir :
  db_ok d → self ∈ networks d → plain splitIp → new_id ∉ (Id <$> networks d) →
  PerformSplit M d self splitIp name new_id = (d', o) → (∀ e, o ≠ Fail e) →
  (o = Panic ∨ o = Ret tt) ∧
  (o = Panic ↔ ∃ ip, (Id self, ip) ∈ pairs (guestnetworks d) ++ pairs (hostnetworks d) ++ pairs (reservedips d) ++
     pairs (groupnetworks d) ∧ addr_of splitIp ≤ addr_of ip ≤ hi self) ∧
  (∃ network, network ∈ networks d' ∧ Id network = new_id ∧
     ∀ ip, (Id self, ip) ∈ addresses d → addr_of splitIp ≤ addr_of ip →
       getFreeIP Intn network (GetUsedAddresses true d' network) recent ip allocDir = Ret ip).
Proof.
  intros Hok Hin Hsplit Hnew E Hf. pose proof Hsplit as (c0 & Hc0 & Ec0).
  destruct (PerformSplit_networks _ _ _ _ _ _ _ _ Hok Hin Hsplit E Hf)
    as (c & network & -> & Hc & Eid & Es & Ee & En & _ & Ea & _ & Eo).
  pose proof (nets_proper _ _ Hok self Hin) as [Hr _]. pose proof (lo_32 self) as Hl. unfold addr32 in Hl.
  rewrite addr_of_String by lia.
  assert (lo network = c) as El by (unfold lo; rewrite Es; apply addr_of_String; lia).
  assert (hi network = hi self) as Eh by (unfold hi; by rewrite Ee).
  assert (ranged network) as Hrn by (split; lia).
  split; [rewrite Eo; case_match; [by left|by right]|]. split.
  - transitivity (to_move (Id self) network (guestnetworks d) || to_move (Id self) network (hostnetworks d) ||
      to_move (Id self) network (reservedips d) || to_move (Id self) network (groupnetworks d) = true);
      [rewrite Eo; by case_match|].
    assert (∀ {R} `{AddrRow R} (rows : list R), to_move (Id self) network rows = true ↔
      ∃ ip, (Id self, ip) ∈ pairs rows ∧ c ≤ addr_of ip ≤ hi self) as Ht.
    { intros R HR rows. rewrite to_move_iff. setoid_rewrite in_range_iff; [|done]. rewrite El, Eh.
      setoid_rewrite elem_pairs. unfold rows_of. setoid_rewrite list_elem_of_filter. split.
      - intros (r & Hr' & E1 & E2). exists (row_ip r). split; [|done]. by exists r.
      - intros (ip & (r & [E1 Hr'] & <-) & E2). by exists r. }
    rewrite !orb_true_iff, !Ht. setoid_rewrite elem_of_app. setoid_rewrite elem_of_app. setoid_rewrite elem_of_app.
    split; [intros [[[H|H]|H]|H]; destruct H as (ip & H1 & H2); exists ip; tauto|].
    intros (ip & H1 & H2). destruct H1 as [H1|[H1|[H1|H1]]]; eauto 10.
  - exists network. split_and!; [rewrite En; apply elem_of_app; right; by left|done|]. intros ip Hip Hge.
    destruct (addrs_owned _ _ Hok _ Hip) as (n & a & Hn & En' & Ea' & Ha). cbn [fst snd] in *.
    rewrite (net_by_id _ _ n self Hok Hn Hin En') in Ha. subst ip. rewrite addr_of_String in Hge by lia.
    destruct (candidate_cases Intn network (GetUsedAddresses true d' network) recent (addr_String a) allocDir Hrn)
      as [[_ ?]|[[[_ Hno] _]|(Hno & _ & _)]]; [done| |].
    + destruct (Hno a); [apply addr_roundtrip|]; lia.
    + destruct Hno. split_and!; [apply addr_String_nonempty; lia|exists a; split; [apply addr_roundtrip; lia|lia]|].
      rewrite used_iff by (apply addr_String_nonempty; lia). rewrite Ea, Eid. intros Hu.
      destruct (addrs_owned _ _ Hok _ Hu) as (m & _ & Hm & Em & _). cbn [fst] in Em. apply Hnew. rewrite <- Em.
      by apply list_elem_of_fmap_2.
Qed.

Lemma split_strands_addresses_witness :
  ∃ network, network ∈ networks (PerformSplit is_ip d_guest n1 "10.0.0.128" "net-2" "n2").1 ∧
    Id network = "n2" ∧
    getFreeIP (λ _ _, 0) network
      (GetUsedAddresses true (PerformSplit is_ip d_guest n1 "10.0.0.128" "net-2" "n2").1 network) [] "10.0.0.254" "" =
      Ret "10.0.0.254".
Proof.
  destruct (split_strands_addresses is_ip d_guest n1 "10.0.0.128" "net-2" "n2"
    (PerformSplit is_ip d_guest n1 "10.0.0.128" "net-2" "n2").1 (Ret tt) (λ _ _, 0) [] "") as (_ & _ & n & Hn & Ei & H).
  - apply (proj1 (requests_inv is_ip is_ip d_guest sample_run)).
  - by left.
  - exists 167772288. split; [by unfold addr32|reflexivity].
  - by intros [E|E%elem_of_nil]%elem_of_cons.
  - vm_compute. reflexivity.
  - done.
  - exists n. split_and!; [done|done|]. apply H; [|by vm_compute].
    assert (addresses d_guest = [("n1", "10.0.0.5"); ("n1", "10.0.0.254")]) as -> by (vm_compute; reflexivity).
    right. by left.
Defined.

(** Creations are not atomic.  The class lock is per project, so two projects may both
    validate their data before either network is inserted: the same range is accepted
    twice, and both networks hand out the same address. *)
Lemma concurrent_creations_overlap :
  let n2 := Network "n2" "net-2" "10.0.0.1" "10.0.0.254" 24 "10.0.0.1" "" "" "" 1 "w1" "guest" true "available" "q"
              false "" "" "" 0 in
  let d := Db [n1; n2] [] [] [] [] [] [] in
  ValidateCreateData is_ip is_ip sample_lookups empty_db sample_data =
    Ret (GuestIpStart n1, GuestIpEnd n1, 24, "w1", "guest") ∧
  GuestIpStart n2 = GuestIpStart n1 ∧ GuestIpEnd n2 = GuestIpEnd n1 ∧
  getFreeIP (λ _ _, 0) n1 (GetUsedAddresses true d n1) [] "" "" = Ret "10.0.0.254" ∧
  getFreeIP (λ _ _, 0) n2 (GetUsedAddresses true d n2) [] "" "" = Ret "10.0.0.254".
Proof. vm_compute. repeat split. Qed.

(** An address written with a leading zero is not found in the table of used addresses:
    the address of the guest is given to a host as well. *)
Theorem candidate_in_other_form :
  ∃ d, Attach2Network sample_env d_guest "h1" "mac" n1 "10.0.0.05" "" false true = Ret d ∧
    hn_IpAddr <$> hostnetworks d = ["10.0.0.05"] ∧ addr_of "10.0.0.05" = addr_of "10.0.0.5" ∧
    gn_IpAddr <$> guestnetworks d = ["10.0.0.5"].
Proof. eexists. split; [vm_compute; reflexivity|]. by vm_compute. Qed.

(** When a query of used addresses fails, every address counts as free. *)
Theorem failed_query_shares :
  ∃ d, Attach2Network (Env (λ _ _, 0) (λ _, None) id (λ _, 0) 0 0 false 0) d_guest "h1" "mac" n1 "10.0.0.5" "" false true
         = Ret d ∧
    hn_IpAddr <$> hostnetworks d = ["10.0.0.5"] ∧ gn_IpAddr <$> guestnetworks d = ["10.0.0.5"].
Proof. eexists. split; [vm_compute; reflexivity|]. by vm_compute. Qed.

(** An interface without address blocks every change of the range: its empty address is
    read as 0.0.0.0. *)
Theorem virtual_nic_blocks_update :
  update_addrs true is_ip (Db [n1] [Guestnetwork "vm1" "n1" 0 true "virtio" 0 "mac" "" "" ""] [] [] [] [] []) n1
    (Vpc "available" "") "" "10.0.0.200" = Fail AddressOutOfNewRange ∧
  update_addrs true is_ip (Db [n1] [] [] [] [] [] []) n1 (Vpc "available" "") "" "10.0.0.200" =
    Ret (Some ("10.0.0.1", "10.0.0.200")).
Proof. split; vm_compute; reflexivity. Qed.

End NetworkReach.
