(* ===== verification/Tasks.v ===== *)
(** * Tasks: pkg/cloudcommon/db/taskman

    A task is a row with a name, an object, a stage and parameters.  Running it calls the
    method of its current stage.  A task may have a parent: a row of the table of subtasks links it to the stage the
    parent was in, and when the last subtask of that stage reports its result the parent is
    scheduled again.  The state below holds the three tables and the runs handed to the
    workers.  The bodies of the stage methods, the registered tasks, the models they work on and the transport to
    remote parents are parameters. *)

From Stdlib Require Import Ascii.
From S2P Require Import Prelude Rbac.
Local Open Scope Z_scope.
Local Open Scope go_scope.

Module Tasks.

Definition PARENT_TASK_ID_KEY : string := "parent_task_id".
Definition PENDING_USAGE_KEY : string := "__pending_usage__".
Definition PARENT_TASK_NOTIFY_KEY : string := "__parent_task_notifyurl".
Definition REQUEST_CONTEXT_KEY : string := "__request_context".
Definition TASK_STAGE_FAILED : string := "failed".
Definition TASK_STAGE_COMPLETE : string := "complete".
Definition MAX_REMOTE_NOTIFY_TRIES : Z := 5.
Definition MULTI_OBJECTS_ID : string := "[--MULTI_OBJECTS--]".
Definition TASK_INIT_STAGE : string := "on_init".
Definition SUBTASK_INIT : string := "init".
Definition SUBTASK_FAIL : string := "fail".
Definition SUBTASK_SUCC : string := "succ".

Record STask := Task {
  Id : string;
  ObjName : string;
  ObjId : string;
  TaskName : string;
  Params : dict;
  Stage : string;
  CreatedAt : Z }.

Record SSubTask := SubTask {
  TaskId : string;
  SubStage : string;
  SubtaskId : string;
  Status : string;
  Result : string }.

(** The tables of tasks, of subtasks and of the objects of parallel tasks, and the runs in
    the queues of the workers. *)
Record state := State {
  tasks : list STask;
  subtasks : list SSubTask;
  taskobjects : list (string * string);
  queue : list (string * option json) }.

Record AppContextData := AppContext {
  TraceZero : bool;
  RequestId : string;
  ObjectType : string;
  ObjectId : string;
  CtxTaskId : string;
  TaskNotifyUrl : string;
  ServiceName : string }.

Definition IsZero (c : AppContextData) : bool :=
  String.eqb (TaskNotifyUrl c) "" && String.eqb (CtxTaskId c) "" && String.eqb (ObjectId c) "" &&
  String.eqb (ObjectType c) "" && String.eqb (RequestId c) "" && TraceZero c && String.eqb (ServiceName c) "".

Definition nonempty (s : string) : bool := negb (String.eqb s "").

Inductive task_error := TaskNotFound | ZeroObjs.

Section Taskman.

(** The text of a JSON value, and a request context as JSON and back. *)
Context (render : json → string) (marshal_ctx : AppContextData → json) (unmarshal_ctx : json → AppContextData).

Definition GetString (j : json) : string := Rbac.GetString render j.

(** [s, _ := d.GetString(key)]. *)
Definition str (d : dict) (key : string) : string :=
  match dict_get key d with Some j => GetString j | None => "" end.

(** ** Rows *)

Definition fetchTask (st : state) (id : string) : option STask :=
  List.find (λ t, String.eqb (Id t) id) (tasks st).

Definition getTaskName (st : state) (id : string) : string :=
  match fetchTask st id with Some t => TaskName t | None => "" end.

Definition HasParentTask (self : STask) : bool := nonempty (str (Params self) PARENT_TASK_ID_KEY).

Definition GetParentTask (st : state) (self : STask) : option STask :=
  let parentTaskId := str (Params self) PARENT_TASK_ID_KEY in
  if nonempty parentTaskId then fetchTask st parentTaskId else None.

Definition with_stage (t : STask) (stage : string) (params : dict) : STask :=
  Task (Id t) (ObjName t) (ObjId t) (TaskName t) params stage (CreatedAt t).

(** [db.Update]: the stage, if the update changed it in the object, and the parameters are
    written to its row. *)
Definition save (st : state) (self self' : STask) : state :=
  State ((λ r, if String.eqb (Id r) (Id self)
               then with_stage r (if String.eqb (Stage self') (Stage self) then Stage r else Stage self') (Params self')
               else r) <$> tasks st)
    (subtasks st) (taskobjects st) (queue st).

(** ** New tasks *)

Definition fetchTaskParams (ctx : AppContextData) (taskData : option dict) (parentTaskId parentTaskNotifyUrl : string)
    (pendingUsage : option json) : dict :=
  let data := match taskData with
              | Some d => CopyExcludes d [PARENT_TASK_ID_KEY; PARENT_TASK_NOTIFY_KEY; PENDING_USAGE_KEY]
              | None => []
              end in
  let data := if IsZero ctx then data else dict_set REQUEST_CONTEXT_KEY (marshal_ctx ctx) data in
  let data :=
    if nonempty parentTaskId || nonempty parentTaskNotifyUrl then
      let data := if nonempty parentTaskId then dict_set PARENT_TASK_ID_KEY (JString parentTaskId) data else data in
      if nonempty parentTaskNotifyUrl
      then dict_set PARENT_TASK_NOTIFY_KEY (JString parentTaskNotifyUrl) data else data
    else if IsZero ctx then data
    else
      let data := if nonempty (CtxTaskId ctx) && String.eqb (TaskNotifyUrl ctx) ""
                  then dict_set PARENT_TASK_ID_KEY (JString (CtxTaskId ctx)) data else data in
      if nonempty (TaskNotifyUrl ctx)
      then dict_set PARENT_TASK_NOTIFY_KEY (JString (TaskNotifyUrl ctx)) data else data in
  match pendingUsage with Some u => dict_set PENDING_USAGE_KEY u data | None => data end.

Definition add_task (st : state) (task : STask) : state :=
  State (tasks st ++ [task]) (subtasks st) (taskobjects st) (queue st).

(** The row that links a task to the stage of its parent. *)
Definition link_parent (st : state) (task : STask) : state :=
  match GetParentTask st task with
  | Some parentTask =>
    State (tasks st) (subtasks st ++ [SubTask (Id parentTask) (Stage parentTask) (Id task) SUBTASK_INIT ""])
      (taskobjects st) (queue st)
  | None => st
  end.

(** [isTaskExist] is the test of the table of registered tasks; [id] and [now] are the identifier and
    the time of the new row. *)
Definition NewTask (isTaskExist : string → bool) (id : string) (now : Z) (st : state) (ctx : AppContextData)
    (taskName objName objId : string) (taskData : option dict) (parentTaskId parentTaskNotifyUrl : string)
    (pendingUsage : option json) : outcome task_error (state * STask) :=
  if negb (isTaskExist taskName) then Fail TaskNotFound
  else
    let data := fetchTaskParams ctx taskData parentTaskId parentTaskNotifyUrl pendingUsage in
    let task := Task id objName objId taskName data TASK_INIT_STAGE now in
    Ret (link_parent (add_task st task) task, task).

Definition NewParallelTask (isTaskExist : string → bool) (id : string) (now : Z) (st : state) (ctx : AppContextData)
    (taskName objName : string) (objIds : list string) (taskData : option dict)
    (parentTaskId parentTaskNotifyUrl : string) (pendingUsage : option json) : outcome task_error (state * STask) :=
  if negb (isTaskExist taskName) then Fail TaskNotFound
  else if (length objIds =? 0)%nat then Fail ZeroObjs
  else
    let data := fetchTaskParams ctx taskData parentTaskId parentTaskNotifyUrl pendingUsage in
    let task := Task id objName MULTI_OBJECTS_ID taskName data TASK_INIT_STAGE now in
    let st := add_task st task in
    let st := State (tasks st) (subtasks st) (taskobjects st ++ ((λ o, (id, o)) <$> objIds)) (queue st) in
    Ret (link_parent st task, task).

(** ** Subtasks (subtasks.go) *)

Definition GetSubTask (st : state) (ptaskId subtaskId : string) : option SSubTask :=
  List.find (λ r, String.eqb (TaskId r) ptaskId && String.eqb (SubtaskId r) subtaskId) (subtasks st).

Definition GetTotalSubtasks (st : state) (taskId stage status : string) : list SSubTask :=
  filter (λ r, TaskId r = taskId ∧ SubStage r = stage ∧ (status = "" ∨ Status r = status)) (subtasks st).

Definition GetInitSubtasks (st : state) (taskId stage : string) : list SSubTask :=
  GetTotalSubtasks st taskId stage SUBTASK_INIT.

(** The row of the table with the same key gets the status and the result. *)
Definition SaveResults (st : state) (row : SSubTask) (failed : bool) (result : json) : state :=
  State (tasks st)
    ((λ r, if String.eqb (TaskId r) (TaskId row) && String.eqb (SubStage r) (SubStage row) &&
              String.eqb (SubtaskId r) (SubtaskId row)
           then SubTask (TaskId r) (SubStage r) (SubtaskId r) (if failed then SUBTASK_FAIL else SUBTASK_SUCC)
                  (render result)
           else r) <$> subtasks st)
    (taskobjects st) (queue st).

Definition IsCurrentStageComplete (st : state) (self : STask) : bool :=
  (0 <? length (GetTotalSubtasks st (Id self) (Stage self) ""))%nat &&
  (length (GetInitSubtasks st (Id self) (Stage self)) =? 0)%nat.

(** ** Scheduling (worker.go) *)

(** [runTask] hands the run to a pool of workers.  [queue] is the list of the runs handed
    over, without bound: the ring of the pool holds 4 times 1024 of them, and when it is
    full [SWorkerManager.Run] drops the run with a warning and [runTask] ignores its
    result.  The ring and the pool are modelled in Ring and Workers. *)
Definition runTask (st : state) (taskId : string) (data : option json) : state :=
  if String.eqb (getTaskName st taskId) "" then st
  else State (tasks st) (subtasks st) (taskobjects st) (queue st ++ [(taskId, data)]).

Definition ScheduleRun (st : state) (task : STask) (data : option json) : state := runTask st (Id task) data.

(** ** Results *)

(** The first part of [NotifyParentTaskComplete]: the result is saved without a lock. *)
Definition notify_save (st : state) (self : STask) (body : dict) (failed : bool) : state :=
  match GetSubTask st (str (Params self) PARENT_TASK_ID_KEY) (Id self) with
  | Some subTask => SaveResults st subTask failed (JDict body)
  | None => st
  end.

(** The second part, under the lock of the parent. *)
Definition notify_check (st : state) (self : STask) (body : dict) : state :=
  match fetchTask st (str (Params self) PARENT_TASK_ID_KEY) with
  | None => st
  | Some pTask => if IsCurrentStageComplete st pTask then ScheduleRun st pTask (Some (JDict body)) else st
  end.

(** [notifyRemoteTask]: [post i body] is the answer to the [i]-th request, an error or a
    body that may be nil.  The result lists the bodies that were sent.  A failed request overwrites the body, so the
    next one has none; the text of a nil answer is taken, which panics. *)
Fixpoint notifyRemoteTask (fuel : nat) (post : Z → option json → option (option json)) (body : option json)
    (tried : Z) : list (option json) * outcome task_error unit :=
  match fuel with
  | O => ([], OutOfFuel)
  | S fuel =>
    match post tried body with
    | None =>
      if MAX_REMOTE_NOTIFY_TRIES <? tried then ([body], Ret tt)
      else let '(sent, r) := notifyRemoteTask fuel post None (tried + 1) in (body :: sent, r)
    | Some None => ([body], Panic)
    | Some (Some _) => ([body], Ret tt)
    end
  end.

(** The whole of [NotifyParentTaskComplete] without interleaving, and the requests to a
    remote parent. *)
Definition NotifyParentTaskComplete (post : string → string → Z → option json → option (option json)) (st : state)
    (self : STask) (body : dict) (failed : bool) : state * (list (option json) * outcome task_error unit) :=
  let parentTaskId := str (Params self) PARENT_TASK_ID_KEY in
  let parentTaskNotify := str (Params self) PARENT_TASK_NOTIFY_KEY in
  let st := if nonempty parentTaskId then notify_check (notify_save st self body failed) self body else st in
  if nonempty parentTaskNotify
  then (st, notifyRemoteTask 7 (post parentTaskNotify parentTaskId) (Some (JDict body)) 0)
  else (st, ([], Ret tt)).

Definition NotifyParentTaskFailure (post : string → string → Z → option json → option (option json)) (st : state)
    (self : STask) (reason : string) : state * (list (option json) * outcome task_error unit) :=
  let reason := if 100 <? Z.of_nat (String.length reason) then String.substring 0 100 reason +:+ "..." else reason in
  NotifyParentTaskComplete post st self
    [("__status__", JString "error");
     ("__reason__", JString ("Subtask " +:+ TaskName self +:+ " failed: " +:+ reason))] true.

(** [SetStage]: the stage that ends is recorded with the time; an entry of the parameters
    that is not an array panics. *)
Definition SetStage (now : json) (st : state) (self : STask) (stageName : string) (data : option dict)
  : outcome task_error (state * STask) :=
  let params := dict_update [] (Params self) in
  let params := match data with Some d => dict_update params d | None => params end in
  if nonempty stageName then
    let! stageList := match dict_get "__stages" params with
                      | None => Ret []
                      | Some (JArray l) => Ret l
                      | Some _ => Panic
                      end in
    let stageData := JDict [("name", JString (Stage self)); ("complete_at", now)] in
    let self' := with_stage self stageName (dict_set "__stages" (JArray (stageList ++ [stageData])) params) in
    Ret (save st self self', self')
  else
    let self' := with_stage self (Stage self) params in
    Ret (save st self self', self').

Definition SaveParams (now : json) (st : state) (self : STask) (data : dict) : outcome task_error (state * STask) :=
  SetStage now st self "" (Some data).

Definition GetObjectIds (st : state) (task : STask) : list string :=
  snd <$> filter (λ o, o.1 = Id task) (taskobjects st).

Definition GetObjectIdStr (st : state) (self : STask) : string :=
  if String.eqb (ObjId self) MULTI_OBJECTS_ID then join "," (GetObjectIds st self) else ObjId self.

Section Stages.

Context (post : string → string → Z → option json → option (option json)) (now : json).

Definition SetStageComplete (st : state) (self : STask) (data : option dict)
  : outcome task_error (state * STask * list (option json)) :=
  let! (st, self) := SetStage now st self TASK_STAGE_COMPLETE data in
  let data := default [] data in
  let data := match data with
              | [] => dict_set "name" (JString (ObjName self)) (dict_set "id" (JString (GetObjectIdStr st self)) [])
              | _ => data
              end in
  let '(st, (sent, r)) := NotifyParentTaskComplete post st self data false in
  let! _ := r in Ret (st, self, sent).

Definition SetStageFailed (st : state) (self : STask) (reason : string)
  : outcome task_error (state * STask * list (option json)) :=
  if String.eqb (Stage self) TASK_STAGE_FAILED then Ret (st, self, [])
  else
    let prevFailed := str (Params self) "__failed_reason" in
    let reason := if nonempty prevFailed then prevFailed +:+ ";" +:+ reason else reason in
    let! (st, self) := SetStage now st self TASK_STAGE_FAILED (Some [("__failed_reason", JString reason)]) in
    let '(st, (sent, r)) := NotifyParentTaskFailure post st self reason in
    let! _ := r in Ret (st, self, sent).

End Stages.

(** ** Pending usage and request context in the parameters *)

Definition GetPendingUsage (self : STask) : option json := dict_get PENDING_USAGE_KEY (Params self).

Definition SetPendingUsage (st : state) (self : STask) (quota : json) : state * STask :=
  let self' := with_stage self (Stage self)
                 (dict_set PENDING_USAGE_KEY quota (CopyExcludes (Params self) [PENDING_USAGE_KEY])) in
  (save st self self', self').

Definition ClearPendingUsage (st : state) (self : STask) : state * STask :=
  let self' := with_stage self (Stage self) (CopyExcludes (Params self) [PENDING_USAGE_KEY]) in
  (save st self self', self').

Definition GetRequestContext (self : STask) : AppContextData :=
  match dict_get REQUEST_CONTEXT_KEY (Params self) with
  | Some j => unmarshal_ctx j
  | None => AppContext true "" "" "" "" "" ""
  end.

Definition SaveRequestContext (st : state) (self : STask) (data : AppContextData) : state * STask :=
  let self' := with_stage self (Stage self)
                 (dict_set REQUEST_CONTEXT_KEY (marshal_ctx data) (CopyExcludes (Params self) [REQUEST_CONTEXT_KEY])) in
  (save st self self', self').

(** ** Running a stage *)

Definition to_upper (c : ascii) : ascii :=
  let n := nat_of_ascii c in if ((97 <=? n) && (n <=? 122))%nat then ascii_of_nat (n - 32) else c.

Definition Capitalize (s : string) : string :=
  match s with
  | EmptyString => ""
  | String c s => String (to_upper c) (String.string_of_list_ascii (Rbac.to_lower <$> String.list_ascii_of_string s))
  end.

(** With the separator ["_"]. *)
Definition Kebab2Camel (kebab : string) : string := foldr String.append "" (Capitalize <$> Split "_"%char kebab).

(** What a task type provides: whether it is registered, the interface it implements, its
    methods and their effect.  A stage method changes the database and the task. *)
Inductive task_kind := SingleTask | BatchTask | OtherTask.

Record task_type := TaskType {
  kind : task_kind;
  MethodByName : string → bool;
  run : string → state → STask → list string → json → state * STask }.

(** The models: [None] when the name is unknown, [Some false] when it is not a resource, and
    whether an object is found. *)
Record models := Models {
  GetModelManager : string → option bool;
  FetchById : string → string → bool }.

Section Exec.

Context (post : string → string → Z → option json → option (option json)) (now : json).
Context (taskTable : string → option task_type) (ms : models).

(** The data of a failed remote or local subtask. *)
Definition task_failed (data : option json) : bool :=
  match data with
  | Some (JDict d) => let s := str d "__status__" in nonempty s && negb (String.eqb s "OK")
  | _ => false
  end.

(** The data that is passed on; a failure without reason gets one. *)
Definition exec_data (odata : option json) : json :=
  match odata with
  | None => JDict []
  | Some (JDict d) =>
    if task_failed odata then
      match dict_get "__reason__" d with
      | Some _ => JDict d
      | None => JDict (dict_set "__reason__"
                  (JString ("Task failed due to unknown remote errors! " +:+ render (JDict d))) d)
      end
    else JDict d
  | Some j => j
  end.

(** The method of the stage: the name itself, or in camel case; [inr] is the message when there
    is none. *)
Definition stage_method (ty : task_type) (task : STask) (failed : bool) (data : json) : string + string :=
  let stageName := if failed then Stage task +:+ "Failed" else Stage task in
  if MethodByName ty stageName then inl stageName
  else
    let stageName := Kebab2Camel (if failed then Stage task +:+ "_failed" else stageName) in
    if MethodByName ty stageName then inl stageName
    else inr (if failed then GetString data else "Stage " +:+ stageName +:+ " not found").

(** [task.SetStageFailed(ctx, msg); task.SaveRequestContext(&ctxData)]. *)
Definition fail_stage (st : state) (task : STask) (msg : string) : outcome task_error (state * list (option json)) :=
  let ctxData := GetRequestContext task in
  let! (r, sent) := SetStageFailed post now st task msg in
  let '(st, task) := r in
  Ret ((SaveRequestContext st task ctxData).1, sent).

Definition execITask (ty : task_type) (st : state) (task : STask) (odata : option json) (isMulti : bool)
  : outcome task_error (state * list (option json)) :=
  let failed := task_failed odata in
  let data := exec_data odata in
  match stage_method ty task failed data with
  | inr msg => fail_stage st task msg
  | inl method =>
    match GetModelManager ms (ObjName task) with
    | None => fail_stage st task ("model " +:+ ObjName task +:+ " not found??? ...")
    | Some false => fail_stage st task ("mode " +:+ ObjName task +:+ " is not a resource??? ...")
    | Some true =>
      let objIds := if isMulti then GetObjectIds st task else [ObjId task] in
      match List.find (λ o, negb (FetchById ms (ObjName task) o)) objIds with
      | Some objId => fail_stage st task ("fail to find " +:+ ObjName task +:+ " object " +:+ objId)
      | None =>
        let ctxData := GetRequestContext task in
        let '(st, task) := run ty method st task objIds data in
        Ret ((SaveRequestContext st task ctxData).1, [])
      end
    end
  end.

Definition execTask (st : state) (taskId : string) (data : option json) : outcome task_error (state * list (option json)) :=
  match fetchTask st taskId with
  | None => Ret (st, [])
  | Some baseTask =>
    match taskTable (TaskName baseTask) with
    | None => Ret (st, [])
    | Some ty =>
      match kind ty with
      | SingleTask => execITask ty st baseTask data false
      | BatchTask => execITask ty st baseTask data true
      | OtherTask => Ret (st, [])
      end
    end
  end.

End Exec.

(** ** Tasks of an object *)

Definition is_open (t : STask) : bool :=
  negb (String.eqb (Stage t) TASK_STAGE_COMPLETE || String.eqb (Stage t) TASK_STAGE_FAILED).

Definition QueryTasksOfObject (st : state) (objName objId : string) (since : option Z) (isOpen : option bool)
  : list STask :=
  filter (λ t,
    (String.eqb (ObjName t) objName &&
     (String.eqb (ObjId t) objId ||
      String.eqb (ObjId t) MULTI_OBJECTS_ID &&
      existsb (λ o, String.eqb o.1 (Id t) && String.eqb o.2 objId) (taskobjects st)) &&
     match since with Some s => s <=? CreatedAt t | None => true end &&
     match isOpen with Some b => Bool.eqb (is_open t) b | None => true end) = true) (tasks st).

(** [IsInTask], when the query succeeds: a task of the last hour that is neither complete nor failed. *)
Definition IsInTask (now : Z) (st : state) (objName objId : string) : bool :=
  match QueryTasksOfObject st objName objId (Some (now - 3600)) (Some true) with [] => false | _ => true end.

End Taskman.

End Tasks.
