(* ===== verification/TaskProofs.v ===== *)
(** * Subtasks wake their parent: proofs about taskman

    Notifications of finished subtasks interleave: each saves its result and then, under
    the lock of the parent, checks whether the stage is complete.  The theorems say how often the
    parent is scheduled, with which data, how failures travel, and what is sent to a
    remote parent. *)

From S2P Require Import Prelude Rbac Tasks.
Import Tasks.
Local Open Scope Z_scope.
Local Open Scope go_scope.

Module TaskProofs.

Section Wake.

Context (render : json → string).
Abbreviation str := (str render).
Abbreviation notify_save := (notify_save render).
Abbreviation notify_check := (notify_check render).

(** A finished subtask that reports to its parent. *)
Record note := Note { n_task : STask; n_body : dict; n_failed : bool }.

Definition n_id (n : note) : string := Id (n_task n).

(** Notifications still to save, saved and still to check, and the database. *)
Definition config : Type := list note * list note * state.

Inductive notify_step : config → config → Prop :=
| Save t1 n t2 chk st :
    notify_step (t1 ++ n :: t2, chk, st) (t1 ++ t2, n :: chk, notify_save st (n_task n) (n_body n) (n_failed n))
| Check todo c1 n c2 st :
    notify_step (todo, c1 ++ n :: c2, st) (todo, c1 ++ c2, notify_check st (n_task n) (n_body n)).

(** ** A parent that waits for its subtasks *)

(** The rows of the parent in its stage are those of the subtasks [all]; exactly those in
    [open] have no result yet. *)
Record rows_ok (p : STask) (all open : list string) (st : state) : Prop := {
  rows_stage r : r ∈ subtasks st → TaskId r = Id p → SubtaskId r ∈ all ↔ SubStage r = Stage p;
  rows_open r : r ∈ subtasks st → TaskId r = Id p → SubStage r = Stage p →
    Status r = SUBTASK_INIT ↔ SubtaskId r ∈ open;
  rows_exist i : i ∈ all → ∃ r, r ∈ subtasks st ∧ TaskId r = Id p ∧ SubtaskId r = i }.

(** A parent in a stage in which the subtasks [ns], and no others, are registered. *)
Record waiting (p : STask) (ns : list note) (st : state) : Prop := {
  wait_found : fetchTask st (Id p) = Some p;
  wait_named : TaskName p ≠ "";
  wait_parent n : n ∈ ns → str (Params (n_task n)) PARENT_TASK_ID_KEY = Id p;
  wait_distinct : NoDup (n_id <$> ns);
  wait_rows : rows_ok p (n_id <$> ns) (n_id <$> ns) st }.

Lemma complete_iff p all open st : rows_ok p all open st → all ≠ [] →
  (∀ i, i ∈ open → i ∈ all) → IsCurrentStageComplete st p = true ↔ open = [].
Proof.
  intros [H1 H2 H3] Hne Hsub. unfold IsCurrentStageComplete, GetInitSubtasks, GetTotalSubtasks.
  rewrite andb_true_iff, Nat.ltb_lt, Nat.eqb_eq. split.
  - intros [_ Hz]. destruct open as [|i open]; [done|]. exfalso.
    destruct (H3 i) as (r & Hr & Er & Ei); [apply Hsub; by left|].
    assert (SubStage r = Stage p) as Es by (apply (H1 r Hr Er); rewrite Ei; apply Hsub; by left).
    apply nil_length_inv in Hz. apply (not_elem_of_nil r). rewrite <- Hz. apply list_elem_of_filter.
    split_and!; [done|done|right|done]. apply (H2 r Hr Er Es). rewrite Ei. by left.
  - intros ->. split.
    + destruct all as [|i all]; [done|]. destruct (H3 i) as (r & Hr & Er & Ei); [by left|].
      assert (r ∈ filter (λ r, TaskId r = Id p ∧ SubStage r = Stage p ∧ ("" = "" ∨ Status r = "")) (subtasks st)) as Hf.
      { apply list_elem_of_filter. split_and!; [done| |by left|done]. apply (H1 r Hr Er). rewrite Ei. by left. }
      destruct (filter _ _); [by apply elem_of_nil in Hf|]. cbn. lia.
    + destruct (filter _ _) as [|r l] eqn:E; [done|]. exfalso.
      assert (r ∈ r :: l) as Hr by (by left). rewrite <- E in Hr.
      apply list_elem_of_filter in Hr as [(Er & Es & [?|Ei]) Hr]; [done|].
      by apply (H2 r Hr Er Es), elem_of_nil in Ei.
Qed.

(** Saving a result closes the row of the subtask and nothing else. *)
Lemma save_rows p all open st n : rows_ok p all open st → n_id n ∈ all →
  str (Params (n_task n)) PARENT_TASK_ID_KEY = Id p →
  rows_ok p all (filter (λ i, i ≠ n_id n) open) (notify_save st (n_task n) (n_body n) (n_failed n)).
Proof.
  intros [H1 H2 H3] Hin Hp. unfold Tasks.notify_save. rewrite Hp.
  destruct (GetSubTask st (Id p) (Id (n_task n))) as [row|] eqn:Eg.
  2:{ exfalso. destruct (H3 _ Hin) as (r & Hr & Er & Ei). unfold GetSubTask in Eg.
      pose proof (List.find_none _ _ Eg r) as Hn. rewrite <- list_elem_of_In in Hn. specialize (Hn Hr).
      cbn in Hn. unfold n_id in Ei. by rewrite Er, Ei, !String.eqb_refl in Hn. }
  unfold GetSubTask in Eg. apply List.find_some in Eg as [Hrow Ek]. rewrite <- list_elem_of_In in Hrow.
  apply andb_prop in Ek as [Et%String.eqb_eq Es%String.eqb_eq]. fold (n_id n) in Es.
  assert (SubStage row = Stage p) as Est by (apply (H1 row Hrow Et); by rewrite Es).
  unfold SaveResults. rewrite Et, Est, Es.
  split; cbn [subtasks].
  - intros r' Hr' Er'. apply list_elem_of_fmap in Hr' as (r & -> & Hr). revert Er'. case_match; cbn; intros; by apply H1.
  - intros r' Hr' Er' Es'. apply list_elem_of_fmap in Hr' as (r & -> & Hr). revert Er' Es'.
    destruct (String.eqb (TaskId r) (Id p) && _ && _) eqn:Eb; cbn; intros Er' Es'.
    + apply andb_prop in Eb as [_ Ei%String.eqb_eq]. rewrite list_elem_of_filter, Ei.
      split; [by destruct (n_failed n)|by intros []].
    + rewrite list_elem_of_filter, (H2 r Hr Er' Es'). split; [|by intros []]. intros Ho. split; [|done].
      intros Ei. by rewrite Er', Es', Ei, !String.eqb_refl in Eb.
  - intros i Hi. destruct (H3 i Hi) as (r & Hr & Er & Ei).
    eexists. split; [apply list_elem_of_fmap_2, Hr|]. by case_match.
Qed.

Lemma save_keeps st self body failed :
  tasks (notify_save st self body failed) = tasks st ∧ queue (notify_save st self body failed) = queue st.
Proof. unfold Tasks.notify_save. by destruct (GetSubTask _ _ _). Qed.

(** A check schedules the parent exactly when no row is open. *)
Lemma check_wakes p all open st n : fetchTask st (Id p) = Some p → TaskName p ≠ "" → rows_ok p all open st →
  all ≠ [] → (∀ i, i ∈ open → i ∈ all) → str (Params (n_task n)) PARENT_TASK_ID_KEY = Id p →
  notify_check st (n_task n) (n_body n) =
  if bool_decide (open = []) then
    State (tasks st) (subtasks st) (taskobjects st) (queue st ++ [(Id p, Some (JDict (n_body n)))])
  else st.
Proof.
  intros Hf Hn Hrows Hne Hsub Hp. unfold Tasks.notify_check. rewrite Hp, Hf.
  pose proof (complete_iff p all open st Hrows Hne Hsub) as Hc.
  case_bool_decide as Ho.
  - rewrite (proj2 Hc Ho). unfold ScheduleRun, runTask, getTaskName. rewrite Hf.
    by rewrite (proj2 (String.eqb_neq _ _) Hn).
  - destruct (IsCurrentStageComplete st p); [|done]. by destruct Ho; apply Hc.
Qed.

(** ** Interleaved notifications *)

Definition wake (p : STask) (n : note) : string * option json := (Id p, Some (JDict (n_body n))).

Section Run.

Context (p : STask) (ns : list note) (st0 : state).
Hypothesis Hwait : waiting p ns st0.

(** [woke] are the notifications that found the stage complete. *)
Definition run_inv (c : config) : Prop :=
  let '(todo, chk, st) := c in
  tasks st = tasks st0 ∧ rows_ok p (n_id <$> ns) (n_id <$> todo) st ∧
  ∃ fin woke, todo ++ chk ++ fin ≡ₚ ns ∧ woke ⊆+ fin ∧ queue st = queue st0 ++ (wake p <$> woke) ∧
    (todo ≠ [] → woke = []) ∧ (todo = [] → ns ≠ [] → chk ≠ [] ∨ woke ≠ []).

Lemma filter_out_id t1 n t2 : NoDup (n_id <$> t1 ++ n :: t2) →
  filter (λ i, i ≠ n_id n) (n_id <$> t1 ++ n :: t2) = n_id <$> t1 ++ t2.
Proof.
  intros Hnd. assert (∀ l : list note, n_id n ∉ n_id <$> l → filter (λ i, i ≠ n_id n) (n_id <$> l) = n_id <$> l) as Hid.
  { intros l Hl. induction l as [|x l IH]; [done|]. rewrite fmap_cons in *. apply not_elem_of_cons in Hl as [Hx Hl].
    rewrite filter_cons_True by done. by rewrite IH. }
  rewrite fmap_app, fmap_cons in Hnd. apply NoDup_app in Hnd as (_ & Hd & Hnd). apply NoDup_cons in Hnd as [Hn _].
  rewrite !fmap_app, fmap_cons, filter_app, filter_cons_False by (by intros []).
  rewrite !Hid; [done|done|]. intros Hin. apply (Hd _ Hin). by left.
Qed.

Lemma run_inv_step c c' : notify_step c c' → run_inv c → run_inv c'.
Proof.
  destruct Hwait as [Wf Wn Wp Wd Wr]. intros Hs. destruct Hs as [t1 n t2 chk st|todo c1 n c2 st]; cbn [run_inv].
  - intros (Ht & Hr & fin & woke & Hperm & Hsub & Hq & Hw1 & Hw2).
    destruct (save_keeps st (n_task n) (n_body n) (n_failed n)) as [-> ->].
    assert (n ∈ ns) as Hin by (rewrite <- Hperm; apply elem_of_app; left; apply elem_of_app; right; by left).
    assert (NoDup (n_id <$> t1 ++ n :: t2)) as Hnd.
    { rewrite <- Hperm, fmap_app in Wd. by apply NoDup_app in Wd as [? _]. }
    split; [done|]. split.
    + rewrite <- (filter_out_id t1 n t2) by done. apply save_rows; [done|by apply list_elem_of_fmap_2|by apply Wp].
    + exists fin, woke. split_and!; [|done|done| |intros _ _; by left].
      * rewrite <- Hperm. cbn. rewrite <- !app_assoc. cbn. by rewrite <- !Permutation_middle.
      * intros _. apply Hw1. by destruct t1.
  - intros (Ht & Hr & fin & woke & Hperm & Hsub & Hq & Hw1 & Hw2).
    assert (n ∈ ns) as Hin.
    { rewrite <- Hperm. apply elem_of_app. right. apply elem_of_app. left. apply elem_of_app. right. by left. }
    assert (todo ++ (c1 ++ c2) ++ n :: fin ≡ₚ ns) as Hperm'.
    { rewrite <- Hperm. rewrite <- !app_assoc. cbn. by rewrite <- !Permutation_middle. }
    assert (n_id <$> ns ≠ []) as Hne by (intros E; apply fmap_nil_inv in E; subst; by apply elem_of_nil in Hin).
    rewrite (check_wakes p (n_id <$> ns) (n_id <$> todo)); [|unfold fetchTask in *; by rewrite Ht|done|done|done| |by apply Wp].
    2:{ intros i Hi. rewrite <- Hperm', fmap_app. apply elem_of_app. by left. }
    case_bool_decide as Ho.
    + apply fmap_nil_inv in Ho as ->. split; [done|]. split; [by destruct Hr|].
      exists (n :: fin), (woke ++ [n]). split_and!; [done| | |done|].
      * rewrite <- Permutation_cons_append. by apply submseteq_skip.
      * cbn [queue]. rewrite Hq, fmap_app, <- app_assoc. done.
      * intros _ _. right. by destruct woke.
    + split; [done|]. split; [done|]. exists (n :: fin), woke.
      split_and!; [done|by apply submseteq_cons|done|done|]. intros ->. done.
Qed.

Lemma run_inv_steps c : rtc notify_step (ns, [], st0) c → run_inv c.
Proof.
  intros H. assert (∀ c1 c2, rtc notify_step c1 c2 → run_inv c1 → run_inv c2) as Hind.
  { induction 1 as [|x y z Hxy _ IH]; [done|]. intros Hi. by eapply IH, run_inv_step. }
  apply (Hind _ _ H). destruct Hwait as [Wf Wn Wp Wd Wr]. split; [done|]. split; [done|].
  exists [], []. rewrite !app_nil_r. done.
Qed.

End Run.

(** C11 The last subtask wakes its parent, however notifications interleave.  While the
    result of one registered subtask is still to be saved the parent is not scheduled.  When all have been saved
    and checked it has been scheduled at least once, each time by another subtask and with the result of that
    subtask. *)
Theorem last_subtask_wakes_parent p ns st todo chk st' :
  waiting p ns st → ns ≠ [] → rtc notify_step (ns, [], st) (todo, chk, st') →
  (todo ≠ [] → queue st' = queue st) ∧
  (todo = [] → chk = [] →
   ∃ woke, woke ≠ [] ∧ woke ⊆+ ns ∧ queue st' = queue st ++ (wake p <$> woke)).
Proof.
  intros Hw Hne (_ & _ & fin & woke & Hperm & Hsub & Hq & Hw1 & Hw2)%(run_inv_steps p ns st Hw). split.
  - intros Ht. rewrite Hq, (Hw1 Ht). apply app_nil_r.
  - intros -> ->. exists woke. split_and!; [by destruct (Hw2 eq_refl Hne)| |done]. by rewrite <- Hperm.
Qed.

(** ** How often the parent is scheduled *)

Lemma save_all todo : ∀ chk st1,
  ∃ st2, rtc notify_step (todo, chk, st1) ([], rev todo ++ chk, st2) ∧ queue st2 = queue st1.
Proof.
  induction todo as [|n todo IH]; intros chk st1; [by exists st1|].
  destruct (IH (n :: chk) (notify_save st1 (n_task n) (n_body n) (n_failed n))) as (st2 & Hr & Hq).
  exists st2. split.
  - eapply rtc_l; [apply (Save [] n todo chk st1)|]. cbn [app rev]. by rewrite <- app_assoc.
  - rewrite Hq. apply (save_keeps st1 (n_task n) (n_body n) (n_failed n)).
Qed.

(** Once every result is saved, each check schedules the parent. *)
Lemma check_open p ns st n c1 c2 st1 : waiting p ns st → ns ≠ [] → run_inv p ns st ([], c1 ++ n :: c2, st1) →
  queue (notify_check st1 (n_task n) (n_body n)) = queue st1 ++ [wake p n].
Proof.
  intros [Wf Wn Wp Wd Wr] Hne (Ht & Hr & fin & woke & Hperm & _).
  rewrite (check_wakes p (n_id <$> ns) []); [done|unfold fetchTask in *; by rewrite Ht|done|done| | |].
  - intros E. by apply fmap_nil_inv in E.
  - by intros i Hi%elem_of_nil.
  - apply Wp. rewrite <- Hperm. cbn. apply elem_of_app. left. apply elem_of_app. right. by left.
Qed.

Lemma check_all p ns st : waiting p ns st → ns ≠ [] → ∀ chk st1, run_inv p ns st ([], chk, st1) →
  ∃ st2, rtc notify_step ([], chk, st1) ([], [], st2) ∧ queue st2 = queue st1 ++ (wake p <$> chk).
Proof.
  intros Hw Hne. induction chk as [|n chk IH]; intros st1 Hi; [exists st1; split; [done|by rewrite app_nil_r]|].
  pose proof (Check [] [] n chk st1) as Hs.
  destruct (IH _ (run_inv_step p ns st Hw _ _ Hs Hi)) as (st2 & Hr & Hq).
  exists st2. split; [by eapply rtc_l|]. rewrite Hq, (check_open p ns st n [] chk st1) by done.
  by rewrite <- app_assoc.
Qed.

(** The lock does not prevent double wake-ups.  Because a result is saved before the lock of
    the parent is taken, there is for every set of subtasks an interleaving in which each of them
    finds the stage complete: the next stage of the parent is scheduled as many times as
    there are subtasks. *)
Theorem parent_scheduled_by_each_subtask p ns st : waiting p ns st → ns ≠ [] →
  ∃ st', rtc notify_step (ns, [], st) ([], [], st') ∧ queue st' = queue st ++ (wake p <$> rev ns).
Proof.
  intros Hw Hne. destruct (save_all ns [] st) as (st1 & Hr1 & Hq1). rewrite app_nil_r in Hr1.
  pose proof (run_inv_steps p ns st Hw _ Hr1) as Hi.
  destruct (check_all p ns st Hw Hne _ _ Hi) as (st2 & Hr2 & Hq2).
  exists st2. split; [by etrans|]. by rewrite Hq2, Hq1.
Qed.

(** One notification after the other. *)
Fixpoint notify_each (ns : list note) (st : state) : state :=
  match ns with
  | [] => st
  | n :: ns =>
    notify_each ns (notify_check (notify_save st (n_task n) (n_body n) (n_failed n)) (n_task n) (n_body n))
  end.

Lemma notify_each_inv p ns st : waiting p ns st → ∀ todo st1, todo ≠ [] → run_inv p ns st (todo, [], st1) →
  ∃ last, list.last todo = Some last ∧ queue (notify_each todo st1) = queue st1 ++ [wake p last].
Proof.
  intros Hw. induction todo as [|n todo IH]; [done|]. intros st1 _ Hi.
  assert (ns ≠ []) as Hne.
  { intros ->. destruct Hi as (_ & _ & fin & woke & Hperm & _). by apply Permutation_nil_r in Hperm. }
  pose proof (run_inv_step p ns st Hw _ _ (Save [] n todo [] st1) Hi) as H1.
  pose proof (run_inv_step p ns st Hw _ _ (Check _ [] n [] _) H1) as H2. cbn [app] in H1, H2. cbn [notify_each].
  set (st2 := notify_save st1 (n_task n) (n_body n) (n_failed n)) in *.
  assert (queue st2 = queue st1) as Eq by apply save_keeps.
  destruct todo as [|n' todo].
  - exists n. split; [done|]. cbn [notify_each]. rewrite (check_open p ns st n [] [] st2) by done. by rewrite Eq.
  - destruct (IH _ ltac:(done) H2) as (l & El & Hq). exists l. split; [done|]. rewrite Hq. f_equal.
    destruct H1 as (_ & _ & d1 & w1 & _ & _ & Q1 & W1 & _). destruct H2 as (_ & _ & d2 & w2 & _ & _ & Q2 & W2 & _).
    rewrite <- Eq, Q1, Q2, (W1 ltac:(done)), (W2 ltac:(done)). done.
Qed.

(** Only the last result counts.  When the subtasks of a stage finish one after the
    other, the parent is scheduled exactly once, with the data of the last one: its failure
    method is chosen if and only if the last subtask failed, whatever happened to the others. *)
Theorem last_result_decides p ns st : waiting p ns st → ns ≠ [] →
  ∃ last, list.last ns = Some last ∧ queue (notify_each ns st) = queue st ++ [wake p last] ∧
    task_failed render (wake p last).2 =
      (nonempty (str (n_body last) "__status__") && negb (String.eqb (str (n_body last) "__status__") "OK")).
Proof.
  intros Hw Hne. pose proof (run_inv_steps p ns st Hw _ (rtc_refl _ _)) as Hi.
  destruct (notify_each_inv p ns st Hw ns st Hne Hi) as (l & El & Hq). by exists l.
Qed.

End Wake.

(** ** Dictionaries *)

Lemma dict_get_set k k' v d : dict_get k (dict_set k' v d) = if String.eqb k k' then Some v else dict_get k d.
Proof.
  induction d as [|[k1 v1] d IH]; cbn [dict_set dict_get]; [done|].
  destruct (String.eqb_spec k' k1) as [->|Hne]; cbn [dict_get].
  - by destruct (String.eqb k k1).
  - rewrite IH. destruct (String.eqb_spec k k1) as [->|]; [|done].
    by rewrite (proj2 (String.eqb_neq _ _) (not_eq_sym Hne)).
Qed.

Lemma dict_get_update k d : ∀ d0, NoDup d.*1 →
  dict_get k (dict_update d0 d) = match dict_get k d with Some v => Some v | None => dict_get k d0 end.
Proof.
  unfold dict_update. induction d as [|[k1 v1] d IH]; intros d0 Hnd; [done|].
  rewrite fmap_cons in Hnd. apply NoDup_cons in Hnd as [Hn Hnd]. cbn [foldl fst snd dict_get]. rewrite IH by done.
  destruct (String.eqb_spec k k1) as [->|Hne].
  - assert (dict_get k1 d = None) as ->.
    { clear -Hn. induction d as [|[k2 v2] d IH]; [done|]. rewrite fmap_cons in Hn. apply not_elem_of_cons in Hn as [H1 H2].
      cbn [dict_get]. cbn in H1. rewrite (proj2 (String.eqb_neq _ _) H1). by apply IH. }
    by rewrite dict_get_set, String.eqb_refl.
  - rewrite dict_get_set. by rewrite (proj2 (String.eqb_neq _ _) Hne).
Qed.

Lemma dict_get_excludes k d keys : dict_get k (CopyExcludes d keys) = if decide (k ∈ keys) then None else dict_get k d.
Proof.
  unfold CopyExcludes. induction d as [|[k1 v1] d IH]; [cbn; by case_decide|].
  destruct (decide (k1 ∈ keys)) as [Hin|Hin].
  - rewrite filter_cons_False by (cbn; naive_solver). rewrite IH. case_decide; [done|]. cbn [dict_get].
    destruct (String.eqb_spec k k1) as [->|]; done.
  - rewrite filter_cons_True by done. cbn [dict_get]. rewrite IH.
    destruct (String.eqb_spec k k1) as [->|]; [by rewrite decide_False|done].
Qed.

(** ** Stages *)

Section Stages.

Context (render : json → string).

(** The names of the stages that a task has left. *)
Definition name_of (j : json) : string := match Get j "name" with Some n => GetString render n | None => "" end.
Definition history (t : STask) : list string :=
  match dict_get "__stages" (Params t) with Some (JArray l) => name_of <$> l | _ => [] end.

(** The parameters are a map, and stages are recorded in an array. *)
Definition stages_ok (t : STask) : Prop :=
  NoDup (Params t).*1 ∧ match dict_get "__stages" (Params t) with None | Some (JArray _) => True | _ => False end.

Lemma save_fetch st self self' id : Id self' = Id self → fetchTask (save st self self') id =
  (λ r, if String.eqb (Id r) (Id self)
        then with_stage r (if String.eqb (Stage self') (Stage self) then Stage r else Stage self') (Params self')
        else r) <$> fetchTask st id.
Proof.
  intros _. unfold fetchTask, save. cbn [tasks]. induction (tasks st) as [|r l IH]; [done|].
  rewrite fmap_cons. cbn [List.find].
  assert (∀ x, Id (if String.eqb (Id r) (Id self) then with_stage r x (Params self') else r) = Id r) as Hid
    by (intros x; by destruct (String.eqb (Id r) (Id self))).
  rewrite Hid. destruct (String.eqb (Id r) id); [done|]. exact IH.
Qed.

Lemma save_fetch_self st self stage ps : fetchTask st (Id self) = Some self →
  fetchTask (save st self (with_stage self stage ps)) (Id self) = Some (with_stage self stage ps).
Proof.
  intros Hf. rewrite save_fetch, Hf by done. cbn. rewrite String.eqb_refl. f_equal. unfold with_stage. cbn. f_equal.
  destruct (String.eqb_spec stage (Stage self)); [done|done].
Qed.

Lemma save_fetch_other st self self' id : Id self' = Id self → id ≠ Id self →
  fetchTask (save st self self') id = fetchTask st id.
Proof.
  intros Hi Hne. rewrite save_fetch by done. destruct (fetchTask st id) as [r|] eqn:E; [|done]. cbn.
  unfold fetchTask in E. apply List.find_some in E as [_ E%String.eqb_eq]. subst id.
  by rewrite (proj2 (String.eqb_neq _ _) Hne).
Qed.

Lemma SetStage_ok now st self stage data : stages_ok self → stage ≠ "" → NoDup (default [] data).*1 →
  dict_get "__stages" (default [] data) = None →
  ∃ params, SetStage now st self stage data =
      Ret (save st self (with_stage self stage params), with_stage self stage params) ∧
    history (with_stage self stage params) = history self ++ [Stage self] ∧
    ∀ k, k ≠ "__stages" → dict_get k params =
      match dict_get k (default [] data) with Some v => Some v | None => dict_get k (Params self) end.
Proof.
  intros [Hnd Hst] Hne Hdata Hno. unfold SetStage, nonempty. rewrite (proj2 (String.eqb_neq _ _) Hne). cbn [negb].
  set (params := match data with Some d => _ | None => _ end).
  assert (∀ k, dict_get k params = match dict_get k (default [] data) with
    | Some v => Some v | None => dict_get k (Params self) end) as Hget.
  { intros k. subst params. destruct data as [d|]; cbn [default from_option id] in *; rewrite ?dict_get_update by done;
      cbn [dict_get]; by repeat case_match. }
  assert (dict_get "__stages" params = dict_get "__stages" (Params self)) as Es by (by rewrite Hget, Hno).
  rewrite Es. assert (∃ l, match dict_get "__stages" (Params self) with
      None => Ret [] | Some (JArray l) => Ret l | Some _ => @Panic task_error _ end = Ret l ∧
      name_of <$> l = history self) as (l & -> & Hl).
  { unfold history. destruct (dict_get "__stages" (Params self)) as [[]|]; try done; by eexists. }
  cbn [obind]. eexists. split; [reflexivity|]. split.
  - unfold history at 1. cbn [with_stage Params]. rewrite dict_get_set. cbn [String.eqb Ascii.eqb Bool.eqb].
    by rewrite fmap_app, Hl.
  - intros k Hk. rewrite dict_get_set, (proj2 (String.eqb_neq _ _) Hk). apply Hget.
Qed.

(** A task keeps the history of its stages.  [SetStage] to a named stage never fails on a
    task whose record of stages is an array: it moves the object and its row to the new
    stage, appends the stage that ends to the record, and keeps every other parameter or takes it from
    the data. *)
Theorem SetStage_history now st self stage data :
  stages_ok self → stage ≠ "" → NoDup (default [] data).*1 → dict_get "__stages" (default [] data) = None →
  fetchTask st (Id self) = Some self →
  ∃ st' self', SetStage now st self stage data = Ret (st', self') ∧ fetchTask st' (Id self) = Some self' ∧
    Stage self' = stage ∧ history self' = history self ++ [Stage self] ∧
    ∀ k, k ≠ "__stages" → dict_get k (Params self') =
      match dict_get k (default [] data) with Some v => Some v | None => dict_get k (Params self) end.
Proof.
  intros Hok Hne Hd Hno Hf. destruct (SetStage_ok now st self stage data Hok Hne Hd Hno) as (ps & E & Hh & Hg).
  eexists _, _. split; [exact E|]. split_and!; [|done|done|done]. by apply save_fetch_self.
Qed.

End Stages.

(** ** Parameters of a new task *)

Section NewParams.

Context (render : json → string) (marshal_ctx : AppContextData → json).

(** The parent: given by the caller, or the task of the request unless that is remote. *)
Definition parent_of (ctx : AppContextData) (parentTaskId parentNotify : string) : string :=
  if nonempty parentTaskId || nonempty parentNotify then parentTaskId
  else if nonempty (TaskNotifyUrl ctx) then "" else CtxTaskId ctx.

Definition notify_of (ctx : AppContextData) (parentTaskId parentNotify : string) : string :=
  if nonempty parentTaskId || nonempty parentNotify then parentNotify else TaskNotifyUrl ctx.

Lemma nonempty_false s : nonempty s = false ↔ s = "".
Proof. unfold nonempty. by destruct (String.eqb_spec s ""). Qed.

Lemma zero_ctx ctx : IsZero ctx = true → TaskNotifyUrl ctx = "" ∧ CtxTaskId ctx = "".
Proof. unfold IsZero. rewrite !andb_true_iff, !String.eqb_eq. tauto. Qed.

Definition reserved : list string := [PARENT_TASK_ID_KEY; PARENT_TASK_NOTIFY_KEY; PENDING_USAGE_KEY].

Lemma dict_get_set_if k (b : bool) k' v d :
  dict_get k (if b then dict_set k' v d else d) = if b && String.eqb k k' then Some v else dict_get k d.
Proof. destruct b; [apply dict_get_set|done]. Qed.

Lemma fetchTaskParams_get ctx taskData parentTaskId parentNotify pending k :
  dict_get k (fetchTaskParams marshal_ctx ctx taskData parentTaskId parentNotify pending) =
  match (if String.eqb k PENDING_USAGE_KEY then pending else None) with
  | Some u => Some u
  | None =>
    let p := parent_of ctx parentTaskId parentNotify in
    let n := notify_of ctx parentTaskId parentNotify in
    if nonempty n && String.eqb k PARENT_TASK_NOTIFY_KEY then Some (JString n)
    else if nonempty p && String.eqb k PARENT_TASK_ID_KEY then Some (JString p)
    else if negb (IsZero ctx) && String.eqb k REQUEST_CONTEXT_KEY then Some (marshal_ctx ctx)
    else if decide (k ∈ reserved) then None else dict_get k (default [] taskData)
  end.
Proof.
  set (base := match taskData with Some d => CopyExcludes d reserved | None => [] end).
  assert (dict_get k base = if decide (k ∈ reserved) then None else dict_get k (default [] taskData)) as <-.
  { subst base. destruct taskData; [apply dict_get_excludes|by case_decide]. }
  unfold fetchTaskParams. fold reserved. fold base. unfold parent_of, notify_of. cbv zeta.
  set (data := if nonempty parentTaskId || nonempty parentNotify then _ else _).
  assert (∀ o : option json, dict_get k (match o with Some u => dict_set PENDING_USAGE_KEY u data | None => data end) =
    match (if String.eqb k PENDING_USAGE_KEY then o else None) with Some u => Some u | None => dict_get k data end) as ->.
  { intros [u|]; [rewrite dict_get_set|]; by destruct (String.eqb k PENDING_USAGE_KEY). }
  destruct (if String.eqb k PENDING_USAGE_KEY then pending else None); [done|]. subst data.
  destruct (nonempty parentTaskId || nonempty parentNotify).
  - rewrite !dict_get_set_if. destruct (IsZero ctx); cbn [negb andb]; [done|]. by rewrite dict_get_set.
  - destruct (IsZero ctx) eqn:Ez.
    + destruct (zero_ctx ctx Ez) as [-> ->]. done.
    + rewrite !dict_get_set_if, dict_get_set. destruct (String.eqb_spec (TaskNotifyUrl ctx) "") as [E|E].
      * rewrite E. cbn [nonempty String.eqb negb andb]. by rewrite andb_true_r.
      * unfold nonempty at 1 3 5. rewrite (proj2 (String.eqb_neq _ _) E). cbn [negb andb].
        by rewrite andb_false_r.
Qed.

(** The data of a new task cannot name its parent.  Whatever is passed as task data, the
    parent, the address of a remote parent and the pending usage of the new task are those of the caller or of the
    request; every other parameter but the request context is taken from the data unchanged. *)
Theorem parent_not_forged ctx taskData parentTaskId parentNotify pending :
  let params := fetchTaskParams marshal_ctx ctx taskData parentTaskId parentNotify pending in
  str render params PARENT_TASK_ID_KEY = parent_of ctx parentTaskId parentNotify ∧
  str render params PARENT_TASK_NOTIFY_KEY = notify_of ctx parentTaskId parentNotify ∧
  dict_get PENDING_USAGE_KEY params = pending ∧
  ∀ k, k ∉ [PARENT_TASK_ID_KEY; PARENT_TASK_NOTIFY_KEY; PENDING_USAGE_KEY; REQUEST_CONTEXT_KEY] →
    dict_get k params = dict_get k (default [] taskData).
Proof.
  intros params. subst params. unfold str. rewrite !fetchTaskParams_get. cbv zeta.
  set (p := parent_of ctx parentTaskId parentNotify). set (n := notify_of ctx parentTaskId parentNotify).
  split_and!.
  - cbn [String.eqb Ascii.eqb Bool.eqb PARENT_TASK_ID_KEY PENDING_USAGE_KEY PARENT_TASK_NOTIFY_KEY REQUEST_CONTEXT_KEY].
    rewrite !andb_false_r, andb_true_r. destruct (nonempty p) eqn:E; [done|]. by apply nonempty_false in E.
  - cbn [String.eqb Ascii.eqb Bool.eqb PARENT_TASK_ID_KEY PENDING_USAGE_KEY PARENT_TASK_NOTIFY_KEY REQUEST_CONTEXT_KEY].
    rewrite !andb_false_r, andb_true_r. destruct (nonempty n) eqn:E; [done|]. by apply nonempty_false in E.
  - cbn [String.eqb Ascii.eqb Bool.eqb PARENT_TASK_ID_KEY PENDING_USAGE_KEY PARENT_TASK_NOTIFY_KEY REQUEST_CONTEXT_KEY].
    rewrite !andb_false_r. by destruct pending.
  - intros k Hk. rewrite fetchTaskParams_get. cbv zeta.
    rewrite !not_elem_of_cons in Hk. destruct Hk as (H1 & H2 & H3 & H4 & _).
    rewrite !(proj2 (String.eqb_neq _ _)) by done. rewrite !andb_false_r. rewrite decide_False; [done|].
    unfold reserved. rewrite !not_elem_of_cons. split_and!; try done. apply not_elem_of_nil.
Qed.

(** ** Creating subtasks *)

Lemma fetch_app st t id p : fetchTask st id = Some p → fetchTask (add_task st t) id = Some p.
Proof.
  unfold fetchTask, add_task. cbn [tasks]. induction (tasks st) as [|r l IH]; [done|]. cbn.
  by destruct (String.eqb (Id r) id).
Qed.

Lemma new_params_parent ctx data parent url pending : parent ≠ "" →
  str render (fetchTaskParams marshal_ctx ctx data parent url pending) PARENT_TASK_ID_KEY = parent.
Proof.
  intros Hne. unfold str. rewrite fetchTaskParams_get. unfold parent_of, notify_of, nonempty.
  rewrite (proj2 (String.eqb_neq _ _) Hne). cbn [negb orb andb String.eqb Ascii.eqb Bool.eqb PARENT_TASK_ID_KEY
    PENDING_USAGE_KEY PARENT_TASK_NOTIFY_KEY]. rewrite andb_false_r, (proj2 (String.eqb_neq _ _) Hne). done.
Qed.

(** A request for a subtask: the arguments of [NewTask], and what the task will report. *)
Record sub_request := SubRequest {
  q_id : string;
  q_now : Z;
  q_ctx : AppContextData;
  q_name : string;
  q_obj : string * string;
  q_data : option dict;
  q_pending : option json;
  q_body : dict;
  q_failed : bool }.

Fixpoint create_subtasks (exist : string → bool) (p : STask) (qs : list sub_request) (st : state)
  : outcome task_error (state * list note) :=
  match qs with
  | [] => Ret (st, [])
  | q :: qs =>
    let! (st, t) := NewTask render marshal_ctx exist (q_id q) (q_now q) st (q_ctx q) (q_name q) (q_obj q).1 (q_obj q).2
                      (q_data q) (Id p) "" (q_pending q) in
    let! (st, ns) := create_subtasks exist p qs st in
    Ret (st, Note t (q_body q) (q_failed q) :: ns)
  end.

(** No row names one of the identifiers yet. *)
Definition fresh_ids (ids : list string) (st : state) : Prop :=
  NoDup ids ∧ ∀ r, r ∈ subtasks st → SubtaskId r ∉ ids.

Lemma add_row p all st row : rows_ok p all all st → TaskId row = Id p → SubStage row = Stage p →
  Status row = SUBTASK_INIT → (∀ r, r ∈ subtasks st → SubtaskId r ≠ SubtaskId row) →
  rows_ok p (all ++ [SubtaskId row]) (all ++ [SubtaskId row])
    (State (tasks st) (subtasks st ++ [row]) (taskobjects st) (queue st)).
Proof.
  intros [H1 H2 H3] Ht Hs Hi Hf. split; cbn [subtasks].
  - intros r [Hr| ->%list_elem_of_singleton]%elem_of_app Er.
    + rewrite elem_of_app, list_elem_of_singleton, (H1 r Hr Er). naive_solver.
    + rewrite elem_of_app, list_elem_of_singleton. naive_solver.
  - intros r [Hr| ->%list_elem_of_singleton]%elem_of_app Er Es.
    + rewrite elem_of_app, list_elem_of_singleton, (H2 r Hr Er Es). naive_solver.
    + rewrite elem_of_app, list_elem_of_singleton. naive_solver.
  - intros i [Hin| ->%list_elem_of_singleton]%elem_of_app.
    + destruct (H3 i Hin) as (r & Hr & E). exists r. split; [|done]. apply elem_of_app. by left.
    + exists row. split_and!; [apply elem_of_app; right; by left|done|done].
Qed.

(** Creating subtasks makes the parent wait for them.  A task in a stage in which it waits
    for some subtasks, or for none, waits for exactly these and the new ones after any number of [NewTask] calls that name it
    as parent, whatever their data, contexts and names. *)
Theorem created_subtasks_are_awaited exist p qs : ∀ ns st st' ms,
  waiting render p ns st → Id p ≠ "" → fresh_ids (q_id <$> qs) st →
  create_subtasks exist p qs st = Ret (st', ms) →
  waiting render p (ns ++ ms) st' ∧ n_id <$> ms = q_id <$> qs ∧ queue st' = queue st.
Proof.
  induction qs as [|q qs IH]; intros ns st st' ms Hw Hne [Hnd Hf] E; cbn [create_subtasks] in E.
  { injection E as <- <-. by rewrite app_nil_r. }
  unfold NewTask in E. destruct (exist (q_name q)); [|done]. cbn [negb obind] in E.
  set (t := Task _ _ _ _ _ _ _) in E.
  assert (str render (Params t) PARENT_TASK_ID_KEY = Id p) as Hp by (by apply new_params_parent).
  set (st1 := State (tasks (add_task st t)) (subtasks st ++ [SubTask (Id p) (Stage p) (q_id q) SUBTASK_INIT ""])
    (taskobjects st) (queue st)).
  assert (link_parent render (add_task st t) t = st1) as El.
  { unfold link_parent, GetParentTask. rewrite Hp. unfold nonempty. rewrite (proj2 (String.eqb_neq _ _) Hne). cbn [negb].
    by rewrite (fetch_app st t (Id p) p) by (by destruct Hw). }
  rewrite El in E. destruct (create_subtasks exist p qs st1) as [[st2 ms2]| | |] eqn:E2; [|done..]. cbn [obind] in E.
  injection E as <- <-. rewrite fmap_cons in Hnd, Hf. apply NoDup_cons in Hnd as [Hq Hnd].
  destruct Hw as [Wf Wn Wp Wd Wr].
  assert (∀ r, r ∈ subtasks st → SubtaskId r ≠ q_id q) as Hnew.
  { intros r Hr Eq. apply (Hf r Hr). rewrite Eq. by left. }
  assert (waiting render p (ns ++ [Note t (q_body q) (q_failed q)]) st1) as Hw1.
  { split; [by apply fetch_app|done| |..].
    - intros n [Hn| ->%list_elem_of_singleton]%elem_of_app; [by apply Wp|done].
    - rewrite fmap_app. apply NoDup_app. split_and!; [done| |apply NoDup_singleton].
      intros i Hi ->%list_elem_of_singleton. destruct Wr as [_ _ H3]. destruct (H3 _ Hi) as (r & Hr & _ & Er).
      by apply (Hnew r Hr).
    - rewrite fmap_app. apply (add_row p (n_id <$> ns) (add_task st t) (SubTask (Id p) (Stage p) (q_id q) SUBTASK_INIT ""));
        [by destruct Wr|done..]. }
  assert (fresh_ids (q_id <$> qs) st1) as Hf1.
  { split; [done|]. intros r [Hr| ->%list_elem_of_singleton]%elem_of_app; [|done].
    intros Hin. apply (Hf r Hr). by right. }
  destruct (IH _ _ _ _ Hw1 Hne Hf1 E2) as (A & B & C).
  rewrite <- app_assoc in A. split_and!; [done| |done]. rewrite !fmap_cons, B. done.
Qed.

End NewParams.

(** ** Failures *)

Section Failure.

Context (render : json → string) (marshal_ctx : AppContextData → json) (unmarshal_ctx : json → AppContextData).
Context (post : string → string → Z → option json → option (option json)) (now : json).
Context (taskTable : string → option task_type) (ms : models).
Abbreviation execTask := (execTask render marshal_ctx unmarshal_ctx post now taskTable ms).

(** A task with a local parent that waits for it alone. *)
Record only_child (g t : STask) (st : state) : Prop := {
  child_found : fetchTask st (Id t) = Some t;
  parent_found : fetchTask st (Id g) = Some g;
  parent_named : TaskName g ≠ "";
  parent_id : str render (Params t) PARENT_TASK_ID_KEY = Id g;
  parent_local : str render (Params t) PARENT_TASK_NOTIFY_KEY = "";
  parent_nonempty : Id g ≠ "";
  parent_other : Id t ≠ Id g;
  child_row : rows_ok g [Id t] [Id t] st;
  child_stages : stages_ok t }.

Lemma exec_unhandled st t ty data : fetchTask st (Id t) = Some t → taskTable (TaskName t) = Some ty →
  kind ty ≠ OtherTask → task_failed render data = true → MethodByName ty (Stage t +:+ "Failed") = false →
  MethodByName ty (Kebab2Camel (Stage t +:+ "_failed")) = false →
  ∃ msg, execTask st (Id t) data = fail_stage render marshal_ctx unmarshal_ctx post now st t msg.
Proof.
  intros Hf Hty Hk Hd H1 H2. unfold Tasks.execTask. rewrite Hf, Hty.
  exists (GetString render (exec_data render data)).
  destruct (kind ty); [| |done]; unfold execITask, stage_method; by rewrite Hd, H1, H2.
Qed.

Lemma notify_local st g t body failed : fetchTask st (Id g) = Some g → TaskName g ≠ "" →
  str render (Params t) PARENT_TASK_ID_KEY = Id g → str render (Params t) PARENT_TASK_NOTIFY_KEY = "" → Id g ≠ "" →
  rows_ok g [Id t] [Id t] st →
  ∃ st', NotifyParentTaskComplete render post st t body failed = (st', ([], Ret tt)) ∧
    queue st' = queue st ++ [(Id g, Some (JDict body))] ∧ tasks st' = tasks st.
Proof.
  intros Hg Hn Hp Hl Hne Hr. unfold NotifyParentTaskComplete. rewrite Hp, Hl. cbn [nonempty String.eqb negb].
  unfold nonempty. rewrite (proj2 (String.eqb_neq _ _) Hne). cbn [negb].
  pose (n := Note t body failed).
  destruct (save_keeps render st t body failed) as [Et Eq].
  pose proof (save_rows render g [Id t] [Id t] st n Hr ltac:(by left) Hp) as Hr'.
  rewrite filter_cons_False in Hr' by (by intros []). change (filter _ []) with (@nil string) in Hr'.
  pose proof (check_wakes render g [Id t] [] (notify_save render st t body failed) n) as Hw.
  rewrite bool_decide_eq_true_2 in Hw by done. cbn [n n_task n_body] in Hw. eexists. split; [reflexivity|].
  rewrite Hw; [by rewrite Et, Eq|unfold fetchTask in *; by rewrite Et|done|done|done|by intros i Hi%elem_of_nil|done].
Qed.

(** C28 A failure that nobody handles travels up.  When a task that is the only subtask in
    the stage of its parent, a task of this service, is run with the data of a failure and has no method for it, it becomes failed and its
    parent is scheduled exactly once, with data that marks a failure again.  A task with siblings is left out: the
    last of them to end schedules the parent with its own data. *)
Theorem unhandled_failure_reaches_parent st g t ty data :
  only_child g t st → taskTable (TaskName t) = Some ty → kind ty ≠ OtherTask → task_failed render data = true →
  MethodByName ty (Stage t +:+ "Failed") = false → MethodByName ty (Kebab2Camel (Stage t +:+ "_failed")) = false →
  Stage t ≠ TASK_STAGE_FAILED →
  ∃ st' body, execTask st (Id t) data = Ret (st', []) ∧ queue st' = queue st ++ [(Id g, Some (JDict body))] ∧
    task_failed render (Some (JDict body)) = true ∧ Stage <$> fetchTask st' (Id t) = Some TASK_STAGE_FAILED ∧
    fetchTask st' (Id g) = Some g.
Proof.
  intros [Cf Pf Pn Pi Pl Pne Po Pr Ps] Hty Hk Hd H1 H2 Hs.
  destruct (exec_unhandled st t ty data Cf Hty Hk Hd H1 H2) as (msg & ->). unfold fail_stage, SetStageFailed.
  rewrite (proj2 (String.eqb_neq _ _) Hs). set (reason := if nonempty _ then _ else _).
  destruct (SetStage_ok render now st t TASK_STAGE_FAILED (Some [("__failed_reason", JString reason)]) Ps)
    as (ps & -> & _ & Hget); [done|cbn; apply NoDup_singleton|done|]. cbn [obind].
  set (t1 := with_stage t TASK_STAGE_FAILED ps). set (st1 := save st t t1).
  assert (fetchTask st1 (Id g) = Some g) as Pf1.
  { rewrite <- Pf. by apply save_fetch_other. }
  assert (fetchTask st1 (Id t) = Some t1) as Cf1.
  { by apply save_fetch_self. }
  unfold NotifyParentTaskFailure. set (body := [("__status__", _); _]).
  destruct (notify_local st1 g t1 body true) as (st2 & -> & Hq & Ht2); try done.
  { unfold str. cbn [t1 with_stage Params]. by rewrite Hget. }
  { unfold str. cbn [t1 with_stage Params]. by rewrite Hget. }
  { by destruct Pr. }
  cbn [obind]. eexists _, body. split; [reflexivity|]. unfold SaveRequestContext. cbn [fst].
  split_and!; [done|done| |].
  - change (Id t) with (Id t1) at 1. rewrite save_fetch_self; [done|]. unfold fetchTask in *. by rewrite Ht2.
  - rewrite save_fetch_other by done. unfold fetchTask in *. by rewrite Ht2.
Qed.

End Failure.

(** ** Remote parents *)

(** A remote parent is told at most seven times, and only the first request carries the
    result.  [notifyRemoteTask] ends after seven requests at the latest; every repeated request has no body, so the
    report of a failure that had to be repeated reads as a success. *)
Theorem retries_lose_the_body post body :
  ∃ k, fst (notifyRemoteTask 7 post body 0) = body :: replicate k None ∧ (k ≤ 6)%nat ∧
    snd (notifyRemoteTask 7 post body 0) ≠ OutOfFuel.
Proof.
  assert (∀ fuel tried, 0 ≤ tried → Z.of_nat fuel = 7 - tried → ∀ body,
    tried ≤ 6 → ∃ k, fst (notifyRemoteTask fuel post body tried) = body :: replicate k None ∧
      (k < fuel)%nat ∧ snd (notifyRemoteTask fuel post body tried) ≠ OutOfFuel) as H.
  { induction fuel as [|fuel IH]; intros tried Ht Hf b Hle; [lia|]. cbn [notifyRemoteTask].
    destruct (post tried b) as [[?|]|]; [exists 0%nat; cbn; split_and!; [done|lia|done]..|].
    unfold MAX_REMOTE_NOTIFY_TRIES. destruct (Z.ltb_spec 5 tried); [exists 0%nat; cbn; split_and!; [done|lia|done]|].
    destruct (IH (tried + 1) ltac:(lia) ltac:(lia) None ltac:(lia)) as (k & E & Hk & Hr).
    destruct (notifyRemoteTask fuel post None (tried + 1)) as [sent r]. cbn in *. exists (S k). cbn.
    split_and!; [by rewrite E|lia|done]. }
  destruct (H 7%nat 0 ltac:(lia) ltac:(lia) body ltac:(lia)) as (k & ? & ? & ?). exists k. split_and!; [done|lia|done].
Qed.

(** ** A parent with two subtasks *)

Definition plain_render (j : json) : string := "".

Definition parent_task : STask := Task "p" "server" "vm" "GuestCreateTask" [] "OnDisks" 0.
Definition sub_task (id : string) : STask :=
  Task id "disk" id "DiskCreateTask" [(PARENT_TASK_ID_KEY, JString "p")] "OnDone" 0.

Definition failed_body : dict := [("__status__", JString "error"); ("__reason__", JString "no space")].
Definition sample_notes : list note := [Note (sub_task "a") failed_body true; Note (sub_task "b") [("id", JString "b")] false].

Definition sample_state : state :=
  State [parent_task; sub_task "a"; sub_task "b"]
    [SubTask "p" "OnDisks" "a" SUBTASK_INIT ""; SubTask "p" "OnDisks" "b" SUBTASK_INIT ""] [] [].

Lemma sample_waiting : waiting plain_render parent_task sample_notes sample_state.
Proof.
  assert (["a"; "b"] = n_id <$> sample_notes) as E by done.
  assert (∀ r, r ∈ subtasks sample_state → (SubtaskId r = "a" ∨ SubtaskId r = "b") ∧ SubStage r = "OnDisks" ∧
    Status r = SUBTASK_INIT) as Hr.
  { intros r [->|[->|H%elem_of_nil]%elem_of_cons]%elem_of_cons; cbn; auto. done. }
  split; [done|done| |..].
  - by intros n [->|[->|H%elem_of_nil]%elem_of_cons]%elem_of_cons.
  - rewrite <- E. apply (bool_decide_unpack _). by vm_compute.
  - rewrite <- E. split.
    + intros r Hin _. destruct (Hr r Hin) as (Hi & Hs & _). cbn. rewrite !elem_of_cons. split; [done|]. naive_solver.
    + intros r Hin _ _. destruct (Hr r Hin) as (Hi & _ & Hs). rewrite !elem_of_cons. naive_solver.
    + intros i [->|[->|H%elem_of_nil]%elem_of_cons]%elem_of_cons; [| |done].
      * eexists. split; [by left|done].
      * eexists. split; [right; by left|done].
Qed.

Definition lone_state : state := State [parent_task] [] [] [].

Definition sample_requests : list sub_request :=
  [SubRequest "a" 1 (AppContext true "" "" "" "" "" "") "DiskCreateTask" ("disk", "d1") None None failed_body true;
   SubRequest "b" 2 (AppContext true "" "" "" "" "" "") "DiskCreateTask" ("disk", "d2") None None [] false].

Lemma created_subtasks_are_awaited_witness : ∃ st ms,
  create_subtasks plain_render (λ _, JNull) (λ _, true) parent_task sample_requests lone_state = Ret (st, ms) ∧
  waiting plain_render parent_task ms st.
Proof.
  eexists _, _. split; [reflexivity|].
  apply (created_subtasks_are_awaited plain_render (λ _, JNull) (λ _, true) parent_task sample_requests [] lone_state).
  - split; [done|done|by intros n ?%elem_of_nil|constructor|]. split.
    + by intros r ?%elem_of_nil.
    + by intros r ?%elem_of_nil.
    + by intros i ?%elem_of_nil.
  - done.
  - split; [|by intros r ?%elem_of_nil]. apply (bool_decide_unpack _). by vm_compute.
  - reflexivity.
Defined.

Lemma last_subtask_wakes_parent_witness : ∃ st',
  rtc (notify_step plain_render) (sample_notes, [], sample_state) ([], [], st') ∧
  ∃ woke, woke ≠ [] ∧ woke ⊆+ sample_notes ∧ queue st' = [] ++ (wake parent_task <$> woke).
Proof.
  eexists. assert (rtc (notify_step plain_render) (sample_notes, [], sample_state) ([], [], notify_each plain_render
    sample_notes sample_state)) as Hr.
  { eapply rtc_l; [apply (Save plain_render [] (Note (sub_task "a") failed_body true))|].
    eapply rtc_l; [apply (Check plain_render _ [] _ [])|].
    eapply rtc_l; [apply (Save plain_render [] _ [])|].
    eapply rtc_l; [apply (Check plain_render [] [] _ [])|]. apply rtc_refl. }
  split; [exact Hr|].
  exact (proj2 (last_subtask_wakes_parent plain_render parent_task sample_notes sample_state _ _ _
    sample_waiting ltac:(done) Hr) eq_refl eq_refl).
Defined.

Lemma parent_scheduled_by_each_subtask_witness : ∃ st',
  rtc (notify_step plain_render) (sample_notes, [], sample_state) ([], [], st') ∧
  fst <$> queue st' = ["p"; "p"].
Proof.
  destruct (parent_scheduled_by_each_subtask plain_render parent_task sample_notes sample_state sample_waiting
    ltac:(done)) as (st' & Hr & Hq). exists st'. by rewrite Hq.
Defined.

(** The first of the two subtasks fails, and the parent is run as if none had. *)
Lemma last_result_decides_witness :
  queue (notify_each plain_render sample_notes sample_state) = [("p", Some (JDict [("id", JString "b")]))] ∧
  task_failed plain_render (Some (JDict [("id", JString "b")])) = false.
Proof.
  destruct (last_result_decides plain_render parent_task sample_notes sample_state sample_waiting ltac:(done))
    as (l & El & Hq & _). injection El as <-. split; [exact Hq|reflexivity].
Defined.

Lemma SetStage_history_witness : ∃ st' self',
  SetStage (JInt 7) sample_state parent_task "OnNics" None = Ret (st', self') ∧ Stage self' = "OnNics" ∧
  history plain_render self' = ["OnDisks"].
Proof.
  destruct (SetStage_history plain_render (JInt 7) sample_state parent_task "OnNics" None) as (st' & self' & E & _ & Es & Hh & _).
  - split; [constructor|done].
  - done.
  - constructor.
  - done.
  - done.
  - exists st', self'. done.
Defined.

Definition no_methods : task_type := TaskType SingleTask (λ _, false) (λ _ st t _ _, (st, t)).

Definition chain_state : state :=
  State [parent_task; sub_task "a"] [SubTask "p" "OnDisks" "a" SUBTASK_INIT ""] [] [].

Lemma chain_only_child : only_child plain_render parent_task (sub_task "a") chain_state.
Proof.
  split; try done.
  - split.
    + intros r [->|H%elem_of_nil]%elem_of_cons _; [|done]. cbn. split; [done|]. intros _. by left.
    + intros r [->|H%elem_of_nil]%elem_of_cons _ _; [|done]. split; [intros _; by left|done].
    + intros i [->|H%elem_of_nil]%elem_of_cons; [|done]. eexists. split; [by left|done].
  - split; [cbn; apply NoDup_singleton|done].
Qed.

Lemma unhandled_failure_reaches_parent_witness : ∃ st' body,
  execTask plain_render (λ _, JNull) (λ _, AppContext true "" "" "" "" "" "") (λ _ _ _ _, None) (JInt 7)
    (λ _, Some no_methods) (Models (λ _, Some true) (λ _ _, true)) chain_state "a" (Some (JDict failed_body)) =
    Ret (st', []) ∧ queue st' = [("p", Some (JDict body))] ∧ task_failed plain_render (Some (JDict body)) = true.
Proof.
  destruct (unhandled_failure_reaches_parent plain_render (λ _, JNull) (λ _, AppContext true "" "" "" "" "" "")
    (λ _ _ _ _, None) (JInt 7) (λ _, Some no_methods) (Models (λ _, Some true) (λ _ _, true)) chain_state parent_task
    (sub_task "a") no_methods (Some (JDict failed_body)) chain_only_child) as (st' & body & E & Hq & Hf & _);
    [done..|]. exists st', body. done.
Defined.

End TaskProofs.
