(* ===== verification/Dhcp.v ===== *)
(** * DHCP packets: pkg/util/dhcp packet.go and helpers.go

    A packet is a list of bytes: a header of 240 bytes and options, each with a code, a
    length and a value, up to an end mark.  Addresses are byte slices of length 4 or 16, nil
    is the empty slice. *)

From Stdlib Require Import Ascii.
From S2P Require Import Prelude Rbac Ethernet Arp Netutils.
Import Ethernet.
Local Open Scope Z_scope.
Local Open Scope go_scope.

Module Dhcp.

Inductive dhcp_error := OptionNotFound | WrongSize.

Definition End_ : Z := 255.
Definition Pad : Z := 0.
Definition OptionSubnetMask : Z := 1.
Definition OptionRouter : Z := 3.
Definition OptionDomainNameServer : Z := 6.
Definition OptionHostName : Z := 12.
Definition OptionBootFileSize : Z := 13.
Definition OptionDomainName : Z := 15.
Definition OptionBroadcastAddress : Z := 28.
Definition OptionRequestedIPAddress : Z := 50.
Definition OptionIPAddressLeaseTime : Z := 51.
Definition OptionDHCPMessageType : Z := 53.
Definition OptionServerIdentifier : Z := 54.
Definition OptionRenewalTimeValue : Z := 58.
Definition OptionVendorClassIdentifier : Z := 60.
Definition OptionTFTPServerName : Z := 66.
Definition OptionBootFileName : Z := 67.
Definition OptClasslessRouteLin : Z := 121.
Definition OptClasslessRouteWin : Z := 249.
Definition BootReply : Z := 2.
Definition Offer : Z := 2.
Definition Request : Z := 3.
Definition ACK : Z := 5.
Definition NAK : Z := 6.

Definition option_ : Type := Z * bytes.

(** ** The header *)

(** [p[lo:hi]] of a packet that is long enough. *)
Definition field (p : bytes) (lo hi : nat) : bytes := take (hi - lo) (drop lo p).

(** [copy(p[lo:hi], v)] in a packet that is long enough; every packet made below has 241
    bytes or more. *)
Definition put (p : bytes) (lo hi : nat) (v : bytes) : bytes :=
  take lo p ++ take (hi - lo) v ++ drop (lo + Nat.min (hi - lo) (length v)) p.

Definition to4 (ip : bytes) : bytes := default [] (Arp.To4 ip).

Definition XId (p : bytes) : bytes := field p 4 8.
Definition Flags (p : bytes) : bytes := field p 10 12.
Definition YIAddr (p : bytes) : bytes := field p 16 20.
Definition SIAddr (p : bytes) : bytes := field p 20 24.
Definition GIAddr (p : bytes) : bytes := field p 24 28.
Definition HLen (p : bytes) : Z := default 0 (p !! 2%nat).
Definition CHAddr (p : bytes) : bytes :=
  let hLen := if 16 <? HLen p then 16 else HLen p in field p 28 (28 + Z.to_nat hLen).

Definition SetOpCode (p : bytes) (c : Z) : bytes := <[0%nat := c]> p.
Definition SetHType (p : bytes) (h : Z) : bytes := <[1%nat := h]> p.
Definition SetCHAddr (p a : bytes) : bytes := <[2%nat := uint_wrap 8 (Z.of_nat (length a))]> (put p 28 44 a).
Definition SetCookie (p cookie : bytes) : bytes := put p 236 240 cookie.
Definition SetXId (p xId : bytes) : bytes := put p 4 8 xId.
Definition SetFlags (p flags : bytes) : bytes := put p 10 12 flags.
Definition SetYIAddr (p ip : bytes) : bytes := put p 16 20 (to4 ip).
Definition SetSIAddr (p ip : bytes) : bytes := put p 20 24 (to4 ip).
Definition SetGIAddr (p ip : bytes) : bytes := put p 24 28 (to4 ip).

(** ** Options *)

Definition Options (p : bytes) : bytes := drop 240 p.

(** The loop of [ParseOptions]; every round consumes a byte at least. *)
Fixpoint parse_options (fuel : nat) (opts : bytes) (options : gmap Z bytes) : gmap Z bytes :=
  match fuel with
  | O => options
  | S fuel =>
    match opts with
    | code :: size :: rest =>
      if code =? End_ then options
      else if code =? Pad then parse_options fuel (size :: rest) options
      else if (length rest <? Z.to_nat size)%nat then options
      else parse_options fuel (drop (Z.to_nat size) rest) (<[code := take (Z.to_nat size) rest]> options)
    | _ => options
    end
  end.

Definition ParseOptions (p : bytes) : gmap Z bytes := parse_options (length (Options p)) (Options p) ∅.

(** [ParseOptions()[OptionDHCPMessageType][0]]. *)
Definition Type_ (p : bytes) : outcome dhcp_error Z :=
  match ParseOptions p !! OptionDHCPMessageType with
  | Some (t :: _) => Ret t
  | _ => Panic
  end.

(** Slices of four bytes. *)
Fixpoint chunks4 (fuel : nat) (bs : bytes) : list bytes :=
  match fuel, bs with
  | S fuel, _ :: _ => take 4 bs :: chunks4 fuel (drop 4 bs)
  | _, _ => []
  end.

Definition IPs (o : gmap Z bytes) (n : Z) : outcome dhcp_error (list bytes) :=
  match o !! n with
  | None => Fail OptionNotFound
  | Some bs =>
    if (length bs <? 4)%nat || negb (length bs mod 4 =? 0)%nat then Fail WrongSize
    else Ret (chunks4 (length bs) bs)
  end.

Definition IP (o : gmap Z bytes) (n : Z) : outcome dhcp_error bytes :=
  let! ips := IPs o n in
  match ips with [ip] => Ret ip | _ => Fail WrongSize end.

Definition NewPacket (opCode : Z) : bytes :=
  let p := make 241 in
  let p := SetOpCode p opCode in
  let p := SetHType p 1 in
  let p := SetCookie p [99; 130; 83; 99] in
  <[240%nat := End_]> p.

(** The last byte is taken for the end mark and replaced. *)
Definition AddOption (p : bytes) (o : option_) : bytes :=
  take (length p - 1) p ++ [o.1; uint_wrap 8 (Z.of_nat (length o.2))] ++ o.2 ++ [End_].

Definition StripOptions (p : bytes) : bytes := take 240 p ++ [End_].

Definition PadToMinSize (p : bytes) : bytes := if (length p <? 272)%nat then p ++ make (272 - length p) else p.

(** A duration in nanoseconds as seconds in four bytes. *)
Definition GetOptTime (d : Z) : bytes := be32 (uint_wrap 32 (Z.quot d 1000000000)).

Definition GetOptIP (ip : bytes) : bytes := to4 ip.

Definition ReplyPacket (req : bytes) (mt : Z) (serverId yIAddr : bytes) (leaseDuration : Z) (options : list option_)
  : bytes :=
  let p := NewPacket BootReply in
  let p := SetXId p (XId req) in
  let p := SetFlags p (Flags req) in
  let p := SetYIAddr p yIAddr in
  let p := SetGIAddr p (GIAddr req) in
  let p := SetCHAddr p (CHAddr req) in
  let p := AddOption p (OptionDHCPMessageType, [mt]) in
  let p := AddOption p (OptionServerIdentifier, to4 serverId) in
  let p := if 0 <? leaseDuration then AddOption p (OptionIPAddressLeaseTime, GetOptTime leaseDuration) else p in
  let p := foldl AddOption p options in
  PadToMinSize p.

(** ** Addresses and routes *)

(** [dtoi]: the digits at the front, their number and what follows; a value of [0xFFFFFF]
    or more fails. *)
Fixpoint dtoi (s : string) (n : Z) (i : nat) : option (Z * nat * string) :=
  match s with
  | String c r =>
    match Netutils.digit c with
    | Some d => if 16777215 <=? 10 * n + d then None else dtoi r (10 * n + d) (S i)
    | None => if (i =? 0)%nat then None else Some (n, i, s)
    end
  | EmptyString => if (i =? 0)%nat then None else Some (n, i, s)
  end.

Fixpoint ipv4_parts (k : nat) (first : bool) (s : string) : option bytes :=
  match k with
  | O => if String.eqb s "" then Some [] else None
  | S k =>
    rest ← (if first then Some s
            else match s with String c r => if Ascii.eqb c "."%char then Some r else None | EmptyString => None end);
    '(n, _, r) ← dtoi rest 0 0;
    if 255 <? n then None else (λ l, n :: l) <$> ipv4_parts k false r
  end.

Fixpoint first_mark (s : string) : option ascii :=
  match s with
  | EmptyString => None
  | String c s => if Ascii.eqb c "."%char || Ascii.eqb c ":"%char then Some c else first_mark s
  end.

Definition v4_mapped (ip : bytes) : bytes := replicate 10 0 ++ [255; 255] ++ ip.

(** [net.ParseIP]: sixteen bytes or nil. *)
Definition ParseIP (parseIPv6 : string → bytes) (s : string) : bytes :=
  match first_mark s with
  | Some c =>
    if Ascii.eqb c "."%char then match ipv4_parts 4 true s with Some ip => v4_mapped ip | None => [] end
    else parseIPv6 s
  | None => []
  end.

(** [tmp[1]] and [netaddr[0:netlen]] panic out of range. *)
Definition GetClasslessRoutePack (parseIPv6 : string → bytes) (snet gw : string) : outcome dhcp_error bytes :=
  let tmp := Split "/"%char snet in
  let! addr := of_opt (tmp !! 0%nat) in
  let! mask := of_opt (tmp !! 1%nat) in
  let netaddr := ParseIP parseIPv6 addr in
  let masklen := Netutils.Atoi_value mask in
  let netlen := if 0 <? Z.rem masklen 8 then Z.quot masklen 8 + 1 else Z.quot masklen 8 in
  let! netaddr := if netlen <? 4 then
                    if (netlen <? 0) || (Z.of_nat (length netaddr) <? netlen) then Panic
                    else Ret (take (Z.to_nat netlen) netaddr)
                  else Ret netaddr in
  let gwaddr := ParseIP parseIPv6 gw in
  Ret ([uint_wrap 8 masklen] ++ to4 netaddr ++ to4 gwaddr).

(** ** Replies *)

Record ResponseConfig := Config {
  OsName : string;
  ServerIP : bytes;
  ClientIP : bytes;
  Gateway : option bytes;
  Domain : string;
  LeaseTime : Z;
  RenewalTime : Z;
  BroadcastAddr : option bytes;
  Hostname : string;
  SubnetMask : option bytes;
  DNSServer : option bytes;
  Routes : list (string * string);
  BootServer : string;
  BootFile : string;
  BootBlock : Z }.

Definition GetHostname (conf : ResponseConfig) : string :=
  if String.eqb (Domain conf) "" then Hostname conf else Hostname conf +:+ "." +:+ Domain conf.

(** Byte-wise [net.IP.Equal]: the same address in the four- or the sixteen-byte form. *)
Definition ip_Equal (a b : bytes) : bool :=
  bool_decide (a = b) ||
  ((length a =? 4)%nat && bool_decide (v4_mapped a = b)) || ((length b =? 4)%nat && bool_decide (a = v4_mapped b)).

Definition has_prefix (p s : string) : bool := String.prefix p s.

Definition config_options (conf : ResponseConfig) : list option_ :=
  match SubnetMask conf with Some m => [(OptionSubnetMask, GetOptIP m)] | None => [] end ++
  match Gateway conf with Some g => [(OptionRouter, GetOptIP g)] | None => [] end ++
  (if String.eqb (Domain conf) "" then [] else [(OptionDomainName, str_bytes (Domain conf))]) ++
  match BroadcastAddr conf with Some b => [(OptionBroadcastAddress, GetOptIP b)] | None => [] end ++
  (if String.eqb (Hostname conf) "" then [] else [(OptionHostName, str_bytes (GetHostname conf))]) ++
  match DNSServer conf with Some d => [(OptionDomainNameServer, GetOptIP d)] | None => [] end.

(** The name of the operating system: configured, or guessed from the vendor class. *)
Definition reply_os (req : bytes) (conf : ResponseConfig) : string :=
  if String.eqb (OsName conf) "" &&
     bool_decide (take 5 (default [] (ParseOptions req !! OptionVendorClassIdentifier)) = str_bytes "MSFT ")
  then "win" else OsName conf.

Fixpoint route_options (parseIPv6 : string → bytes) (code : Z) (routes : list (string * string))
  : outcome dhcp_error (list option_) :=
  match routes with
  | [] => Ret []
  | (snet, gw) :: routes =>
    let! r := GetClasslessRoutePack parseIPv6 snet gw in
    let! rs := route_options parseIPv6 code routes in
    Ret ((code, r) :: rs)
  end.

(** The options that are added after the reply has been padded. *)
Definition late_options (parseIPv6 : string → bytes) (req : bytes) (conf : ResponseConfig)
  : outcome dhcp_error (list option_) :=
  let win := has_prefix "win" (String.string_of_list_ascii
               (Rbac.to_lower <$> String.list_ascii_of_string (reply_os req conf))) in
  let! routes := route_options parseIPv6 (if win then OptClasslessRouteWin else OptClasslessRouteLin) (Routes conf) in
  Ret ((if String.eqb (BootServer conf) "" then []
        else [(OptionTFTPServerName, str_bytes (BootServer conf) ++ [0])]) ++
       (if String.eqb (BootFile conf) "" then []
        else [(OptionBootFileName, str_bytes (BootFile conf) ++ [0]); (OptionBootFileSize, be16 (BootBlock conf))]) ++
       (if 0 <? RenewalTime conf then [(OptionRenewalTimeValue, GetOptTime (RenewalTime conf))] else []) ++
       routes).

Definition makeDHCPReplyPacket (parseIPv6 : string → bytes) (req : bytes) (conf : ResponseConfig) (msgType : Z)
  : outcome dhcp_error bytes :=
  let resp := ReplyPacket req msgType (ServerIP conf) (ClientIP conf) (LeaseTime conf) (config_options conf) in
  let resp := if String.eqb (BootServer conf) "" then resp
              else SetSIAddr resp (ParseIP parseIPv6 (BootServer conf)) in
  let! late := late_options parseIPv6 req conf in
  Ret (foldl AddOption resp late).

Definition MakeReplyPacket (parseIPv6 : string → bytes) (pkt : bytes) (conf : ResponseConfig)
  : outcome dhcp_error bytes :=
  let! t := Type_ pkt in
  let msgType :=
    if t =? Request then
      match IP (ParseOptions pkt) OptionRequestedIPAddress with
      | Ret reqAddr => if ip_Equal (ClientIP conf) reqAddr then ACK else NAK
      | _ => ACK
      end
    else Offer in
  makeDHCPReplyPacket parseIPv6 pkt conf msgType.

End Dhcp.
