(* ===== verification/DhcpProofs.v ===== *)
(** * DHCP options survive a packet, unless they come late: proofs about util/dhcp

    Options added to a new packet are read back; options added to a reply after padding
    are read back exactly when no padding was needed; classless routes are packed as RFC 3442
    asks only for some mask lengths. *)

From Stdlib Require Import Ascii.
From S2P Require Import Prelude Ethernet Arp Netutils Dhcp.
Import Ethernet Dhcp.
Local Open Scope Z_scope.
Local Open Scope go_scope.

Module DhcpProofs.

(** ** Parsing *)

Definition enc (o : option_) : bytes := o.1 :: uint_wrap 8 (Z.of_nat (length o.2)) :: o.2.
Definition encs (opts : list option_) : bytes := concat (enc <$> opts).

Definition valid_opt (o : option_) : Prop := o.1 ≠ Pad ∧ o.1 ≠ End_ ∧ (length o.2 ≤ 255)%nat.

(** The options as a map: the last value of a code counts. *)
Definition options_map (opts : list option_) : gmap Z bytes := foldl (λ m o, <[o.1 := o.2]> m) ∅ opts.

Lemma parse_fuel fuel1 : ∀ fuel2 opts m, (length opts ≤ fuel1)%nat → (length opts ≤ fuel2)%nat →
  parse_options fuel1 opts m = parse_options fuel2 opts m.
Proof.
  induction fuel1 as [|fuel1 IH]; intros fuel2 opts m H1 H2.
  - destruct opts; [|cbn in H1; lia]. by destruct fuel2.
  - destruct fuel2 as [|fuel2]; [destruct opts; [done|cbn in H2; lia]|]. cbn [parse_options].
    destruct opts as [|code [|size rest]]; [done..|]. cbn [length] in H1, H2. destruct (code =? End_); [done|].
    destruct (code =? Pad); [apply IH; cbn; lia|]. destruct (length rest <? Z.to_nat size)%nat; [done|].
    apply IH; rewrite length_drop; lia.
Qed.

Definition parse (opts : bytes) (m : gmap Z bytes) : gmap Z bytes := parse_options (length opts) opts m.

Lemma parse_S fuel code size rest m : parse_options (S fuel) (code :: size :: rest) m =
  if code =? End_ then m
  else if code =? Pad then parse_options fuel (size :: rest) m
  else if (length rest <? Z.to_nat size)%nat then m
  else parse_options fuel (drop (Z.to_nat size) rest) (<[code := take (Z.to_nat size) rest]> m).
Proof. reflexivity. Qed.

Lemma parse_enc o rest m : valid_opt o → parse (enc o ++ rest) m = parse rest (<[o.1 := o.2]> m).
Proof.
  intros (H1 & H2 & H3). destruct o as [code v]. cbn [fst snd] in *. unfold parse, enc. cbn [app length fst snd]. rewrite parse_S.
  rewrite (proj2 (Z.eqb_neq _ _) H1), (proj2 (Z.eqb_neq _ _) H2).
  assert (uint_wrap 8 (Z.of_nat (length v)) = Z.of_nat (length v)) as ->
    by (unfold uint_wrap; change (2 ^ 8) with 256; apply Z.mod_small; lia).
  rewrite Nat2Z.id, length_app. destruct (Nat.ltb_spec (length v + length rest) (length v)); [lia|].
  rewrite drop_app_length, take_app_length. apply parse_fuel; lia.
Qed.

Lemma parse_encs opts : ∀ rest m, Forall valid_opt opts →
  parse (encs opts ++ rest) m = parse rest (foldl (λ m o, <[o.1 := o.2]> m) m opts).
Proof.
  induction opts as [|o opts IH]; intros rest m Hv; [done|]. inversion_clear Hv as [|? ? Ho Hos].
  unfold encs. rewrite fmap_cons. cbn [concat]. rewrite <- app_assoc, parse_enc by done. by apply IH.
Qed.

Lemma parse_end rest m : parse (End_ :: rest) m = m.
Proof. unfold parse. destruct rest; done. Qed.

Lemma parse_packet h opts rest : length h = 240%nat → Forall valid_opt opts →
  ParseOptions (h ++ encs opts ++ End_ :: rest) = options_map opts.
Proof.
  intros Hh Hv. unfold ParseOptions, Options. rewrite drop_app_length' by done.
  fold (parse (encs opts ++ End_ :: rest) ∅). by rewrite parse_encs, parse_end.
Qed.

(** ** Building *)

Lemma AddOption_snoc q x o : AddOption (q ++ [x]) o = (q ++ enc o) ++ [End_].
Proof.
  unfold AddOption. rewrite length_app. cbn [length]. replace (length q + 1 - 1)%nat with (length q) by lia.
  rewrite take_app_length. unfold enc. by rewrite <- !app_assoc.
Qed.

Lemma AddOptions_snoc opts : ∀ q x, foldl AddOption (q ++ [x]) opts =
  (q ++ encs opts) ++ [match opts with [] => x | _ => End_ end].
Proof.
  induction opts as [|o opts IH]; intros q x; [by rewrite app_nil_r|]. cbn [foldl]. rewrite AddOption_snoc, IH.
  unfold encs. rewrite fmap_cons. cbn [concat]. rewrite <- !app_assoc. by destruct opts.
Qed.

Lemma AddOptions_end opts q : foldl AddOption (q ++ [End_]) opts = (q ++ encs opts) ++ [End_].
Proof. rewrite AddOptions_snoc. by destruct opts. Qed.

Lemma length_put p lo hi v : (lo ≤ hi)%nat → (hi ≤ length p)%nat → length (put p lo hi v) = length p.
Proof. intros H1 H2. unfold put. rewrite !length_app, !length_take, length_drop. lia. Qed.

Lemma put_app q r lo hi v : (lo ≤ hi)%nat → (hi ≤ length q)%nat → put (q ++ r) lo hi v = put q lo hi v ++ r.
Proof.
  intros H1 H2. unfold put. rewrite take_app_le, drop_app_le by lia. by rewrite !app_assoc.
Qed.

(** A packet with a header and the end mark. *)
Definition blank (p : bytes) : Prop := ∃ h, length h = 240%nat ∧ p = h ++ [End_].

Lemma blank_put p lo hi v : (lo ≤ hi)%nat → (hi ≤ 240)%nat → blank p → blank (put p lo hi v).
Proof.
  intros H1 H2 (h & Hh & ->). rewrite put_app by lia. eexists. split; [|done]. rewrite length_put; lia.
Qed.

Lemma blank_insert p (i : nat) x : (i < 240)%nat → blank p → blank (<[i := x]> p).
Proof.
  intros Hi (h & Hh & ->). rewrite insert_app_l by lia. eexists. split; [|done]. by rewrite length_insert.
Qed.

Lemma blank_new op : blank (NewPacket op).
Proof.
  unfold NewPacket. set (p := SetCookie _ _).
  assert (length p = 241%nat) as Hl.
  { reflexivity. }
  exists (take 240 p). split; [rewrite length_take; lia|].
  rewrite <- (take_drop 240 p) at 1. assert (∃ x, drop 240 p = [x]) as [x ->].
  { assert (length (drop 240 p) = 1%nat) as Hd by (rewrite length_drop; lia).
    destruct (drop 240 p) as [|x [|]]; [done|by exists x|done]. }
  rewrite insert_app_r_alt by (rewrite length_take; lia). rewrite length_take.
  replace (240 - Nat.min 240 (length p))%nat with 0%nat by lia. done.
Qed.

Lemma length_encs opts : length (encs opts) = sum_list_with (λ o, S (S (length o.2))) opts.
Proof.
  unfold encs. induction opts as [|o opts IH]; [done|]. rewrite fmap_cons. cbn [concat sum_list_with].
  rewrite length_app, IH. done.
Qed.

(** C39 DHCP options survive a packet.  Whatever options are added to a new packet, with codes
    other than the marks and values of at most 255 bytes, parsing the padded packet yields exactly
    them, the last value for a code that was added twice. *)
Theorem options_roundtrip op opts : Forall valid_opt opts →
  ParseOptions (PadToMinSize (foldl AddOption (NewPacket op) opts)) = options_map opts.
Proof.
  intros Hv. destruct (blank_new op) as (h & Hh & ->). rewrite AddOptions_end. unfold PadToMinSize.
  case_match; rewrite <- !app_assoc; by apply parse_packet.
Qed.

Lemma options_roundtrip_witness :
  ParseOptions (PadToMinSize (foldl AddOption (NewPacket 2) [(53, [5]); (1, [255; 255; 255; 0]); (53, [2])])) =
  {[1 := [255; 255; 255; 0]; 53 := [2]]}.
Proof.
  rewrite options_roundtrip; [by vm_compute|]. by repeat constructor; vm_compute.
Defined.

(** ** Replies *)

Definition early_options (conf : ResponseConfig) (mt : Z) : list option_ :=
  [(OptionDHCPMessageType, [mt]); (OptionServerIdentifier, to4 (ServerIP conf))] ++
  (if 0 <? LeaseTime conf then [(OptionIPAddressLeaseTime, GetOptTime (LeaseTime conf))] else []) ++
  config_options conf.

(** The size of the reply before it is padded. *)
Definition reply_size (conf : ResponseConfig) (mt : Z) : nat := (241 + length (encs (early_options conf mt)))%nat.

(** The header of a reply. *)
Definition reply_header (req : bytes) (conf : ResponseConfig) : bytes :=
  SetCHAddr (SetGIAddr (SetYIAddr (SetFlags (SetXId (NewPacket BootReply) (XId req)) (Flags req)) (ClientIP conf))
    (GIAddr req)) (CHAddr req).

Lemma reply_blank req conf : blank (reply_header req conf).
Proof.
  unfold reply_header, SetCHAddr, SetGIAddr, SetYIAddr, SetFlags, SetXId. apply blank_insert; [lia|].
  repeat (apply blank_put; [lia|lia|]). apply blank_new.
Qed.

Lemma ReplyPacket_eq req conf mt :
  ReplyPacket req mt (ServerIP conf) (ClientIP conf) (LeaseTime conf) (config_options conf) =
  PadToMinSize (foldl AddOption (reply_header req conf) (early_options conf mt)).
Proof.
  unfold ReplyPacket, early_options. rewrite !foldl_app. by destruct (0 <? LeaseTime conf).
Qed.

(** The reply before the late options: a header of 240 bytes, the early options, the end mark and the
    padding. *)
Lemma reply_shape h opts : length h = 240%nat →
  PadToMinSize ((h ++ encs opts) ++ [End_]) =
  h ++ encs opts ++ End_ :: make (272 - (241 + length (encs opts))).
Proof.
  intros Hh. unfold PadToMinSize. rewrite !length_app, Hh. cbn [length].
  replace (240 + length (encs opts) + 1)%nat with (241 + length (encs opts))%nat by lia.
  destruct (Nat.ltb_spec (241 + length (encs opts)) 272) as [|Hge]; rewrite <- !app_assoc; [done|].
  by replace (272 - (241 + length (encs opts)))%nat with 0%nat by lia.
Qed.

(** Options that are added to it are read back exactly when there is no padding. *)
Lemma late_added h early late : length h = 240%nat → Forall valid_opt early → Forall valid_opt late →
  ParseOptions (foldl AddOption (h ++ encs early ++ End_ :: make (272 - (241 + length (encs early)))) late) =
  options_map (early ++ if (272 <=? 241 + length (encs early))%nat then late else []).
Proof.
  intros Hh He Hl. destruct (Nat.leb_spec 272 (241 + length (encs early))) as [Hge|Hlt].
  - replace (272 - (241 + length (encs early)))%nat with 0%nat by lia.
    rewrite app_assoc, AddOptions_end, <- !app_assoc.
    assert (encs early ++ encs late ++ [End_] = encs (early ++ late) ++ [End_]) as ->.
    { unfold encs. rewrite fmap_app, concat_app. by rewrite <- app_assoc. }
    apply parse_packet; [done|]. by apply Forall_app.
  - rewrite app_nil_r. set (k := (272 - (241 + length (encs early)))%nat) in *.
    assert (make k = make (k - 1) ++ [0]) as ->.
    { unfold make. replace k with (k - 1 + 1)%nat at 1 by lia. by rewrite replicate_add. }
    change (End_ :: make (k - 1) ++ [0]) with ((End_ :: make (k - 1)) ++ [0]). rewrite !app_assoc, AddOptions_snoc.
    rewrite <- !app_assoc. cbn [app]. by apply parse_packet.
Qed.

Lemma length_to4 ip : (length (to4 ip) ≤ 4)%nat.
Proof. unfold to4. destruct (Arp.To4 ip) eqn:E; [|cbn; lia]. apply Arp.To4_length in E. cbn. lia. Qed.

(** Names short enough for an option. *)
Definition names_fit (conf : ResponseConfig) : Prop :=
  (String.length (Domain conf) ≤ 255)%nat ∧ (String.length (GetHostname conf) ≤ 255)%nat ∧
  (String.length (BootServer conf) ≤ 254)%nat ∧ (String.length (BootFile conf) ≤ 254)%nat.

Ltac one_option := apply Forall_singleton; split_and!; [done|done|cbn [snd]; rewrite ?length_str_bytes, ?length_app].

Lemma early_valid conf mt : names_fit conf → Forall valid_opt (early_options conf mt).
Proof.
  intros (H1 & H2 & _). unfold early_options, config_options, GetOptIP. pose proof length_to4 as H4.
  apply Forall_cons. split; [split_and!; [done|done|cbn; lia]|].
  apply Forall_cons. split; [split_and!; [done|done|cbn [snd]; pose proof (H4 (ServerIP conf)); lia]|].
  cbn [app]. repeat apply Forall_app_2.
  - case_match; [|constructor]. one_option. cbn. lia.
  - destruct (SubnetMask conf) as [b|]; [|constructor]. one_option. pose proof (H4 b). lia.
  - destruct (Gateway conf) as [b|]; [|constructor]. one_option. pose proof (H4 b). lia.
  - case_match; [constructor|]. one_option. lia.
  - destruct (BroadcastAddr conf) as [b|]; [|constructor]. one_option. pose proof (H4 b). lia.
  - case_match; [constructor|]. one_option. lia.
  - destruct (DNSServer conf) as [b|]; [|constructor]. one_option. pose proof (H4 b). lia.
Qed.

Lemma routes_valid p6 code routes l : code ≠ Pad → code ≠ End_ →
  route_options p6 code routes = Ret l → Forall valid_opt l.
Proof.
  intros Hp He. revert l. induction routes as [|[snet gw] routes IH]; intros l; cbn [route_options]; [by intros [= <-]|].
  destruct (GetClasslessRoutePack p6 snet gw) as [r| | |] eqn:Er; [|done..]. cbn [obind].
  destruct (route_options p6 code routes) as [rs| | |]; [|done..]. cbn [obind]. intros [= <-].
  apply Forall_cons. split; [|by apply IH]. split_and!; [done|done|]. cbn [snd].
  unfold GetClasslessRoutePack in Er. destruct (Split _ snet !! 0%nat); [|done]. destruct (Split _ snet !! 1%nat); [|done].
  cbn [of_opt obind] in Er. destruct (if _ <? 4 then _ else _) as [na| | |]; [|done..]. cbn [obind] in Er. injection Er as <-.
  cbn [app length]. rewrite length_app. pose proof (length_to4 na). pose proof (length_to4 (ParseIP p6 gw)). lia.
Qed.

Lemma late_valid p6 req conf late : names_fit conf → late_options p6 req conf = Ret late → Forall valid_opt late.
Proof.
  intros (_ & _ & H3 & H4). unfold late_options. set (code := if has_prefix _ _ then _ else _).
  assert (code ≠ Pad ∧ code ≠ End_) as [Hp He] by (subst code; by case_match).
  destruct (route_options p6 code (Routes conf)) as [rs| | |] eqn:Er; [|done..]. cbn [obind]. intros [= <-].
  apply routes_valid in Er; [|done..]. repeat apply Forall_app_2; [| | |done].
  - case_match; [constructor|]. one_option. cbn. rewrite length_str_bytes. lia.
  - case_match; [constructor|]. apply Forall_cons. split; [|one_option; cbn; lia].
    split_and!; [done|done|]. cbn [snd]. rewrite length_app, length_str_bytes. cbn. lia.
  - case_match; [|constructor]. one_option. cbn. lia.
Qed.

(** The options of a reply.  A client that parses a reply finds the message type, the
    server, the lease and the configured mask, router, domain, broadcast address, host name and name
    server.  The boot server and file, the renewal time and the routes, which are added after the packet has been padded to 272
    bytes, are found exactly when no padding was needed: otherwise they lie behind the end
    mark. *)
Theorem reply_options p6 req conf mt late : names_fit conf → late_options p6 req conf = Ret late →
  ∃ resp, makeDHCPReplyPacket p6 req conf mt = Ret resp ∧
    ParseOptions resp =
      options_map (early_options conf mt ++ if (272 <=? reply_size conf mt)%nat then late else []).
Proof.
  intros Hn El. pose proof (early_valid conf mt Hn) as He. pose proof (late_valid _ _ _ _ Hn El) as Hl.
  unfold makeDHCPReplyPacket. rewrite El. cbn [obind]. eexists. split; [reflexivity|].
  rewrite ReplyPacket_eq. destruct (reply_blank req conf) as (h & Hh & ->). rewrite AddOptions_end, reply_shape by done.
  destruct (String.eqb (BootServer conf) ""); [by apply late_added|].
  unfold SetSIAddr. rewrite put_app by lia. apply late_added; [|done|done]. rewrite length_put; lia.
Qed.

Definition pxe_config : ResponseConfig :=
  Config "" [10; 0; 0; 1] [10; 0; 0; 9] None "" 0 0 None "" (Some [255; 255; 255; 0]) None [] "10.0.0.1" "pxelinux.0" 8.

(** A reply to a machine that boots from the network: the boot file is lost. *)
Lemma reply_options_witness : ∃ resp,
  makeDHCPReplyPacket (λ _, []) (NewPacket 1) pxe_config Offer = Ret resp ∧
  ParseOptions resp = {[53 := [2]; 54 := [10; 0; 0; 1]; 1 := [255; 255; 255; 0]]} ∧
  ParseOptions resp !! OptionBootFileName = None.
Proof.
  destruct (reply_options (λ _, []) (NewPacket 1) pxe_config Offer
    [(OptionTFTPServerName, str_bytes "10.0.0.1" ++ [0]); (OptionBootFileName, str_bytes "pxelinux.0" ++ [0]);
     (OptionBootFileSize, [0; 8])]) as (resp & E & H).
  - split_and!; vm_compute; lia.
  - reflexivity.
  - exists resp. rewrite H. split; [exact E|]. split; by vm_compute.
Defined.

(** ** Routes *)

(** RFC 3442: the mask length, its significant octets, the router. *)
Definition rfc_route (k : Z) (ip gw : bytes) : bytes := [k] ++ take (Z.to_nat ((k + 7) / 8)) ip ++ gw.

(** A classless route is packed as RFC 3442 asks exactly when its mask length is 0 or
    greater than 24.  For the lengths in between the octets of the network are missing, because the sixteen-byte form
    of the address is cut, so that a client reads the router as network. *)
Theorem route_pack_correct_iff p6 snet gw a m ip gwip k :
  Split "/"%char snet = [a; m] → ParseIP p6 a = v4_mapped ip → ParseIP p6 gw = v4_mapped gwip →
  length ip = 4%nat → length gwip = 4%nat → Netutils.Atoi_value m = k → 0 ≤ k ≤ 32 →
  GetClasslessRoutePack p6 snet gw = Ret (rfc_route k ip gwip) ↔ k = 0 ∨ 24 < k.
Proof.
  intros Hs Ha Hg Hi Hgi Hk Hr. unfold GetClasslessRoutePack. rewrite Hs. cbn [lookup list_lookup of_opt obind].
  rewrite Ha, Hg, Hk.
  assert (∀ x, length x = 4%nat → to4 (v4_mapped x) = x) as H4.
  { intros x Hx. unfold to4, Arp.To4, v4_mapped. rewrite !length_app, length_replicate, Hx. cbn. by rewrite bool_decide_eq_true_2. }
  assert (length (v4_mapped ip) = 16%nat) as Hl by (unfold v4_mapped; rewrite !length_app, Hi; done).
  set (netlen := if 0 <? Z.rem k 8 then _ else _).
  assert (netlen = (k + 7) / 8) as Hn.
  { subst netlen. rewrite Z.rem_mod_nonneg, Z.quot_div_nonneg by lia.
    pose proof (Z.div_mod k 8 ltac:(lia)). pose proof (Z.mod_pos_bound k 8 ltac:(lia)).
    pose proof (Z.div_mod (k + 7) 8 ltac:(lia)). pose proof (Z.mod_pos_bound (k + 7) 8 ltac:(lia)).
    destruct (Z.ltb_spec 0 (k mod 8)); lia. }
  assert (uint_wrap 8 k = k) as -> by (unfold uint_wrap; change (2 ^ 8) with 256; apply Z.mod_small; lia).
  rewrite Hn. unfold rfc_route. pose proof (Z.div_mod (k + 7) 8 ltac:(lia)). pose proof (Z.mod_pos_bound (k + 7) 8 ltac:(lia)).
  destruct (Z.ltb_spec ((k + 7) / 8) 4) as [Hlt|Hge]; cycle 1.
  - cbn [obind]. rewrite !H4 by done. rewrite take_ge by lia. split; [lia|done].
  - rewrite Hl. destruct (Z.ltb_spec ((k + 7) / 8) 0); [lia|].
    destruct (Z.ltb_spec (Z.of_nat 16) ((k + 7) / 8)); [lia|]. cbn [orb obind]. rewrite H4 by done.
    assert (to4 (take (Z.to_nat ((k + 7) / 8)) (v4_mapped ip)) = []) as ->.
    { unfold to4, Arp.To4. rewrite length_take, Hl. destruct (Nat.eqb_spec (Nat.min (Z.to_nat ((k + 7) / 8)) 16) 4); [lia|].
      destruct (Nat.eqb_spec (Nat.min (Z.to_nat ((k + 7) / 8)) 16) 16); [lia|]. done. }
    cbn [app]. split.
    + intros [= E]. left. apply (f_equal length) in E. rewrite length_app, length_take in E. lia.
    + intros [->|]; [done|lia].
Qed.

Lemma route_pack_correct_iff_witness :
  GetClasslessRoutePack (λ _, []) "10.1.0.0/16" "10.0.0.1" = Ret [16; 10; 0; 0; 1] ∧
  GetClasslessRoutePack (λ _, []) "10.1.0.0/16" "10.0.0.1" ≠ Ret (rfc_route 16 [10; 1; 0; 0] [10; 0; 0; 1]).
Proof.
  split; [by vm_compute|]. intros E.
  apply (route_pack_correct_iff (λ _, []) "10.1.0.0/16" "10.0.0.1" "10.1.0.0" "16" [10; 1; 0; 0] [10; 0; 0; 1] 16) in E;
    [lia|by vm_compute..|lia].
Defined.

End DhcpProofs.
