(* ===== verification/Tftp.v ===== *)
(** * The TFTP server: pkg/util/tftp/tftp.go

    A transfer sends numbered blocks over a connected socket and waits for the
    acknowledgement of each before the next.  The socket is a list of events that reads
    return, in order, with a list of which writes fail; when the lists are exhausted every read
    times out and every write succeeds.  Reading a file may fail after its bytes. *)

From stdpp Require Import pretty.
From S2P Require Import Prelude Ethernet Netutils.
Import Ethernet.
Local Open Scope Z_scope.
Local Open Scope go_scope.

Module Tftp.

Inductive tftp_error :=
| NoString
| InvalidByte
| NotRRQ
| UnsupportedMode
| NonInteger
| UnsupportedBlockSize
| NoSocket
| NoFile
| FileError
| SocketError
| ClientAborted
| TimeoutWaiting.

Definition DefaultWriteAttempts : Z := 5.
Definition DefaultBlockSize : Z := 1450.
Definition maxErrorSize : nat := 500.

(** ** Requests *)

Record rrq := RRQ { Filename : bytes; BlockSize : Z; WantSize : bool }.

(** A null-terminated string of printable characters, and what follows. *)
Fixpoint tftpStr (bs : bytes) : outcome tftp_error (bytes * bytes) :=
  match bs with
  | [] => Fail NoString
  | b :: bs =>
    if b =? 0 then Ret ([], bs)
    else if (b <? 32) || (126 <? b) then Fail InvalidByte
    else let! (s, rest) := tftpStr bs in Ret (b :: s, rest)
  end.

(** The loop over the options; an option takes two bytes at least. *)
Fixpoint parse_opts (fuel : nat) (bs : bytes) (req : rrq) : outcome tftp_error rrq :=
  match bs with
  | [] => Ret req
  | _ =>
    match fuel with
    | O => OutOfFuel
    | S fuel =>
      let! (opt, bs) := tftpStr bs in
      let! (val, bs) := tftpStr bs in
      if bool_decide (opt = str_bytes "blksize") then
        match Netutils.Atoi (bytes_str val) with
        | None => Fail NonInteger
        | Some size =>
          if (size <? 8) || (65464 <? size) then Fail UnsupportedBlockSize
          else parse_opts fuel bs (RRQ (Filename req) size (WantSize req))
        end
      else
        parse_opts fuel bs
          (if bool_decide (opt = str_bytes "tsize") then RRQ (Filename req) (BlockSize req) true else req)
    end
  end.

Definition parseRRQ (bs : bytes) : outcome tftp_error rrq :=
  if (length bs <? 6)%nat || negb (bool_decide (take 2 bs = [0; 1])) then Fail NotRRQ
  else
    let! (fname, bs) := tftpStr (drop 2 bs) in
    let! (mode, bs) := tftpStr bs in
    if negb (bool_decide (mode = str_bytes "octet")) then Fail UnsupportedMode
    else parse_opts (length bs) bs (RRQ fname 0 false).

(** ** Packets *)

(** [tftpError] on a message of ASCII characters. *)
Definition error_char (b : Z) : bytes :=
  if (32 <=? b) && (b <=? 126) then [b] else if b =? 13 then [] else if b =? 10 then [13; 10] else [63].

Definition tftpError (msg : bytes) : bytes :=
  [0; 5; 0; 0] ++ mjoin (error_char <$> take maxErrorSize msg) ++ [0].

Definition data_packet (seq : Z) (block : bytes) : bytes := [0; 3] ++ be16 seq ++ block.

(** ** Sending a packet *)

Inductive read_event := ReadTimeout | ReadError | Recv (pkt : bytes).

Inductive wait_result := Acked | TimedOut | Stopped (e : tftp_error).

(** What a transfer does on its socket: the packets that leave and the reads. *)
Inductive io := Sent (pkt : bytes) | Read (ev : read_event).

(** The inner loop of [send]: reads until the acknowledgement, a time-out or an error. *)
Fixpoint wait_ack (seq : Z) (reads : list read_event) : list io * wait_result * list read_event :=
  match reads with
  | [] => ([Read ReadTimeout], TimedOut, [])
  | ev :: reads =>
    let '(log, r, rest) :=
      match ev with
      | ReadTimeout => ([], TimedOut, reads)
      | ReadError => ([], Stopped SocketError, reads)
      | Recv pkt =>
        match pkt with
        | o1 :: o2 :: s1 :: s2 :: _ =>
          let op := Z.lor (Z.shiftl o1 8) o2 in
          if op =? 4 then
            if Z.lor (Z.shiftl s1 8) s2 =? seq then ([], Acked, reads) else wait_ack seq reads
          else if op =? 5 then ([], Stopped ClientAborted, reads)
          else wait_ack seq reads
        | _ => wait_ack seq reads
        end
      end in
    (Read ev :: log, r, rest)
  end.

Record conn := Conn { reads : list read_event; write_fails : list bool }.

(** The packets that leave, whether the write succeeded, and the connection after it. *)
Definition Write (c : conn) (b : bytes) : list io * bool * conn :=
  match write_fails c with
  | true :: ws => ([], false, Conn (reads c) ws)
  | ws => ([Sent b], true, Conn (reads c) (tail ws))
  end.

(** What happened on the socket, the result, and the connection after it. *)
Fixpoint send_attempts (attempts : nat) (b : bytes) (seq : Z) (c : conn)
  : list io * outcome tftp_error unit * conn :=
  match attempts with
  | O => ([], Fail TimeoutWaiting, c)
  | S attempts =>
    match Write c b with
    | (out, false, c) => (out, Fail SocketError, c)
    | (out, true, c) =>
      match wait_ack seq (reads c) with
      | (got, Acked, rs) => (out ++ got, Ret tt, Conn rs (write_fails c))
      | (got, Stopped e, rs) => (out ++ got, Fail e, Conn rs (write_fails c))
      | (got, TimedOut, rs) =>
        let '(log, r, c) := send_attempts attempts b seq (Conn rs (write_fails c)) in (out ++ got ++ log, r, c)
      end
    end
  end.

Record Server := MkServer { WriteAttempts : Z; MaxBlockSize : Z }.

Definition send (s : Server) (b : bytes) (seq : Z) (c : conn) : list io * outcome tftp_error unit * conn :=
  let attempts := if WriteAttempts s <=? 0 then DefaultWriteAttempts else WriteAttempts s in
  send_attempts (Z.to_nat attempts) b seq c.

(** ** Transfers *)

(** What is left of an open file: its bytes, and whether a read after them fails. *)
Record file := File { content : bytes; broken : bool }.

(** [io.CopyN]: the bytes copied, whether it failed other than at the end, and what is left. *)
Definition CopyN (f : file) (n : Z) : bytes * bool * file :=
  let block := take (Z.to_nat n) (content f) in
  (block, (Z.of_nat (length block) <? n) && broken f, File (drop (Z.to_nat n) (content f)) (broken f)).

(** A write whose error is dropped. *)
Definition write_error (c : conn) (msg : string) : list io := (Write c (tftpError (str_bytes msg))).1.1.

(** The loop of [transfer]; a round takes a full block from the file or ends. *)
Fixpoint transfer_loop (fuel : nat) (s : Server) (blockSize : Z) (seq : Z) (f : file) (c : conn)
  : list io * outcome tftp_error unit :=
  match fuel with
  | O => ([], OutOfFuel)
  | S fuel =>
    match CopyN f blockSize with
    | (_, true, _) => (write_error c "internal server error", Fail FileError)
    | (block, false, f) =>
      match send s (data_packet seq block) seq c with
      | (sent, Ret _, c) =>
        if Z.of_nat (length block) <? blockSize then (sent, Ret tt)
        else let '(sent', r) := transfer_loop fuel s blockSize (uint_wrap 16 (seq + 1)) f c in (sent ++ sent', r)
      | (sent, Fail e, c) => (sent ++ write_error c "timeout", Fail e)
      | (sent, r, _) => (sent, r)
      end
    end
  end.

Definition clamp (s : Server) (blockSize : Z) : Z :=
  let maxBlockSize := if MaxBlockSize s <=? 0 then DefaultBlockSize else MaxBlockSize s in
  if maxBlockSize <? blockSize then maxBlockSize else blockSize.

(** The acknowledgement of options. *)
Definition oack (s : Server) (req : rrq) (size : Z) : bytes :=
  [0; 6] ++
  (if BlockSize req =? 0 then []
   else str_bytes "blksize" ++ [0] ++ str_bytes (pretty (clamp s (BlockSize req))) ++ [0]) ++
  (if WantSize req && negb (size =? 0) then str_bytes "tsize" ++ [0] ++ str_bytes (pretty size) ++ [0] else []).

(** [Dial] gives a connection or fails, the handler an open file and its size or fails. *)
Definition transfer (s : Server) (dial : option conn) (handler : bytes → option (file * Z)) (req : rrq)
  : list io * outcome tftp_error unit :=
  match dial with
  | None => ([], Fail NoSocket)
  | Some c =>
    match handler (Filename req) with
    | None => (write_error c "failed to get file", Fail NoFile)
    | Some (f, size) =>
      let wants := negb (BlockSize req =? 0) || (WantSize req && negb (size =? 0)) in
      let '(sent, r, c) := if wants then send s (oack s req size) 0 c else ([], Ret tt, c) in
      match r with
      | Ret _ =>
        let blockSize := if BlockSize req =? 0 then 512 else clamp s (BlockSize req) in
        let '(sent', r) := transfer_loop (S (length (content f))) s blockSize 1 f c in
        (sent ++ sent', r)
      | _ => (sent, r)
      end
    end
  end.

(** ** Serving *)

(** What the listener's reads return: [Serve] ends at the first error. *)
Inductive listen_event := ListenError | Packet (addr : string) (pkt : bytes).

(** The transfers [Serve] starts, in order, each for the first 2048 bytes of a packet, until the listener fails. *)
Fixpoint Serve (evs : list listen_event) : list (string * rrq) :=
  match evs with
  | [] | ListenError :: _ => []
  | Packet addr pkt :: evs =>
    match parseRRQ (take 2048 pkt) with
    | Ret req => (addr, req) :: Serve evs
    | _ => Serve evs
    end
  end.

End Tftp.
