(* ===== verification/TftpProofs.v ===== *)
(** * A TFTP transfer delivers the file: proofs about util/tftp

    The server's log of sent packets and reads is run against a client that takes every block once and in
    order and acknowledges the last one it took, over a network that may lose, repeat, delay and reorder the packets of
    both directions: the client has a prefix of the file at any time, and all of it when the transfer succeeds. *)

From S2P Require Import Prelude Ethernet Netutils Tftp.
Import Ethernet Tftp.
Local Open Scope Z_scope.
Local Open Scope go_scope.

Module TftpProofs.

(** ** The client and the network *)

(** What the client has, the block it expects, and whether it has seen a short block. *)
Record client := Client { got : bytes; expected : Z; finished : bool }.

Definition client_recv (blockSize : Z) (c : client) (pkt : bytes) : client :=
  match pkt with
  | o1 :: o2 :: s1 :: s2 :: block =>
    if negb (finished c) && (Z.lor (Z.shiftl o1 8) o2 =? 3) && (Z.lor (Z.shiftl s1 8) s2 =? expected c)
    then Client (got c ++ block) (uint_wrap 16 (expected c + 1)) (Z.of_nat (length block) <? blockSize)
    else c
  | _ => c
  end.

Definition new_client : client := Client [] 1 false.

Definition ack (seq : Z) : bytes := [0; 4] ++ be16 seq.

Definition opcode (pkt : bytes) : option Z :=
  match pkt with o1 :: o2 :: _ => Some (Z.lor (Z.shiftl o1 8) o2) | _ => None end.

(** The client, the number of blocks it has taken, and the packets under way, each with the number of blocks the
    client had taken when it was sent.  A delivery does not remove a packet, and no packet has to be
    delivered. *)
Record network := Network {
  the_client : client;
  taken : nat;
  to_client : list (nat * bytes);
  to_server : list (nat * bytes)
}.

Definition idle : network := Network new_client 0 [] [].

(** The acknowledgement a client that took its last block as [c] sends after packet [pkt]: of that block when the
    packet carries it, first or again, and of the options before the first block. *)
Definition reply (c : client) (taken : nat) (pkt : bytes) : list (nat * bytes) :=
  let last := uint_wrap 16 (expected c - 1) in
  match opcode pkt, pkt with
  | Some 3, _ :: _ :: s1 :: s2 :: _ => if Z.lor (Z.shiftl s1 8) s2 =? last then [(taken, ack last)] else []
  | Some 6, _ => if bool_decide (taken = O) then [(taken, ack last)] else []
  | _, _ => []
  end.

Definition deliver (blockSize : Z) (n : network) (pkt : bytes) : network :=
  let c := client_recv blockSize (the_client n) pkt in
  let t := if expected c =? expected (the_client n) then taken n else S (taken n) in
  Network c t (to_client n) (to_server n ++ reply c t pkt).

(** A packet is not delayed until the block numbers have gone round. *)
Definition fresh (n : network) (t : nat) : Prop := Z.of_nat (taken n) < Z.of_nat t + 65535.

(** Reads time out or fail at any time; a packet that is read is an acknowledgement of the client under
    way, or no acknowledgement. *)
Definition may_read (n : network) (ev : read_event) : Prop :=
  match ev with
  | Recv pkt => opcode pkt ≠ Some 4 ∨ ∃ t, (t, pkt) ∈ to_server n ∧ fresh n t
  | _ => True
  end.

(** What becomes of the client and the network while the server's log runs. *)
Inductive net_run (blockSize : Z) : network → list io → network → Prop :=
| run_end n : net_run blockSize n [] n
| run_sent n pkt log n' :
    net_run blockSize (Network (the_client n) (taken n) (to_client n ++ [(taken n, pkt)]) (to_server n)) log n' →
    net_run blockSize n (Sent pkt :: log) n'
| run_read n ev log n' : may_read n ev → net_run blockSize n log n' → net_run blockSize n (Read ev :: log) n'
| run_deliver n t pkt log n' : (t, pkt) ∈ to_client n → fresh n t →
    net_run blockSize (deliver blockSize n pkt) log n' → net_run blockSize n log n'.

Definition seq_ok (seq : Z) : Prop := 0 ≤ seq < 65536.

Lemma be16_join v : seq_ok v → ∃ a b, be16 v = [a; b] ∧ Z.lor (Z.shiftl a 8) b = v.
Proof.
  intros Hv. unfold be16. eexists _, _. split; [reflexivity|].
  change 255 with (Z.ones 8). rewrite !Z.land_ones, Z.shiftr_div_pow2, Z.lor_comm by lia.
  rewrite lor_shift by (try lia; apply Z.mod_pos_bound; lia). change (2 ^ 8) with 256. unfold seq_ok in Hv.
  rewrite (Z.mod_small (v / 256)) by (split; [apply Z.div_pos|apply Z.div_lt_upper_bound]; lia).
  pose proof (Z.div_mod v 256). lia.
Qed.

Lemma client_data blockSize c seq block : seq_ok seq → finished c = false →
  client_recv blockSize c (data_packet seq block) =
  if seq =? expected c
  then Client (got c ++ block) (uint_wrap 16 (expected c + 1)) (Z.of_nat (length block) <? blockSize) else c.
Proof.
  intros Hs Hf. unfold data_packet. destruct (be16_join seq Hs) as (a & b & -> & E). cbn [app client_recv].
  by rewrite Hf, E.
Qed.

Lemma next_seq seq : seq_ok seq → seq_ok (uint_wrap 16 (seq + 1)) ∧ uint_wrap 16 (seq + 1) ≠ seq.
Proof.
  intros Hs. unfold seq_ok, uint_wrap in *. change (2 ^ 16) with 65536. split; [apply Z.mod_pos_bound; lia|].
  destruct (decide (seq = 65535)) as [->|]; [done|]. rewrite Z.mod_small; lia.
Qed.

(** ** The server *)

Definition settled (r : outcome tftp_error unit) : Prop := r = Ret tt ∨ ∃ e, r = Fail e.

Lemma Write_packets c b out ok c' : Write c b = (out, ok, c') → out = if ok then [Sent b] else [].
Proof. unfold Write. by destruct (write_fails c) as [|[] ws]; intros [= <- <- <-]. Qed.

(** A log of reads and of the packet [b]. *)
Definition only_sends (b : bytes) (ev : io) : Prop := match ev with Sent pkt => pkt = b | Read _ => True end.

(** A log that ends with the read of an acknowledgement of [seq]. *)
Definition ends_with_ack (seq : Z) (log : list io) : Prop :=
  ∃ log' s1 s2 o1 o2 rest, log = log' ++ [Read (Recv (o1 :: o2 :: s1 :: s2 :: rest))] ∧
    Z.lor (Z.shiftl o1 8) o2 = 4 ∧ Z.lor (Z.shiftl s1 8) s2 = seq.

Lemma ends_with_ack_app seq l log : ends_with_ack seq log → ends_with_ack seq (l ++ log).
Proof. intros (l' & s1 & s2 & o1 & o2 & rest & -> & H). exists (l ++ l'), s1, s2, o1, o2, rest. by rewrite app_assoc. Qed.

Lemma wait_ack_log b seq : ∀ rs log r rs', wait_ack seq rs = (log, r, rs') →
  Forall (only_sends b) log ∧ (r = Acked → ends_with_ack seq log).
Proof.
  induction rs as [|ev rs IH]; intros log r rs' E; cbn [wait_ack] in E.
  { injection E as <- <- <-. split; [by repeat constructor|done]. }
  assert (∀ log0, wait_ack seq rs = (log0, r, rs') → log = Read ev :: log0 →
    Forall (only_sends b) log ∧ (r = Acked → ends_with_ack seq log)) as Hrec.
  { intros log0 E0 ->. destruct (IH _ _ _ E0) as [H1 H2]. split; [by constructor|].
    intros Hr. by apply (ends_with_ack_app seq [_]), H2. }
  destruct ev as [| |pkt]; [injection E as <- <- <-; split; [by repeat constructor|done]..|].
  destruct pkt as [|o1 [|o2 [|s1 [|s2 pkt]]]];
    try (destruct (wait_ack seq rs) as [[log0 r0] rs0]; injection E as <- <- <-; by apply (Hrec log0)).
  destruct (Z.eqb_spec (Z.lor (Z.shiftl o1 8) o2) 4) as [Ho|_]; [destruct (Z.eqb_spec (Z.lor (Z.shiftl s1 8) s2) seq) as [Hs|_]|destruct (_ =? 5)];
    try (destruct (wait_ack seq rs) as [[log0 r0] rs0]; injection E as <- <- <-; by apply (Hrec log0)).
  - injection E as <- <- <-. split; [by repeat constructor|]. intros _. by exists [], s1, s2, o1, o2, pkt.
  - injection E as <- <- <-. split; [by repeat constructor|done].
Qed.

(** [send] sends one packet only, and succeeds only when it has read the acknowledgement. *)
Lemma send_attempts_log attempts b seq : ∀ c log r c', send_attempts attempts b seq c = (log, r, c') →
  Forall (only_sends b) log ∧ settled r ∧ (r = Ret tt → ends_with_ack seq log).
Proof.
  induction attempts as [|n IH]; intros c log r c' E; cbn [send_attempts] in E.
  { injection E as <- <- <-. split_and!; [done|right; by eexists|done]. }
  destruct (Write c b) as [[out ok] c1] eqn:Ew. apply Write_packets in Ew as ->. destruct ok.
  2: { injection E as <- <- <-. split_and!; [done|right; by eexists|done]. }
  destruct (wait_ack seq (reads c1)) as [[l w] rs] eqn:E1. destruct (wait_ack_log b _ _ _ _ _ E1) as [Hl Ha].
  destruct w as [| |e].
  - injection E as <- <- <-. split_and!; [by constructor|by left|]. intros _. by apply (ends_with_ack_app seq [_]), Ha.
  - destruct (send_attempts n b seq (Conn rs (write_fails c1))) as [[log1 r1] c2] eqn:E2. injection E as <- <- <-.
    destruct (IH _ _ _ _ E2) as (H1 & H2 & H3). split_and!; [constructor; [done|by apply Forall_app]|done|].
    intros Hr. by apply (ends_with_ack_app seq (Sent b :: l)), H3.
  - injection E as <- <- <-. split_and!; [by constructor|right; by eexists|done].
Qed.

(** ** Runs *)

Lemma net_run_app bs l1 l2 n n' : net_run bs n (l1 ++ l2) n' →
  ∃ n1, net_run bs n l1 n1 ∧ net_run bs n1 l2 n'.
Proof.
  intros H. remember (l1 ++ l2) as l eqn:El. revert l1 El. induction H as [n|n pkt l n' H IH|n ev l n' Hr H IH|n t pkt l n' Hin Hf H IH];
    intros l1 El.
  - symmetry in El. apply app_eq_nil in El as [-> ->]. exists n. split; apply run_end.
  - destruct l1 as [|ev1 l1]; [exists n; cbn in El; subst l2; split; [apply run_end|by constructor]|]. injection El as <- El.
    destruct (IH _ El) as (n1 & H1 & H2). exists n1. split; [by constructor|done].
  - destruct l1 as [|ev1 l1]; [exists n; cbn in El; subst l2; split; [apply run_end|by constructor]|]. injection El as <- El.
    destruct (IH _ El) as (n1 & H1 & H2). exists n1. split; [by constructor|done].
  - destruct (IH _ El) as (n1 & H1 & H2). exists n1. split; [by apply (run_deliver bs n t pkt)|done].
Qed.

(** ** The file in blocks *)

Definition seqn (i : nat) : Z := uint_wrap 16 (Z.of_nat i).

Lemma seqn_ok i : seq_ok (seqn i).
Proof. unfold seqn, seq_ok, uint_wrap. apply Z.mod_pos_bound. lia. Qed.

Lemma seqn_S i : uint_wrap 16 (seqn i + 1) = seqn (S i).
Proof. unfold seqn, uint_wrap. rewrite Zplus_mod_idemp_l. f_equal. lia. Qed.

Lemma seqn_pred i : uint_wrap 16 (seqn (S i) - 1) = seqn i.
Proof. unfold seqn, uint_wrap. rewrite Zminus_mod_idemp_l. f_equal. lia. Qed.

Lemma seqn_inj i j : (i ≤ j)%nat → Z.of_nat j < Z.of_nat i + 65536 → seqn i = seqn j → i = j.
Proof.
  unfold seqn, uint_wrap. change (2 ^ 16) with 65536. intros H1 H2 E.
  pose proof (Z.div_mod (Z.of_nat i) 65536). pose proof (Z.div_mod (Z.of_nat j) 65536). nia.
Qed.

Section Run.
Context (bs : Z) (F : bytes).
Hypothesis Hbs : 0 < bs.
Local Notation nbs := (Z.to_nat bs).

(** Block [i], from 1. *)
Definition block (i : nat) : bytes := take nbs (drop (pred i * nbs) F).

Definition short (i : nat) : bool := Z.of_nat (length (block i)) <? bs.

(** The client after it has taken [m] blocks. *)
Definition client_at (m : nat) : client :=
  Client (take (m * nbs) F) (seqn (S m)) (match m with O => false | _ => short m end).

Lemma take_take_drop {A} n k (l : list A) : take n l ++ take k (drop n l) = take (n + k) l.
Proof.
  destruct (decide (n ≤ length l)%nat) as [Hn|Hn].
  - rewrite <- (take_drop n l) at 3. rewrite take_app, take_take, length_take. f_equal; f_equal; lia.
  - rewrite drop_ge, take_nil, app_nil_r, !take_ge by lia. done.
Qed.

Lemma client_takes m : finished (client_at m) = false →
  client_recv bs (client_at m) (data_packet (seqn (S m)) (block (S m))) = client_at (S m).
Proof.
  intros Hf. rewrite client_data by (done || apply seqn_ok). cbn [expected client_at]. rewrite Z.eqb_refl.
  unfold client_at. cbn [got]. rewrite seqn_S. f_equal. unfold block. cbn [pred].
  rewrite take_take_drop. f_equal. lia.
Qed.


Lemma client_other m j : seqn j ≠ seqn (S m) → client_recv bs (client_at m) (data_packet (seqn j) (block j)) = client_at m.
Proof.
  intros Hj. destruct (finished (client_at m)) eqn:Hf.
  - unfold data_packet. destruct (be16_join _ (seqn_ok j)) as (a & b & -> & _). cbn [app client_recv]. by rewrite Hf.
  - rewrite client_data by (done || apply seqn_ok). cbn [expected client_at]. by rewrite (proj2 (Z.eqb_neq _ _) Hj).
Qed.

Lemma client_no_data c pkt : opcode pkt ≠ Some 3 → client_recv bs c pkt = c.
Proof.
  destruct pkt as [|o1 [|o2 [|s1 [|s2 rest]]]]; [done..|]. cbn [opcode client_recv]. intros Ho.
  destruct (Z.eqb_spec (Z.lor (Z.shiftl o1 8) o2) 3) as [E|_]; [congruence|]. by rewrite andb_false_r.
Qed.

(** A packet the server sends up to block [i], to a client that had taken [t] blocks. *)
Definition sent_ok (i : nat) (tp : nat * bytes) : Prop :=
  opcode tp.2 ≠ Some 3 ∨
  ∃ j, (1 ≤ j ≤ i)%nat ∧ (tp.1 ≤ j ≤ S tp.1)%nat ∧ tp.2 = data_packet (seqn j) (block j).

(** While the server sends block [i] the client has taken that block or the one before. *)
Record in_step (i : nat) (n : network) : Prop := {
  step_taken : (taken n ≤ i ≤ S (taken n))%nat;
  step_client : the_client n = client_at (taken n);
  step_sent : Forall (λ tp, tp.1 ≤ taken n ∧ sent_ok i tp)%nat (to_client n);
  step_acks : Forall (λ tp, tp.1 ≤ taken n ∧ tp.2 = ack (seqn tp.1))%nat (to_server n);
  step_full : ∀ j, (1 ≤ j < i)%nat → short j = false
}.

Lemma reply_at m pkt : Forall (λ tp, tp = (m, ack (seqn m))) (reply (client_at m) m pkt).
Proof.
  unfold reply. cbn [expected client_at]. rewrite seqn_pred.
  destruct (opcode pkt) as [z|]; [|done]. repeat case_match; repeat constructor.
Qed.

(** A delivered packet brings the block the client expects, or nothing new. *)
Lemma deliver_in_step i n t pkt : in_step i n → (t, pkt) ∈ to_client n → fresh n t →
  in_step i (deliver bs n pkt).
Proof.
  intros [H1 H2 H3 H4 H5] Hin Hfr. unfold deliver. rewrite H2. set (m := taken n) in *.
  assert (∃ m', (m ≤ m' ≤ i)%nat ∧ client_recv bs (client_at m) pkt = client_at m' ∧
    (if seqn (S m') =? seqn (S m) then m else S m) = m') as (m' & Hm & Hc & Ht).
  { assert (client_recv bs (client_at m) pkt = client_at m → ∃ m', (m ≤ m' ≤ i)%nat ∧ client_recv bs (client_at m) pkt = client_at m' ∧
      (if seqn (S m') =? seqn (S m) then m else S m) = m') as Hstay.
    { intros E. exists m. rewrite Z.eqb_refl. split_and!; [lia|lia|done|done]. }
    destruct (proj1 (Forall_forall _ _) H3 _ Hin) as [Htm [Hn|(j & Hj1 & Hj2 & Hp)]]; cbn [fst snd] in *.
    - by apply Hstay, client_no_data.
    - subst pkt. destruct (decide (seqn j = seqn (S m))) as [E|E]; [|by apply Hstay, client_other].
      apply seqn_inj in E; [|lia|unfold fresh in Hfr; fold m in Hfr; lia]. subst j.
      exists (S m). split_and!; [lia|lia| |].
      + apply client_takes. cbn [finished client_at]. destruct m as [|m0]; [done|]. apply H5. lia.
      + rewrite <- (seqn_S (S m)). by rewrite (proj2 (Z.eqb_neq _ _) (proj2 (next_seq _ (seqn_ok (S m))))). }
  rewrite Hc. cbn [expected client_at]. rewrite Ht. split; cbn [the_client taken to_client to_server]; [lia|done| | |done].
  - eapply Forall_impl; [exact H3|]. cbn. intros tp [? ?]. split; [lia|done].
  - apply Forall_app. split; [eapply Forall_impl; [exact H4|]; cbn; intros tp [? ?]; split; [lia|done]|].
    eapply Forall_impl; [apply (reply_at m')|]. cbn. by intros tp ->.
Qed.

(** The events of the server that keep in step with block [i]. *)
Definition io_ok (i : nat) (ev : io) : Prop :=
  match ev with Sent pkt => opcode pkt ≠ Some 3 ∨ pkt = data_packet (seqn i) (block i) | Read _ => True end.

Lemma run_in_step i n log n' : (1 ≤ i)%nat → net_run bs n log n' → Forall (io_ok i) log → in_step i n → in_step i n'.
Proof.
  intros Hi H. induction H as [n|n pkt l n' H IH|n ev l n' Hr H IH|n t pkt l n' Hin Hf H IH]; intros Hlog Hn; [done| | |].
  - inversion_clear Hlog as [|? ? Hev Hl]. apply IH; [done|]. destruct Hn as [H1 H2 H3 H4 H5].
    split; cbn [the_client taken to_client to_server]; [done..| |done|done]. apply Forall_app. split; [done|].
    apply Forall_singleton. split; [done|]. destruct Hev as [Hev|Hev]; [by left|]. right. exists i. cbn [fst snd]. split_and!; [lia..|done].
  - inversion_clear Hlog. by apply IH.
  - apply IH; [done|]. by eapply deliver_in_step.
Qed.

(** When the server has read the acknowledgement of block [i], the client has the block. *)
Lemma acked_taken i n log n' : (1 ≤ i)%nat → net_run bs n log n' → Forall (io_ok i) log → ends_with_ack (seqn i) log →
  in_step i n → in_step i n' ∧ taken n' = i.
Proof.
  intros Hi Hrun Hlog (l & s1 & s2 & o1 & o2 & rest & -> & Ho & Hs) Hn.
  split; [by eapply run_in_step|]. apply Forall_app in Hlog as [Hl _].
  apply net_run_app in Hrun as (n1 & H1 & H2). assert (in_step i n1) as Hn1 by (by eapply run_in_step).
  clear H1 Hn. remember [Read _] as l1 eqn:El. revert Hn1 El.
  induction H2 as [n0|n0 pkt l2 n' H IH|n0 ev l2 n' Hr H IH|n0 t pkt l2 n' Hin Hf H IH]; intros Hn El; [done..| |].
  2: { apply IH; [by eapply deliver_in_step|done]. }
  injection El as -> ->. assert (taken n0 = i) as Ht.
  { destruct Hr as [Hr|(t & Hin & Hf)]; [cbn [opcode] in Hr; congruence|].
    destruct Hn as [H1 _ _ H4 _]. destruct (proj1 (Forall_forall _ _) H4 _ Hin) as [Htt E]. cbn [fst snd] in *.
    unfold ack in E. destruct (be16_join _ (seqn_ok t)) as (a & b & Eb & Ej). rewrite Eb in E. injection E as -> -> -> -> ->.
    assert (t = i) as ->; [|lia]. unfold fresh in Hf. apply seqn_inj; [lia|lia|congruence]. }
  assert (in_step i n') as Hn' by (eapply (run_in_step i n0 [] n'); done).
  clear -Ht Hn Hn' H Hi. assert (taken n0 ≤ taken n')%nat as Hle; [|pose proof (step_taken _ _ Hn'); lia].
  clear -H. remember [] as l eqn:El. induction H as [n0|n0 pkt l2 n' H IH|n0 ev l2 n' Hr H IH|n0 t pkt l2 n' Hin Hf H IH]; [done..|].
  specialize (IH El). cbn [deliver taken] in IH. case_match; lia.
Qed.

Lemma write_error_ok i c msg : Forall (io_ok i) (write_error c msg).
Proof.
  unfold write_error. destruct (Write c _) as [[out ok] c'] eqn:E. apply Write_packets in E as ->.
  destruct ok; [apply Forall_singleton; by left|constructor].
Qed.

(** Every point of a run of the log, started in step with block [i], is in step with some block. *)
Definition stays (i : nat) (log : list io) : Prop :=
  ∀ n log1 n', in_step i n → log1 `prefix_of` log → net_run bs n log1 n' → ∃ i', in_step i' n'.

Lemma stays_ok i log : (1 ≤ i)%nat → Forall (io_ok i) log → stays i log.
Proof.
  intros Hi Hl n log1 n' Hn [l2 ->] Hrun. exists i. apply Forall_app in Hl as [Hl _]. by eapply run_in_step.
Qed.

(** The end of a run that delivered the file. *)
Definition complete (n : network) : Prop := ∃ i, (1 ≤ i)%nat ∧ in_step i n ∧ taken n = i ∧ short i = true.

Lemma next_in_step i n : (1 ≤ i)%nat → in_step i n → taken n = i → short i = false → in_step (S i) n.
Proof.
  intros Hi [H1 H2 H3 H4 H5] Ht Hs. split; [lia|done| |done|].
  - eapply Forall_impl; [exact H3|]. intros tp [? [?|(j & ? & ? & ?)]]; (split; [done|]); [by left|].
    right. exists j. split_and!; [lia..|done].
  - intros j Hj. destruct (decide (j = i)) as [->|]; [done|]. apply H5. lia.
Qed.

Lemma prefix_app_cases {A} (l l1 l2 : list A) : l `prefix_of` l1 ++ l2 →
  l `prefix_of` l1 ∨ ∃ l', l = l1 ++ l' ∧ l' `prefix_of` l2.
Proof.
  intros [k E]. apply app_eq_inv in E as [(k' & -> & ->)|(k' & -> & ->)]; [left|right].
  - by exists k'.
  - exists k'. split; [done|by exists k].
Qed.

Lemma transfer_loop_delivers fuel s br : ∀ i c log r, (1 ≤ i)%nat →
  (length (drop (pred i * nbs) F) < fuel)%nat →
  transfer_loop fuel s bs (seqn i) (File (drop (pred i * nbs) F) br) c = (log, r) →
  settled r ∧ stays i log ∧
  (r = Ret tt → br = false ∧ ∀ n n', in_step i n → net_run bs n log n' → complete n').
Proof.
  induction fuel as [|fuel IH]; intros i c log r Hi Hf E; [lia|].
  cbn [transfer_loop] in E. unfold CopyN in E. cbn [content broken] in E. fold (block i) in E. fold (short i) in E.
  destruct (short i && br) eqn:Hbr.
  { injection E as <- <-. split_and!; [right; by eexists|by apply stays_ok, write_error_ok|done]. }
  destruct (send s (data_packet (seqn i) (block i)) (seqn i) c) as [[log1 r1] c1] eqn:Es.
  destruct (send_attempts_log _ _ _ _ _ _ _ Es) as (Hl1 & Hr1 & Hack).
  assert (Forall (io_ok i) log1) as Hok.
  { eapply Forall_impl; [exact Hl1|]. intros [pkt|ev]; cbn; [|done]. by right. }
  destruct Hr1 as [->|[e ->]].
  2: { injection E as <- <-. split_and!; [right; by eexists| |done]. apply stays_ok; [done|].
       by apply Forall_app; split; [|apply write_error_ok]. }
  specialize (Hack eq_refl). destruct (short i) eqn:Hsh.
  { injection E as <- <-. split_and!; [by left|by apply stays_ok|]. intros _. split; [by destruct br|].
    intros n n' Hn Hrun. destruct (acked_taken i n log1 n' Hi Hrun Hok Hack Hn). by exists i. }
  rewrite seqn_S, drop_drop in E. replace (pred i * nbs + nbs)%nat with (pred (S i) * nbs)%nat in E by (destruct i; cbn; lia).
  destruct (transfer_loop fuel s bs (seqn (S i)) _ c1) as [log2 r2] eqn:E2. injection E as <- <-.
  assert (nbs ≤ length (drop (pred i * nbs) F))%nat as Hlen.
  { unfold short, block in Hsh. apply Z.ltb_ge in Hsh. rewrite length_take in Hsh. lia. }
  destruct (IH (S i) c1 log2 r2) as (H1 & H2 & H3); [lia| |done|].
  { rewrite length_drop in *. cbn [pred]. destruct i as [|i]; cbn [pred] in *; lia. }
  assert (∀ n n', in_step i n → net_run bs n log1 n' → in_step (S i) n') as Hnext.
  { intros n n' Hn Hrun. destruct (acked_taken i n log1 n' Hi Hrun Hok Hack Hn). by apply next_in_step. }
  split_and!; [done| |].
  - intros n l n' Hn Hpre Hrun. apply prefix_app_cases in Hpre as [Hpre|(l' & -> & Hpre)].
    + by eapply (stays_ok i log1 Hi Hok).
    + apply net_run_app in Hrun as (n1 & Hr1 & Hr2). eapply (H2 n1); [by eapply Hnext|done|done].
  - intros Hret. destruct (H3 Hret) as [-> Hc]. split; [done|]. intros n n' Hn Hrun.
    apply net_run_app in Hrun as (n1 & Hr1 & Hr2). eapply (Hc n1); [by eapply Hnext|done].
Qed.

Lemma idle_in_step : in_step 1 idle.
Proof. split; cbn; [lia|done|done|done|lia]. Qed.

Lemma in_step_prefix i n : in_step i n → ∃ k, got (the_client n) = take k F.
Proof. intros [_ -> _ _ _]. by eexists. Qed.

Lemma complete_file n : complete n → got (the_client n) = F ∧ finished (the_client n) = true.
Proof.
  intros (i & Hi & [_ H _ _ _] & Ht & Hs). rewrite H, Ht. cbn [client_at got finished]. destruct i as [|i]; [lia|].
  split; [|done]. apply take_ge. unfold short, block in Hs. apply Z.ltb_lt in Hs. rewrite length_take, length_drop in Hs.
  cbn [pred] in Hs. lia.
Qed.

End Run.
(** ** Requests *)

Definition size_ok (n : Z) : Prop := n = 0 ∨ 8 ≤ n ≤ 65464.

Lemma parse_opts_size fuel : ∀ bs req req', size_ok (BlockSize req) → parse_opts fuel bs req = Ret req' →
  size_ok (BlockSize req').
Proof.
  induction fuel as [|fuel IH]; intros bs req req' Hs E; destruct bs as [|b bs];
    cbn [parse_opts] in E; [by injection E as <-|done|by injection E as <-|].
  destruct (tftpStr (b :: bs)) as [[opt bs1]| | |]; cbn [obind] in E; [|done..].
  destruct (tftpStr bs1) as [[val bs2]| | |]; cbn [obind] in E; [|done..].
  case_bool_decide.
  - destruct (Netutils.Atoi (bytes_str val)) as [n|]; [|done].
    destruct ((n <? 8) || (65464 <? n)) eqn:En; [done|]. apply orb_false_iff in En as [H1 H2].
    apply Z.ltb_ge in H1, H2. refine (IH _ _ _ _ E). right. cbn [BlockSize]. lia.
  - refine (IH _ _ _ _ E). by case_bool_decide.
Qed.

Lemma parseRRQ_size bs req : parseRRQ bs = Ret req → size_ok (BlockSize req).
Proof.
  unfold parseRRQ. destruct (_ || _); [done|]. destruct (tftpStr (drop 2 bs)) as [[fname bs1]| | |]; cbn [obind]; [|done..].
  destruct (tftpStr bs1) as [[mode bs2]| | |]; cbn [obind]; [|done..]. destruct (negb _); [done|].
  apply parse_opts_size. by left.
Qed.

(** The block size the client works with. *)
Definition negotiated (s : Server) (req : rrq) : Z := if BlockSize req =? 0 then 512 else clamp s (BlockSize req).

Lemma negotiated_pos s req : size_ok (BlockSize req) → 0 < negotiated s req.
Proof.
  unfold negotiated, clamp, DefaultBlockSize. intros [->|Hs]; [done|]. destruct (Z.eqb_spec (BlockSize req) 0); [done|].
  repeat case_match; lia.
Qed.

(** What a transfer has achieved when it has ended with [r] after [log]: at every point of every run of the log the
    client has a prefix of the file, and at the end of every run of a successful log all of it. *)
Definition delivered (bs : Z) (log : list io) (r : outcome tftp_error unit) (f : file) : Prop :=
  settled r ∧
  (∀ log1 n, log1 `prefix_of` log → net_run bs idle log1 n → ∃ k, got (the_client n) = take k (content f)) ∧
  (r = Ret tt → broken f = false ∧ ∀ n, net_run bs idle log n →
    got (the_client n) = content f ∧ finished (the_client n) = true).

(** C37 A transfer for a request that was parsed always ends, and what the server takes for delivered is delivered.
    Between the server and a client that takes blocks in order and acknowledges only the block it took last, let the
    network lose, repeat, delay and reorder the packets of both directions, let packets that are no acknowledgement
    arrive, and let any read time out or fail and any write fail, as long as no packet
    is so late that the client has taken 65535 blocks since it was sent.  Then the client has at any time
    a prefix of the file the handler opened, in blocks of the size it asked for or the server's limit; when the
    transfer returns without error the client has the whole file and has seen its end, and the file was read
    without error. *)
Theorem transfer_delivers s dial handler pkt req f size :
  parseRRQ pkt = Ret req → handler (Filename req) = Some (f, size) →
  let '(log, r) := transfer s dial handler req in delivered (negotiated s req) log r f.
Proof.
  intros Hp Hh. pose proof (negotiated_pos s req (parseRRQ_size _ _ Hp)) as Hpos. set (F := content f).
  assert (∀ log r, settled r → r ≠ Ret tt → Forall (io_ok (negotiated s req) F 1) log →
    delivered (negotiated s req) log r f) as Hfail.
  { intros log r Hr Hne Hl. split_and!; [done| |done]. intros log1 n Hpre Hrun.
    destruct (stays_ok _ F 1 log ltac:(lia) Hl idle log1 n (idle_in_step _ _) Hpre Hrun) as [i Hi].
    by eapply in_step_prefix. }
  unfold transfer. rewrite Hh. destruct dial as [c|].
  2: { apply Hfail; [right; by eexists|done|done]. }
  set (wants := _ || _). destruct (if wants then _ else _) as [[log0 r0] c0] eqn:E0.
  assert (settled r0 ∧ Forall (io_ok (negotiated s req) F 1) log0) as [Hr0 Hl0].
  { destruct wants; [|injection E0 as <- <- <-; split; [by left|done]].
    destruct (send_attempts_log _ _ _ _ _ _ _ E0) as (Hl & Hr & _). split; [done|].
    eapply Forall_impl; [exact Hl|]. intros [p|ev]; cbn; [|done]. intros ->. by left. }
  destruct Hr0 as [->|[e ->]]; [|apply Hfail; [right; by eexists|done|done]].
  fold (negotiated s req). destruct (transfer_loop _ s (negotiated s req) 1 f c0) as [log1 r1] eqn:E1.
  destruct (transfer_loop_delivers _ F Hpos (S (length F)) s (broken f) 1 c0 log1 r1) as (H1 & H2 & H3);
    [lia|cbn; rewrite drop_0; lia|cbn; rewrite drop_0; unfold F; by destruct f|].
  assert (∀ n, net_run (negotiated s req) idle log0 n → in_step (negotiated s req) F 1 n) as Hin.
  { intros n Hrun. eapply run_in_step; [lia|exact Hrun|done|by apply idle_in_step]. }
  split_and!; [done| |].
  - intros l n Hpre Hrun. apply prefix_app_cases in Hpre as [Hpre|(l' & -> & Hpre)].
    + destruct (stays_ok _ F 1 log0 ltac:(lia) Hl0 idle l n (idle_in_step _ _) Hpre Hrun). by eapply in_step_prefix.
    + apply net_run_app in Hrun as (n1 & Ha & Hb). destruct (H2 n1 l' n (Hin _ Ha) Hpre Hb). by eapply in_step_prefix.
  - intros Hret. destruct (H3 Hret) as [Hbr Hc]. split; [done|]. intros n Hrun.
    apply net_run_app in Hrun as (n1 & Ha & Hb). eapply complete_file; [done|]. by eapply Hc; [apply Hin|].
Qed.

(** ** A client that answers in time *)

(** An event that leaves the server waiting for the acknowledgement of [seq]. *)
Definition harmless (seq : Z) (ev : read_event) : bool :=
  match ev with
  | ReadTimeout => true
  | ReadError => false
  | Recv pkt => match wait_ack seq [Recv pkt] with (_, TimedOut, _) => true | _ => false end
  end.

Definition is_timeout (ev : read_event) : bool := match ev with ReadTimeout => true | _ => false end.

(** One acknowledgement per packet, each after its noise. *)
Fixpoint answers (seq : Z) (noises : list (list read_event)) : list read_event :=
  match noises with
  | [] => []
  | noise :: noises => (noise ++ [Recv (ack seq)]) ++ answers (uint_wrap 16 (seq + 1)) noises
  end.

Definition attempts_of (s : Server) : nat :=
  Z.to_nat (if WriteAttempts s <=? 0 then DefaultWriteAttempts else WriteAttempts s).

Definition in_time (s : Server) (seq : Z) (noise : list read_event) : bool :=
  forallb (harmless seq) noise && (length (filter (λ ev, is_timeout ev = true) noise) <? attempts_of s)%nat.

Fixpoint all_in_time (s : Server) (seq : Z) (noises : list (list read_event)) : bool :=
  match noises with
  | [] => true
  | noise :: noises => in_time s seq noise && all_in_time s (uint_wrap 16 (seq + 1)) noises
  end.

(** How a wait ends and what is left to read. *)
Definition waited (seq : Z) (rs : list read_event) : wait_result * list read_event :=
  ((wait_ack seq rs).1.2, (wait_ack seq rs).2).

Lemma waited_ack seq rest : seq_ok seq → waited seq (Recv (ack seq) :: rest) = (Acked, rest).
Proof.
  intros Hs. unfold waited, ack. destruct (be16_join seq Hs) as (a & b & -> & E). cbn [app wait_ack].
  by rewrite E, (Z.eqb_refl seq).
Qed.

Lemma waited_harmless seq pkt rest : harmless seq (Recv pkt) = true →
  waited seq (Recv pkt :: rest) = waited seq rest.
Proof.
  unfold harmless, waited. cbn [wait_ack]. destruct (wait_ack seq rest) as [[log r] rs] eqn:E.
  destruct pkt as [|o1 [|o2 [|s1 [|s2 pkt]]]]; [done..|]. by repeat case_match; simplify_eq/=.
Qed.

(** The first events up to a time-out or the acknowledgement. *)
Lemma waited_noise seq noise rest : seq_ok seq → forallb (harmless seq) noise = true →
  waited seq (noise ++ Recv (ack seq) :: rest) = (Acked, rest) ∧ filter (λ ev, is_timeout ev = true) noise = [] ∨
  ∃ noise', waited seq (noise ++ Recv (ack seq) :: rest) = (TimedOut, noise' ++ Recv (ack seq) :: rest) ∧
    forallb (harmless seq) noise' = true ∧
    length (filter (λ ev, is_timeout ev = true) noise) = S (length (filter (λ ev, is_timeout ev = true) noise')).
Proof.
  intros Hs. induction noise as [|ev noise IH]; intros H.
  { left. split; [by apply waited_ack|done]. }
  cbn [forallb] in H. apply andb_true_iff in H as [He H]. destruct ev as [| |pkt]; [|done|].
  - right. by exists noise.
  - rewrite <- app_comm_cons, waited_harmless by done. by apply IH.
Qed.

Lemma send_attempts_answered n b seq : seq_ok seq → ∀ noise rest,
  forallb (harmless seq) noise = true → (length (filter (λ ev, is_timeout ev = true) noise) < n)%nat →
  ∃ log, send_attempts n b seq (Conn (noise ++ Recv (ack seq) :: rest) []) = (log, Ret tt, Conn rest []).
Proof.
  intros Hs. induction n as [|n IH]; intros noise rest Hh Hn; [lia|]. cbn [send_attempts Write write_fails reads tail].
  pose proof (waited_noise seq noise rest Hs Hh) as Hw. unfold waited in Hw.
  destruct (wait_ack seq (noise ++ Recv (ack seq) :: rest)) as [[log r] rs]. cbn [fst snd] in Hw.
  destruct Hw as [[[= -> ->] _]|(noise' & [= -> ->] & Hh' & Hl)]; [by eexists|].
  destruct (IH noise' rest Hh' ltac:(lia)) as [sent E]. rewrite E. by eexists.
Qed.

Lemma send_answered s b seq noise rest : seq_ok seq → in_time s seq noise = true →
  ∃ sent, send s b seq (Conn ((noise ++ [Recv (ack seq)]) ++ rest) []) = (sent, Ret tt, Conn rest []).
Proof.
  intros Hs H. apply andb_true_iff in H as [Hh Hn]. apply Nat.ltb_lt in Hn. rewrite <- app_assoc.
  by apply send_attempts_answered.
Qed.

Lemma div_sub_block n bs : 0 < bs ≤ n → n / bs = (n - bs) / bs + 1.
Proof. intros H. rewrite <- (Z.div_add _ 1 bs) by lia. f_equal. lia. Qed.

Lemma transfer_loop_answered fuel s bs : 0 < bs → ∀ seq f noises,
  seq_ok seq → (length (content f) < fuel)%nat → broken f = false →
  Z.of_nat (length noises) = Z.of_nat (length (content f)) / bs + 1 → all_in_time s seq noises = true →
  ∃ sent, transfer_loop fuel s bs seq f (Conn (answers seq noises) []) = (sent, Ret tt).
Proof.
  intros Hbs. induction fuel as [|fuel IH]; intros seq f noises Hs Hf Hbr Hn Ht; [lia|].
  destruct noises as [|noise noises]; cbn [length] in Hn.
  { pose proof (Z.div_pos (Z.of_nat (length (content f))) bs). lia. }
  cbn [all_in_time] in Ht. apply andb_true_iff in Ht as [Ht Hts].
  cbn [transfer_loop answers]. unfold CopyN. rewrite Hbr, andb_false_r. set (block := take _ _).
  destruct (send_answered s (data_packet seq block) seq noise (answers (uint_wrap 16 (seq + 1)) noises) Hs Ht)
    as [sent ->].
  destruct (Z.ltb_spec (Z.of_nat (length block)) bs) as [Hlt|Hge]; [by eexists|].
  assert (Z.to_nat bs ≤ length (content f))%nat as Hlen by (unfold block in Hge; rewrite length_take in Hge; lia).
  edestruct (IH (uint_wrap 16 (seq + 1)) (File (drop (Z.to_nat bs) (content f)) false) noises) as [sent' ->];
    [by apply next_seq|cbn [content]; rewrite length_drop; lia|done| |done|by eexists].
  cbn [content]. rewrite length_drop. rewrite (div_sub_block _ bs) in Hn by lia.
  rewrite Nat2Z.inj_sub, Z2Nat.id by lia. lia.
Qed.

(** Whether the server acknowledges options before the first block. *)
Definition sends_oack (req : rrq) (size : Z) : bool :=
  negb (BlockSize req =? 0) || (WantSize req && negb (size =? 0)).

(** C38 A transfer to a client that answers in time succeeds: when every packet (the option acknowledgement, if
    one is due, and the blocks of the file, an empty one at the end of a file of full blocks) is acknowledged before the
    attempts for it are used up, after any number of stray packets, the transfer returns without error.  Block
    numbers wrap around, so that the length of the file is not limited. *)
Theorem transfer_completes s handler pkt req f size noises :
  parseRRQ pkt = Ret req → handler (Filename req) = Some (f, size) → broken f = false →
  let first := if sends_oack req size then 0 else 1 in
  Z.of_nat (length noises) = Z.of_nat (length (content f)) / negotiated s req + 2 - first →
  all_in_time s first noises = true →
  (transfer s (Some (Conn (answers first noises) [])) handler req).2 = Ret tt.
Proof.
  intros Hp Hh Hbr first Hn Ht. pose proof (negotiated_pos s req (parseRRQ_size _ _ Hp)) as Hpos.
  pose proof (Z.div_pos (Z.of_nat (length (content f))) (negotiated s req)) as Hdiv.
  unfold transfer. rewrite Hh. fold (sends_oack req size) (negotiated s req). destruct (sends_oack req size); cbv zeta in *; subst first.
  - destruct noises as [|noise noises]; cbn [length] in Hn; [lia|]. cbn [all_in_time] in Ht.
    apply andb_true_iff in Ht as [Ht Hts]. cbn [answers]. change (uint_wrap 16 (0 + 1)) with 1 in *.
    destruct (send_answered s (oack s req size) 0 noise (answers 1 noises)
      ltac:(unfold seq_ok; lia) Ht) as [sent ->].
    destruct (transfer_loop_answered (S (length (content f))) s _ Hpos 1 f noises) as [sent' ->];
      [unfold seq_ok; lia|lia|done|lia|done|done].
  - destruct (transfer_loop_answered (S (length (content f))) s _ Hpos 1 f noises) as [sent' ->];
      [unfold seq_ok; lia|lia|done|lia|done|done].
Qed.

Definition sample_server : Server := MkServer 0 0.

Definition sample_request : bytes :=
  [0; 1] ++ str_bytes "pxe" ++ [0] ++ str_bytes "octet" ++ [0] ++ str_bytes "blksize" ++ [0] ++ str_bytes "8" ++ [0].

Definition sample_handler (name : bytes) : option (file * Z) :=
  if bool_decide (name = str_bytes "pxe") then Some (File (str_bytes "0123456789") false, 10) else None.

Definition sample_req : rrq := RRQ (str_bytes "pxe") 8 false.

(** The steps of a concrete run. *)
Ltac compute_network :=
  match goal with |- net_run _ ?n _ _ => let m := eval vm_compute in n in change n with m end.
Ltac sends := apply run_sent; compute_network.
Ltac delivers k :=
  eapply run_deliver; [apply list_elem_of_lookup_2 with (i := k); reflexivity|done|compute_network].
Ltac reads_nothing := apply run_read; [exact I|].
Ltac reads_ack k :=
  apply run_read; [right; eexists; split; [apply list_elem_of_lookup_2 with (i := k); reflexivity|done]|].

(** A first block that is lost once and repeated, a second that arrives twice, and an acknowledgement that is lost. *)
Definition sample_conn : conn :=
  Conn [Recv (ack 0); ReadTimeout; Recv (ack 1); Recv (ack 1); ReadTimeout; Recv (ack 2)] [].

Lemma transfer_delivers_witness :
  let '(log, r) := transfer sample_server (Some sample_conn) sample_handler sample_req in
  r = Ret tt ∧ length log = 11%nat ∧ (∃ n, net_run (negotiated sample_server sample_req) idle log n) ∧
  delivered (negotiated sample_server sample_req) log r (File (str_bytes "0123456789") false).
Proof.
  pose proof (transfer_delivers sample_server (Some sample_conn) sample_handler sample_request sample_req
    (File (str_bytes "0123456789") false) 10 ltac:(vm_compute; reflexivity) ltac:(vm_compute; reflexivity)) as H.
  destruct (transfer _ _ _ _) as [log r] eqn:E. vm_compute in E. injection E as <- <-. split_and!; [done|done| |done].
  eexists. change (negotiated sample_server sample_req) with 8.
  sends. delivers 0%nat. reads_ack 0%nat.
  sends. reads_nothing. sends. delivers 2%nat. delivers 1%nat. reads_ack 1%nat.
  sends. reads_ack 2%nat. delivers 3%nat. reads_nothing. sends. delivers 4%nat. reads_ack 4%nat. apply run_end.
Defined.

Lemma transfer_completes_witness :
  (transfer sample_server (Some (Conn (answers 0 [[]; [ReadTimeout; Recv (ack 7)]; []]) []))
     sample_handler sample_req).2 = Ret tt.
Proof.
  apply (transfer_completes sample_server sample_handler sample_request sample_req
    (File (str_bytes "0123456789") false) 10 [[]; [ReadTimeout; Recv (ack 7)]; []]); vm_compute; reflexivity.
Defined.

End TftpProofs.
