(* ===== verification/Condition.v ===== *)
(** * The language of scheduling conditions: pkg/util/conditionparser/parser.go

    Conditions are Go expressions over a JSON document.  Go's parser is a parameter; its syntax trees
    are the type [expr].  A Go value of type interface{} is a [value]: one constructor per dynamic
    type that evaluation produces, so that type switches are matches and failed assertions panics.
    Floating-point numbers are those of IEEE 754 at 53 bits. *)

From stdpp Require Import pretty.
From Stdlib Require Import Ascii SpecFloat.
From S2P Require Import Prelude Netutils.
Local Open Scope Z_scope.
Local Open Scope go_scope.

Module Condition.

(** ** Float64 *)

Definition float64 := spec_float.
Definition f_add : float64 → float64 → float64 := SFadd 53 1024.
Definition f_sub : float64 → float64 → float64 := SFsub 53 1024.
Definition f_mul : float64 → float64 → float64 := SFmul 53 1024.
Definition f_div : float64 → float64 → float64 := SFdiv 53 1024.

(** [float64(i)]. *)
Definition f_of_int (i : Z) : float64 := binary_normalize 53 1024 i 0 false.

(** A decimal fraction [m * 10^e], rounded once; nothing when it is out of range. *)
Definition f_of_decimal (m : Z) (e : Z) : option float64 :=
  let f := if 0 <=? e then binary_normalize 53 1024 (m * 10 ^ e) 0 false
           else match m with
                | Zpos p => SFdiv 53 1024 (S754_finite false p 0) (S754_finite false (Z.to_pos (10 ^ (- e))) 0)
                | _ => S754_zero false
                end in
  match f with S754_infinity _ | S754_nan => None | _ => Some f end.

(** ** Values *)

Inductive value :=
| VNil
| VBool (b : bool)
| VInt (i : Z)
| VByte (c : Z)
| VFloat (f : float64)
| VString (s : string)
| VArray (l : list value)
| VCaller (caller : value) (method : string)
| JNull
| JBool (b : bool)
| JInt (i : Z)
| JFloat (f : float64)
| JString (s : string)
| JArray (l : list value)
| JDict (d : list (string * value)).

(** The keys of a dictionary are distinct; their order is immaterial. *)
Definition dict := list (string * value).

Fixpoint dict_get (d : dict) (key : string) : option value :=
  match d with
  | [] => None
  | (k, v) :: d => if String.eqb k key then Some v else dict_get d key
  end.

(** [JSONDict._get], as far as a value comes back. *)
Fixpoint json_get (d : dict) (keys : list string) : option value :=
  match keys with
  | [] => Some (JDict d)
  | [key] => dict_get d key
  | key :: keys => match dict_get d key with Some (JDict d) => json_get d keys | _ => None end
  end.

Definition Contains (d : dict) (keys : list string) : bool := bool_decide (is_Some (json_get d keys)).

Definition SortedKeys (d : dict) : list string := merge_sort String.le d.*1.

Definition indexed (prefix : string) (idx : nat) : string := prefix +:+ "." +:+ pretty idx.

(** The loop of [GetArrayOfPrefix]: the indices found are keys of the dictionary. *)
Fixpoint prefix_loop (fuel : nat) (d : dict) (prefix : string) (idx : nat) : list value :=
  match fuel with
  | O => []
  | S fuel =>
    match dict_get d (indexed prefix idx) with
    | None | Some JNull => []
    | Some obj => obj :: prefix_loop fuel d prefix (S idx)
    end
  end.

Definition GetArrayOfPrefix (d : dict) (prefix : string) : list value := prefix_loop (S (length d)) d prefix 0.

(** ** Syntax trees of go/ast *)

Inductive token :=
| ADD | SUB | MUL | QUO | REM | AND | OR | XOR | SHL | SHR | AND_NOT
| LAND | LOR | EQL | LSS | GTR | NOT | NEQ | LEQ | GEQ | ARROW.

Inductive lit_kind := IDENT | INT | FLOAT | CHAR | STRING | IMAG.

(** [resolved]: whether the parser set the field [Obj] of an identifier. *)
Inductive expr :=
| BinaryExpr (X : expr) (Op : token) (Y : expr)
| UnaryExpr (Op : token) (X : expr)
| SelectorExpr (X : expr) (Sel : string)
| Ident (Name : string) (resolved : bool)
| ParenExpr (X : expr)
| CallExpr (Fun : expr) (Args : list expr)
| IndexExpr (X : expr) (Index : expr)
| BasicLit (Kind : lit_kind) (Value : string)
| OtherExpr.

Inductive cond_error :=
| ErrInvalidOp
| ErrFieldNotFound
| ErrOutOfIndex
| ErrFuncArgument
| ErrMethodNotFound
| ErrNumber
| ErrNoSuchKey
| ErrSyntax.

Notation R := (outcome cond_error).

(** ** Assertions *)

Definition getString (val : value) : R string :=
  match val with JString s | VString s => Ret s | _ => Panic end.

Definition getBool (val : value) : R bool :=
  match val with JBool b | VBool b => Ret b | _ => Panic end.

(** reflect's [Int] accepts the signed integers only. *)
Definition getInt (val : value) : R Z :=
  match val with JInt i | VInt i => Ret i | _ => Panic end.

Definition getFloat (val : value) : R float64 :=
  match val with JFloat f | VFloat f => Ret f | _ => Panic end.

Definition is_bool (v : value) : bool := match v with VBool _ | JBool _ => true | _ => false end.
Definition is_string (v : value) : bool := match v with VString _ | JString _ => true | _ => false end.
Definition is_int (v : value) : bool := match v with VInt _ | VByte _ | JInt _ => true | _ => false end.
Definition is_float (v : value) : bool := match v with VFloat _ | JFloat _ => true | _ => false end.

(** The loop that several functions run over a slice: the first error or panic ends it. *)
Fixpoint mapR {A B} (f : A → R B) (l : list A) : R (list B) :=
  match l with
  | [] => Ret []
  | x :: l => let! y := f x in let! ys := mapR f l in Ret (y :: ys)
  end.

(** ** Operators *)

Definition shift_count (i : Z) : Z := Z.min 64 (uint_wrap 64 i).

Definition evalIntegerOp (X Y : Z) (op : token) : R value :=
  match op with
  | ADD => Ret (VInt (int64_wrap (X + Y)))
  | SUB => Ret (VInt (int64_wrap (X - Y)))
  | MUL => Ret (VInt (int64_wrap (X * Y)))
  | QUO => if Y =? 0 then Panic else Ret (VInt (int64_wrap (Z.quot X Y)))
  | REM => if Y =? 0 then Panic else Ret (VInt (Z.rem X Y))
  | AND => Ret (VInt (Z.land X Y))
  | OR => Ret (VInt (Z.lor X Y))
  | XOR => Ret (VInt (Z.lxor X Y))
  | SHL => Ret (VInt (int64_wrap (Z.shiftl X (shift_count Y))))
  | SHR => Ret (VInt (Z.shiftr X (shift_count Y)))
  | AND_NOT => Ret (VInt (Z.ldiff X Y))
  | EQL => Ret (VBool (X =? Y))
  | LSS => Ret (VBool (X <? Y))
  | GTR => Ret (VBool (Y <? X))
  | NEQ => Ret (VBool (negb (X =? Y)))
  | LEQ => Ret (VBool (X <=? Y))
  | GEQ => Ret (VBool (Y <=? X))
  | _ => Fail ErrInvalidOp
  end.

Definition evalFloatOp (X Y : float64) (op : token) : R value :=
  match op with
  | ADD => Ret (VFloat (f_add X Y))
  | SUB => Ret (VFloat (f_sub X Y))
  | MUL => Ret (VFloat (f_mul X Y))
  | QUO => Ret (VFloat (f_div X Y))
  | EQL => Ret (VBool (SFeqb X Y))
  | LSS => Ret (VBool (SFltb X Y))
  | GTR => Ret (VBool (SFltb Y X))
  | NEQ => Ret (VBool (negb (SFeqb X Y)))
  | LEQ => Ret (VBool (SFleb X Y))
  | GEQ => Ret (VBool (SFleb Y X))
  | _ => Fail ErrInvalidOp
  end.

(** The second half of [evalBinaryInternal]: neither operand is an array.  The case for a float on the right
    of an integer names the type [jsonutils.JSONFloat], which no value has, not the pointer to it. *)
Definition scalar_binary (X Y : value) (op : token) : R value :=
  if is_bool X then
    if is_bool Y then
      let! boolX := getBool X in
      let! boolY := getBool Y in
      match op with
      | LAND => Ret (VBool (boolX && boolY))
      | LOR => Ret (VBool (boolX || boolY))
      | _ => Fail ErrInvalidOp
      end
    else Fail ErrInvalidOp
  else if is_string X then
    if is_string Y then
      let! strX := getString X in
      let! strY := getString Y in
      match op with
      | ADD => Ret (VString (strX +:+ strY))
      | EQL => Ret (VBool (String.eqb strX strY))
      | NEQ => Ret (VBool (negb (String.eqb strX strY)))
      | _ => Fail ErrInvalidOp
      end
    else Fail ErrInvalidOp
  else if is_int X then
    let! intX := getInt X in
    if is_int Y then
      let! intY := getInt Y in evalIntegerOp intX intY op
    else match Y with
         | VFloat floatY => evalFloatOp (f_of_int intX) floatY op
         | _ => Fail ErrInvalidOp
         end
  else if is_float X then
    let! floatX := getFloat X in
    if is_int Y then
      let! intY := getInt Y in evalFloatOp floatX (f_of_int intY) op
    else if is_float Y then
      let! floatY := getFloat Y in evalFloatOp floatX floatY op
    else Fail ErrInvalidOp
  else Fail ErrInvalidOp.

(** An array on the right, then on the left, is worked through element by element. *)
Fixpoint binary_right (X : value) (op : token) (Y : value) : R value :=
  match Y with
  | VArray l | JArray l => let! ret := mapR (binary_right X op) l in Ret (VArray ret)
  | _ => scalar_binary X Y op
  end.

Fixpoint evalBinaryInternal (X Y : value) (op : token) : R value :=
  match X with
  | VArray l | JArray l => let! ret := mapR (λ x, evalBinaryInternal x Y op) l in Ret (VArray ret)
  | _ => binary_right X op Y
  end.

Fixpoint evalUnaryInternal (op : token) (X : value) : R value :=
  match X with
  | VArray l | JArray l => let! ret := mapR (evalUnaryInternal op) l in Ret (VArray ret)
  | VBool b | JBool b => match op with NOT => Ret (VBool (negb b)) | _ => Fail ErrInvalidOp end
  | VInt _ | VByte _ | JInt _ =>
    let! intX := getInt X in
    match op with SUB => Ret (VInt (int64_wrap (- intX))) | _ => Fail ErrInvalidOp end
  | VFloat f | JFloat f => match op with SUB => Ret (VFloat (SFopp f)) | _ => Fail ErrInvalidOp end
  | _ => Fail ErrInvalidOp
  end.

(** ** Fields *)

Definition getJSONProperty (json : dict) (identStr : string) : R value :=
  if Contains json [identStr] then
    match json_get json [identStr] with Some v => Ret v | None => Fail ErrNoSuchKey end
  else
    match GetArrayOfPrefix json identStr with
    | [] => Fail ErrFieldNotFound
    | identArray => Ret (JArray identArray)
    end.

Fixpoint evalSelectorInternal (identStr : string) (X : value) : R value :=
  match X with
  | JDict d =>
    match getJSONProperty d identStr with
    | Fail ErrFieldNotFound => Ret (VCaller X identStr)
    | ret => ret
    end
  | VArray l | JArray l =>
    if String.eqb identStr "len" || String.eqb identStr "contains" then Ret (VCaller X identStr)
    else let! ret := mapR (evalSelectorInternal identStr) l in Ret (VArray ret)
  | VString s | JString s => Ret (VCaller (VString s) identStr)
  | _ => Fail ErrInvalidOp
  end.

(** ** Calls *)

Definition HasPrefix (s t : string) : bool := String.prefix t s.

Definition HasSuffix (s t : string) : bool :=
  (String.length t <=? String.length s)%nat &&
  String.eqb (String.substring (String.length s - String.length t) (String.length t) s) t.

Definition strings_Contains (s t : string) : bool := bool_decide (is_Some (String.index 0 t s)).

Definition IsInStringArray (s : string) (l : list string) : bool := existsb (String.eqb s) l.

Definition args2Strings (args : list value) : R (list string) := mapR getString args.
Definition args2Ints (args : list value) : R (list Z) := mapR getInt args.

(** The methods that take one string. *)
Definition string_test (f : string → string → bool) (strX : string) (args : list value) : R value :=
  let! strArgs := args2Strings args in
  match strArgs with [s] => Ret (VBool (f strX s)) | _ => Fail ErrFuncArgument end.

(** A single argument is asserted to be a Go string even when it was found to be a JSON one. *)
Definition in_args (args : list value) : R (list string) :=
  match args with
  | [] => Fail ErrFuncArgument
  | [VString s] => Ret [s]
  | [JString _] => Panic
  | [VArray l] | [JArray l] => args2Strings l
  | [_] => Fail ErrFuncArgument
  | _ => args2Strings args
  end.

Definition substr (strX : string) (args : list value) : R value :=
  let! intArgs := args2Ints args in
  let len := Z.of_nat (String.length strX) in
  let! (o1, o2) :=
    match intArgs with
    | [i] => Ret (0, i)
    | [i; j] => Ret (i, j)
    | _ => Fail ErrFuncArgument
    end in
  let o1 := if o1 <? 0 then len + o1 else o1 in
  let o2 := if o2 <? 0 then len + o2 else o2 in
  if (o1 <? 0) || (len <=? o1) then Fail ErrFuncArgument
  else if (o2 <=? o1) || (len <? o2) then Fail ErrFuncArgument
  else Ret (VString (String.substring (Z.to_nat o1) (Z.to_nat (o2 - o1)) strX)).

Definition call_string (strX method : string) (args : list value) : R value :=
  if String.eqb method "startswith" then string_test HasPrefix strX args
  else if String.eqb method "endswith" then string_test HasSuffix strX args
  else if String.eqb method "contains" then string_test strings_Contains strX args
  else if String.eqb method "in" then
    let! strArgs := in_args args in Ret (VBool (IsInStringArray strX strArgs))
  else if String.eqb method "len" then
    match args with [] => Ret (VInt (Z.of_nat (String.length strX))) | _ => Fail ErrFuncArgument end
  else if String.eqb method "substr" then substr strX args
  else Fail ErrInvalidOp.

Definition call_dict (jsonX : dict) (method : string) (args : list value) : R value :=
  if String.eqb method "contains" then
    let! strArgs := args2Strings args in Ret (VBool (Contains jsonX strArgs))
  else if String.eqb method "len" then
    match args with [] => Ret (VInt (Z.of_nat (length jsonX))) | _ => Fail ErrFuncArgument end
  else if String.eqb method "keys" then
    match args with [] => Ret (JArray (JString <$> SortedKeys jsonX)) | _ => Fail ErrFuncArgument end
  else Fail ErrMethodNotFound.

(** The loop over the elements does not stop at the one found. *)
Fixpoint find_in (array : list value) (arg : value) (find : bool) : R bool :=
  match array with
  | [] => Ret find
  | x :: array =>
    let! findInf := evalBinaryInternal x arg EQL in
    match findInf with
    | VBool b => find_in array arg (find || b)
    | _ => Fail ErrInvalidOp
    end
  end.

Fixpoint all_in (array : list value) (args : list value) : R bool :=
  match args with
  | [] => Ret true
  | arg :: args => let! find := find_in array arg false in if find then all_in array args else Ret false
  end.

Definition call_array (array : list value) (method : string) (args : list value) : R value :=
  if String.eqb method "len" then
    match args with [] => Ret (VInt (Z.of_nat (length array))) | _ => Fail ErrFuncArgument end
  else if String.eqb method "contains" then
    match args with
    | [] => Fail ErrFuncArgument
    | _ => let! b := all_in array args in Ret (VBool b)
    end
  else Fail ErrMethodNotFound.

Fixpoint evalCallInternal (args : list value) (funcV : value) : R value :=
  match funcV with
  | VArray l | JArray l => let! ret := mapR (evalCallInternal args) l in Ret (VArray ret)
  | VCaller caller method =>
    match caller with
    | VString strX => call_string strX method args
    | JDict jsonX => call_dict jsonX method args
    | VArray array | JArray array => call_array array method args
    | _ => Fail ErrInvalidOp
    end
  | _ => Fail ErrInvalidOp
  end.

(** ** Literals *)

Definition digit (c : Ascii.ascii) : option Z :=
  let n := Z.of_N (Ascii.N_of_ascii c) in if (48 <=? n) && (n <=? 57) then Some (n - 48) else None.

(** The value of the leading digits, how many there are, and the rest. *)
Fixpoint digits (s : string) (acc : Z) (n : nat) : Z * nat * string :=
  match s with
  | String c rest => match digit c with Some d => digits rest (10 * acc + d) (S n) | None => (acc, n, s) end
  | EmptyString => (acc, n, s)
  end.

(** The exponent that ends a literal. *)
Definition exponent (s : string) : option Z :=
  match s with
  | EmptyString => Some 0
  | String c s =>
    if Ascii.eqb c "e" || Ascii.eqb c "E" then
      let '(sign, s) := match s with
                        | String "-" s => (-1, s)
                        | String "+" s => (1, s)
                        | _ => (1, s)
                        end in
      match digits s 0 0 with
      | (e, S _, EmptyString) => Some (sign * e)
      | _ => None
      end
    else None
  end.

(** [strconv.ParseFloat] on the literals of the lexer: digits, a point, an exponent. *)
Definition ParseFloat (s : string) : option float64 :=
  let '(m, n, s) := digits s 0 0 in
  let '(m, k, s) := match s with String "." s => digits s m 0 | _ => (m, 0%nat, s) end in
  if ((n + k) =? 0)%nat then None
  else match exponent s with Some e => f_of_decimal m (e - Z.of_nat k) | None => None end.

(** [s[1 : len(s)-1]]. *)
Definition unquote (s : string) : R string :=
  if (String.length s <? 2)%nat then Panic else Ret (String.substring 1 (String.length s - 2) s).

Definition of_number {A} (f : A → value) (o : option A) : R value :=
  match o with Some a => Ret (f a) | None => Fail ErrNumber end.

Definition evalBasicLit (Kind : lit_kind) (Value : string) (input : value) : R value :=
  match Kind with
  | IDENT =>
    match input with
    | JDict d => match json_get d [Value] with Some v => Ret v | None => Fail ErrNoSuchKey end
    | _ => Fail ErrInvalidOp
    end
  | INT => of_number VInt (Netutils.Atoi Value)
  | FLOAT => of_number VFloat (ParseFloat Value)
  | CHAR =>
    let! s := unquote Value in
    match s with String c _ => Ret (VByte (Z.of_N (Ascii.N_of_ascii c))) | EmptyString => Panic end
  | STRING => let! s := unquote Value in Ret (VString s)
  | IMAG => Fail ErrInvalidOp
  end.

(** ** Evaluation *)

Definition evalIdent (Name : string) (resolved : bool) (input : value) : R value :=
  if negb resolved then Ret (VString Name)
  else match input with
       | VNil => Ret (VString Name)
       | JDict d => getJSONProperty d Name
       | _ => Fail ErrInvalidOp
       end.

Definition array_at (arr : list value) (i : Z) : R value :=
  if (0 <=? i) && (i <? Z.of_nat (length arr)) then of_opt (arr !! Z.to_nat i) else Fail ErrOutOfIndex.

(** The result of indexing anything else is the nil value, without an error. *)
Definition index_value (X indexV : value) : R value :=
  match X with
  | VArray l | JArray l => let! i := getInt indexV in array_at l i
  | JDict d => let! field := getString indexV in getJSONProperty d field
  | VString s =>
    let! i := getInt indexV in
    if (0 <=? i) && (i <? Z.of_nat (String.length s)) then
      match String.get (Z.to_nat i) s with Some c => Ret (VByte (Z.of_N (Ascii.N_of_ascii c))) | None => Panic end
    else Fail ErrOutOfIndex
  | _ => Ret VNil
  end.

(** [evalSelector] replaces the error of its operand. *)
Definition as_invalid {A} (m : R A) : R A := match m with Fail _ => Fail ErrInvalidOp | _ => m end.

Fixpoint eval (e : expr) (input : value) : R value :=
  match e with
  | BinaryExpr X op Y =>
    let! x := eval X input in
    let! y := eval Y input in
    evalBinaryInternal x y op
  | UnaryExpr op X => let! x := eval X input in evalUnaryInternal op x
  | SelectorExpr X Sel => let! x := as_invalid (eval X input) in evalSelectorInternal Sel x
  | Ident Name resolved => evalIdent Name resolved input
  | ParenExpr X => eval X input
  | CallExpr Fun Args =>
    let! funcV := eval Fun input in
    let! args := mapR (λ a, eval a input) Args in
    evalCallInternal args funcV
  | IndexExpr X Index =>
    let! x := eval X input in
    let! indexV := eval Index input in
    index_value x indexV
  | BasicLit Kind Value => evalBasicLit Kind Value input
  | OtherExpr => Fail ErrInvalidOp
  end.

(** The loop over an array of results. *)
Fixpoint any_true (arr : list value) : R bool :=
  match arr with
  | [] => Ret false
  | v :: arr => let! b := getBool v in if b then Ret true else any_true arr
  end.

(** What [Eval] makes of the value. *)
Definition verdict (result : value) : R bool :=
  match result with
  | VBool b | JBool b => Ret b
  | VArray l | JArray l => any_true l
  | _ => Ret false
  end.

Section Parser.
(** [parser.ParseExpr]. *)
Context (ParseExpr : string → option expr).

Definition IsValid (exprStr : string) : bool := bool_decide (is_Some (ParseExpr exprStr)).

Definition Eval (exprStr : string) (input : value) : R bool :=
  if String.eqb exprStr "" then Ret true
  else match ParseExpr exprStr with
       | None => Fail ErrSyntax
       | Some e => let! result := eval e input in verdict result
       end.
End Parser.

(** ** Examples from the tests of the package *)

Definition field (X : expr) (names : list string) : expr := foldl SelectorExpr X names.
Definition str (s : string) : expr := BasicLit STRING (String (Ascii.ascii_of_nat 34) (s +:+ String (Ascii.ascii_of_nat 34) "")).
Definition int (s : string) : expr := BasicLit INT s.
Definition server : expr := Ident "server" true.

Definition sample_disk (backend medium : string) : value :=
  JDict [("backend", JString backend); ("medium", JString medium)].

Definition sample_input : value :=
  JDict [("server", JDict [("disk.0", sample_disk "local" "hdd"); ("disk.1", sample_disk "local" "hdd");
                           ("disk.2", sample_disk "rbd" "ssd"); ("disk.3", sample_disk "rbd" "ssd");
                           ("vmem_size", JInt 1024); ("os_type", JString "Linux")])].

Definition test (e : expr) : R bool := let! v := eval e sample_input in verdict v.

Example test_backend : test (BinaryExpr (field server ["disk"; "backend"]) EQL (str "local")) = Ret true.
Proof. vm_compute. reflexivity. Qed.

Example test_medium : test (BinaryExpr (field server ["disk"; "medium"]) EQL (str "hybrid")) = Ret false.
Proof. vm_compute. reflexivity. Qed.

Example test_contains : test (CallExpr (field server ["disk"; "medium"; "contains"]) [str "ssd"]) = Ret true.
Proof. vm_compute. reflexivity. Qed.

Example test_in :
  test (CallExpr (field (IndexExpr (field server ["disk"]) (int "0")) ["medium"; "in"]) [field server ["disk"; "medium"]])
  = Ret true.
Proof. vm_compute. reflexivity. Qed.

Example test_len : test (BinaryExpr (CallExpr (field server ["disk"; "len"]) []) EQL (int "4")) = Ret true.
Proof. vm_compute. reflexivity. Qed.

Example test_substr :
  test (BinaryExpr (CallExpr (field (IndexExpr (field server ["disk"]) (int "0")) ["backend"; "substr"])
    [int "1"; UnaryExpr SUB (int "2")]) EQL (str "oc")) = Ret true.
Proof. vm_compute. reflexivity. Qed.

Example test_float : test (BinaryExpr (field server ["vmem_size"]) LSS (BasicLit FLOAT "1.0245e3")) = Ret true.
Proof. vm_compute. reflexivity. Qed.

Example test_decimal : ParseFloat "0.1" = Some (S754_finite false 7205759403792794 (-56)).
Proof. vm_compute. reflexivity. Qed.

End Condition.
