(* ===== verification/ConditionTypes.v ===== *)
(** * A type system for scheduling conditions: proofs about util/conditionparser

    The interpreter of conditions asserts dynamic types and divides integers, and panics where that fails.
    A checker over a schema of the document accepts conditions that cannot panic. *)

From stdpp Require Import pretty.
From Stdlib Require Import Ascii SpecFloat.
From S2P Require Import Prelude Netutils Condition.
Import Condition.
Local Open Scope Z_scope.
Local Open Scope go_scope.

Module ConditionTypes.

(** ** Types *)

(** JSON strings and floats are told from Go's; a dictionary lists its fields, and the families [name.0],
    [name.1], ... of fields that are read as arrays. *)
Inductive ty :=
| TBool
| TInt
| TFloat (json : bool)
| TStr (json : bool)
| TArr (t : ty)
| TDict (fields families : list (string * ty))
| TFun (caller : ty) (method : string).

Definition assoc {A} (l : list (string * A)) (k : string) : option A :=
  snd <$> find (λ p, String.eqb p.1 k) l.

Definition dict_methods : list string := ["contains"; "len"; "keys"].

(** The names of methods that are no fields do not occur in the document either. *)
Definition undeclared {A} (fields families : list (string * A)) (d : dict) (m : string) : bool :=
  match assoc fields m, assoc families m with
  | None, None => bool_decide (dict_get d m = None) && bool_decide (GetArrayOfPrefix d m = [])
  | _, _ => true
  end.

Fixpoint conforms (t : ty) (v : value) : bool :=
  match t, v with
  | TBool, (VBool _ | JBool _) => true
  | TInt, (VInt _ | JInt _) => true
  | TFloat false, VFloat _ => true
  | TFloat true, JFloat _ => true
  | TStr false, VString _ => true
  | TStr true, JString _ => true
  | TArr t, (VArray l | JArray l) => forallb (conforms t) l
  | TDict fields families, JDict d =>
    forallb (λ p, match dict_get d p.1 with Some v => conforms p.2 v | None => false end) fields &&
    forallb (λ p, bool_decide (dict_get d p.1 = None) && negb (bool_decide (GetArrayOfPrefix d p.1 = [])) &&
                  forallb (conforms p.2) (GetArrayOfPrefix d p.1)) families &&
    forallb (undeclared fields families d) dict_methods
  | TFun t m, VCaller caller method => conforms t caller && String.eqb m method
  | _, _ => false
  end.

(** ** The checker *)

Definition compares (op : token) : bool :=
  match op with EQL | LSS | GTR | NEQ | LEQ | GEQ => true | _ => false end.

Definition scalar_ty (nz : bool) (op : token) (t s : ty) : option ty :=
  match t, s with
  | TBool, TBool => match op with LAND | LOR => Some TBool | _ => None end
  | TStr _, TStr _ => match op with ADD => Some (TStr false) | EQL | NEQ => Some TBool | _ => None end
  | TInt, TInt =>
    match op with
    | QUO | REM => if nz then Some TInt else None
    | ADD | SUB | MUL | AND | OR | XOR | SHL | SHR | AND_NOT => Some TInt
    | _ => if compares op then Some TBool else None
    end
  | TInt, TFloat false | TFloat _, TInt | TFloat _, TFloat _ =>
    match op with
    | ADD | SUB | MUL | QUO => Some (TFloat false)
    | _ => if compares op then Some TBool else None
    end
  | _, _ => None
  end.

Fixpoint right_ty (nz : bool) (op : token) (t s : ty) : option ty :=
  match s with
  | TArr s => TArr <$> right_ty nz op t s
  | _ => scalar_ty nz op t s
  end.

Fixpoint binary_ty (nz : bool) (op : token) (t s : ty) : option ty :=
  match t with
  | TArr t => TArr <$> binary_ty nz op t s
  | _ => right_ty nz op t s
  end.

Fixpoint unary_ty (op : token) (t : ty) : option ty :=
  match t with
  | TArr t => TArr <$> unary_ty op t
  | TBool => match op with NOT => Some TBool | _ => None end
  | TInt => match op with SUB => Some TInt | _ => None end
  | TFloat _ => match op with SUB => Some (TFloat false) | _ => None end
  | _ => None
  end.

Definition field_ty (fields families : list (string * ty)) (name : string) : option ty :=
  match assoc fields name with
  | Some t => Some t
  | None => TArr <$> assoc families name
  end.

Fixpoint selector_ty (name : string) (t : ty) : option ty :=
  match t with
  | TDict fields families =>
    match field_ty fields families name with
    | Some t => Some t
    | None => if bool_decide (name ∈ dict_methods) then Some (TFun t name) else None
    end
  | TArr t' =>
    if String.eqb name "len" || String.eqb name "contains" then Some (TFun t name)
    else TArr <$> selector_ty name t'
  | TStr _ => Some (TFun (TStr false) name)
  | _ => None
  end.

Definition is_str_ty (t : ty) : bool := match t with TStr _ => true | _ => false end.
Definition is_int_ty (t : ty) : bool := match t with TInt => true | _ => false end.

(** The type of the result, and whether the call cannot fail. *)
Definition call_string_ty (method : string) (args : list ty) : option (ty * bool) :=
  if bool_decide (method ∈ ["startswith"; "endswith"; "contains"]) then
    match args with [TStr _] => Some (TBool, true) | _ => None end
  else if String.eqb method "in" then
    match args with
    | [] => None
    | [TStr false] | [TArr (TStr _)] => Some (TBool, true)
    | [_] => None
    | _ => if forallb is_str_ty args then Some (TBool, true) else None
    end
  else if String.eqb method "len" then match args with [] => Some (TInt, true) | _ => None end
  else if String.eqb method "substr" then
    match args with [TInt] | [TInt; TInt] => Some (TStr false, false) | _ => None end
  else None.

Definition call_dict_ty (method : string) (args : list ty) : option (ty * bool) :=
  if String.eqb method "contains" then if forallb is_str_ty args then Some (TBool, true) else None
  else if String.eqb method "len" then match args with [] => Some (TInt, true) | _ => None end
  else if String.eqb method "keys" then match args with [] => Some (TArr (TStr true), true) | _ => None end
  else None.

Definition call_array_ty (t : ty) (method : string) (args : list ty) : option (ty * bool) :=
  if String.eqb method "len" then match args with [] => Some (TInt, true) | _ => None end
  else if String.eqb method "contains" then
    match args with
    | [] => None
    | _ => if forallb (λ a, match binary_ty false EQL t a with Some TBool => true | _ => false end) args
           then Some (TBool, true) else None
    end
  else None.

Fixpoint call_ty (args : list ty) (f : ty) : option (ty * bool) :=
  match f with
  | TArr f => match call_ty args f with Some (t, total) => Some (TArr t, total) | None => None end
  | TFun (TStr false) m => call_string_ty m args
  | TFun (TDict _ _) m => call_dict_ty m args
  | TFun (TArr t) m => call_array_ty t m args
  | _ => None
  end.

Definition nonzero_lit (e : expr) : bool :=
  match e with
  | BasicLit INT v => match Netutils.Atoi v with Some n => negb (n =? 0) | None => false end
  | _ => false
  end.

Definition string_lit (e : expr) : option string :=
  match e with
  | BasicLit STRING v => match unquote v with Ret s => Some s | _ => None end
  | _ => None
  end.

Definition lit_ty (k : lit_kind) (v : string) : option ty :=
  match k with
  | INT => match Netutils.Atoi v with Some _ => Some TInt | None => None end
  | FLOAT => match ParseFloat v with Some _ => Some (TFloat false) | None => None end
  | STRING => match unquote v with Ret _ => Some (TStr false) | _ => None end
  | _ => None
  end.

Fixpoint all_some {A} (l : list (option A)) : option (list A) :=
  match l with
  | [] => Some []
  | Some a :: l => cons a <$> all_some l
  | None :: _ => None
  end.

(** The type of an expression, and whether its evaluation cannot fail: indices may be out of range, and
    the bounds of a substring. *)
Fixpoint infer (schema : ty) (e : expr) : option (ty * bool) :=
  match e with
  | BinaryExpr X op Y =>
    match infer schema X, infer schema Y with
    | Some (t, a), Some (s, b) =>
      match binary_ty (nonzero_lit Y) op t s with Some r => Some (r, a && b) | None => None end
    | _, _ => None
    end
  | UnaryExpr op X =>
    match infer schema X with
    | Some (t, a) => match unary_ty op t with Some r => Some (r, a) | None => None end
    | None => None
    end
  | SelectorExpr X Sel =>
    match infer schema X with
    | Some (t, a) => match selector_ty Sel t with Some r => Some (r, a) | None => None end
    | None => None
    end
  | Ident Name resolved =>
    if negb resolved then Some (TStr false, true)
    else match schema with
         | TDict fields families => match field_ty fields families Name with Some t => Some (t, true) | None => None end
         | _ => None
         end
  | ParenExpr X => infer schema X
  | CallExpr Fun Args =>
    match infer schema Fun, all_some (infer schema <$> Args) with
    | Some (f, a), Some args =>
      match call_ty args.*1 f with Some (r, b) => Some (r, a && b && forallb snd args) | None => None end
    | _, _ => None
    end
  | IndexExpr X Index =>
    match infer schema X with
    | Some (TArr t, _) => match infer schema Index with Some (TInt, _) => Some (t, false) | _ => None end
    | Some (TDict fields families, a) =>
      match string_lit Index with
      | Some name => match field_ty fields families name with Some t => Some (t, a) | None => None end
      | None => None
      end
    | _ => None
    end
  | BasicLit k v => match lit_ty k v with Some t => Some (t, true) | None => None end
  | OtherExpr => None
  end.

(** ** Soundness *)

(** The outcome has the type, or is an error where [total] does not exclude it; it is no panic. *)
Definition safe (total : bool) (P : value → bool) (m : R value) : Prop :=
  match m with Ret v => P v = true | Fail _ => total = false | _ => False end.

Lemma safe_weaken total total' P m : safe total P m → (total' = true → total = true) → safe total' P m.
Proof. destruct m; cbn; [done| |done..]. intros ->. by destruct total'; [intros H; discriminate H|]. Qed.

Lemma safe_bind total P Q m k : safe total P m → (∀ v, P v = true → safe total Q (k v)) → safe total Q (obind m k).
Proof. destruct m; cbn; auto. Qed.

Lemma mapR_safe {A} total P (f : A → R value) l : (∀ x, x ∈ l → safe total P (f x)) →
  match mapR f l with Ret ys => forallb P ys = true | Fail _ => total = false | _ => False end.
Proof.
  induction l as [|x l IH]; intros H; [done|]. cbn [mapR].
  pose proof (H x (list_elem_of_here _ _)) as Hx. specialize (IH (λ y Hy, H y (list_elem_of_further _ _ _ Hy))).
  destruct (f x); cbn [obind safe] in *; [|done..]. destruct (mapR f l); cbn [obind forallb] in *; [|done..].
  by rewrite Hx, IH.
Qed.

(** Element by element. *)
Lemma array_safe {A} total t (f : A → R value) l : (∀ x, x ∈ l → safe total (conforms t) (f x)) →
  safe total (conforms (TArr t)) (let! ret := mapR f l in Ret (VArray ret)).
Proof. intros H. pose proof (mapR_safe total _ f l H). by destruct (mapR f l). Qed.

Lemma forallb_elem {A} (f : A → bool) l x : forallb f l = true → x ∈ l → f x = true.
Proof. intros H Hx. by apply (proj1 (forallb_forall _ _) H), list_elem_of_In. Qed.

Lemma conforms_array t v : conforms (TArr t) v = true →
  ∃ l, (v = VArray l ∨ v = JArray l) ∧ ∀ x, x ∈ l → conforms t x = true.
Proof. destruct v; try done; cbn [conforms]; intros H; eexists; split; eauto using forallb_elem. Qed.

Lemma conforms_str j v : conforms (TStr j) v = true → ∃ s, getString v = Ret s ∧ (v = VString s ∨ v = JString s).
Proof. destruct j, v; try done; intros _; eexists; split; [done|auto|done|auto]. Qed.

Lemma conforms_int v : conforms TInt v = true → ∃ i, getInt v = Ret i ∧ (v = VInt i ∨ v = JInt i).
Proof. destruct v; try done; intros _; eexists; split; [done|auto|done|auto]. Qed.

(** An integer divisor is a literal other than zero, or there is none. *)
Definition divisor_ok (nz : bool) (y : value) : Prop := nz = true → ∃ n, y = VInt n ∧ n ≠ 0.

Lemma scalar_sound total nz op t s r x y : scalar_ty nz op t s = Some r → divisor_ok nz y →
  conforms t x = true → conforms s y = true → safe total (conforms r) (scalar_binary x y op).
Proof.
  intros E Hnz Hx Hy. unfold scalar_ty in E.
  destruct t as [| |[]|[]| | |]; try done; destruct s as [| |[]|[]| | |]; try done;
    destruct x; try done; destruct y; try done; destruct op; try done; try (injection E as <-; done).
  all: destruct nz; [|done]; destruct (Hnz eq_refl) as (n & ? & Hn); simplify_eq;
    cbn; by rewrite (proj2 (Z.eqb_neq _ _) Hn).
Qed.

Lemma right_sound total nz op t s r x y : right_ty nz op t s = Some r → divisor_ok nz y →
  conforms t x = true → conforms s y = true → safe total (conforms r) (binary_right x op y).
Proof.
  revert r y. induction s as [| |[]|[]|s IH|fs gs|c _ m]; intros r y E Hnz Hx Hy;
    try (destruct y; try done; apply (scalar_sound total nz op t _ r x _ E); done).
  cbn [right_ty] in E. destruct (right_ty nz op t s) as [r'|] eqn:Er; [|done]. injection E as <-.
  destruct (conforms_array _ _ Hy) as (l & [->| ->] & Hl); apply array_safe; intros z Hz;
    apply (IH r' z eq_refl); auto; intros Ht; by destruct (Hnz Ht) as (n & ? & _).
Qed.

Lemma binary_sound total nz op t s r x y : binary_ty nz op t s = Some r → divisor_ok nz y →
  conforms t x = true → conforms s y = true → safe total (conforms r) (evalBinaryInternal x y op).
Proof.
  revert r x. induction t as [| |[]|[]|t IH|fs gs|c _ m]; intros r x E Hnz Hx Hy;
    try (destruct x; try done; by apply (right_sound total nz op _ s r _ y E)).
  cbn [binary_ty] in E. destruct (binary_ty nz op t s) as [r'|] eqn:Er; [|done]. injection E as <-.
  destruct (conforms_array _ _ Hx) as (l & [->| ->] & Hl); apply array_safe; intros z Hz; by apply (IH r' z); auto.
Qed.

Lemma unary_sound total op t r x : unary_ty op t = Some r → conforms t x = true →
  safe total (conforms r) (evalUnaryInternal op x).
Proof.
  revert r x. induction t as [| |j|j|t IH|fs gs|c _ m]; intros r x E Hx; try done;
    try (destruct x; try done; destruct op; try done; by injection E as <-);
    try (destruct j, x; try done; destruct op; try done; by injection E as <-).
  cbn [unary_ty] in E. destruct (unary_ty op t) as [r'|] eqn:Er; [|done]. injection E as <-.
  destruct (conforms_array _ _ Hx) as (l & [->| ->] & Hl); apply array_safe; intros z Hz; by apply (IH r' z); auto.
Qed.

(** *** Fields *)

Lemma assoc_elem {A} (l : list (string * A)) k a : assoc l k = Some a → (k, a) ∈ l.
Proof.
  unfold assoc. destruct (find _ l) as [[k' a']|] eqn:E; [|done]. intros [= ->].
  apply find_some in E as [Hin Hk]. cbn [fst] in Hk. apply String.eqb_eq in Hk as ->. by apply list_elem_of_In.
Qed.

Lemma getJSONProperty_spec d k :
  getJSONProperty d k = match dict_get d k with
                        | Some v => Ret v
                        | None => match GetArrayOfPrefix d k with [] => Fail ErrFieldNotFound | l => Ret (JArray l) end
                        end.
Proof. unfold getJSONProperty, Contains, json_get. by destruct (dict_get d k). Qed.

Lemma conforms_dict fields families v : conforms (TDict fields families) v = true →
  ∃ d, v = JDict d ∧
    (∀ k t, (k, t) ∈ fields → ∃ u, dict_get d k = Some u ∧ conforms t u = true) ∧
    (∀ k t, (k, t) ∈ families → dict_get d k = None ∧ GetArrayOfPrefix d k ≠ [] ∧
       forallb (conforms t) (GetArrayOfPrefix d k) = true) ∧
    (∀ m, m ∈ dict_methods → field_ty fields families m = None → dict_get d m = None ∧ GetArrayOfPrefix d m = []).
Proof.
  destruct v; try done. cbn [conforms]. intros H. apply andb_true_iff in H as [H H3]. apply andb_true_iff in H as [H1 H2].
  exists d. split_and!; [done|..].
  - intros k t Hk. pose proof (forallb_elem _ _ _ H1 Hk) as Hv. cbn [fst snd] in Hv.
    destruct (dict_get d k) as [u|]; [by exists u|done].
  - intros k t Hk. pose proof (forallb_elem _ _ _ H2 Hk) as Hv. cbn [fst snd] in Hv.
    apply andb_true_iff in Hv as [Hv Ht]. apply andb_true_iff in Hv as [Hv Hn].
    apply bool_decide_eq_true in Hv. by apply negb_true_iff, bool_decide_eq_false in Hn.
  - intros m Hm Hf. pose proof (forallb_elem _ _ _ H3 Hm) as Hv. unfold undeclared in Hv. unfold field_ty in Hf.
    destruct (assoc fields m); [done|]. destruct (assoc families m); [done|].
    apply andb_true_iff in Hv as [Hv Hn]. by apply bool_decide_eq_true in Hv, Hn.
Qed.

(** A declared field is found with its type. *)
Lemma field_sound fields families d k t : conforms (TDict fields families) (JDict d) = true →
  field_ty fields families k = Some t → ∃ v, getJSONProperty d k = Ret v ∧ conforms t v = true.
Proof.
  intros Hd Hf. destruct (conforms_dict _ _ _ Hd) as (d' & [= <-] & H1 & H2 & _). rewrite getJSONProperty_spec.
  unfold field_ty in Hf. destruct (assoc fields k) as [t'|] eqn:E1.
  - injection Hf as <-. destruct (H1 _ _ (assoc_elem _ _ _ E1)) as (u & -> & Hu). by exists u.
  - destruct (assoc families k) as [t'|] eqn:E2; [|done]. injection Hf as <-.
    destruct (H2 _ _ (assoc_elem _ _ _ E2)) as (-> & Hn & Hu). destruct (GetArrayOfPrefix d k) as [|v l]; [done|].
    by eexists.
Qed.

Lemma selector_sound total name t r x : selector_ty name t = Some r → conforms t x = true →
  safe total (conforms r) (evalSelectorInternal name x).
Proof.
  revert r x. induction t as [| |j|j|t IH|fs gs|c _ m]; intros r x E Hx; try done.
  - cbn [selector_ty] in E. injection E as <-. destruct (conforms_str _ _ Hx) as (s & _ & [->| ->]);
      cbn; by rewrite String.eqb_refl.
  - cbn [selector_ty] in E.
    destruct (String.eqb name "len" || String.eqb name "contains") eqn:Em.
    + injection E as <-. destruct (conforms_array _ _ Hx) as (l & [->| ->] & Hl);
        cbn [evalSelectorInternal]; rewrite Em; cbn [safe]; change (conforms (TArr t) (VArray l) && String.eqb name name = true);
        by rewrite String.eqb_refl, andb_true_r.
    + destruct (selector_ty name t) as [r'|] eqn:Er; [|done]. injection E as <-.
      destruct (conforms_array _ _ Hx) as (l & [->| ->] & Hl); cbn [evalSelectorInternal]; rewrite Em;
        apply array_safe; intros z Hz; by apply (IH r' z); auto.
  - cbn [selector_ty] in E. destruct (conforms_dict _ _ _ Hx) as (d & -> & _ & _ & Hm). cbn [evalSelectorInternal].
    destruct (field_ty fs gs name) as [t'|] eqn:Ef.
    + injection E as <-. by destruct (field_sound _ _ _ _ _ Hx Ef) as (v & -> & Hv).
    + case_bool_decide as Hin; [|done]. injection E as <-. destruct (Hm _ Hin Ef) as [H1 H2].
      rewrite getJSONProperty_spec, H1, H2. cbn [safe]. change (conforms (TDict fs gs) (JDict d) && String.eqb name name = true).
      by rewrite Hx, String.eqb_refl.
Qed.

(** *** Calls *)

Definition args_ok (ts : list ty) (args : list value) : Prop := Forall2 (λ t v, conforms t v = true) ts args.

Lemma getString_all ts args : forallb is_str_ty ts = true → args_ok ts args → ∃ l, args2Strings args = Ret l.
Proof.
  intros Hs Ha. unfold args2Strings. induction Ha as [|t v ts args Hv Ha IH]; [by eexists|].
  cbn [forallb] in Hs. apply andb_true_iff in Hs as [Ht Hs]. destruct t; try done.
  destruct (conforms_str _ _ Hv) as (s & E & _). destruct (IH Hs) as [l El]. cbn [mapR]. rewrite E, El. by eexists.
Qed.

Lemma getString_elems j l : (∀ x, x ∈ l → conforms (TStr j) x = true) → ∃ ss, args2Strings l = Ret ss.
Proof.
  intros H. unfold args2Strings. induction l as [|x l IH]; [by eexists|].
  destruct (conforms_str _ _ (H x (list_elem_of_here _ _))) as (s & E & _).
  destruct (IH (λ y Hy, H y (list_elem_of_further _ _ _ Hy))) as [ss El]. cbn [mapR]. rewrite E, El. by eexists.
Qed.

Lemma string_test_sound total f s t args : is_str_ty t = true → args_ok [t] args →
  safe total (conforms TBool) (string_test f s args).
Proof.
  intros Ht Ha. inversion Ha as [|? v ? ? Hv Ha' E1 E2]; subst. inversion Ha'; subst. destruct t; try done.
  destruct (conforms_str _ _ Hv) as (x & E & _). unfold string_test, args2Strings. cbn [mapR obind].
  by rewrite E.
Qed.

Lemma in_args_sound ts args : args_ok ts args → call_string_ty "in" ts = Some (TBool, true) → ∃ l, in_args args = Ret l.
Proof.
  intros Ha E. change (call_string_ty "in" ts) with
    (match ts with
     | [] => None
     | [TStr false] | [TArr (TStr _)] => Some (TBool, true)
     | [_] => None
     | _ => if forallb is_str_ty ts then Some (TBool, true) else None
     end) in E.
  destruct Ha as [|t v ts args Hv Ha]; [done|]. destruct Ha as [|t' v' ts args Hv' Ha].
  - destruct t as [| |?|[]|[| |?|?|?|??|??]|??|??]; try done.
    + destruct v; try done. by eexists.
    + destruct (conforms_array _ _ Hv) as (l & [->| ->] & Hl); by apply (getString_elems json).
  - assert (forallb is_str_ty (t :: t' :: ts) = true) as Hs.
    { destruct t as [| |?|[]|[| |?|?|?|??|??]|??|??]; destruct (forallb is_str_ty _); done. }
    assert (in_args (v :: v' :: args) = args2Strings (v :: v' :: args)) as -> by (by destruct v).
    apply (getString_all _ _ Hs). by repeat constructor.
Qed.

Lemma args2Ints_sound ts args : forallb is_int_ty ts = true → args_ok ts args →
  ∃ l, args2Ints args = Ret l ∧ length l = length ts.
Proof.
  intros Hs Ha. unfold args2Ints. induction Ha as [|t v ts args Hv Ha IH]; [by eexists|].
  cbn [forallb] in Hs. apply andb_true_iff in Hs as [Ht Hs]. destruct t; try done.
  destruct (conforms_int _ Hv) as (i & E & _). destruct (IH Hs) as (l & El & Hl). cbn [mapR]. rewrite E, El.
  eexists. split; [done|]. cbn [length]. by rewrite Hl.
Qed.

Lemma substr_sound s ts args : args_ok ts args → ts = [TInt] ∨ ts = [TInt; TInt] →
  safe false (conforms (TStr false)) (substr s args).
Proof.
  intros Ha Ht. destruct (args2Ints_sound ts args) as (l & El & Hl); [by destruct Ht as [->| ->]|done|].
  unfold substr. rewrite El. cbn [obind].
  destruct Ht as [->| ->], l as [|i [|j [|k l]]]; try done; cbn [obind]; by repeat case_match.
Qed.

Lemma call_string_sound s m ts args r total : call_string_ty m ts = Some (r, total) → args_ok ts args →
  safe total (conforms r) (call_string s m args).
Proof.
  intros E Ha. unfold call_string_ty in E. case_bool_decide as Hm.
  - assert (∃ j, ts = [TStr j] ∧ r = TBool) as (j & -> & ->).
    { destruct ts as [|[] [|? ?]]; try done. injection E as <- <-. by eexists. }
    repeat (apply elem_of_cons in Hm as [->|Hm]; [cbn; by apply (string_test_sound _ _ _ (TStr j))|]).
    by apply elem_of_nil in Hm.
  - assert (call_string s m args = if String.eqb m "in" then
        let! strArgs := in_args args in Ret (VBool (IsInStringArray s strArgs))
      else if String.eqb m "len" then
        match args with [] => Ret (VInt (Z.of_nat (String.length s))) | _ => Fail ErrFuncArgument end
      else if String.eqb m "substr" then substr s args else Fail ErrInvalidOp) as ->.
    { unfold call_string. destruct (String.eqb_spec m "startswith") as [->|]; [by destruct Hm; set_solver|].
      destruct (String.eqb_spec m "endswith") as [->|]; [by destruct Hm; set_solver|].
      destruct (String.eqb_spec m "contains") as [->|]; [by destruct Hm; set_solver|]. done. }
    destruct (String.eqb_spec m "in") as [->|].
    { assert (r = TBool ∧ total = true) as [-> ->].
      { destruct ts as [|[| |?|[]|[| |?|?|?|??|??]|??|??] [|? ?]]; try done; try (by injection E);
          destruct (forallb _ _); try done; by injection E. }
      destruct (in_args_sound ts args Ha) as [l ->]; [exact E|done]. }
    destruct (String.eqb m "len").
    { destruct ts; [|done]. injection E as <- <-. by inversion Ha. }
    destruct (String.eqb m "substr"); [|done].
    destruct ts as [|[] [|[] [|? ?]]]; try done; injection E as <- <-; eapply substr_sound; eauto.
Qed.

Lemma conforms_strings l : forallb (conforms (TStr true)) (JString <$> l) = true.
Proof. by induction l. Qed.

Lemma call_dict_sound d m ts args r total : call_dict_ty m ts = Some (r, total) → args_ok ts args →
  safe total (conforms r) (call_dict d m args).
Proof.
  unfold call_dict_ty, call_dict. intros E Ha. destruct (String.eqb m "contains").
  { destruct (forallb is_str_ty ts) eqn:Hs; [|done]. injection E as <- <-.
    by destruct (getString_all _ _ Hs Ha) as [l ->]. }
  destruct (String.eqb m "len").
  { destruct ts; [|done]. injection E as <- <-. by inversion Ha. }
  destruct (String.eqb m "keys"); [|done]. destruct ts; [|done]. injection E as <- <-. inversion Ha.
  apply conforms_strings.
Qed.

(** Operators produce Go's booleans. *)
Lemma integer_not_json X Y op b : evalIntegerOp X Y op ≠ Ret (JBool b).
Proof. by destruct op; cbn [evalIntegerOp]; try case_match. Qed.

Lemma float_not_json X Y op b : evalFloatOp X Y op ≠ Ret (JBool b).
Proof. by destruct op. Qed.

Lemma scalar_not_json X Y op b : scalar_binary X Y op ≠ Ret (JBool b).
Proof.
  unfold scalar_binary. destruct (is_bool X).
  { destruct (is_bool Y); [|done]. destruct (getBool X); cbn [obind]; [|done..].
    destruct (getBool Y); cbn [obind]; [|done..]. by destruct op. }
  destruct (is_string X).
  { destruct (is_string Y); [|done]. destruct (getString X); cbn [obind]; [|done..].
    destruct (getString Y); cbn [obind]; [|done..]. by destruct op. }
  destruct (is_int X).
  { destruct (getInt X); cbn [obind]; [|done..]. destruct (is_int Y).
    - destruct (getInt Y); cbn [obind]; [apply integer_not_json|done..].
    - destruct Y; try done; apply float_not_json. }
  destruct (is_float X); [|done]. destruct (getFloat X); cbn [obind]; [|done..]. destruct (is_int Y).
  - destruct (getInt Y); cbn [obind]; [apply float_not_json|done..].
  - destruct (is_float Y); [|done]. destruct (getFloat Y); cbn [obind]; [apply float_not_json|done..].
Qed.

Lemma array_not_json {A} (f : A → R value) l b : (let! ret := mapR f l in Ret (VArray ret)) ≠ Ret (JBool b).
Proof. by destruct (mapR f l). Qed.

Lemma binary_not_json X Y op b : evalBinaryInternal X Y op ≠ Ret (JBool b).
Proof.
  assert (∀ Y, binary_right X op Y ≠ Ret (JBool b)) as H.
  { intros Z. destruct Z; try apply scalar_not_json; apply array_not_json. }
  destruct X; try apply H; apply array_not_json.
Qed.

Lemma find_in_sound t a l arg b : binary_ty false EQL t a = Some TBool → conforms a arg = true →
  (∀ x, x ∈ l → conforms t x = true) → ∃ b', find_in l arg b = Ret b'.
Proof.
  intros E Ha. revert b. induction l as [|x l IH]; intros b Hl; [by eexists|]. cbn [find_in].
  pose proof (binary_sound true false EQL t a TBool x arg E ltac:(done) (Hl x (list_elem_of_here _ _)) Ha) as Hs.
  destruct (evalBinaryInternal x arg EQL) as [[| | | | | | | | |b'| | | | |]| | |] eqn:Ev; cbn [safe] in Hs; try done.
  - apply IH. intros y Hy. apply Hl. by right.
  - by apply binary_not_json in Ev.
Qed.

Lemma all_in_sound t ts l args : forallb (λ a, match binary_ty false EQL t a with Some TBool => true | _ => false end) ts = true →
  args_ok ts args → (∀ x, x ∈ l → conforms t x = true) → ∃ b, all_in l args = Ret b.
Proof.
  intros Hs Ha Hl. induction Ha as [|a v ts args Hv Ha IH]; [by eexists|].
  cbn [forallb] in Hs. apply andb_true_iff in Hs as [Ht Hs]. cbn [all_in].
  destruct (binary_ty false EQL t a) as [[]|] eqn:E; try done.
  destruct (find_in_sound t a l v false E Hv Hl) as [[] ->]; [by apply IH|by eexists].
Qed.

Lemma call_array_sound t l m ts args r total : call_array_ty t m ts = Some (r, total) → args_ok ts args →
  (∀ x, x ∈ l → conforms t x = true) → safe total (conforms r) (call_array l m args).
Proof.
  unfold call_array_ty, call_array. intros E Ha Hl. destruct (String.eqb m "len").
  { destruct ts; [|done]. injection E as <- <-. by inversion Ha. }
  destruct (String.eqb m "contains"); [|done]. destruct Ha as [|a v ts args Hv Ha]; [done|].
  destruct (forallb _ _) eqn:Hs; [|done]. injection E as <- <-.
  destruct (all_in_sound t (a :: ts) l (v :: args) Hs) as [b ->]; [by constructor|done|done].
Qed.

Lemma call_sound ts args f r total x : call_ty ts f = Some (r, total) → args_ok ts args → conforms f x = true →
  safe total (conforms r) (evalCallInternal args x).
Proof.
  intros E Ha. revert r x E. induction f as [| |j|j|f IH|fs gs|c _ m]; intros r x E Hx; try done.
  - cbn [call_ty] in E. destruct (call_ty ts f) as [[r' b]|] eqn:Er; [|done]. injection E as <- <-.
    destruct (conforms_array _ _ Hx) as (l & [->| ->] & Hl); apply array_safe; intros z Hz; by apply (IH r' z); auto.
  - destruct x as [| | | | | | |caller method| | | | | | |]; try done.
    change (conforms c caller && String.eqb m method = true) in Hx.
    apply andb_true_iff in Hx as [Hc Hm]. apply String.eqb_eq in Hm as <-.
    destruct c as [| |?|[]|t|fs gs|??]; try done.
    + destruct caller; try done. by apply (call_string_sound s m ts).
    + destruct (conforms_array _ _ Hc) as (l & [->| ->] & Hl); by apply (call_array_sound t l m ts).
    + destruct caller; try done. by apply (call_dict_sound d m ts).
Qed.

(** *** Expressions *)

Section ExprInd.
Context (P : expr → Prop).
Context (HBinary : ∀ X op Y, P X → P Y → P (BinaryExpr X op Y)) (HUnary : ∀ op X, P X → P (UnaryExpr op X))
  (HSelector : ∀ X Sel, P X → P (SelectorExpr X Sel)) (HIdent : ∀ n r, P (Ident n r))
  (HParen : ∀ X, P X → P (ParenExpr X)) (HCall : ∀ Fun Args, P Fun → Forall P Args → P (CallExpr Fun Args))
  (HIndex : ∀ X Index, P X → P Index → P (IndexExpr X Index)) (HLit : ∀ k v, P (BasicLit k v)) (HOther : P OtherExpr).

Fixpoint expr_rect' (e : expr) : P e :=
  match e with
  | BinaryExpr X op Y => HBinary X op Y (expr_rect' X) (expr_rect' Y)
  | UnaryExpr op X => HUnary op X (expr_rect' X)
  | SelectorExpr X Sel => HSelector X Sel (expr_rect' X)
  | Ident n r => HIdent n r
  | ParenExpr X => HParen X (expr_rect' X)
  | CallExpr Fun Args =>
    HCall Fun Args (expr_rect' Fun)
      ((fix go l : Forall P l := match l with [] => Forall_nil_2 P | a :: l => Forall_cons_2 P a l (expr_rect' a) (go l) end) Args)
  | IndexExpr X Index => HIndex X Index (expr_rect' X) (expr_rect' Index)
  | BasicLit k v => HLit k v
  | OtherExpr => HOther
  end.
End ExprInd.

Lemma lit_sound total k v t input : lit_ty k v = Some t → safe total (conforms t) (evalBasicLit k v input).
Proof.
  destruct k; try done; cbn [lit_ty evalBasicLit].
  - unfold of_number. destruct (Netutils.Atoi v); [|done]. by intros [= <-].
  - unfold of_number. destruct (ParseFloat v); [|done]. by intros [= <-].
  - destruct (unquote v); cbn [obind]; [|done..]. by intros [= <-].
Qed.

Lemma array_at_sound t l i : (∀ x, x ∈ l → conforms t x = true) → safe false (conforms t) (array_at l i).
Proof.
  intros H. unfold array_at. destruct (_ && _) eqn:E; [|done]. apply andb_true_iff in E as [H1 H2].
  apply Z.leb_le in H1. apply Z.ltb_lt in H2.
  destruct (lookup_lt_is_Some_2 l (Z.to_nat i)) as [x Hx]; [lia|]. rewrite Hx. cbn. apply H. by eapply list_elem_of_lookup_2.
Qed.

Lemma divisor_lit e v input : nonzero_lit e = true → eval e input = Ret v → ∃ n, v = VInt n ∧ n ≠ 0.
Proof.
  destruct e as [| | | | | | |[] s|]; try done. cbn. unfold of_number. destruct (Netutils.Atoi s) as [n|]; [|done].
  intros Hn [= <-]. exists n. split; [done|]. by apply negb_true_iff, Z.eqb_neq in Hn.
Qed.

Section Infer.
Context (schema : ty) (input : value) (Hinput : conforms schema input = true).

Definition expr_sound (e : expr) : Prop := ∀ t total,
  infer schema e = Some (t, total) → safe total (conforms t) (eval e input).

Lemma args_sound Args : Forall expr_sound Args → ∀ args, all_some (infer schema <$> Args) = Some args →
  match mapR (λ a, eval a input) Args with
  | Ret vs => args_ok args.*1 vs
  | Fail _ => forallb snd args = false
  | _ => False
  end.
Proof.
  intros HA. induction HA as [|e Args He HA IH]; intros args E; [injection E as <-; constructor|].
  cbn [fmap list_fmap all_some] in E. destruct (infer schema e) as [[t total]|] eqn:Ei; [|done].
  destruct (all_some (infer schema <$> Args)) as [args'|]; [|done]. injection E as <-.
  specialize (IH args' eq_refl). pose proof (He _ _ Ei) as Hs. cbn [mapR].
  destruct (eval e input); cbn [obind safe] in *; [| |done..].
  - destruct (mapR _ Args); cbn [obind] in *; [by constructor| |done..]. cbn [forallb]. by rewrite IH, andb_false_r.
  - cbn [forallb snd]. by rewrite Hs.
Qed.

Lemma binary_expr_sound X op Y : expr_sound X → expr_sound Y → expr_sound (BinaryExpr X op Y).
Proof.
  intros HX HY t total E. cbn [infer eval] in *. destruct (infer schema X) as [[tx a]|] eqn:EX; [|done].
  destruct (infer schema Y) as [[ty b]|] eqn:EY; [|done]. destruct (binary_ty _ op tx ty) as [r|] eqn:Er; [|done].
  injection E as <- <-. specialize (HX _ _ EX). specialize (HY _ _ EY).
  destruct (eval X input) as [x| | |]; cbn [obind safe] in *; [|by rewrite HX|done..].
  destruct (eval Y input) as [y| | |] eqn:Ey; cbn [obind safe] in *; [|by rewrite HY, andb_false_r|done..].
  apply (binary_sound _ _ _ _ _ _ _ _ Er); [|done..]. intros Hn. by apply (divisor_lit Y y input).
Qed.

Lemma call_expr_sound Fun Args : expr_sound Fun → Forall expr_sound Args → expr_sound (CallExpr Fun Args).
Proof.
  intros HF HA t total E. cbn [infer eval] in *. destruct (infer schema Fun) as [[tf a]|] eqn:EF; [|done].
  destruct (all_some (infer schema <$> Args)) as [args|] eqn:Ea; [|done].
  destruct (call_ty args.*1 tf) as [[r b]|] eqn:Er; [|done]. injection E as <- <-.
  specialize (HF _ _ EF). pose proof (args_sound Args HA args Ea) as Hs.
  destruct (eval Fun input) as [f| | |]; cbn [obind safe] in *; [|by rewrite HF|done..].
  destruct (mapR _ Args) as [vs| | |]; cbn [obind safe] in *; [|by rewrite Hs, andb_false_r|done..].
  apply (safe_weaken b); [by apply (call_sound args.*1 vs tf)|]. intros H. apply andb_true_iff in H as [H _].
  by apply andb_true_iff in H as [_ H].
Qed.

Lemma index_expr_sound X Index : expr_sound X → expr_sound Index → expr_sound (IndexExpr X Index).
Proof.
  intros HX HI t total E. cbn [infer eval] in *. destruct (infer schema X) as [[tx a]|] eqn:EX; [|done].
  specialize (HX _ _ EX). destruct tx as [| | | |tx|fs gs|]; try done.
  - destruct (infer schema Index) as [[[] b]|] eqn:EI; try done. injection E as <- <-. specialize (HI _ _ EI).
    destruct (eval X input) as [x| | |]; cbn [obind safe] in *; [|done..].
    destruct (eval Index input) as [i| | |]; cbn [obind safe] in *; [|done..].
    destruct (conforms_int _ HI) as (n & Hn & _).
    destruct (conforms_array _ _ HX) as (l & [->| ->] & Hl); cbn [index_value]; rewrite Hn; by apply array_at_sound.
  - destruct (string_lit Index) as [name|] eqn:El; [|done]. destruct (field_ty fs gs name) as [r|] eqn:Er; [|done].
    injection E as <- <-. destruct (eval X input) as [x| | |]; cbn [obind safe] in *; [|done..].
    destruct Index as [| | | | | | |[] v|]; try done. cbn [string_lit] in El. cbn [eval evalBasicLit].
    destruct (unquote v); [|done..]. injection El as ->. cbn [obind].
    destruct (conforms_dict _ _ _ HX) as (d & -> & _). cbn [index_value getString obind].
    by destruct (field_sound _ _ _ _ _ HX Er) as (u & -> & Hu).
Qed.

Lemma infer_sound e : expr_sound e.
Proof.
  induction e as [X op Y HX HY|op X HX|X Sel HX|n r|X HX|Fun Args HF HA|X Index HX HI|k v|] using expr_rect'.
  - by apply binary_expr_sound.
  - intros t total E. cbn [infer eval] in *. destruct (infer schema X) as [[tx a]|] eqn:EX; [|done].
    destruct (unary_ty op tx) as [r|] eqn:Er; [|done]. injection E as <- <-.
    apply (safe_bind _ _ _ _ _ (HX _ _ EX)). intros x Hx. by apply (unary_sound _ _ _ _ _ Er).
  - intros t total E. cbn [infer eval] in *. destruct (infer schema X) as [[tx a]|] eqn:EX; [|done].
    destruct (selector_ty Sel tx) as [r|] eqn:Er; [|done]. injection E as <- <-.
    apply (safe_bind _ (conforms tx)); [specialize (HX _ _ EX); by destruct (eval X input)|].
    intros x Hx. by apply (selector_sound _ _ _ _ _ Er).
  - intros t total E. cbn [infer eval] in *. unfold evalIdent. destruct (negb r); [by injection E as <- <-|].
    destruct schema as [| | | | |fs gs|] eqn:Es; try done. destruct (field_ty fs gs n) as [r'|] eqn:Er; [|done].
    injection E as <- <-. destruct (conforms_dict _ _ _ Hinput) as (d & -> & _).
    by destruct (field_sound _ _ _ _ _ Hinput Er) as (u & -> & Hu).
  - intros t total E. by apply HX.
  - by apply call_expr_sound.
  - by apply index_expr_sound.
  - intros t total E. cbn [infer eval] in *. destruct (lit_ty k v) as [r|] eqn:Er; [|done].
    injection E as <- <-. by apply lit_sound.
  - done.
Qed.
End Infer.

Lemma any_true_sound l : (∀ x, x ∈ l → conforms TBool x = true) → ∃ b, any_true l = Ret b.
Proof.
  induction l as [|x l IH]; intros H; [by eexists|]. cbn [any_true].
  pose proof (H x (list_elem_of_here _ _)) as Hx. specialize (IH (λ y Hy, H y (list_elem_of_further _ _ _ Hy))).
  destruct x; try done; cbn [getBool obind]; case_match; eauto.
Qed.

Lemma verdict_sound t v : t = TBool ∨ t = TArr TBool → conforms t v = true → ∃ b, verdict v = Ret b.
Proof.
  intros [->| ->] Hv; [destruct v; try done; by eexists|].
  destruct (conforms_array _ _ Hv) as (l & [->| ->] & Hl); by apply any_true_sound.
Qed.

(** C25 Conditions that the checker accepts do not panic: on every document of the schema, a condition
    of boolean type, or of the type of arrays of booleans, evaluates to true or false or fails with an
    error; one without array indices and substrings does not fail either. *)
Theorem well_typed_conditions_run ParseExpr exprStr e schema input t total :
  ParseExpr exprStr = Some e → infer schema e = Some (t, total) → t = TBool ∨ t = TArr TBool →
  conforms schema input = true →
  match Eval ParseExpr exprStr input with
  | Ret _ => True
  | Fail _ => total = false
  | Panic | OutOfFuel => False
  end.
Proof.
  intros Hp Hi Ht Hc. unfold Eval. destruct (String.eqb exprStr ""); [done|]. rewrite Hp.
  pose proof (infer_sound schema input Hc e t total Hi) as Hs. destruct (eval e input) as [v| | |]; cbn in *; [|done..].
  by destruct (verdict_sound t v Ht Hs) as [b ->].
Qed.

Definition sample_schema : ty :=
  TDict [("server", TDict [("vmem_size", TInt); ("os_type", TStr true)]
                          [("disk", TDict [("backend", TStr true); ("medium", TStr true)] [])])] [].

(** [server.disk.backend.startswith("lo") && server.disk.len() < server.vmem_size / 100]. *)
Definition sample_condition : expr :=
  BinaryExpr (CallExpr (field server ["disk"; "backend"; "startswith"]) [str "lo"]) LAND
    (BinaryExpr (CallExpr (field server ["disk"; "len"]) []) LSS (BinaryExpr (field server ["vmem_size"]) QUO (int "100"))).

Lemma well_typed_conditions_run_witness :
  infer sample_schema sample_condition = Some (TArr TBool, true) ∧
  match Eval (λ _, Some sample_condition) "condition" sample_input with
  | Ret _ => True
  | Fail _ => true = false
  | Panic | OutOfFuel => False
  end.
Proof.
  split; [vm_compute; reflexivity|].
  apply (well_typed_conditions_run (λ _, Some sample_condition) "condition" sample_condition sample_schema sample_input
    (TArr TBool) true); [reflexivity|vm_compute; reflexivity|by right|vm_compute; reflexivity].
Defined.

End ConditionTypes.
