(* ===== verification/ConditionProofs.v ===== *)
(** * What scheduling conditions mean: proofs about util/conditionparser

    Families of fields are read completely; a condition on an array holds when it holds of some element;
    both operands of every operator are evaluated. *)

From stdpp Require Import pretty.
From Stdlib Require Import Ascii SpecFloat.
From S2P Require Import Prelude Netutils Condition.
Import Condition.
Local Open Scope Z_scope.
Local Open Scope go_scope.

Module ConditionProofs.

(** ** Families of fields *)

Lemma dict_get_elem d k v : dict_get d k = Some v → k ∈ d.*1.
Proof.
  induction d as [|[k' v'] d IH]; [done|]. cbn [dict_get fmap list_fmap fst].
  destruct (String.eqb_spec k' k) as [->|]; [left|right; auto].
Qed.

Lemma append_inj_r p a b : p +:+ a = p +:+ b → a = b.
Proof. induction p as [|c p IH]; [done|]. intros [= H]. auto. Qed.

Lemma indexed_inj prefix i j : indexed prefix i = indexed prefix j → i = j.
Proof. unfold indexed. intros H. do 2 apply append_inj_r in H. by apply (inj pretty) in H. Qed.

Lemma indexed_NoDup prefix i n : NoDup (indexed prefix <$> seq i n).
Proof. apply NoDup_fmap_2; [intros a b; apply indexed_inj|apply NoDup_seq]. Qed.

(** A run of fields that exist is no longer than the dictionary. *)
Lemma run_bounded d prefix n : (∀ i, (i < n)%nat → is_Some (dict_get d (indexed prefix i))) → (n ≤ length d)%nat.
Proof.
  intros H. rewrite <- (length_fmap fst d). rewrite <- (length_seq n 0), <- (length_fmap (indexed prefix)).
  apply submseteq_length, NoDup_submseteq; [apply indexed_NoDup|]. intros k Hk.
  apply list_elem_of_fmap_1 in Hk as (i & -> & Hi). apply elem_of_seq in Hi.
  destruct (H i) as [v Hv]; [lia|]. by eapply dict_get_elem.
Qed.

Definition missing (d : dict) (key : string) : Prop := dict_get d key = None ∨ dict_get d key = Some JNull.

Lemma prefix_loop_spec fuel d prefix idx :
  let l := prefix_loop fuel d prefix idx in
  (∀ i v, l !! i = Some v → dict_get d (indexed prefix (idx + i)) = Some v ∧ v ≠ JNull) ∧
  (missing d (indexed prefix (idx + length l)) ∨ length l = fuel).
Proof.
  revert idx. induction fuel as [|fuel IH]; intros idx; cbn zeta; cbn [prefix_loop]; [split; [done|by right]|].
  destruct (dict_get d (indexed prefix idx)) as [v|] eqn:E.
  2: { split; [done|]. left. left. by rewrite Nat.add_0_r. }
  assert (v = JNull ∨ v ≠ JNull) as [->|Hv] by (destruct v; auto).
  { split; [done|]. left. right. by rewrite Nat.add_0_r. }
  assert (match v with JNull => [] | obj => obj :: prefix_loop fuel d prefix (S idx) end
    = v :: prefix_loop fuel d prefix (S idx)) as -> by (by destruct v).
  destruct (IH (S idx)) as [H1 H2]. split.
  - intros [|i] u Hu; cbn in Hu.
    + injection Hu as <-. by rewrite Nat.add_0_r.
    + apply H1 in Hu. by rewrite <- Nat.add_succ_comm.
  - cbn [length]. rewrite <- Nat.add_succ_comm. destruct H2 as [H2|H2]; [by left|right; by rewrite H2].
Qed.

(** A family of fields [name.0], [name.1], ... is read as the array of all its members up to the first
    that is missing or null; the loop that collects them ends, since each is a field of the document. *)
Theorem GetArrayOfPrefix_complete d prefix :
  let l := GetArrayOfPrefix d prefix in
  (∀ i v, l !! i = Some v → dict_get d (indexed prefix i) = Some v ∧ v ≠ JNull) ∧
  missing d (indexed prefix (length l)) ∧ (length l ≤ length d)%nat.
Proof.
  cbn zeta. unfold GetArrayOfPrefix. destruct (prefix_loop_spec (S (length d)) d prefix 0) as [H1 H2].
  assert (length (prefix_loop (S (length d)) d prefix 0) ≤ length d)%nat as Hl.
  { apply (run_bounded d prefix). intros i Hi. apply lookup_lt_is_Some_2 in Hi as [v Hv].
    apply H1 in Hv as [Hv _]. by eexists. }
  split_and!; [exact H1| |exact Hl]. destruct H2 as [H2|H2]; [exact H2|lia].
Qed.

(** ** Arrays *)

(** A condition whose value is an array of booleans. *)
Lemma mapR_fmap {A B C} (f : B → R C) (h : A → B) (g : A → C) (l : list A) :
  (∀ x, f (h x) = Ret (g x)) → mapR f (h <$> l) = Ret (g <$> l).
Proof.
  intros H. induction l as [|x l IH]; [done|]. rewrite !fmap_cons. cbn [mapR]. rewrite H. cbn [obind].
  by rewrite IH.
Qed.

Lemma any_true_bools l : any_true (VBool <$> l) = Ret (existsb id l).
Proof. induction l as [|[] l IH]; [done..|]. cbn. by rewrite IH. Qed.

Lemma existsb_bool_decide {A} (f : A → bool) (P : A → Prop) l `{!Decision (∃ x, x ∈ l ∧ P x)} :
  (∀ x, f x = true ↔ P x) → existsb id (f <$> l) = bool_decide (∃ x, x ∈ l ∧ P x).
Proof.
  intros H. apply eq_true_iff_eq. rewrite bool_decide_eq_true, existsb_exists. split.
  - intros (b & Hb & E). apply list_elem_of_In, list_elem_of_fmap_1 in Hb as (x & -> & Hx). exists x. by rewrite <- H.
  - intros (x & Hx & Hp). exists (f x). split; [apply list_elem_of_In; by apply list_elem_of_fmap_2|by apply H].
Qed.

#[export] Instance exists_in_dec {A} (P : A → Prop) (l : list A) `{!∀ x, Decision (P x)} : Decision (∃ x, x ∈ l ∧ P x).
Proof.
  destruct (decide (Exists P l)) as [He|He]; [left|right]; rewrite Exists_exists in He; done.
Defined.

(** The verdict of [Eval] on a syntax tree. *)
Definition test_on (input : value) (e : expr) : R bool := let! v := eval e input in verdict v.

Section StringArrays.
Context (X Y : expr) (input : value) (ss : list string) (s : string).
Context (HX : eval X input = Ret (JArray (JString <$> ss))) (HY : eval Y input = Ret (VString s)).

Lemma compare_array op (f : string → bool) : (∀ x, scalar_binary (JString x) (VString s) op = Ret (VBool (f x))) →
  eval (BinaryExpr X op Y) input = Ret (VArray (VBool <$> (f <$> ss))).
Proof.
  intros H. cbn [eval]. rewrite HX, HY. cbn [obind evalBinaryInternal].
  by rewrite (mapR_fmap _ JString (λ x, VBool (f x))), <- list_fmap_compose by exact H.
Qed.

Lemma negate_array (l : list bool) : evalUnaryInternal NOT (VArray (VBool <$> l)) = Ret (VArray (VBool <$> (negb <$> l))).
Proof.
  cbn [evalUnaryInternal].
  by rewrite (mapR_fmap _ VBool (λ b, VBool (negb b))), <- list_fmap_compose by done.
Qed.

Lemma find_in_strings l b : find_in (JString <$> l) (VString s) b = Ret (b || bool_decide (s ∈ l)).
Proof.
  revert b. induction l as [|x l IH]; intros b; rewrite ?fmap_cons; cbn [find_in].
  { by rewrite orb_false_r. }
  cbn [evalBinaryInternal binary_right]. change (scalar_binary (JString x) (VString s) EQL) with (Ret (E:=cond_error) (VBool (String.eqb x s))).
  cbn [obind]. rewrite IH, <- orb_assoc. do 2 f_equal.
  destruct (String.eqb_spec x s) as [->|Hne]; apply eq_true_iff_eq; cbn [orb]; rewrite !bool_decide_eq_true; set_solver.
Qed.

(** A comparison with an array of strings holds when some element satisfies it.  So [X == s] asks
    whether [s] is among the strings, as [X.contains(s)] does, but [X != s] and [!(X == s)] both ask whether
    some other string is: a condition and its negation can both hold, and on an empty array
    neither does. *)
Theorem array_conditions_are_existential :
  test_on input (BinaryExpr X EQL Y) = Ret (bool_decide (s ∈ ss)) ∧
  test_on input (CallExpr (SelectorExpr X "contains") [Y]) = Ret (bool_decide (s ∈ ss)) ∧
  test_on input (BinaryExpr X NEQ Y) = Ret (bool_decide (∃ x, x ∈ ss ∧ x ≠ s)) ∧
  test_on input (UnaryExpr NOT (ParenExpr (BinaryExpr X EQL Y))) = Ret (bool_decide (∃ x, x ∈ ss ∧ x ≠ s)).
Proof.
  pose proof (compare_array EQL (λ x, String.eqb x s) (λ x, eq_refl)) as Heq.
  pose proof (compare_array NEQ (λ x, negb (String.eqb x s)) (λ x, eq_refl)) as Hne.
  assert (∀ x, negb (String.eqb x s) = true ↔ x ≠ s) as Hn by (intros x; by rewrite negb_true_iff, String.eqb_neq).
  unfold test_on. split_and!.
  - rewrite Heq. cbn [obind verdict]. rewrite any_true_bools. f_equal.
    rewrite (existsb_bool_decide (λ x, String.eqb x s) (λ x, x = s) ss) by (intros x; apply String.eqb_eq).
    apply bool_decide_ext. naive_solver.
  - cbn [eval mapR]. rewrite HX, HY. cbn [obind as_invalid evalSelectorInternal String.eqb Ascii.eqb Bool.eqb orb andb evalCallInternal].
    unfold call_array. cbn [String.eqb Ascii.eqb Bool.eqb all_in]. rewrite find_in_strings. cbn [obind orb].
    by destruct (bool_decide (s ∈ ss)).
  - rewrite Hne. cbn [obind verdict]. rewrite any_true_bools. f_equal. by apply existsb_bool_decide.
  - cbn [eval]. cbn [eval] in Heq. rewrite Heq. cbn [obind]. rewrite negate_array. cbn [obind verdict].
    rewrite any_true_bools, <- list_fmap_compose. f_equal. by apply existsb_bool_decide.
Qed.
End StringArrays.

Lemma array_conditions_are_existential_witness :
  test_on sample_input (BinaryExpr (field server ["disk"; "medium"; "contains"]) EQL (str "ssd")) = Fail ErrInvalidOp ∧
  test_on (JDict [("tags", JArray [JString "ssd"; JString "hdd"])])
    (BinaryExpr (Ident "tags" true) EQL (str "ssd")) = Ret true ∧
  test_on (JDict [("tags", JArray [JString "ssd"; JString "hdd"])])
    (UnaryExpr NOT (ParenExpr (BinaryExpr (Ident "tags" true) EQL (str "ssd")))) = Ret true.
Proof.
  split; [vm_compute; reflexivity|].
  destruct (array_conditions_are_existential (Ident "tags" true) (str "ssd")
    (JDict [("tags", JArray [JString "ssd"; JString "hdd"])]) ["ssd"; "hdd"] "ssd"
    ltac:(vm_compute; reflexivity) ltac:(vm_compute; reflexivity)) as (H1 & _ & _ & H2).
  split; [exact (eq_trans H1 eq_refl)|exact (eq_trans H2 eq_refl)].
Defined.

(** ** Evaluation order *)

(** There is no short circuit: an operator evaluates both operands, and when the right one fails or
    panics so does the condition, whatever the left one is.  A guard like [n != 0 && 100 / n > 1] does not
    protect its right side. *)
Theorem operands_always_evaluated X op Y input x :
  eval X input = Ret x → (∀ y, eval Y input ≠ Ret y) → eval (BinaryExpr X op Y) input = eval Y input.
Proof. intros HX HY. cbn [eval]. rewrite HX. cbn [obind]. destruct (eval Y input) as [y| | |]; [by destruct (HY y)|done..]. Qed.

Definition guarded : expr :=
  BinaryExpr (BinaryExpr (Ident "n" true) NEQ (int "0")) LAND
    (BinaryExpr (BinaryExpr (int "100") QUO (Ident "n" true)) GTR (int "1")).

Lemma operands_always_evaluated_witness :
  eval guarded (JDict [("n", JInt 0)]) = Panic ∧ eval guarded (JDict [("n", JInt 7)]) = Ret (VBool true).
Proof.
  split; [|vm_compute; reflexivity]. unfold guarded.
  rewrite (operands_always_evaluated _ LAND _ (JDict [("n", JInt 0)]) (VBool false)); [vm_compute; reflexivity..|].
  intros y H. vm_compute in H. discriminate H.
Defined.

(** ** Dynamic types *)

(** A single argument of [in] has to be a Go string or an array: a string of the document panics. *)
Example in_single_field_panics : test (CallExpr (field server ["os_type"; "in"]) [field server ["os_type"]]) = Panic.
Proof. vm_compute. reflexivity. Qed.

(** A float of the document can stand on the left of a comparison with an integer, not on the right. *)
Example float_field_sides :
  let input := JDict [("ratio", JFloat (f_of_int 8))] in
  test_on input (BinaryExpr (Ident "ratio" true) GTR (int "1")) = Ret true ∧
  test_on input (BinaryExpr (int "1") LSS (Ident "ratio" true)) = Fail ErrInvalidOp.
Proof. vm_compute. by split. Qed.

End ConditionProofs.
