(* ===== verification/Schedtag.v ===== *)
(** * Scheduling tags: compute/models (schedtags.go, schedpolicies.go, dynamicschedtags.go, helper.go) and
    scheduler/algorithm/predicates (schedtag_helper.go, aggregate_predicate.go,
    disk_schedtag_predicate.go, predicates.go)

    Tags are put on hosts and storages, or given to them by rules with a condition; a request, changed by the policies
    whose condition it meets, requires, excludes, prefers or avoids tags.  The tables are lists of rows; the parser of
    conditions is a parameter, and so is the order in which Go ranges over a map. *)

From stdpp Require Import pretty.
From S2P Require Import Prelude Condition Score.
Local Open Scope Z_scope.
Local Open Scope go_scope.

Module Schedtag.

(** ** Rows *)

Definition STRATEGY_REQUIRE : string := "require".
Definition STRATEGY_EXCLUDE : string := "exclude".
Definition STRATEGY_PREFER : string := "prefer".
Definition STRATEGY_AVOID : string := "avoid".
Definition STRATEGY_LIST : list string := [STRATEGY_REQUIRE; STRATEGY_EXCLUDE; STRATEGY_PREFER; STRATEGY_AVOID].

Record SchedtagConfig := Config { Id : string; Strategy : string }.

Record SSchedtag := Tag { TagId : string; TagName : string; DefaultStrategy : string; ResourceType : string }.

Record SSchedpolicy := Schedpolicy {
  PolicyCondition : string; PolicyTagId : string; PolicyStrategy : string; PolicyEnabled : bool }.

Record SDynamicschedtag := Dynamicschedtag { Condition : string; SchedtagId : string; Enabled : bool }.

#[export] Instance config_eq_dec : EqDecision SchedtagConfig.
Proof. solve_decision. Defined.
#[export] Instance tag_eq_dec : EqDecision SSchedtag.
Proof. solve_decision. Defined.

Inductive tag_error :=
| MissingParameter
| InvalidParameter
| NotFound
| DuplicateEntry
| ExcludedBy (name id : string)
| NeedTag (id : string)
| DatabaseError.

(** [FetchById] and [FetchByIdOrName] on the table of tags. *)
Definition fetch (found : list SSchedtag) : outcome tag_error SSchedtag :=
  match found with
  | [t] => Ret t
  | [] => Fail NotFound
  | _ => Fail DuplicateEntry
  end.

Definition FetchById (tags : list SSchedtag) (id : string) : outcome tag_error SSchedtag :=
  fetch (filter (λ t, TagId t = id) tags).

Definition FetchByIdOrName (tags : list SSchedtag) (id : string) : outcome tag_error SSchedtag :=
  match FetchById tags id with
  | Fail NotFound => fetch (filter (λ t, TagName t = id) tags)
  | r => r
  end.

Definition getSchedtag (tags : list SSchedtag) (id : string) : option SSchedtag :=
  match FetchById tags id with Ret t => Some t | _ => None end.

Definition GetResourceSchedtags (tags : list SSchedtag) (resType : string) : list SSchedtag :=
  filter (λ t, ResourceType t = resType) tags.

(** A row joined with its tags of a resource type, one result for each. *)
Definition join_tags {A} (tagId : A → string) (tags : list SSchedtag) (resType : string) (rows : list A) : list A :=
  rows ≫= λ r, (λ _, r) <$> filter (λ t, TagId t = tagId r ∧ ResourceType t = resType) tags.

Definition getAllEnabledPoliciesByResource (policies : list SSchedpolicy) (tags : list SSchedtag) (resType : string)
  : list SSchedpolicy :=
  join_tags PolicyTagId tags resType (filter (λ p, PolicyEnabled p = true) policies).

Definition GetEnabledDynamicSchedtagsByResource (rules : list SDynamicschedtag) (tags : list SSchedtag) (resType : string)
  : list SDynamicschedtag :=
  join_tags SchedtagId tags resType (filter (λ r, Enabled r = true) rules).

(** ** Requests *)

Section Requests.
(** The pairs of a map in the order of one range over it, and Go's parser. *)
Context (range : gmap string string → list (string * string)) (ParseExpr : string → option Condition.expr).

Definition tag_map (tags : list SchedtagConfig) : gmap string string :=
  foldl (λ m tag, <[Id tag := Strategy tag]> m) ∅ tags.

Definition map_tags (m : gmap string string) : list SchedtagConfig := (λ p, Config p.1 p.2) <$> range m.

Definition lower_char (c : Ascii.ascii) : Ascii.ascii :=
  let n := Ascii.N_of_ascii c in if (65 <=? n)%N && (n <=? 90)%N then Ascii.ascii_of_N (n + 32) else c.

(** [strings.ToLower] on ASCII. *)
Fixpoint ToLower (s : string) : string :=
  match s with EmptyString => EmptyString | String c s => String (lower_char c) (ToLower s) end.

Fixpoint validate_loop (tags : list SSchedtag) (l : list (string * string)) (ret : gmap string string)
  : outcome tag_error (gmap string string) :=
  match l with
  | [] => Ret ret
  | (tag, act) :: l =>
    let! schedtag := FetchByIdOrName tags tag in
    let act := ToLower act in
    if negb (bool_decide (act ∈ STRATEGY_LIST)) then Fail InvalidParameter
    else validate_loop tags l (<[TagName schedtag := act]> ret)
  end.

Definition ValidateSchedtags (tags : list SSchedtag) (schedtags : gmap string string)
  : outcome tag_error (gmap string string) := validate_loop tags (range schedtags) ∅.

(** The tags of the request of a server, in [ValidateScheduleCreateData]. *)
Definition validate_request_tags (tags : list SSchedtag) (input : list SchedtagConfig)
  : outcome tag_error (list SchedtagConfig) :=
  let schedtags := tag_map input in
  if bool_decide (schedtags = ∅) then Ret input
  else match ValidateSchedtags tags schedtags with
       | Ret schedtags => Ret (map_tags schedtags)
       | Fail _ => Fail InvalidParameter
       | r => let! _ := r in Ret []
       end.

Definition matchResourceSchedPolicy (policy : SSchedpolicy) (input : Condition.value) : outcome tag_error bool :=
  match Condition.Eval ParseExpr (PolicyCondition policy) input with
  | Ret meet => Ret meet
  | Fail _ => Ret false
  | Panic => Panic
  | OutOfFuel => OutOfFuel
  end.

(** The tag of a policy is dereferenced only when its condition is met. *)
Fixpoint apply_policies (tags : list SSchedtag) (policies : list SSchedpolicy) (input : Condition.value)
    (schedtags : gmap string string) : outcome tag_error (gmap string string) :=
  match policies with
  | [] => Ret schedtags
  | policy :: policies =>
    let st := getSchedtag tags (PolicyTagId policy) in
    let! meet := matchResourceSchedPolicy policy input in
    if (meet : bool) then
      let! st := of_opt st in
      apply_policies tags policies input (<[TagName st := PolicyStrategy policy]> schedtags)
    else apply_policies tags policies input schedtags
  end.

Definition applyResourceSchedPolicy (tags : list SSchedtag) (policies : list SSchedpolicy)
    (oldTags : list SchedtagConfig) (input : Condition.value) : outcome tag_error (list SchedtagConfig) :=
  let! schedtags := apply_policies tags policies input (tag_map oldTags) in
  Ret (map_tags schedtags).

(** A request: its tags, its description, and the tags and description of each of its disks. *)
Record ScheduleInput := MkInput {
  Schedtags : list SchedtagConfig; ConditionInput : Condition.value;
  Disks : list (list SchedtagConfig * Condition.value) }.

Definition GetDynamicConditionInput (keyword : string) (input : Condition.value) : Condition.value :=
  Condition.JDict [(keyword, input)].

Fixpoint apply_disks (tags : list SSchedtag) (policies : list SSchedpolicy)
    (disks : list (list SchedtagConfig * Condition.value))
  : outcome tag_error (list (list SchedtagConfig * Condition.value)) :=
  match disks with
  | [] => Ret []
  | (old, desc) :: disks =>
    let! new := applyResourceSchedPolicy tags policies old (GetDynamicConditionInput "disk" desc) in
    let! disks := apply_disks tags policies disks in
    Ret ((new, desc) :: disks)
  end.

Definition ApplySchedPolicies (tags : list SSchedtag) (policies : list SSchedpolicy) (input : ScheduleInput)
  : outcome tag_error ScheduleInput :=
  let hostPolicies := getAllEnabledPoliciesByResource policies tags "hosts" in
  let storagePolicies := getAllEnabledPoliciesByResource policies tags "storages" in
  let! new := applyResourceSchedPolicy tags hostPolicies (Schedtags input)
                (GetDynamicConditionInput "server" (ConditionInput input)) in
  let! disks := apply_disks tags storagePolicies (Disks input) in
  Ret (MkInput new (ConditionInput input) disks).
End Requests.

(** ** The predicate on tags *)

Record SchedtagPredicate := MkPredicate {
  requireTags : list SchedtagConfig; execludeTags : list SchedtagConfig;
  preferTags : list SchedtagConfig; avoidTags : list SchedtagConfig }.

Definition appendTagByStrategy (p : SchedtagPredicate) (tag : SchedtagConfig) : SchedtagPredicate :=
  let '(MkPredicate r e f a) := p in
  if String.eqb (Strategy tag) STRATEGY_REQUIRE then MkPredicate (r ++ [tag]) e f a
  else if String.eqb (Strategy tag) STRATEGY_EXCLUDE then MkPredicate r (e ++ [tag]) f a
  else if String.eqb (Strategy tag) STRATEGY_PREFER then MkPredicate r e (f ++ [tag]) a
  else if String.eqb (Strategy tag) STRATEGY_AVOID then MkPredicate r e f (a ++ [tag])
  else p.

Definition append_default (ids : gset string) (p : SchedtagPredicate) (tag : SSchedtag) : SchedtagPredicate :=
  if bool_decide (TagName tag ∈ ids) || bool_decide (TagId tag ∈ ids) then p
  else appendTagByStrategy p (Config (TagId tag) (DefaultStrategy tag)).

Definition GetRequestSchedtags (reqTags : list SchedtagConfig) (allTags : list SSchedtag) : SchedtagPredicate :=
  let p := foldl appendTagByStrategy (MkPredicate [] [] [] []) reqTags in
  let appendedTagIds : gset string := list_to_set (Id <$> reqTags) in
  foldl (append_default appendedTagIds) p allTags.

Definition NewSchedtagPredicate := GetRequestSchedtags.

(** The string a tag is meant by. *)
Definition names (id : string) (t : SSchedtag) : bool := String.eqb id (TagId t) || String.eqb id (TagName t).

Definition HasIntersection (tags : list SchedtagConfig) (objTags : list SSchedtag) : option SSchedtag :=
  find (λ objTag, existsb (λ tag, names (Id tag) objTag) tags) objTags.

(** The first tag that the object lacks. *)
Definition Contains (objectTags : list SSchedtag) (tags : list SchedtagConfig) : option SchedtagConfig :=
  find (λ tag, negb (existsb (names (Id tag)) objectTags)) tags.

Section Candidates.
Context (ParseExpr : string → option Condition.expr).

Record candidate := Candidate {
  CandidateType : string; GetSchedtags : list SSchedtag; GetDynamicSchedDesc : option Condition.value }.

Fixpoint dynamic_loop (tags : list SSchedtag) (rules : list SDynamicschedtag) (desc : Condition.value)
  : outcome tag_error (list SSchedtag) :=
  match rules with
  | [] => Ret []
  | rule :: rules =>
    match Condition.Eval ParseExpr (Condition rule) desc with
    | Ret true =>
      let! rest := dynamic_loop tags rules desc in
      Ret (match getSchedtag tags (SchedtagId rule) with Some t => t :: rest | None => rest end)
    | Ret false | Fail _ => dynamic_loop tags rules desc
    | Panic => Panic
    | OutOfFuel => OutOfFuel
    end
  end.

Definition getDynamicSchedtags (tags : list SSchedtag) (rules : list SDynamicschedtag) (resType : string)
    (schedDesc : option Condition.value) : outcome tag_error (list SSchedtag) :=
  match schedDesc with
  | None => Ret []
  | Some desc => dynamic_loop tags (GetEnabledDynamicSchedtagsByResource rules tags resType) desc
  end.

Definition mergeSchedtags (staticTags dynamicTags : list SSchedtag) : list SSchedtag :=
  staticTags ++ filter (λ dt, existsb (λ t, String.eqb (TagId t) (TagId dt)) staticTags = false) dynamicTags.

Definition GetCandidateSchedtags (tags : list SSchedtag) (rules : list SDynamicschedtag) (c : candidate)
  : outcome tag_error (list SSchedtag) :=
  let! dynamicTags := getDynamicSchedtags tags rules (CandidateType c) (GetDynamicSchedDesc c) in
  Ret (mergeSchedtags (GetSchedtags c) dynamicTags).

Definition Check (tags : list SSchedtag) (rules : list SDynamicschedtag) (p : SchedtagPredicate) (c : candidate)
  : outcome tag_error unit :=
  let! candidateTags := GetCandidateSchedtags tags rules c in
  match HasIntersection (execludeTags p) candidateTags with
  | Some tag => Fail (ExcludedBy (TagName tag) (TagId tag))
  | None =>
    match Contains candidateTags (requireTags p) with
    | Some tag => Fail (NeedTag (Id tag))
    | None => Ret tt
    end
  end.
End Candidates.

End Schedtag.
