(* ===== verification/SchedtagProofs.v ===== *)
(** * Which hosts a request may use: proofs about scheduling tags

    From the tags of a request, through the policies that change them and the rules that give tags to hosts, to
    the decision of the predicate. *)

From S2P Require Import Prelude Condition Schedtag.
Import Schedtag.
Local Open Scope Z_scope.
Local Open Scope go_scope.

Module SchedtagProofs.

(** ** Tables *)

Lemma filter_unique {A} (f : A → string) (l : list A) t : NoDup (f <$> l) → t ∈ l → filter (λ u, f u = f t) l = [t].
Proof.
  induction l as [|u l IH]; intros Hnd Ht; [by apply elem_of_nil in Ht|].
  rewrite fmap_cons, NoDup_cons in Hnd. destruct Hnd as [Hu Hnd]. apply elem_of_cons in Ht as [->|Ht].
  - rewrite filter_cons_True by done. f_equal. apply elem_of_nil_inv. intros x Hx. apply list_elem_of_filter in Hx as [E Hx]. apply Hu.
    rewrite <- E. by apply list_elem_of_fmap_2.
  - rewrite filter_cons_False; [by apply IH|]. intros E. apply Hu. rewrite E. by apply list_elem_of_fmap_2.
Qed.

Lemma getSchedtag_unique tags t : NoDup (TagId <$> tags) → t ∈ tags → getSchedtag tags (TagId t) = Some t.
Proof. intros Hnd Ht. unfold getSchedtag, FetchById. by rewrite (filter_unique TagId). Qed.

Lemma getSchedtag_elem tags id t : getSchedtag tags id = Some t → t ∈ tags ∧ TagId t = id.
Proof.
  unfold getSchedtag, FetchById, fetch. destruct (filter _ tags) as [|u [|? ?]] eqn:E; try done. intros [= ->].
  assert (t ∈ filter (λ t, TagId t = id) tags) as Ht by (rewrite E; left). by apply list_elem_of_filter in Ht as [? ?].
Qed.

Lemma elem_of_join_tags {A} (f : A → string) tags resType (rows : list A) r :
  r ∈ join_tags f tags resType rows ↔ r ∈ rows ∧ ∃ t, t ∈ GetResourceSchedtags tags resType ∧ TagId t = f r.
Proof.
  unfold join_tags, GetResourceSchedtags. rewrite list_elem_of_bind. split.
  - intros (r' & Hr & Hin). apply list_elem_of_fmap_1 in Hr as (t & -> & Ht). apply list_elem_of_filter in Ht as [[H1 H2] H3].
    split; [done|]. exists t. by rewrite list_elem_of_filter.
  - intros (Hr & t & Ht & E). apply list_elem_of_filter in Ht as [H1 H2]. exists r. split; [|done].
    apply (list_elem_of_fmap_2 (λ _ : SSchedtag, r) _ t). by apply list_elem_of_filter.
Qed.

(** ** The predicate *)

Lemma HasIntersection_None tags objs :
  HasIntersection tags objs = None ↔ ∀ c t, c ∈ tags → t ∈ objs → names (Id c) t = false.
Proof.
  unfold HasIntersection. split.
  - intros H c t Hc Ht. apply find_none with (x := t) in H; [|by apply list_elem_of_In].
    destruct (names (Id c) t) eqn:E; [|done]. exfalso. rewrite <- not_true_iff_false in H. apply H.
    apply existsb_exists. exists c. split; [by apply list_elem_of_In|done].
  - intros H. destruct (find _ objs) as [t|] eqn:E; [|done]. apply find_some in E as [Ht E].
    apply existsb_exists in E as (c & Hc & E). apply list_elem_of_In in Ht, Hc. by rewrite (H c t) in E.
Qed.

Lemma Contains_None objs tags :
  Contains objs tags = None ↔ ∀ c, c ∈ tags → ∃ t, t ∈ objs ∧ names (Id c) t = true.
Proof.
  unfold Contains. split.
  - intros H c Hc. apply find_none with (x := c) in H; [|by apply list_elem_of_In].
    apply negb_false_iff, existsb_exists in H as (t & Ht & E). exists t. by rewrite list_elem_of_In.
  - intros H. destruct (find _ tags) as [c|] eqn:E; [|done]. apply find_some in E as [Hc E].
    destruct (H c) as (t & Ht & Et); [by apply list_elem_of_In|]. apply negb_true_iff in E.
    rewrite <- not_true_iff_false in E. destruct E. apply existsb_exists. exists t. by rewrite <- list_elem_of_In.
Qed.

(** What is collected are the configurations that were given. *)
Definition collects (p : SchedtagPredicate) (S : SchedtagConfig → Prop) : Prop :=
  (∀ c, c ∈ requireTags p ↔ S c ∧ Strategy c = STRATEGY_REQUIRE) ∧
  (∀ c, c ∈ execludeTags p ↔ S c ∧ Strategy c = STRATEGY_EXCLUDE).

Lemma collects_ext p (S S' : SchedtagConfig → Prop) : (∀ c, S c ↔ S' c) → collects p S → collects p S'.
Proof. intros E [H1 H2]. split; intros c; rewrite <- E; [apply H1|apply H2]. Qed.

(** A list for one strategy grows by the configuration when it has the strategy. *)
Lemma collects_snoc (l : list SchedtagConfig) (S : SchedtagConfig → Prop) st tag : Strategy tag = st →
  (∀ c, c ∈ l ↔ S c ∧ Strategy c = st) → ∀ c, c ∈ l ++ [tag] ↔ (S c ∨ c = tag) ∧ Strategy c = st.
Proof.
  intros E H c. rewrite elem_of_app, list_elem_of_singleton, H. split.
  - intros [[Hs Hc]| ->]; auto.
  - intros [[Hs|Hs] Hc]; auto.
Qed.

Lemma collects_skip (l : list SchedtagConfig) (S : SchedtagConfig → Prop) st tag : Strategy tag ≠ st →
  (∀ c, c ∈ l ↔ S c ∧ Strategy c = st) → ∀ c, c ∈ l ↔ (S c ∨ c = tag) ∧ Strategy c = st.
Proof.
  intros N H c. rewrite H. split; [intros [Hs Hc]; auto|]. intros [[Hs| ->] Hc]; [auto|done].
Qed.

Lemma collects_append p S tag : collects p S → collects (appendTagByStrategy p tag) (λ c, S c ∨ c = tag).
Proof.
  intros [H1 H2]. destruct p as [r e f a]. unfold appendTagByStrategy, collects in *. cbn [requireTags execludeTags] in *.
  destruct (String.eqb_spec (Strategy tag) STRATEGY_REQUIRE) as [E|N1].
  { split; [by apply collects_snoc|apply collects_skip; [by rewrite E|done]]. }
  destruct (String.eqb_spec (Strategy tag) STRATEGY_EXCLUDE) as [E|N2].
  { split; [by apply collects_skip|by apply collects_snoc]. }
  destruct (String.eqb (Strategy tag) STRATEGY_PREFER); [|destruct (String.eqb (Strategy tag) STRATEGY_AVOID)];
    split; by apply collects_skip.
Qed.

Lemma collects_fold {A} (f : A → option SchedtagConfig) (l : list A) p S : collects p S →
  collects (foldl (λ p x, match f x with Some c => appendTagByStrategy p c | None => p end) p l)
    (λ c, S c ∨ ∃ x, x ∈ l ∧ f x = Some c).
Proof.
  revert p S. induction l as [|x l IH]; intros p S H; cbn [foldl].
  - refine (collects_ext _ _ _ _ H). intros c. split; [by left|]. intros [Hc|(x & Hx & _)]; [done|by apply elem_of_nil in Hx].
  - destruct (f x) as [c0|] eqn:E.
    + refine (collects_ext _ _ _ _ (IH _ _ (collects_append _ _ c0 H))). intros c. split.
      * intros [[Hc| ->]|(y & Hy & Hc)]; [by left|right; exists x; split; [left|done]|right; exists y; split; [by right|done]].
      * intros [Hc|(y & Hy & Hc)]; [by left; left|]. apply elem_of_cons in Hy as [->|Hy]; [|right; by exists y].
        left. right. congruence.
    + refine (collects_ext _ _ _ _ (IH _ _ H)). intros c. split.
      * intros [Hc|(y & Hy & Hc)]; [by left|right; exists y; split; [by right|done]].
      * intros [Hc|(y & Hy & Hc)]; [by left|]. apply elem_of_cons in Hy as [->|Hy]; [congruence|right; by exists y].
Qed.

Lemma foldl_ext_in {A B} (f g : A → B → A) a l : (∀ x y, f x y = g x y) → foldl f a l = foldl g a l.
Proof. intros H. revert a. induction l as [|x l IH]; intros a; [done|]. cbn [foldl]. by rewrite H, IH. Qed.

Lemma GetRequestSchedtags_collects reqTags allTags :
  collects (GetRequestSchedtags reqTags allTags)
    (λ c, c ∈ reqTags ∨ ∃ t, t ∈ allTags ∧ (∀ r, r ∈ reqTags → names (Id r) t = false) ∧
                             c = Config (TagId t) (DefaultStrategy t)).
Proof.
  unfold GetRequestSchedtags.
  pose proof (collects_fold Some reqTags (MkPredicate [] [] [] []) (λ _, False)) as H.
  specialize (H ltac:(split; intros c; cbn; rewrite elem_of_nil; naive_solver)).
  set (ids := list_to_set (Id <$> reqTags) : gset string).
  set (dflt := λ t : SSchedtag, if bool_decide (TagName t ∈ ids) || bool_decide (TagId t ∈ ids) then None
    else Some (Config (TagId t) (DefaultStrategy t))).
  assert (∀ t, (∀ r, r ∈ reqTags → names (Id r) t = false) ↔ dflt t = Some (Config (TagId t) (DefaultStrategy t))) as Hd.
  { intros t. subst dflt ids. cbn beta. unfold names. split.
    - intros Hr. rewrite !bool_decide_eq_false_2; [done|..]; intros Hin;
        apply elem_of_list_to_set, list_elem_of_fmap_1 in Hin as (r & E & Hin); specialize (Hr r Hin);
        apply orb_false_iff in Hr as [Hr1 Hr2]; apply String.eqb_neq in Hr1, Hr2; congruence.
    - intros Hr r Hin. case_bool_decide as H1; [done|]. case_bool_decide as H2; [done|].
      rewrite elem_of_list_to_set in H1, H2. apply orb_false_iff. rewrite !String.eqb_neq.
      split; intros E; [apply H2|apply H1]; rewrite <- E; by apply list_elem_of_fmap_2. }
  rewrite (foldl_ext_in (append_default ids) (λ p t, match dflt t with Some c => appendTagByStrategy p c | None => p end)).
  2: { intros p t. unfold append_default, dflt. by destruct (_ || _). }
  refine (collects_ext _ _ _ _ (collects_fold dflt allTags _ _ H)). intros c. split.
  - intros [[[]|(x & Hx & [= ->])]|(t & Ht & Hc)]; [by left|]. right. exists t. split; [done|].
    assert (c = Config (TagId t) (DefaultStrategy t)) as ->; [|split; [by apply Hd|done]].
    unfold dflt in Hc. by destruct (_ || _); simplify_eq.
  - intros [Hc|(t & Ht & Hn & ->)]; [left; right; by exists c|]. right. exists t. split; [done|]. by apply Hd.
Qed.

(** ** Policies *)

Definition settled {A} (m : outcome Condition.cond_error A) : Prop := m ≠ Panic ∧ m ≠ OutOfFuel.

Section Tags.
Context (range : gmap string string → list (string * string)) (ParseExpr : string → option Condition.expr).
Context (Hrange : ∀ m, range m ≡ₚ map_to_list m).
Context (tags : list SSchedtag) (resType : string).

Let all := GetResourceSchedtags tags resType.

(** Identifiers are unique, names are among the tags of a type, and neither is taken for the other. *)
Context (Hids : NoDup (TagId <$> tags)) (Hnames : NoDup (TagName <$> all))
  (Hdisjoint : ∀ t u, t ∈ all → u ∈ all → TagId t ≠ TagName u).

Definition meets (input : Condition.value) (p : SSchedpolicy) : bool :=
  match Condition.Eval ParseExpr (PolicyCondition p) input with Ret true => true | _ => false end.

(** The last policy for a tag whose condition is met. *)
Definition deciding_policy (policies : list SSchedpolicy) (input : Condition.value) (t : SSchedtag) : option SSchedpolicy :=
  last (filter (λ p, PolicyTagId p = TagId t ∧ meets input p = true) policies).

(** What a request asks about a tag: by a policy, by the request itself, by default. *)
Definition effective (policies : list SSchedpolicy) (old : list SchedtagConfig) (input : Condition.value) (t : SSchedtag)
  : string :=
  match deciding_policy policies input t with
  | Some p => PolicyStrategy p
  | None => default (DefaultStrategy t) (tag_map old !! TagName t)
  end.

Lemma all_elem t : t ∈ all → t ∈ tags.
Proof. intros Ht. by apply list_elem_of_filter in Ht as [_ Ht]. Qed.

Lemma same_id t u : t ∈ tags → u ∈ tags → TagId t = TagId u → t = u.
Proof.
  intros Ht Hu E. pose proof (getSchedtag_unique tags t Hids Ht) as H1.
  rewrite E, (getSchedtag_unique tags u Hids Hu) in H1. congruence.
Qed.

Lemma same_name t u : t ∈ all → u ∈ all → TagName t = TagName u → t = u.
Proof.
  intros Ht Hu E. pose proof (filter_unique TagName all t Hnames Ht) as H1.
  rewrite E, (filter_unique TagName all u Hnames Hu) in H1. congruence.
Qed.

Lemma names_inj k t u : t ∈ all → u ∈ all → names k t = true → names k u = true → t = u.
Proof.
  unfold names. intros Ht Hu H1 H2.
  apply orb_true_iff in H1 as [H1|H1], H2 as [H2|H2]; apply String.eqb_eq in H1, H2; subst.
  - apply same_id; [by apply all_elem..|done].
  - by destruct (Hdisjoint t u Ht Hu).
  - by destruct (Hdisjoint u t Hu Ht).
  - by apply same_name.
Qed.

Lemma names_refl_id t : names (TagId t) t = true.
Proof. unfold names. by rewrite String.eqb_refl. Qed.

Lemma names_refl_name t : names (TagName t) t = true.
Proof. unfold names. by rewrite String.eqb_refl, orb_true_r. Qed.

Definition keys_named (m : gmap string string) : Prop := ∀ k s, m !! k = Some s → ∃ t, t ∈ all ∧ k = TagName t.

Lemma apply_policies_spec policies input m :
  (∀ p, p ∈ policies → ∃ t, t ∈ all ∧ TagId t = PolicyTagId p) →
  (∀ p, p ∈ policies → settled (Condition.Eval ParseExpr (PolicyCondition p) input)) → keys_named m →
  ∃ m', apply_policies ParseExpr tags policies input m = Ret m' ∧ keys_named m' ∧
    ∀ t, t ∈ all → m' !! TagName t =
      match deciding_policy policies input t with Some p => Some (PolicyStrategy p) | None => m !! TagName t end.
Proof.
  revert m. induction policies as [|p policies IH]; intros m Hp He Hm; [by exists m|]. cbn [apply_policies].
  destruct (Hp p (list_elem_of_here _ _)) as (u & Hu & Eu).
  pose proof (He p (list_elem_of_here _ _)) as [He1 He2].
  assert (∀ q, q ∈ policies → ∃ t, t ∈ all ∧ TagId t = PolicyTagId q) as Hp' by (intros q Hq; apply Hp; by right).
  assert (∀ q, q ∈ policies → settled (Condition.Eval ParseExpr (PolicyCondition q) input)) as He'
    by (intros q Hq; apply He; by right).
  rewrite <- Eu, (getSchedtag_unique tags u Hids (all_elem u Hu)). cbn [of_opt].
  unfold matchResourceSchedPolicy. unfold deciding_policy.
  assert (meets input p = match Condition.Eval ParseExpr (PolicyCondition p) input with Ret true => true | _ => false end)
    as Em by done. destruct (Condition.Eval ParseExpr (PolicyCondition p) input) as [[]|e| |]; cbn [obind]; [| | |done..].
  2, 3: destruct (IH m Hp' He' Hm) as (m' & E & Hk & Hl); exists m'; split_and!; [done..|]; intros t Ht;
    rewrite (Hl t Ht), filter_cons_False by (intros [_ H]; congruence); done.
  destruct (IH (<[TagName u := PolicyStrategy p]> m) Hp' He') as (m' & E & Hk & Hl).
  { intros k s Hks. apply lookup_insert_Some in Hks as [[<- _]|[_ Hks]]; [by exists u|by apply (Hm k s)]. }
  exists m'. split_and!; [done..|]. intros t Ht. rewrite (Hl t Ht).
  destruct (decide (t = u)) as [->|Hne].
  - rewrite filter_cons_True, last_cons, lookup_insert_eq by (split; congruence).
    unfold deciding_policy. by destruct (last _).
  - rewrite filter_cons_False, lookup_insert_ne; [done|..].
    + intros E'. apply Hne. symmetry. by apply same_name.
    + intros [E' _]. apply Hne. apply same_id; [by apply all_elem..|congruence].
Qed.

Lemma map_tags_elem m c : c ∈ map_tags range m ↔ m !! Id c = Some (Strategy c).
Proof.
  unfold map_tags. rewrite list_elem_of_fmap. split.
  - intros ([k s] & -> & Hin). rewrite Hrange in Hin. by apply elem_of_map_to_list in Hin.
  - intros H. exists (Id c, Strategy c). split; [by destruct c|]. rewrite Hrange. by apply elem_of_map_to_list.
Qed.

(** The name or the default of a tag: how it appears in the lists of the predicate. *)
Lemma collected_for m t st : keys_named m → t ∈ all →
  (∃ c, (c ∈ map_tags range m ∨
         ∃ u, u ∈ all ∧ (∀ r, r ∈ map_tags range m → names (Id r) u = false) ∧ c = Config (TagId u) (DefaultStrategy u)) ∧
        Strategy c = st ∧ names (Id c) t = true) ↔
  default (DefaultStrategy t) (m !! TagName t) = st.
Proof.
  intros Hm Ht.
  assert (∀ c, c ∈ map_tags range m → names (Id c) t = true → Id c = TagName t) as Hname.
  { intros c Hc Hn. apply map_tags_elem in Hc. destruct (Hm _ _ Hc) as (u & Hu & E). unfold names in Hn.
    apply orb_true_iff in Hn as [Hn|Hn]; apply String.eqb_eq in Hn; [|done].
    exfalso. apply (Hdisjoint t u Ht Hu). congruence. }
  split.
  - intros (c & [Hc|(u & Hu & Hno & ->)] & <- & Hn).
    + rewrite <- (Hname c Hc Hn). apply map_tags_elem in Hc. by rewrite Hc.
    + assert (t = u) as -> by (apply (names_inj (TagId u)); [done..|apply names_refl_id]).
      destruct (m !! TagName u) as [s|] eqn:E; [|done].
      specialize (Hno (Config (TagName u) s) (proj2 (map_tags_elem m (Config (TagName u) s)) E)).
      cbn [Id] in Hno. by rewrite names_refl_name in Hno.
  - intros E. destruct (m !! TagName t) as [s|] eqn:El; cbn [default] in E.
    + exists (Config (TagName t) s). split; [left; by apply map_tags_elem|]. split; [done|apply names_refl_name].
    + exists (Config (TagId t) (DefaultStrategy t)). split; [right; exists t; split_and!; [done| |done]|].
      * intros r Hr. destruct (names (Id r) t) eqn:En; [|done]. pose proof (Hname r Hr En) as Hi.
        apply map_tags_elem in Hr. congruence.
      * split; [done|apply names_refl_id].
Qed.

Lemma collected_named m cfg : keys_named m →
  cfg ∈ map_tags range m ∨
    (∃ u, u ∈ all ∧ (∀ r, r ∈ map_tags range m → names (Id r) u = false) ∧ cfg = Config (TagId u) (DefaultStrategy u)) →
  ∃ t, t ∈ all ∧ names (Id cfg) t = true.
Proof.
  intros Hm [Hc|(u & Hu & _ & ->)]; [|exists u; split; [done|apply names_refl_id]].
  apply map_tags_elem in Hc. destruct (Hm _ _ Hc) as (t & Ht & ->). exists t. split; [done|apply names_refl_name].
Qed.

(** ** Candidates *)

Context (rules : list SDynamicschedtag) (c : candidate) (Htype : CandidateType c = resType)
  (Hstatic : ∀ t, t ∈ GetSchedtags c → t ∈ all)
  (Hrules : ∀ r desc, r ∈ rules → GetDynamicSchedDesc c = Some desc →
     settled (Condition.Eval ParseExpr (Condition r) desc)).

(** A tag put on the candidate, or given to it by an enabled rule whose condition it meets. *)
Definition carries (t : SSchedtag) : Prop :=
  t ∈ GetSchedtags c ∨
  ∃ desc r, GetDynamicSchedDesc c = Some desc ∧ r ∈ rules ∧ Enabled r = true ∧ SchedtagId r = TagId t ∧
    Condition.Eval ParseExpr (Condition r) desc = Ret true.

Lemma dynamic_loop_spec rs desc :
  (∀ r, r ∈ rs → (∃ t, t ∈ all ∧ TagId t = SchedtagId r) ∧ settled (Condition.Eval ParseExpr (Condition r) desc)) →
  ∃ l, dynamic_loop ParseExpr tags rs desc = Ret l ∧
    ∀ t, t ∈ l ↔ t ∈ all ∧ ∃ r, r ∈ rs ∧ SchedtagId r = TagId t ∧ Condition.Eval ParseExpr (Condition r) desc = Ret true.
Proof.
  induction rs as [|r rs IH]; intros H.
  { exists []. split; [done|]. intros t. rewrite elem_of_nil. split; [done|]. intros (_ & r & Hr & _). by apply elem_of_nil in Hr. }
  destruct (H r (list_elem_of_here _ _)) as [(u & Hu & Eu) [He1 He2]].
  destruct IH as (l & El & Hl); [intros q Hq; apply H; by right|]. cbn [dynamic_loop].
  assert (∀ b, Condition.Eval ParseExpr (Condition r) desc = b → b ≠ Ret true → ∀ t,
    t ∈ l ↔ t ∈ all ∧ ∃ r', r' ∈ r :: rs ∧ SchedtagId r' = TagId t ∧ Condition.Eval ParseExpr (Condition r') desc = Ret true)
    as Hskip.
  { intros b Eb Hb t. rewrite Hl. split; intros (Ht & q & Hq & E & Ev); (split; [done|]); exists q.
    - split; [by right|done].
    - apply elem_of_cons in Hq as [->|Hq]; [congruence|done]. }
  destruct (Condition.Eval ParseExpr (Condition r) desc) as [[]|e| |] eqn:Ev; [| | |done..].
  2, 3: exists l; split; [done|exact (Hskip _ eq_refl ltac:(discriminate))].
  rewrite El, <- Eu, (getSchedtag_unique tags u Hids (all_elem u Hu)). cbn [obind]. exists (u :: l). split; [done|].
  intros t. rewrite elem_of_cons, Hl. split.
  - intros [->|(Ht & q & Hq & E)]; [split; [done|]; exists r; split_and!; [left|done..]|].
    split; [done|]. exists q. split; [by right|done].
  - intros (Ht & q & Hq & E & Evq). apply elem_of_cons in Hq as [->|Hq]; [left|right; split; [done|by exists q]].
    apply same_id; [by apply all_elem..|congruence].
Qed.

Lemma candidate_tags : ∃ l, GetCandidateSchedtags ParseExpr tags rules c = Ret l ∧ ∀ t, t ∈ l ↔ t ∈ all ∧ carries t.
Proof.
  unfold GetCandidateSchedtags, getDynamicSchedtags. rewrite Htype. destruct (GetDynamicSchedDesc c) as [desc|] eqn:Ed.
  2: { exists (GetSchedtags c). split; [cbn; unfold mergeSchedtags; by rewrite filter_nil, app_nil_r|]. intros t. split.
    - intros Ht. split; [auto|by left].
    - intros [_ [Ht|(desc & r & ? & _)]]; [done|congruence]. }
  destruct (dynamic_loop_spec (GetEnabledDynamicSchedtagsByResource rules tags resType) desc) as (l & -> & Hl).
  { intros r Hr. apply elem_of_join_tags in Hr as (Hr & Ht). apply list_elem_of_filter in Hr as [_ Hr].
    split; [done|]. by apply Hrules. }
  cbn [obind]. eexists. split; [done|]. intros t. unfold mergeSchedtags. rewrite elem_of_app, list_elem_of_filter, Hl. split.
  - intros [Ht|(_ & Ht & r & Hr & E & Ev)]; [split; [auto|by left]|]. split; [done|]. right. exists desc, r.
    apply elem_of_join_tags in Hr as (Hr & _). apply list_elem_of_filter in Hr as [Hen Hr]. by rewrite Ed.
  - intros (Ht & Hc). destruct (decide (t ∈ GetSchedtags c)) as [Hs|Hs]; [by left|right].
    destruct Hc as [?|(desc' & r & Ed' & Hr & Hen & E & Ev)]; [done|]. assert (desc' = desc) as -> by congruence. split.
    + apply not_true_iff_false. intros Hx. apply existsb_exists in Hx as (u & Hu & Eu). apply list_elem_of_In in Hu.
      apply String.eqb_eq in Eu. apply Hs. assert (t = u) as ->; [|done].
      apply same_id; [by apply all_elem|by apply all_elem, Hstatic|done].
    + split; [done|]. exists r. split_and!; [|done..]. apply elem_of_join_tags. split; [by apply list_elem_of_filter|].
      by exists t.
Qed.

Context (policies : list SSchedpolicy) (old : list SchedtagConfig) (input : Condition.value)
  (Hold : ∀ cfg, cfg ∈ old → ∃ t, t ∈ all ∧ Id cfg = TagName t)
  (Hpolicies : ∀ p, p ∈ policies → settled (Condition.Eval ParseExpr (PolicyCondition p) input)).

Let enabled := getAllEnabledPoliciesByResource policies tags resType.

Lemma tag_map_named : keys_named (tag_map old).
Proof.
  unfold tag_map. assert (keys_named ∅) as H0 by (intros k s H; by rewrite lookup_empty in H).
  revert H0. generalize (∅ : gmap string string). clear -Hold. induction old as [|cfg l IH]; intros m Hm; [done|].
  cbn [foldl]. apply IH; [intros x Hx; apply Hold; by right|].
  intros k s H. apply lookup_insert_Some in H as [[<- _]|[_ H]]; [apply Hold; left|by apply (Hm k s)].
Qed.

(** C14 The decision of the scheduler on tags, end to end.  For the tags of a request, named by name, the policies
    and the rules of the database: the changed request is accepted by a host exactly when the host carries
    every tag whose effective strategy is require and none whose effective strategy is exclude; a host
    carries a tag that is put on it or given by an enabled rule whose condition it meets, and the effective
    strategy is that of the last policy for the tag whose condition the request meets, else the one in the
    request, else the default of the tag.  The order in which Go ranges over the map of tags does not
    matter.  Conditions must not panic; one that fails counts as not met. *)
Theorem tags_decide_hosts :
  ∃ new, applyResourceSchedPolicy range ParseExpr tags enabled old input = Ret new ∧
    (Check ParseExpr tags rules (NewSchedtagPredicate new all) c = Ret tt ↔
     ∀ t, t ∈ all →
       (effective enabled old input t = STRATEGY_REQUIRE → carries t) ∧
       (effective enabled old input t = STRATEGY_EXCLUDE → ¬ carries t)).
Proof.
  destruct (apply_policies_spec enabled input (tag_map old)) as (m & Em & Hm & Hl).
  { intros p Hp. by apply elem_of_join_tags in Hp as [_ Hp]. }
  { intros p Hp. apply elem_of_join_tags in Hp as [Hp _]. apply list_elem_of_filter in Hp as [_ Hp]. by apply Hpolicies. }
  { exact tag_map_named. }
  assert (∀ t, t ∈ all → effective enabled old input t = default (DefaultStrategy t) (m !! TagName t)) as Heff.
  { intros t Ht. rewrite (Hl t Ht). unfold effective. by destruct (deciding_policy enabled input t). }
  exists (map_tags range m). unfold applyResourceSchedPolicy. rewrite Em. split; [done|].
  destruct candidate_tags as (l & El & Hc). unfold Check. rewrite El. cbn [obind].
  destruct (GetRequestSchedtags_collects (map_tags range m) all) as [H1 H2]. fold NewSchedtagPredicate in H1, H2.
  set (p := NewSchedtagPredicate (map_tags range m) all) in *.
  pose proof (HasIntersection_None (execludeTags p) l) as Hex. pose proof (Contains_None l (requireTags p)) as Hreq.
  split.
  - intros E. destruct (HasIntersection _ _); [done|]. destruct (Contains _ _); [done|].
    pose proof (proj1 Hex eq_refl) as Hex'. pose proof (proj1 Hreq eq_refl) as Hreq'. intros t Ht. rewrite (Heff t Ht). split.
    + intros Es. destruct (proj2 (collected_for m t STRATEGY_REQUIRE Hm Ht) Es) as (cfg & Hcfg & Hs & Hn).
      destruct (Hreq' cfg) as (u & Hu & Hnu); [by apply H1|]. apply Hc in Hu as [Hu Hcu].
      assert (t = u) as ->; [|done]. by apply (names_inj (Id cfg)).
    + intros Es Hct. destruct (proj2 (collected_for m t STRATEGY_EXCLUDE Hm Ht) Es) as (cfg & Hcfg & Hs & Hn).
      rewrite (Hex' cfg t) in Hn; [done|by apply H2|by apply Hc].
  - intros H. assert (HasIntersection (execludeTags p) l = None) as ->.
    { apply Hex. intros cfg u Hcfg Hu. apply H2 in Hcfg as [Hcfg Hs]. apply Hc in Hu as [Hu Hcu].
      destruct (names (Id cfg) u) eqn:Hn; [|done]. destruct (H u Hu) as [_ Hno]. destruct Hno; [|done].
      rewrite (Heff u Hu). apply (collected_for m u STRATEGY_EXCLUDE Hm Hu). by exists cfg. }
    assert (Contains l (requireTags p) = None) as ->; [|done].
    apply Hreq. intros cfg Hcfg. apply H1 in Hcfg as [Hcfg Hs].
    destruct (collected_named m cfg Hm Hcfg) as (t & Ht & Hn). exists t. split; [|done]. apply Hc. split; [done|].
    apply (H t Ht). rewrite (Heff t Ht). apply (collected_for m t STRATEGY_REQUIRE Hm Ht). by exists cfg.
Qed.

(** A request that names a tag by its identifier escapes the policy for it: the policy is recorded under
    the name of the tag, beside the request, and when they are opposed (the request requires the tag, the policy
    excludes it) no candidate at all is accepted, instead of the policy deciding.  The tags of servers are
    replaced by names when the request is validated, those of disks are not. *)
Theorem tag_by_id_conflicts_with_policy t p : t ∈ all → PolicyEnabled p = true →
  PolicyTagId p = TagId t → PolicyStrategy p = STRATEGY_EXCLUDE → meets input p = true →
  ∃ new, applyResourceSchedPolicy range ParseExpr tags (getAllEnabledPoliciesByResource [p] tags resType)
           [Config (TagId t) STRATEGY_REQUIRE] input = Ret new ∧
    Check ParseExpr tags rules (NewSchedtagPredicate new all) c ≠ Ret tt.
Proof.
  intros Ht Hen Hpid Hps Hmeet. set (m := <[TagName t := STRATEGY_EXCLUDE]> {[TagId t := STRATEGY_REQUIRE]} : gmap string string).
  assert (applyResourceSchedPolicy range ParseExpr tags (getAllEnabledPoliciesByResource [p] tags resType)
    [Config (TagId t) STRATEGY_REQUIRE] input = Ret (map_tags range m)) as Ea.
  { unfold applyResourceSchedPolicy, getAllEnabledPoliciesByResource. rewrite filter_cons_True, filter_nil by done.
    assert (join_tags PolicyTagId tags resType [p] = [p]) as ->.
    { unfold join_tags. cbn [mbind list_bind]. rewrite app_nil_r.
      assert (filter (λ u, TagId u = PolicyTagId p ∧ ResourceType u = resType) tags = [t]) as ->; [|done].
      rewrite Hpid. pose proof Ht as Ht'. apply list_elem_of_filter in Ht' as [Hr Hin].
      rewrite <- (filter_unique TagId tags t Hids Hin). apply list_filter_ext_in. intros u Hu.
      split; [by intros [? _]|]. intros E. split; [done|].
      by rewrite (same_id u t Hu Hin E). }
    cbn [apply_policies]. rewrite Hpid, (getSchedtag_unique tags t Hids (all_elem t Ht)).
    unfold matchResourceSchedPolicy. unfold meets in Hmeet.
    destruct (Condition.Eval ParseExpr (PolicyCondition p) input) as [[]| | |]; try done.
    cbn [obind of_opt apply_policies]. rewrite Hps. done. }
  exists (map_tags range m). split; [exact Ea|]. intros Ec.
  destruct candidate_tags as (l & El & Hc). unfold Check in Ec. rewrite El in Ec. cbn [obind] in Ec.
  destruct (GetRequestSchedtags_collects (map_tags range m) all) as [H1 H2]. fold NewSchedtagPredicate in H1, H2.
  set (pr := NewSchedtagPredicate (map_tags range m) all) in *.
  destruct (HasIntersection (execludeTags pr) l) eqn:Eh; [done|]. destruct (Contains l (requireTags pr)) eqn:Er; [done|].
  pose proof (proj1 (HasIntersection_None _ _) Eh) as Hex. pose proof (proj1 (Contains_None _ _) Er) as Hreq.
  destruct (Hreq (Config (TagId t) STRATEGY_REQUIRE)) as (u & Hu & Hn).
  { apply H1. split; [left|done]. apply map_tags_elem. cbn [Id Strategy]. subst m.
    rewrite lookup_insert_ne, lookup_singleton_eq; [done|]. intros E. by apply (Hdisjoint t t Ht Ht). }
  apply Hc in Hu as Hu'. destruct Hu' as [Hu' _]. cbn [Id] in Hn.
  assert (u = t) as -> by (apply (names_inj (TagId t)); [done..|apply names_refl_id]).
  assert (names (TagName t) t = false) as Hf.
  { apply (Hex (Config (TagName t) STRATEGY_EXCLUDE)); [|done]. apply H2. split; [left|done]. apply map_tags_elem.
    cbn [Id Strategy]. apply lookup_insert_eq. }
  by rewrite names_refl_name in Hf.
Qed.
End Tags.

(** ** An example *)

Definition sample_parse (s : string) : option Condition.expr :=
  if String.eqb s "linux" then Some (Condition.BinaryExpr (Condition.field Condition.server ["os_type"]) Condition.EQL (Condition.str "Linux"))
  else if String.eqb s "busy" then
    Some (Condition.BinaryExpr (Condition.field (Condition.Ident "host" true) ["load"]) Condition.GTR (Condition.int "10"))
  else None.

Definition sample_tags : list SSchedtag := [Tag "t1" "ssd" "" "hosts"; Tag "t2" "busy" "exclude" "hosts"; Tag "t3" "fast" "" "storages"].
Definition sample_policies : list SSchedpolicy := [Schedpolicy "linux" "t1" "require" true].
Definition sample_rules : list SDynamicschedtag := [Dynamicschedtag "busy" "t2" true].
Definition sample_request : Condition.value := GetDynamicConditionInput "server" (Condition.JDict [("os_type", Condition.JString "Linux")]).
Definition sample_host (load : Z) : candidate :=
  Candidate "hosts" [Tag "t1" "ssd" "" "hosts"]
    (Some (Condition.JDict [("host", Condition.JDict [("load", Condition.JInt load)])])).

Lemma sample_all : GetResourceSchedtags sample_tags "hosts" = [Tag "t1" "ssd" "" "hosts"; Tag "t2" "busy" "exclude" "hosts"].
Proof. vm_compute. reflexivity. Defined.

(** The host is accepted, being tagged as the policy requires and not loaded. *)
Lemma tags_decide_hosts_witness :
  ∃ new, applyResourceSchedPolicy map_to_list sample_parse sample_tags
           (getAllEnabledPoliciesByResource sample_policies sample_tags "hosts") [] sample_request = Ret new ∧
    (Check sample_parse sample_tags sample_rules
       (NewSchedtagPredicate new (GetResourceSchedtags sample_tags "hosts")) (sample_host 3) = Ret tt ↔
     ∀ t, t ∈ GetResourceSchedtags sample_tags "hosts" →
       (effective sample_parse (getAllEnabledPoliciesByResource sample_policies sample_tags "hosts") [] sample_request t = STRATEGY_REQUIRE →
        carries sample_parse sample_rules (sample_host 3) t) ∧
       (effective sample_parse (getAllEnabledPoliciesByResource sample_policies sample_tags "hosts") [] sample_request t = STRATEGY_EXCLUDE →
        ¬ carries sample_parse sample_rules (sample_host 3) t)).
Proof.
  apply tags_decide_hosts.
  - done.
  - apply (bool_decide_unpack _). vm_compute. exact I.
  - apply (bool_decide_unpack _). vm_compute. exact I.
  - rewrite sample_all. intros t u Ht Hu. apply elem_of_cons in Ht as [->|Ht]; [|apply list_elem_of_singleton in Ht as ->];
      (apply elem_of_cons in Hu as [->|Hu]; [|apply list_elem_of_singleton in Hu as ->]); done.
  - done.
  - rewrite sample_all. intros t Ht. apply list_elem_of_singleton in Ht as ->. left.
  - intros r desc Hr [= <-]. apply list_elem_of_singleton in Hr as ->. split; vm_compute; discriminate.
  - intros cfg Hcfg. by apply elem_of_nil in Hcfg.
  - intros p Hp. apply list_elem_of_singleton in Hp as ->. split; vm_compute; discriminate.
Defined.

Lemma tag_by_id_conflicts_with_policy_witness :
  ∃ new, applyResourceSchedPolicy map_to_list sample_parse sample_tags
           (getAllEnabledPoliciesByResource [Schedpolicy "linux" "t1" "exclude" true] sample_tags "hosts")
           [Config "t1" STRATEGY_REQUIRE] sample_request = Ret new ∧
    Check sample_parse sample_tags sample_rules
      (NewSchedtagPredicate new (GetResourceSchedtags sample_tags "hosts")) (sample_host 3) ≠ Ret tt.
Proof.
  apply (tag_by_id_conflicts_with_policy map_to_list sample_parse) with (t := Tag "t1" "ssd" "" "hosts"); try done.
  - apply (bool_decide_unpack _). vm_compute. exact I.
  - apply (bool_decide_unpack _). vm_compute. exact I.
  - rewrite sample_all. intros t u Ht Hu. apply elem_of_cons in Ht as [->|Ht]; [|apply list_elem_of_singleton in Ht as ->];
      (apply elem_of_cons in Hu as [->|Hu]; [|apply list_elem_of_singleton in Hu as ->]); done.
  - rewrite sample_all. intros t Ht. apply list_elem_of_singleton in Ht as ->. left.
  - intros r desc Hr [= <-]. apply list_elem_of_singleton in Hr as ->. split; vm_compute; discriminate.
  - rewrite sample_all. left.
Defined.

End SchedtagProofs.
