(* ===== verification/SchedInfo.v ===== *)
(** * Scheduling requests: pkg/scheduler/api (sched.go, types.go)

    The request that every predicate and priority reads, and how the scheduler completes it. *)

From S2P Require Import Prelude DiskConfig Schedtag.
Local Open Scope Z_scope.

Module SchedInfo.

(** ** The parts of a request (apis/compute/api.go, apis/scheduler) *)

Record DiskConfig := MkDisk {
  Index : Z; Backend : string; SizeMb : Z; DiskStorage : string; DiskSchedtags : list Schedtag.SchedtagConfig }.
Record NetworkConfig := MkNet { Network : string; Wire : string; Exit : bool; Private : bool }.
Record IsolatedDeviceConfig := MkDev { DevId : string; DevType : string; Model : string; Vendor : string }.
Record GroupRelation := MkRelation { GroupId : string; Strategy : string }.

Record SchedInfo := MkInfo {
  Hypervisor : string; ResourceType : string; InstanceType : string; Schedtags : list Schedtag.SchedtagConfig; Project : string; PreferHost : string; Backup : bool; Count : Z;
  Disks : list DiskConfig; Networks : list NetworkConfig; IsolatedDevices : list IsolatedDeviceConfig;
  Memory : Z; Ncpu : Z; HostId : string; Metadata : gmap string string; GroupRelations : list GroupRelation;
  BaremetalDiskConfigs : list DiskConfig.BaremetalDiskConfig;
  BestEffort : bool; SuggestionLimit : Z; SuggestionAll : bool; InputFilters : list string;
  SessionId : string; PreferZone : string; PreferRegion : string; PreferBackupHost : string;
  Type_ : string; IsContainer : bool; Candidates : list string; IgnoreFilters : gmap string bool; IsSuggestion : bool }.

(** ** Constants (types.go, apis/compute) *)

Definition HostTypeKubelet : string := "kubelet".
Definition HostHypervisorForKvm : string := "hypervisor".
Definition SchedTypeContainer : string := "container".
Definition SchedTypeKvm : string := "kvm".
Definition HostResourceTypeShared : string := "shared".
Definition STORAGE_LOCAL : string := "local".

Definition PublicCloudProviders : list string :=
  ["aliyun"; "aws"; "azure"; "qcloud"; "huawei"; "openstack"; "ucloud"].

(** ** Completing a request *)

Definition revise_disk (d : DiskConfig) : DiskConfig :=
  if String.eqb (Backend d) "" then MkDisk (Index d) STORAGE_LOCAL (SizeMb d) (DiskStorage d) (DiskSchedtags d) else d.

Definition reviseData (SchedulerTestLimit : Z) (data : SchedInfo) : SchedInfo :=
  MkInfo (Hypervisor data) (ResourceType data) (InstanceType data) (Schedtags data) (Project data) (PreferHost data) (Backup data)
    (if Count data <=? 0 then 1 else Count data)
    (revise_disk <$> Disks data) (Networks data) (IsolatedDevices data)
    (Memory data) (Ncpu data) (HostId data) (Metadata data) (GroupRelations data)
    (BaremetalDiskConfigs data) (BestEffort data) (if SuggestionLimit data =? 0 then SchedulerTestLimit else SuggestionLimit data)
    (SuggestionAll data) (InputFilters data) (SessionId data) (PreferZone data) (PreferRegion data) (PreferBackupHost data)
    (Type_ data) (IsContainer data) (Candidates data)
    (foldl (λ m filter, <[filter := true]> m) ∅ (InputFilters data)) (IsSuggestion data).

(** [NewSchedInfo]; the fields that are not part of the input start with their zero value. *)
Definition NewSchedInfo (SchedulerTestLimit : Z) (input : SchedInfo) : SchedInfo :=
  let hypervisor :=
    if String.eqb (Hypervisor input) "" || String.eqb (Hypervisor input) SchedTypeKvm
    then HostHypervisorForKvm else Hypervisor input in
  let candidates :=
    if negb (Backup input) && negb (String.eqb (PreferHost input) "") then [PreferHost input] else [] in
  let resourceType := if String.eqb (ResourceType input) "" then HostResourceTypeShared else ResourceType input in
  let diskConfigs :=
    match BaremetalDiskConfigs input with [] => [DiskConfig.none_config] | confs => confs end in
  reviseData SchedulerTestLimit
    (MkInfo hypervisor resourceType (InstanceType input) (Schedtags input) (Project input) (PreferHost input) (Backup input) (Count input)
      (Disks input) (Networks input) (IsolatedDevices input)
      (Memory input) (Ncpu input) (HostId input) (Metadata input) (GroupRelations input)
      diskConfigs (BestEffort input) (SuggestionLimit input) (SuggestionAll input) (InputFilters input)
      (SessionId input) (PreferZone input) (PreferRegion input) (PreferBackupHost input) "" false candidates ∅ false).

(** ** Questions about a request *)

Definition IsPublicCloudProvider (d : SchedInfo) : bool := bool_decide (Hypervisor d ∈ PublicCloudProviders).

Definition SkipDirtyMarkHost (d : SchedInfo) : bool :=
  let isSharePublicCloudProvider :=
    IsPublicCloudProvider d &&
    (String.eqb (ResourceType d) "" || String.eqb (ResourceType d) HostResourceTypeShared) in
  let skipByHypervisor :=
    isSharePublicCloudProvider || IsContainer d || String.eqb (Hypervisor d) SchedTypeContainer in
  skipByHypervisor || Backup d.

Definition GetCandidateHostTypes (d : SchedInfo) : list string :=
  if String.eqb (Hypervisor d) SchedTypeContainer then [HostTypeKubelet; HostHypervisorForKvm] else [Hypervisor d].

Definition getDiskSize (d : SchedInfo) (backend : string) : Z :=
  foldl (λ total disk, if String.eqb (Backend disk) backend then int64_wrap (total + SizeMb disk) else total)
    0 (Disks d).

Definition AllDiskBackendSize (d : SchedInfo) : gmap string Z :=
  foldl (λ m disk,
    <[Backend disk := match m !! Backend disk with
                      | Some size => int64_wrap (SizeMb disk + size)
                      | None => SizeMb disk
                      end]> m) ∅ (Disks d).

(** ** The two ways to add up the disks agree *)

Lemma int64_wrap_add_l a b : int64_wrap (int64_wrap a + b) = int64_wrap (a + b).
Proof.
  unfold int64_wrap. f_equal.
  replace ((a + 2 ^ 63) mod 2 ^ 64 - 2 ^ 63 + b + 2 ^ 63) with ((a + 2 ^ 63) mod 2 ^ 64 + b) by lia.
  rewrite Zplus_mod_idemp_l. f_equal. lia.
Qed.

Lemma AllDiskBackendSize_fold (disks : list DiskConfig) : ∀ (m : gmap string Z) (f : string → Z),
  Forall (λ disk, is_int64 (SizeMb disk)) disks →
  (∀ be, default 0 (m !! be) = f be) →
  ∀ be,
  default 0 (foldl (λ m disk,
    <[Backend disk := match m !! Backend disk with
                      | Some size => int64_wrap (SizeMb disk + size)
                      | None => SizeMb disk
                      end]> m) m disks !! be) =
  foldl (λ total disk, if String.eqb (Backend disk) be then int64_wrap (total + SizeMb disk) else total)
    (f be) disks.
Proof.
  induction disks as [|disk disks IH]; intros m f Hsz Hm be; [apply Hm|]. cbn [foldl].
  apply Forall_cons in Hsz as [Hd Hsz].
  rewrite (IH _ (λ be, if String.eqb (Backend disk) be then int64_wrap (f be + SizeMb disk) else f be) Hsz); [done|].
  intros be'. destruct (String.eqb_spec (Backend disk) be') as [<-|Hne].
  - rewrite lookup_insert_eq. cbn. specialize (Hm (Backend disk)).
    destruct (m !! Backend disk) as [s|] eqn:E; cbn in Hm; rewrite <- Hm; [f_equal; lia|].
    rewrite Z.add_0_l. symmetry. by apply int64_wrap_id.
  - rewrite lookup_insert_ne by done. apply Hm.
Qed.

Lemma AllDiskBackendSize_spec d be :
  Forall (λ disk, is_int64 (SizeMb disk)) (Disks d) →
  default 0 (AllDiskBackendSize d !! be) = getDiskSize d be.
Proof. intros H. apply (AllDiskBackendSize_fold (Disks d) ∅ (λ _, 0) H). intros be'. by rewrite lookup_empty. Qed.

End SchedInfo.
