(* ===== verification/Storages.v ===== *)
(** * Storages: compute/models/storages.go, and how the scheduler picks one for a disk
    (scheduler/algorithm/predicates/disk_schedtag_predicate.go)

    Conversions of floating-point numbers to integers are those of amd64. *)

From Stdlib Require Import SpecFloat.
From S2P Require Import Prelude Schedtag SchedInfo.
Import Schedtag.
Local Open Scope Z_scope.

Module Storages.

(** ** Float32 *)

Definition float32 := spec_float.
Definition f32_of_int (i : Z) : float32 := binary_normalize 24 128 i 0 false.
Definition f32_mul : float32 → float32 → float32 := SFmul 24 128.

(** [int64(f)]: towards zero; what does not fit is the smallest integer. *)
Definition f32_to_int (f : float32) : Z :=
  match f with
  | S754_zero _ => 0
  | S754_finite s m e =>
    let n := if 0 <=? e then Zpos m * 2 ^ e else Zpos m / 2 ^ (- e) in
    let n := if s then - n else n in
    if (min_int64 <=? n) && (n <=? max_int64) then n else min_int64
  | _ => min_int64
  end.

(** [int64(float32(size) * bound)]. *)
Definition overcommit (size : Z) (bound : float32) : Z := f32_to_int (f32_mul (f32_of_int size) bound).

(** ** Rows *)

(** A storage with its tags, as the scheduler keeps it.  [UsedCapacity] is what [GetUsedCapacity(tristate.None)] reads
    from the database. *)
Record SStorage := MkStorage {
  StorageId : string; StorageName : string; StorageType : string; Capacity : Z; Reserved : Z;
  Cmtbound : float32; UsedCapacity : Z; StorageTags : list SSchedtag }.

Section Storage.
Context (DefaultStorageOvercommitBound : float32).

Definition GetOvercommitBound (s : SStorage) : float32 :=
  if SFltb (S754_zero false) (Cmtbound s) then Cmtbound s else DefaultStorageOvercommitBound.
Definition GetCapacity (s : SStorage) : Z := int64_wrap (Capacity s - Reserved s).
Definition GetFreeCapacity (s : SStorage) : Z :=
  int64_wrap (overcommit (GetCapacity s) (GetOvercommitBound s) - UsedCapacity s).
Definition IsLocal (s : SStorage) : bool := String.eqb (StorageType s) "local" || String.eqb (StorageType s) "baremetal".
End Storage.

(** [utils.IsLocalStorage]. *)
Definition IsLocalStorage (s : string) : bool :=
  String.eqb s "local" || String.eqb s "baremetal" || String.eqb s "raw" ||
  String.eqb s "docker" || String.eqb s "volume" || String.eqb s "lvm".

(** ** The storages that a disk may go to *)

(** A storage that passed the checks for a disk, with the tags that the request prefers and avoids. *)
Record PredicatedStorage := Predicated {
  storage_of : SStorage; PreferTags : list SchedtagConfig; AvoidTags : list SchedtagConfig }.

(** By the position of the disk in the request. *)
Abbreviation DiskStoragesMap := (gmap nat (list PredicatedStorage)).

Section Choice.
Context (bound : float32).

Fixpoint least_used (best : option SStorage) (bestCap : Z) (storages : list SStorage) : option SStorage :=
  match storages with
  | [] => best
  | s :: storages =>
    let capa := GetFreeCapacity bound s in
    match best with
    | None => least_used (Some s) capa storages
    | Some _ => if bestCap <? capa then least_used (Some s) capa storages else least_used best bestCap storages
    end
  end.

Definition getLeastUsedStorage (storages : list SStorage) : option SStorage := least_used None 0 storages.

Definition GetLeastUsedStorage (storages : list SStorage) (backend : string) : option SStorage :=
  let backendStorages :=
    if negb (String.eqb backend "") then filter (λ s, StorageType s = backend) storages else storages in
  getLeastUsedStorage (match backendStorages with [] => storages | _ => backendStorages end).

Definition isNoTag (s : PredicatedStorage) : bool :=
  bool_decide (length (PreferTags s) = 0%nat) && bool_decide (length (AvoidTags s) = 0%nat).
Definition hasPreferTags (s : PredicatedStorage) : bool := negb (bool_decide (length (PreferTags s) = 0%nat)).
Definition hasAvoidTags (s : PredicatedStorage) : bool := negb (bool_decide (length (AvoidTags s) = 0%nat)).

Definition selectStorage (d : SchedInfo.DiskConfig) (storages : list PredicatedStorage) : option SStorage :=
  let noTagStorages := filter (λ s, isNoTag s = true) storages in
  let preferStorages := filter (λ s, isNoTag s = false ∧ hasPreferTags s = true) storages in
  let avoidStorages := filter (λ s, isNoTag s = false ∧ hasPreferTags s = false ∧ hasAvoidTags s = true) storages in
  GetLeastUsedStorage (storage_of <$> preferStorages ++ noTagStorages ++ avoidStorages) (SchedInfo.Backend d).
End Choice.

End Storages.
