(* ===== verification/Unit.v ===== *)
(** * The scheduling unit: pkg/scheduler/core/context.go, and the helper of predicates (algorithm/predicates/predicates.go)

    A unit carries one request and the tables that the predicates and priorities fill: the capacity of
    every candidate, its scores, the counters of shared resources, the storages that fit its disks, the log and the
    failures.  Its maps are
    guarded by locks, so concurrent calls are some sequence of the operations below. *)

From S2P Require Import Prelude SchedInfo Score Storages.
Import SchedInfo.
Local Open Scope Z_scope.

Module Unit.

Definition EmptyCapacity : Z := -1.
Definition MaxCapacity : Z := 0x7FFFFFFFFFFFFFFF.

(** ** Counters *)

(** [Counters] keeps its sum once it has been computed; -1 means that it has not. *)
Inductive Counter :=
| NormalCounter (Value : Z)
| Counters (counters : list Counter) (sum : Z)
| MinCounters (counters : list Counter).

Definition NewCounters : Counter := Counters [] EmptyCapacity.
Definition NewMinCounters : Counter := MinCounters [].

Definition Counters_Add (c cnt : Counter) : Counter :=
  match c with
  | Counters cs _ => Counters (cs ++ [cnt]) EmptyCapacity
  | MinCounters cs => MinCounters (cs ++ [cnt])
  | NormalCounter v => NormalCounter v
  end.

(** The loop of [calculateCount] over the counts: those that are -1 are left out. *)
Definition add_counts (counts : list Z) : Z :=
  foldl (λ value count, if count =? EmptyCapacity then value else int64_wrap (value + count)) 0 counts.

Definition min_counts (minCount : Z) (counts : list Z) : Z :=
  foldl (λ minCount count, if count <? minCount then count else minCount) minCount counts.

Fixpoint GetCount (c : Counter) : Z :=
  match c with
  | NormalCounter v => v
  | Counters cs sum => if sum =? EmptyCapacity then add_counts (map GetCount cs) else sum
  | MinCounters cs =>
    match map GetCount cs with
    | [] => EmptyCapacity
    | c0 :: counts => min_counts c0 counts
    end
  end.

(** What [GetCount] leaves behind: the sums are kept. *)
Fixpoint counted (c : Counter) : Counter :=
  match c with
  | NormalCounter v => NormalCounter v
  | Counters cs sum =>
    if sum =? EmptyCapacity then Counters (map counted cs) (add_counts (map GetCount cs)) else Counters cs sum
  | MinCounters cs => MinCounters (map counted cs)
  end.

Definition validateCapacityInput (c : Counter) : bool := 0 <=? GetCount c.

(** ** The unit *)

Record Capacity := MkCapacity { Values : gmap string Counter; MinValue : Z }.

Record SchedLog := NewSchedLog { LogCandidate : string; Action : string; Message : string; IsFailed : bool }.

(** The disk of a result (apis/scheduler). *)
Record CandidateDisk := MkCandidateDisk { DiskIndex : Z; ChosenStorage : string }.

Section Unit.

(** The plugins that predicates register, and the reasons of a refusal. *)
Context {P R : Type}.

(** A candidate that failed, by its key. *)
Record FailedCandidate := Failed { Stage : string; FailedKey : string; Reasons : list R }.

Record Unit := MkUnit {
  SchedData : SchedInfo;
  CapacityMap : gmap string Capacity;
  ScoreMap : gmap string Score.ScoreBucket;
  SharedResources : gmap string Counter;
  CounterMap : gmap string Counter;
  FailedCandidateMap : gmap string (list FailedCandidate);
  selectPlugins : list P;
  Logs : list SchedLog;
  logs_sorted : bool;
  AllocatedResources : gmap string (list (option CandidateDisk));
  (** What the disk predicate keeps: its clone for the unit and its plugin are one object. *)
  CandidateDiskStoragesMap : gmap string Storages.DiskStoragesMap }.

Definition NewScheduleUnit (info : SchedInfo) : Unit := MkUnit info ∅ ∅ ∅ ∅ ∅ [] [] false ∅ ∅.

Definition with_capacities (m : gmap string Capacity) (u : Unit) : Unit :=
  MkUnit (SchedData u) m (ScoreMap u) (SharedResources u) (CounterMap u) (FailedCandidateMap u)
    (selectPlugins u) (Logs u) (logs_sorted u) (AllocatedResources u) (CandidateDiskStoragesMap u).
Definition with_scores (m : gmap string Score.ScoreBucket) (u : Unit) : Unit :=
  MkUnit (SchedData u) (CapacityMap u) m (SharedResources u) (CounterMap u) (FailedCandidateMap u)
    (selectPlugins u) (Logs u) (logs_sorted u) (AllocatedResources u) (CandidateDiskStoragesMap u).
Definition with_counters (shared counters : gmap string Counter) (u : Unit) : Unit :=
  MkUnit (SchedData u) (CapacityMap u) (ScoreMap u) shared counters (FailedCandidateMap u)
    (selectPlugins u) (Logs u) (logs_sorted u) (AllocatedResources u) (CandidateDiskStoragesMap u).
Definition with_failed (m : gmap string (list FailedCandidate)) (u : Unit) : Unit :=
  MkUnit (SchedData u) (CapacityMap u) (ScoreMap u) (SharedResources u) (CounterMap u) m
    (selectPlugins u) (Logs u) (logs_sorted u) (AllocatedResources u) (CandidateDiskStoragesMap u).
Definition with_plugins (l : list P) (u : Unit) : Unit :=
  MkUnit (SchedData u) (CapacityMap u) (ScoreMap u) (SharedResources u) (CounterMap u) (FailedCandidateMap u)
    l (Logs u) (logs_sorted u) (AllocatedResources u) (CandidateDiskStoragesMap u).
Definition with_logs (l : list SchedLog) (sorted : bool) (u : Unit) : Unit :=
  MkUnit (SchedData u) (CapacityMap u) (ScoreMap u) (SharedResources u) (CounterMap u) (FailedCandidateMap u)
    (selectPlugins u) l sorted (AllocatedResources u) (CandidateDiskStoragesMap u).
Definition with_allocated (m : gmap string (list (option CandidateDisk))) (u : Unit) : Unit :=
  MkUnit (SchedData u) (CapacityMap u) (ScoreMap u) (SharedResources u) (CounterMap u) (FailedCandidateMap u)
    (selectPlugins u) (Logs u) (logs_sorted u) m (CandidateDiskStoragesMap u).
Definition with_disk_storages (m : gmap string Storages.DiskStoragesMap) (u : Unit) : Unit :=
  MkUnit (SchedData u) (CapacityMap u) (ScoreMap u) (SharedResources u) (CounterMap u) (FailedCandidateMap u)
    (selectPlugins u) (Logs u) (logs_sorted u) (AllocatedResources u) m.

Definition ShouldExecuteSchedtagFilter (u : Unit) : bool := bool_decide (Candidates (SchedData u) = []).

Definition AppendFailedCandidates (u : Unit) (fcs : list FailedCandidate) : Unit :=
  with_failed
    (foldl (λ m fc, <[Stage fc := default [] (m !! Stage fc) ++ [fc]]> m) (FailedCandidateMap u) fcs) u.

Definition AppendSelectPlugin (u : Unit) (p : P) : Unit := with_plugins (selectPlugins u ++ [p]) u.

(** *** Shared counters *)

(** [CounterManager.GetOrCreate]; the creators of the source never give nil. *)
Definition GetOrCreate (u : Unit) (key : string) (creator : Counter) : Counter * Unit :=
  match CounterMap u !! key with
  | Some counter => (counter, u)
  | None => (creator, with_counters (SharedResources u) (<[key := creator]> (CounterMap u)) u)
  end.

Definition SharedResources_Add (u : Unit) (resourceKey : string) (capacity : Counter) : Unit :=
  with_counters (<[resourceKey := capacity]> (SharedResources u)) (CounterMap u) u.

(** *** Capacities *)

(** The loop of [GetCapacity] over the counters of a candidate; its result does not depend on the order. *)
Definition least_count (values : gmap string Counter) : Z :=
  map_fold (λ _ counter capacity, if GetCount counter <? capacity then GetCount counter else capacity)
    MaxCapacity values.

Definition GetCapacity (u : Unit) (key : string) : Z * Unit :=
  match CapacityMap u !! key with
  | None => (0, u)
  | Some obj =>
    if MinValue obj =? EmptyCapacity then
      let capacity := least_count (Values obj) in
      (capacity, with_capacities (<[key := MkCapacity (Values obj) capacity]> (CapacityMap u)) u)
    else (MinValue obj, u)
  end.

Definition GetCapacityOfName (u : Unit) (key name : string) : Z :=
  match CapacityMap u !! key with
  | Some obj => match Values obj !! name with Some counter => GetCount counter | None => EmptyCapacity end
  | None => EmptyCapacity
  end.

Definition GetCapacities (u : Unit) (key : string) : gmap string Counter :=
  match CapacityMap u !! key with Some obj => Values obj | None => ∅ end.

(** [SetCapacity]: the flag tells whether the counter was rejected. *)
Definition SetCapacity (u : Unit) (key name : string) (capacity : Counter) : bool * Unit :=
  if negb (validateCapacityInput capacity) then (true, u)
  else
    let obj := default (MkCapacity ∅ EmptyCapacity) (CapacityMap u !! key) in
    (false,
     with_capacities
       (<[key := MkCapacity (<[name := counted capacity]> (Values obj)) EmptyCapacity]> (CapacityMap u)) u).

(** *** Scores *)

Definition setScore (u : Unit) (key : string) (val : Score.SScore) (tofront : bool) : Unit :=
  let scoreObj := default [] (ScoreMap u !! key) in
  with_scores
    (<[key := if tofront then Score.AddToFirst scoreObj val else Score.SetScore scoreObj val]> (ScoreMap u)) u.

Definition SetScore (u : Unit) (key : string) (val : Score.SScore) : Unit := setScore u key val false.
Definition SetFrontScore (u : Unit) (key : string) (val : Score.SScore) : Unit := setScore u key val true.
Definition GetScore (u : Unit) (key : string) : Score.ScoreBucket := default [] (ScoreMap u !! key).

Definition GetScoreDetails (u : Unit) (key : string) : string :=
  match ScoreMap u !! key with Some score => Score.debugString score | None => "EmptyScore" end.

(** *** Results *)

Definition GetAllocatedResource (u : Unit) (candidateId : string) : list (option CandidateDisk) * Unit :=
  match AllocatedResources u !! candidateId with
  | Some ret => (ret, u)
  | None => ([], with_allocated (<[candidateId := []]> (AllocatedResources u)) u)
  end.

(** ** The log *)

Definition log_string (l : SchedLog) : string := LogCandidate l +:+ " [" +:+ Action l +:+ "] " +:+ Message l.

Definition log_get (logs : list SchedLog) (index : string) : option SchedLog :=
  snd <$> list_find (λ l, LogCandidate l = index) logs.

Definition LogLess (a b : SchedLog) : bool :=
  match String.compare (LogCandidate a) (LogCandidate b) with
  | Lt => true
  | Gt => false
  | Eq => match String.compare (Message a) (Message b) with
          | Lt => true
          | Gt => false
          | Eq => match String.compare (Action a) (Action b) with Lt => true | _ => false end
          end
  end.

(** Appending leaves the flag that says the log has been sorted. *)
Definition log_Append (u : Unit) (l : SchedLog) : Unit := with_logs (Logs u ++ [l]) (logs_sorted u) u.
Definition log_Appends (u : Unit) (ls : list SchedLog) : Unit := with_logs (Logs u ++ ls) (logs_sorted u) u.

Definition FailedLogs (u : Unit) : list SchedLog := filter (λ l, IsFailed l = true) (Logs u).

(** [joinLogs] on the logs of one group, which is never empty. *)
Definition joinLogs (log : SchedLog) (rest : list SchedLog) : string :=
  match rest with
  | [] => log_string log
  | _ => log_string (NewSchedLog (LogCandidate log) (join "," (Action <$> log :: rest)) (Message log)
           (existsb IsFailed (log :: rest)))
  end.

(** The loop of [Read]: [log0] starts the group, [group] is its rest. *)
Fixpoint read_loop (log0 : SchedLog) (group : list SchedLog) (logs : list SchedLog) : list string :=
  match logs with
  | [] => [joinLogs log0 group]
  | log :: logs =>
    if negb (String.eqb (LogCandidate log0) (LogCandidate log)) || negb (String.eqb (Message log0) (Message log))
    then joinLogs log0 group :: read_loop log [] logs
    else read_loop log0 (group ++ [log]) logs
  end.

(** [sort] is [sort.Sort] with the order above. *)
Definition Read (sort : list SchedLog → list SchedLog) (u : Unit) : list string * Unit :=
  match Logs u with
  | [] => ([], u)
  | _ =>
    let u := if logs_sorted u then u else with_logs (sort (Logs u)) true u in
    (match Logs u with [] => [] | log :: logs => read_loop log [] logs end, u)
  end.

(** ** The helper of predicates *)

Record PredicateHelper := Helper {
  predicate : string; predicateFails : list R; capacity : Z; HelperUnit : Unit; CandidateKey : string }.

Definition NewPredicateHelper (name : string) (u : Unit) (key : string) : PredicateHelper :=
  Helper name [] EmptyCapacity u key.

Definition getResult (h : PredicateHelper) : bool * list R :=
  match predicateFails h with
  | [] => if capacity h =? 0 then (false, []) else (true, [])
  | fails => (false, fails)
  end.

Definition AppendPredicateFail (h : PredicateHelper) (reason : R) : PredicateHelper :=
  Helper (predicate h) (predicateFails h ++ [reason]) (capacity h) (HelperUnit h) (CandidateKey h).

(** A counter that the unit rejects is not recorded; the error is only logged. *)
Definition SetCapacityCounter (h : PredicateHelper) (counter : Counter) : PredicateHelper :=
  let c := GetCount counter in
  Helper (predicate h) (predicateFails h) (if c <? EmptyCapacity then EmptyCapacity else c)
    (SetCapacity (HelperUnit h) (CandidateKey h) (predicate h) counter).2 (CandidateKey h).

Definition HelperSetCapacity (h : PredicateHelper) (c : Z) : PredicateHelper :=
  SetCapacityCounter h (NormalCounter (if c <? 0 then 0 else c)).

Definition Exclude (h : PredicateHelper) (reason : R) : PredicateHelper :=
  AppendPredicateFail (HelperSetCapacity h 0) reason.

Definition UseReserved (u : Unit) : bool := negb (bool_decide (IsolatedDevices (SchedData u) = [])).

End Unit.

Arguments Unit P R : clear implicits.
Arguments FailedCandidate R : clear implicits.
Arguments PredicateHelper P R : clear implicits.

End Unit.
