(* ===== verification/HostDesc.v ===== *)
(** * What the scheduler knows about a host: pkg/scheduler/cache/candidate (hosts.go, common.go, base.go, baremetals.go)

    A builder reads the guests and the isolated devices of some hosts from the database and computes, for
    every host, what is free.  Conversions of floating-point numbers to integers are those of amd64. *)

From Stdlib Require Import Ascii SpecFloat.
From S2P Require Import Prelude DiskConfig Networks Schedtag Storages.
Import Storages.
Local Open Scope Z_scope.
Local Open Scope go_scope.

Module HostDesc.

(** ** Rows of the database *)

Record GuestDisk := MkGuestDisk { DiskSize : Z; DiskIsLocal : bool }.

Record SGuest := MkGuest {
  GuestId : string; GuestHostId : string; BackupHostId : string; GuestStatus : string;
  VcpuCount : Z; VmemSize : Z; PendingDeleted : bool; GuestDisks : list GuestDisk; GuestHypervisor : string }.

Record IsolatedDevice := MkDevice {
  DevId : string; DevGuestID : string; DevHostID : string; DevType : string; DevModel : string; VendorDeviceID : string }.

Record SZone := MkZone { ZoneId : string; ZoneName : string; ZoneStatus : string }.

Record SHost := MkHost {
  HostId : string; HostName : string; CpuCount : Z; MemSize : Z; CpuReserved : Z; MemReserved : Z;
  HostCpuCmtbound : float32; HostMemCmtbound : float32;
  Status : string; HostStatus : string; Enabled : bool; HostType : string; ResourceType : string; Zone : option SZone; Region : option string;
  Cloudprovider : option (string * string);
  HostNetworks : list Networks.SNetwork; Storages : list SStorage; HostSchedtags : list Schedtag.SSchedtag;
  Tenants : gmap string Z }.

(** The options of the service that the code below reads. *)
Record Options := MkOptions {
  IgnoreNonrunningGuests : bool; IgnoreFakeDeletedGuests : bool;
  CpuReservedPerIsolatedDevice : Z; MemoryReservedPerIsolatedDevice : Z; StorageReservedPerIsolatedDevice : Z;
  DefaultCPUOvercommitBound : float32; DefaultMemoryOvercommitBound : float32;
  DefaultStorageBound : float32 }.

(** ** States of guests (common.go, apis/compute/guest_const.go) *)

Definition VMRunningStatus : list string :=
  ["start_start"; "starting"; "running"; "stop_fail"; "block_stream"; "unknown"; "backup_starting"].
Definition VMCreatingStatus : list string :=
  ["network"; "disk"; "start_deploy"; "deploying"; "backup_creating"; "deploying_backup"].
(** The states that count as running for the reserve. *)
Definition VM_RUNNING_STATUS : list string := ["start_start"; "starting"; "running"; "block_stream"].

Definition IsGuestRunning (g : SGuest) : bool := bool_decide (GuestStatus g ∈ VMRunningStatus).
Definition IsGuestCreating (g : SGuest) : bool := bool_decide (GuestStatus g ∈ VMCreatingStatus).
Definition IsGuestPendingDelete (g : SGuest) : bool := PendingDeleted g.

(** ** The builder *)

(** The guests and devices of the hosts being described, by host and by guest. *)
Record HostBuilder := MkBuilder {
  hostGuests : gmap string (list SGuest); hostBackupGuests : gmap string (list SGuest);
  guestDict : gmap string SGuest; isolatedDevicesDict : gmap string (list IsolatedDevice);
  guestMetadatasDict : gmap string (list (string * string)); hostMetadatasDict : gmap string (list (string * string)) }.

(** [utils.GroupBy] and [utils.ToDict]. *)
Definition GroupBy {A} (ks : A → string) (items : list A) : gmap string (list A) :=
  foldl (λ res obj, <[ks obj := default [] (res !! ks obj) ++ [obj]]> res) ∅ items.
Definition ToDict {A} (ks : A → string) (objs : list A) : gmap string A :=
  foldl (λ res obj, <[ks obj := obj]> res) ∅ objs.

(** [FetchGuestByHostIDs]: the guests whose own host is among the hosts. *)
Definition FetchGuestByHostIDs (db : list SGuest) (ids : list string) : list SGuest :=
  filter (λ g, GuestHostId g ∈ ids) db.

(** [setGuests], [setIsolatedDevs] and the maps of [setMetadataInfo], which is given its rows by guest and host. *)
Definition new_builder (guests : list SGuest) (devs : list IsolatedDevice)
    (guestMeta hostMeta : gmap string (list (string * string))) (ids : list string) : HostBuilder :=
  let guests := FetchGuestByHostIDs guests ids in
  MkBuilder (GroupBy GuestHostId guests) (GroupBy BackupHostId guests) (ToDict GuestId guests)
    (GroupBy DevHostID (filter (λ d, DevHostID d ∈ ids) devs)) guestMeta hostMeta.

Definition getIsolatedDevices (b : HostBuilder) (hostID : string) : list IsolatedDevice :=
  default [] (isolatedDevicesDict b !! hostID).
Definition getUsedIsolatedDevices (b : HostBuilder) (hostID : string) : list IsolatedDevice :=
  filter (λ dev, DevGuestID dev ≠ "") (getIsolatedDevices b hostID).
Definition getUnusedIsolatedDevices (b : HostBuilder) (hostID : string) : list IsolatedDevice :=
  filter (λ dev, DevGuestID dev = "") (getIsolatedDevices b hostID).

(** The loop over the used devices: the guests that are known, each once. *)
Fixpoint device_guests (b : HostBuilder) (ids : list string) (devs : list IsolatedDevice) : list SGuest :=
  match devs with
  | [] => []
  | dev :: devs =>
    match guestDict b !! DevGuestID dev with
    | None => device_guests b ids devs
    | Some guest => if bool_decide (GuestId guest ∈ ids) then device_guests b ids devs
                    else guest :: device_guests b (GuestId guest :: ids) devs
    end
  end.

Definition getIsolatedDeviceGuests (b : HostBuilder) (hostID : string) : list SGuest :=
  device_guests b [] (getUsedIsolatedDevices b hostID).

(** ** The reserve for guests with devices *)

Record ReservedResource := NewReservedResource { CPUCount : Z; MemorySize : Z; StorageSize : Z }.

Definition NewGuestReservedResourceByBuilder (o : Options) (b : HostBuilder) (host : SHost) : ReservedResource :=
  let hostDevsCount := Z.of_nat (length (getIsolatedDevices b (HostId host))) in
  if hostDevsCount =? 0 then NewReservedResource 0 0 0
  else NewReservedResource (int64_wrap (hostDevsCount * CpuReservedPerIsolatedDevice o))
         (int64_wrap (hostDevsCount * MemoryReservedPerIsolatedDevice o))
         (int64_wrap (hostDevsCount * StorageReservedPerIsolatedDevice o)).

Definition guestDiskSize (g : SGuest) (onlyLocal : bool) : Z :=
  foldl (λ size disk, if negb onlyLocal || DiskIsLocal disk then int64_wrap (size + DiskSize disk) else size)
    0 (GuestDisks g).

Definition rsvd_step (o : Options) (r : ReservedResource) (g : SGuest) : ReservedResource :=
  let disk := int64_wrap (StorageSize r + guestDiskSize g true) in
  if IgnoreNonrunningGuests o && negb (bool_decide (GuestStatus g ∈ VM_RUNNING_STATUS))
  then NewReservedResource (CPUCount r) (MemorySize r) disk
  else NewReservedResource (int64_wrap (CPUCount r + VcpuCount g)) (int64_wrap (MemorySize r + VmemSize g)) disk.

Definition NewGuestReservedResourceUsedByBuilder (o : Options) (b : HostBuilder) (host : SHost) : ReservedResource :=
  foldl (rsvd_step o) (NewReservedResource 0 0 0) (getIsolatedDeviceGuests b (HostId host)).

(** ** The description of a host *)

Record HostDesc := MkDesc {
  Host : SHost;
  TotalCPUCount : Z; RunningCPUCount : Z; CreatingCPUCount : Z; RequiredCPUCount : Z; FakeDeletedCPUCount : Z;
  FreeCPUCount : Z; CPUBoundCount : Z;
  TotalMemSize : Z; RunningMemSize : Z; CreatingMemSize : Z; RequiredMemSize : Z; FakeDeletedMemSize : Z;
  FreeMemSize : Z; IOBoundCount : Z;
  GuestCount : Z; CreatingGuestCount : Z; RunningGuestCount : Z;
  Metadata : gmap string string; IsolatedDevices : list IsolatedDevice;
  GuestReservedResource : ReservedResource; GuestReservedResourceUsed : ReservedResource }.

Definition guestAppTags (b : HostBuilder) (guest : SGuest) : list string :=
  match list_find (λ m : string * string, m.1 = "app_tags" ∧ m.2 ≠ "") (default [] (guestMetadatasDict b !! GuestId guest)) with
  | Some (_, m) => Split ","%char m.2
  | None => []
  end.

(** The variables of [fillGuestsResourceInfo]. *)
Record guest_sums := MkSums {
  guestCount : Z; runningCount : Z; memSize : Z; memReqSize : Z; memFakeDeletedSize : Z;
  cpuCount : Z; cpuReqCount : Z; cpuBoundCount : Z; cpuFakeDeletedCount : Z; ioBoundCount : Z;
  creatingMemSize : Z; creatingCPUCount : Z; creatingGuestCount : Z }.

Definition no_sums : guest_sums := MkSums 0 0 0 0 0 0 0 0 0 0 0 0 0.

Definition tag_step (guest : SGuest) (p : Z * Z) (tag : string) : Z * Z :=
  let (cpuBound, ioBound) := p in
  if String.eqb tag "cpu_bound" then (int64_wrap (cpuBound + VcpuCount guest), ioBound)
  else if String.eqb tag "io_bound" then (cpuBound, int64_wrap (ioBound + 1))
  else (cpuBound, ioBound).

Definition guest_step (b : HostBuilder) (s : guest_sums) (guest : SGuest) : guest_sums :=
  let running := IsGuestRunning guest in
  let creating := negb running && IsGuestCreating guest in
  let deleted := negb running && negb (IsGuestCreating guest) && IsGuestPendingDelete guest in
  let plus (c : bool) a x := if c then int64_wrap (a + x) else a in
  let tags := foldl (tag_step guest) (cpuBoundCount s, ioBoundCount s) (guestAppTags b guest) in
  MkSums (int64_wrap (guestCount s + 1)) (plus running (runningCount s) 1)
    (plus running (memSize s) (VmemSize guest)) (int64_wrap (memReqSize s + VmemSize guest))
    (plus deleted (memFakeDeletedSize s) (VmemSize guest))
    (plus running (cpuCount s) (VcpuCount guest)) (int64_wrap (cpuReqCount s + VcpuCount guest))
    tags.1 (plus deleted (cpuFakeDeletedCount s) (VcpuCount guest)) tags.2
    (plus creating (creatingMemSize s) (VmemSize guest)) (plus creating (creatingCPUCount s) (VcpuCount guest))
    (plus creating (creatingGuestCount s) 1).

Definition guests_on_host (b : HostBuilder) (host : SHost) : list SGuest :=
  default [] (hostGuests b !! HostId host) ++ default [] (hostBackupGuests b !! HostId host).

(** The free amount: [total] minus what the guests take, less the part of the reserve that is not in use and
    what is set aside for the host; a reserve that is exceeded counts as large as its use. *)
Definition free_amount (o : Options) (total running creating required deleted rsvd used hostReserved : Z) : Z :=
  let free :=
    if IgnoreNonrunningGuests o then int64_wrap (int64_wrap (total - running) - creating)
    else
      let free := int64_wrap (total - required) in
      if IgnoreFakeDeletedGuests o then int64_wrap (free + deleted) else free in
  let free := int64_wrap (int64_wrap (free + used) - int64_wrap (rsvd + hostReserved)) in
  let sub := int64_wrap (rsvd - used) in
  if sub <? 0 then int64_wrap (free + sub) else free.

Definition GetCPUOvercommitBound (o : Options) (h : SHost) : float32 :=
  if SFltb (S754_zero false) (HostCpuCmtbound h) then HostCpuCmtbound h else DefaultCPUOvercommitBound o.
Definition GetMemoryOvercommitBound (o : Options) (h : SHost) : float32 :=
  if SFltb (S754_zero false) (HostMemCmtbound h) then HostMemCmtbound h else DefaultMemoryOvercommitBound o.

Definition fillMetadata (b : HostBuilder) (host : SHost) : gmap string string :=
  foldl (λ m md, <[md.1 := md.2]> m) ∅ (default [] (hostMetadatasDict b !! HostId host)).

(** [buildOne] with [fillGuestsResourceInfo], [fillMetadata] and [fillIsolatedDevices]. *)
Definition buildOne (o : Options) (b : HostBuilder) (host : SHost) : HostDesc :=
  let rsvd := NewGuestReservedResourceByBuilder o b host in
  let used := NewGuestReservedResourceUsedByBuilder o b host in
  let s := foldl (guest_step b) no_sums (guests_on_host b host) in
  let totalMem := overcommit (MemSize host) (GetMemoryOvercommitBound o host) in
  let totalCPU := overcommit (CpuCount host) (GetCPUOvercommitBound o host) in
  MkDesc host totalCPU (cpuCount s) (creatingCPUCount s) (cpuReqCount s) (cpuFakeDeletedCount s)
    (free_amount o totalCPU (cpuCount s) (creatingCPUCount s) (cpuReqCount s) (cpuFakeDeletedCount s)
       (CPUCount rsvd) (CPUCount used) (CpuReserved host))
    (cpuBoundCount s)
    totalMem (memSize s) (creatingMemSize s) (memReqSize s) (memFakeDeletedSize s)
    (free_amount o totalMem (memSize s) (creatingMemSize s) (memReqSize s) (memFakeDeletedSize s)
       (MemorySize rsvd) (MemorySize used) (MemReserved host))
    (ioBoundCount s) (guestCount s) (creatingGuestCount s) (runningCount s)
    (fillMetadata b host) (getIsolatedDevices b (HostId host)) rsvd used.

(** The description of a baremetal machine (baremetals.go). *)
Record BaremetalDesc := MkBaremetal { BmHost : SHost; StorageInfo : list DiskConfig.BaremetalStorage; ServerID : string }.

Definition bm_FreeCPUCount (bd : BaremetalDesc) : Z := if String.eqb (ServerID bd) "" then CpuCount (BmHost bd) else 0.
Definition bm_FreeMemSize (bd : BaremetalDesc) : Z := if String.eqb (ServerID bd) "" then MemSize (BmHost bd) else 0.

(** ** Reading a description *)

Definition reservedResourceCal (curRes rsvdRes : Z) (useRsvd minusRsvd : bool) : Z :=
  if useRsvd then (if minusRsvd then int64_wrap (curRes - rsvdRes) else int64_wrap (curRes + rsvdRes)) else curRes.
Definition reservedResourceAddCal (curRes rsvdRes : Z) (useRsvd : bool) : Z := reservedResourceCal curRes rsvdRes useRsvd false.
Definition reservedResourceMinusCal (curRes rsvdRes : Z) (useRsvd : bool) : Z := reservedResourceCal curRes rsvdRes useRsvd true.

Definition GuestReservedMemSizeFree (h : HostDesc) : Z :=
  int64_wrap (MemorySize (GuestReservedResource h) - MemorySize (GuestReservedResourceUsed h)).
Definition GuestReservedCPUCountFree (h : HostDesc) : Z :=
  int64_wrap (CPUCount (GuestReservedResource h) - CPUCount (GuestReservedResourceUsed h)).
Definition GuestReservedStorageSizeFree (h : HostDesc) : Z :=
  int64_wrap (StorageSize (GuestReservedResource h) - StorageSize (GuestReservedResourceUsed h)).

Definition GetTotalMemSize (h : HostDesc) (useRsvd : bool) : Z :=
  reservedResourceMinusCal (TotalMemSize h) (MemorySize (GuestReservedResource h)) useRsvd.
Definition GetFreeMemSize (h : HostDesc) (useRsvd : bool) : Z :=
  reservedResourceAddCal (FreeMemSize h) (GuestReservedMemSizeFree h) useRsvd.
Definition GetReservedMemSize (h : HostDesc) : Z := int64_wrap (MemorySize (GuestReservedResource h) + MemReserved (Host h)).
Definition GetReservedCPUCount (h : HostDesc) : Z := int64_wrap (CPUCount (GuestReservedResource h) + CpuReserved (Host h)).
Definition GetReservedStorageSize (h : HostDesc) : Z := StorageSize (GuestReservedResource h).
Definition GetTotalCPUCount (h : HostDesc) (useRsvd : bool) : Z :=
  reservedResourceMinusCal (TotalCPUCount h) (CPUCount (GuestReservedResource h)) useRsvd.
Definition GetFreeCPUCount (h : HostDesc) (useRsvd : bool) : Z :=
  reservedResourceAddCal (FreeCPUCount h) (GuestReservedCPUCountFree h) useRsvd.
Definition IndexKey (h : HostDesc) : string := HostId (Host h).

(** *** Storage *)

Section StorageSize.
Context (bound : float32).

Definition sum_storages (amount : SStorage → Z) (want : SStorage → bool) (storages : list SStorage) : Z :=
  foldl (λ total storage, if want storage then int64_wrap (total + amount storage) else total) 0 storages.

Definition totalStorageSize (h : HostDesc) (onlyLocal useRsvd : bool) : Z :=
  let total := sum_storages GetCapacity (λ s, negb onlyLocal || IsLocal s) (Storages (Host h)) in
  if onlyLocal then reservedResourceMinusCal total (StorageSize (GuestReservedResource h)) useRsvd else total.

(** The part of the free space that the reserve takes. *)
Definition minus_reserve (h : HostDesc) (total : Z) : Z :=
  let total := int64_wrap (int64_wrap (total + StorageSize (GuestReservedResourceUsed h)) - GetReservedStorageSize h) in
  let sizeSub := int64_wrap (StorageSize (GuestReservedResource h) - StorageSize (GuestReservedResourceUsed h)) in
  if sizeSub <? 0 then int64_wrap (total + sizeSub) else total.

Definition freeStorageSize (h : HostDesc) (onlyLocal useRsvd : bool) : Z :=
  let total := sum_storages (GetFreeCapacity bound) (λ s, negb onlyLocal || IsLocal s) (Storages (Host h)) in
  let total := minus_reserve h total in
  if useRsvd then reservedResourceAddCal total (GuestReservedStorageSizeFree h) useRsvd else total.

Definition freeStorageSizeOfType (h : HostDesc) (storageType : string) (useRsvd : bool) : Z :=
  let total := sum_storages (GetFreeCapacity bound) (λ s, String.eqb (StorageType s) storageType) (Storages (Host h)) in
  let total := if IsLocalStorage storageType then minus_reserve h total else total in
  if useRsvd then reservedResourceAddCal total (GuestReservedStorageSizeFree h) useRsvd else total.

Definition GetTotalLocalStorageSize (h : HostDesc) (useRsvd : bool) : Z := totalStorageSize h true useRsvd.
Definition GetFreeLocalStorageSize (h : HostDesc) (useRsvd : bool) : Z := freeStorageSize h true useRsvd.
Definition GetFreeStorageSizeOfType (h : HostDesc) (sType : string) (useRsvd : bool) : Z :=
  freeStorageSizeOfType h sType useRsvd.
End StorageSize.

(** *** Devices *)

Definition VendorID (i : IsolatedDevice) : string := default "" (head (Split ":"%char (VendorDeviceID i))).

Record VendorModel := MkVendorModel { Vendor : string; VModel : string }.

Definition NewVendorModelByStr (desc : string) : VendorModel :=
  match Split ":"%char desc with
  | [m] => MkVendorModel "" m
  | [v; m] => MkVendorModel v m
  | _ => MkVendorModel "" ""
  end.

(** [api.ID_VENDOR_MAP]; a missing key gives the empty string. *)
Definition ID_VENDOR_MAP (v : string) : string :=
  if String.eqb v "10de" then "NVIDIA" else if String.eqb v "1002" then "AMD" else "".

Definition IsMatch (vm target : VendorModel) : bool :=
  if String.eqb (VModel vm) "" || String.eqb (VModel target) "" then false
  else
    let vendorMatch :=
      if negb (String.eqb (Vendor target) "")
      then String.eqb (Vendor vm) (Vendor target) || String.eqb (ID_VENDOR_MAP (Vendor vm)) (Vendor target)
      else true in
    vendorMatch && String.eqb (VModel vm) (VModel target).

Definition GetVendorModel (i : IsolatedDevice) : VendorModel := MkVendorModel (VendorID i) (DevModel i).

Definition UnusedIsolatedDevices (h : HostDesc) : list IsolatedDevice :=
  filter (λ dev, DevGuestID dev = "") (IsolatedDevices h).
Definition UnusedIsolatedDevicesByType (h : HostDesc) (devType : string) : list IsolatedDevice :=
  filter (λ dev, DevType dev = devType) (UnusedIsolatedDevices h).
Definition UnusedIsolatedDevicesByVendorModel (h : HostDesc) (vendorModel : string) : list IsolatedDevice :=
  filter (λ dev, IsMatch (GetVendorModel dev) (NewVendorModelByStr vendorModel) = true) (UnusedIsolatedDevices h).
Definition GetIsolatedDevice (h : HostDesc) (devID : string) : option IsolatedDevice :=
  snd <$> list_find (λ dev, DevId dev = devID) (IsolatedDevices h).
Definition UnusedGpuDevices (h : HostDesc) : list IsolatedDevice :=
  filter (λ dev, String.prefix "GPU" (DevType dev) = true) (UnusedIsolatedDevices h).

End HostDesc.
