(* ===== verification/HostDescProofs.v ===== *)
(** * What is free on a host: proofs about the descriptions that the builder computes *)

From S2P Require Import Prelude SchedInfo Storages HostDesc.
Import Storages HostDesc.
Local Open Scope Z_scope.

Module HostDescProofs.

(** ** The maps of the builder *)

Lemma GroupBy_spec {A} (ks : A → string) items k : default [] (GroupBy ks items !! k) = filter (λ x, ks x = k) items.
Proof.
  unfold GroupBy.
  assert (∀ m : gmap string (list A), default [] (foldl (λ res obj, <[ks obj := default [] (res !! ks obj) ++ [obj]]> res) m items !! k) =
    default [] (m !! k) ++ filter (λ x, ks x = k) items) as H.
  { induction items as [|x items IH]; intros m; cbn [foldl]; [by rewrite app_nil_r|]. rewrite IH, filter_cons.
    destruct (decide (ks x = k)) as [<-|Hne].
    - rewrite lookup_insert_eq. cbn. by rewrite <- app_assoc.
    - by rewrite lookup_insert_ne. }
  rewrite H. by rewrite lookup_empty.
Qed.

Lemma ToDict_spec {A} (ks : A → string) items x : NoDup (ks <$> items) → x ∈ items → ToDict ks items !! ks x = Some x.
Proof.
  unfold ToDict. intros Hnd Hx. assert (∀ m : gmap string A, foldl (λ res obj, <[ks obj := obj]> res) m items !! ks x = Some x) as H; [|apply H].
  induction items as [|y items IH]; intros m; [by apply elem_of_nil in Hx|]. cbn [foldl].
  rewrite fmap_cons in Hnd. apply NoDup_cons in Hnd as [Hy Hnd].
  apply elem_of_cons in Hx as [->|Hin]; [|by apply IH].
  assert (∀ m : gmap string A, foldl (λ res obj, <[ks obj := obj]> res) m items !! ks y = m !! ks y) as Hk.
  { clear -Hy. induction items as [|z items IH]; intros m; [done|]. cbn [foldl].
    rewrite fmap_cons, not_elem_of_cons in Hy. destruct Hy as [Hne Hy]. rewrite IH by done. by rewrite lookup_insert_ne by done. }
  rewrite Hk. by rewrite lookup_insert_eq.
Qed.

Lemma ToDict_elem {A} (ks : A → string) items k x : ToDict ks items !! k = Some x → x ∈ items ∧ ks x = k.
Proof.
  unfold ToDict. assert (∀ m : gmap string A, foldl (λ res obj, <[ks obj := obj]> res) m items !! k = Some x →
    (x ∈ items ∧ ks x = k) ∨ m !! k = Some x) as H.
  { induction items as [|y items IH]; intros m Hf; cbn [foldl] in Hf; [by right|].
    apply IH in Hf as [[Hin Hk]|Hf]; [left; split; [by right|done]|].
    destruct (decide (ks y = k)) as [Hy|Hne].
    - rewrite Hy, lookup_insert_eq in Hf. injection Hf as ->. left. split; [left|done].
    - rewrite lookup_insert_ne in Hf by done. by right. }
  intros Hf. apply H in Hf as [Hf|Hf]; [done|]. by rewrite lookup_empty in Hf.
Qed.

(** ** The guests with devices *)

(** The guest holds one of the devices. *)
Definition holds (devs : list IsolatedDevice) (g : SGuest) : Prop := GuestId g ∈ DevGuestID <$> devs.
#[global] Instance holds_dec devs g : Decision (holds devs g).
Proof. unfold holds. apply _. Defined.

Lemma device_guests_spec b devs : (∀ k g, guestDict b !! k = Some g → GuestId g = k) → ∀ ids,
  NoDup (GuestId <$> device_guests b ids devs) ∧
  ∀ g, g ∈ device_guests b ids devs ↔ guestDict b !! GuestId g = Some g ∧ holds devs g ∧ GuestId g ∉ ids.
Proof.
  intros Hdict. unfold holds. induction devs as [|dev devs IH]; intros ids; cbn [device_guests].
  { split; [constructor|]. intros g. cbn. rewrite !elem_of_nil. tauto. }
  destruct (guestDict b !! DevGuestID dev) as [g0|] eqn:E.
  - pose proof (Hdict _ _ E) as Hid. destruct (bool_decide_reflect (GuestId g0 ∈ ids)) as [Hin|Hnin].
    + destruct (IH ids) as [Hnd Hel]. split; [done|]. intros g. rewrite Hel, fmap_cons, elem_of_cons.
      split; [tauto|]. intros (Hg & [Heq|Hd] & Hn); [|tauto]. congruence.
    + destruct (IH (GuestId g0 :: ids)) as [Hnd Hel]. split.
      * rewrite fmap_cons. apply NoDup_cons. split; [|done]. intros (g' & Hg' & Hin')%list_elem_of_fmap.
        apply Hel in Hin' as (_ & _ & Hn). apply Hn. rewrite Hg'. left.
      * intros g. rewrite (elem_of_cons _ g), Hel, fmap_cons, !elem_of_cons. split.
        -- intros [->|(Hg & Hd & Hn)]; [|tauto]. rewrite Hid. split_and!; [done|by left|by rewrite <- Hid].
        -- intros (Hg & Hd & Hn). destruct (decide (GuestId g = GuestId g0)) as [Heq|Hne]; [left; congruence|].
           right. split_and!; [done| |tauto]. destruct Hd as [Hd|Hd]; [congruence|done].
  - destruct (IH ids) as [Hnd Hel]. split; [done|]. intros g. rewrite Hel, fmap_cons, elem_of_cons.
    split; [tauto|]. intros (Hg & [Heq|Hd] & Hn); [congruence|tauto].
Qed.

(** ** Sums *)

Definition sum_of {A} (f : A → Z) (l : list A) : Z := foldr (λ x s, f x + s) 0 l.

Lemma sum_of_app {A} (f : A → Z) l1 l2 : sum_of f (l1 ++ l2) = sum_of f l1 + sum_of f l2.
Proof. unfold sum_of. induction l1; cbn; lia. Qed.

#[global] Instance sum_of_perm {A} (f : A → Z) : Proper ((≡ₚ) ==> eq) (sum_of f).
Proof. intros l1 l2 H. unfold sum_of. induction H; cbn in *; lia. Qed.

Lemma sum_of_nonneg {A} (f : A → Z) l : Forall (λ x, 0 ≤ f x) l → 0 ≤ sum_of f l.
Proof. unfold sum_of. induction 1; cbn; lia. Qed.

Lemma sum_of_plus {A} (f g : A → Z) l : sum_of f l + sum_of g l = sum_of (λ x, f x + g x) l.
Proof. unfold sum_of. induction l; cbn; lia. Qed.

Lemma sum_of_ext {A} (f g : A → Z) l : (∀ x, x ∈ l → f x = g x) → sum_of f l = sum_of g l.
Proof.
  unfold sum_of. induction l as [|x l IH]; intros H; cbn; [done|]. rewrite (H x) by left.
  rewrite IH; [done|]. intros y Hy. apply H. by right.
Qed.

(** A variable that some of the elements add to. *)
Lemma foldl_add_if {A} (c : A → bool) (f : A → Z) l : ∀ a, is_int64 a →
  foldl (λ a x, if c x then int64_wrap (a + f x) else a) a l = int64_wrap (a + sum_of (λ x, if c x then f x else 0) l).
Proof.
  unfold sum_of. induction l as [|x l IH]; intros a Ha; cbn.
  { rewrite Z.add_0_r. symmetry. by apply int64_wrap_id. }
  destruct (c x); [|by rewrite IH by done]. rewrite IH by apply int64_wrap_range. rewrite SchedInfo.int64_wrap_add_l. f_equal. lia.
Qed.

(** The result of additions that wrap around is the exact one when that is in range. *)
Lemma int64_wrap_turns x : ∃ k, int64_wrap x = x + k * 2 ^ 64.
Proof. exists (- ((x + 2 ^ 63) / 2 ^ 64)). unfold int64_wrap. pose proof (Z.div_mod (x + 2 ^ 63) (2 ^ 64)). lia. Qed.

Lemma int64_wrap_exact x k y : is_int64 y → x = y + k * 2 ^ 64 → int64_wrap x = y.
Proof.
  intros Hy ->. destruct (int64_wrap_turns (y + k * 2 ^ 64)) as [j E]. pose proof (int64_wrap_range (y + k * 2 ^ 64)).
  unfold is_int64 in *. lia.
Qed.

(** A variable of a fold over a record. *)
Lemma foldl_proj {S B A} (π : S → B) (step : S → A → S) (h : B → A → B) l :
  (∀ s x, π (step s x) = h (π s) x) → ∀ s, π (foldl step s l) = foldl h (π s) l.
Proof. intros H. induction l as [|x l IH]; intros s; [done|]. cbn. by rewrite IH, H. Qed.

(** ** A host in a consistent database *)

Section Host.
Context (o : Options) (guests : list SGuest) (devs : list IsolatedDevice)
  (guestMeta hostMeta : gmap string (list (string * string))) (ids : list string) (host : SHost).

Notation b := (new_builder guests devs guestMeta hostMeta ids).
Notation H := (HostId host).

(** The devices of the host, and the guests there that hold one of them. *)
Definition host_devices : list IsolatedDevice := filter (λ d, DevHostID d = H) devs.
Definition used_devices : list IsolatedDevice := filter (λ d, DevGuestID d ≠ "") host_devices.
Definition residents : list SGuest := filter (λ g, GuestHostId g = H) guests.
Definition device_holders : list SGuest := filter (holds used_devices) residents.
(** The guests on the host and the backups there. *)
Definition on_host : list SGuest := residents ++ filter (λ g, BackupHostId g = H) (FetchGuestByHostIDs guests ids).

(** The guests that the options count: all of them; or those that run or are being created; or all but those that are to be
    deleted. *)
Definition counts (g : SGuest) : bool :=
  if IgnoreNonrunningGuests o then IsGuestRunning g || IsGuestCreating g
  else negb (IgnoreFakeDeletedGuests o && (negb (IsGuestRunning g) && negb (IsGuestCreating g) && IsGuestPendingDelete g)).
(** The guests whose devices the options take for used. *)
Definition uses (g : SGuest) : bool :=
  negb (IgnoreNonrunningGuests o && negb (bool_decide (GuestStatus g ∈ VM_RUNNING_STATUS))).

(** What the guests take, and what the guests with devices take of the reserve. *)
Definition load (f : SGuest → Z) : Z := sum_of (λ g, if counts g then f g else 0) on_host.
Definition held (f : SGuest → Z) : Z := sum_of (λ g, if uses g then f g else 0) device_holders.

(** Identifiers are unique, the host is being built, and a device is held by a guest of its own host. *)
Record consistent : Prop := {
  cs_ids : NoDup (GuestId <$> guests);
  cs_host : H ∈ ids;
  cs_devices : ∀ d g, d ∈ used_devices → g ∈ guests → GuestId g = DevGuestID d → GuestHostId g = H }.

Context (Hc : consistent).

Lemma builder_devices : getIsolatedDevices b H = host_devices.
Proof.
  unfold getIsolatedDevices. cbn. rewrite GroupBy_spec. unfold host_devices. rewrite list_filter_filter.
  apply list_filter_ext_in. intros d _. split; [tauto|]. intros ->. split; [done|apply Hc].
Qed.

Lemma builder_residents : filter (λ g, GuestHostId g = H) (FetchGuestByHostIDs guests ids) = residents.
Proof.
  unfold FetchGuestByHostIDs, residents. rewrite list_filter_filter.
  apply list_filter_ext_in. intros g _. split; [tauto|]. intros ->. split; [done|apply Hc].
Qed.

Lemma builder_guests : guests_on_host b host = on_host.
Proof. unfold guests_on_host. cbn. rewrite !GroupBy_spec. by rewrite builder_residents. Qed.

Lemma builder_holders : getIsolatedDeviceGuests b H ≡ₚ device_holders.
Proof.
  unfold getIsolatedDeviceGuests. assert (getUsedIsolatedDevices b H = used_devices) as ->.
  { unfold getUsedIsolatedDevices. by rewrite builder_devices. }
  assert (NoDup (GuestId <$> FetchGuestByHostIDs guests ids)) as Hnd.
  { eapply sublist_NoDup; [apply Hc|]. apply fmap_sublist, sublist_filter. }
  destruct (device_guests_spec b used_devices) with (ids := @nil string) as [Hndd Hel].
  { intros k g Hk. cbn in Hk. by apply ToDict_elem in Hk as [_ ?]. }
  apply NoDup_Permutation.
  - by eapply NoDup_fmap_1.
  - apply NoDup_filter, NoDup_filter. eapply NoDup_fmap_1, Hc.
  - intros g. rewrite Hel. unfold device_holders, residents. rewrite !list_elem_of_filter. cbn. split.
    + intros (Hd & Hh & _). apply ToDict_elem in Hd as [Hg _]. apply list_elem_of_filter in Hg as [_ Hg].
      split; [done|]. split; [|done]. unfold holds in Hh. apply list_elem_of_fmap in Hh as (d & Hgd & Hd). by eapply cs_devices.
    + intros (Hh & Hhost & Hg). split; [|split; [done|apply not_elem_of_nil]]. apply ToDict_spec; [done|].
      apply list_elem_of_filter. split; [|done]. rewrite Hhost. apply Hc.
Qed.

(** ** The reserve and its use *)

Lemma used_sum (π : ReservedResource → Z) (f : SGuest → Z) : π (NewReservedResource 0 0 0) = 0 →
  (∀ r g, π (rsvd_step o r g) = if uses g then int64_wrap (π r + f g) else π r) →
  π (NewGuestReservedResourceUsedByBuilder o b host) = int64_wrap (held f).
Proof.
  intros H0 Hs. unfold NewGuestReservedResourceUsedByBuilder, held.
  rewrite (foldl_proj π _ (λ a g, if uses g then int64_wrap (a + f g) else a) _ Hs), H0, foldl_add_if by (unfold is_int64; lia).
  by rewrite builder_holders.
Qed.

(** A sum of [fillGuestsResourceInfo] over the guests of one kind. *)
Lemma guests_sum (π : guest_sums → Z) (c : SGuest → bool) (f : SGuest → Z) : π no_sums = 0 →
  (∀ s g, π (guest_step b s g) = if c g then int64_wrap (π s + f g) else π s) →
  π (foldl (guest_step b) no_sums (guests_on_host b host)) = int64_wrap (sum_of (λ g, if c g then f g else 0) on_host).
Proof.
  intros H0 Hs. rewrite (foldl_proj π _ (λ a g, if c g then int64_wrap (a + f g) else a) _ Hs), H0, foldl_add_if by (unfold is_int64; lia).
  by rewrite builder_guests.
Qed.

(** What is counted is what runs and is being created, or what is required less what is to be deleted. *)
Lemma load_parts f :
  let sum c := sum_of (λ g, if c g : bool then f g else 0) on_host in
  let running := sum IsGuestRunning in
  let creating := sum (λ g, negb (IsGuestRunning g) && IsGuestCreating g) in
  let required := sum (λ _, true) in
  let deleted := sum (λ g, negb (IsGuestRunning g) && negb (IsGuestCreating g) && IsGuestPendingDelete g) in
  load f = if IgnoreNonrunningGuests o then running + creating
           else if IgnoreFakeDeletedGuests o then required - deleted else required.
Proof.
  cbv zeta. unfold load, counts. destruct (IgnoreNonrunningGuests o), (IgnoreFakeDeletedGuests o).
  1, 2: rewrite sum_of_plus; apply sum_of_ext; intros g _; destruct (IsGuestRunning g), (IsGuestCreating g); cbn; lia.
  - match goal with |- ?l = ?r - ?d => enough (l + d = r) by lia end. rewrite sum_of_plus. apply sum_of_ext.
    intros g _. destruct (negb (IsGuestRunning g) && negb (IsGuestCreating g) && IsGuestPendingDelete g); cbn; lia.
  - done.
Qed.

Lemma load_nonneg f : Forall (λ g, 0 ≤ f g) guests → 0 ≤ load f.
Proof.
  rewrite Forall_forall. intros Hg. apply sum_of_nonneg, Forall_forall. intros g Hin. case_match; [|lia]. apply Hg.
  unfold on_host, residents, FetchGuestByHostIDs in Hin. apply elem_of_app in Hin as [Hin|Hin];
    [by apply list_elem_of_filter in Hin as [_ Hin]|by apply list_elem_of_filter in Hin as [_ [_ Hin]%list_elem_of_filter]].
Qed.

Lemma held_nonneg f : Forall (λ g, 0 ≤ f g) guests → 0 ≤ held f.
Proof.
  rewrite Forall_forall. intros Hg. apply sum_of_nonneg, Forall_forall. intros g Hin. case_match; [|lia]. apply Hg.
  unfold device_holders, residents in Hin. by apply list_elem_of_filter in Hin as [_ [_ Hin]%list_elem_of_filter].
Qed.

End Host.

(** The free amount in exact arithmetic: sums that wrap around give the exact difference all the same. *)
Lemma free_amount_exact o total running creating required deleted rsvd used hostReserved load held :
  load = (if IgnoreNonrunningGuests o then running + creating
          else if IgnoreFakeDeletedGuests o then required - deleted else required) →
  - 2 ^ 60 ≤ total ≤ 2 ^ 60 → 0 ≤ hostReserved ≤ 2 ^ 60 → 0 ≤ rsvd ≤ 2 ^ 60 → 0 ≤ held ≤ 2 ^ 60 → 0 ≤ load ≤ 2 ^ 60 →
  used = int64_wrap held →
  free_amount o total (int64_wrap running) (int64_wrap creating) (int64_wrap required) (int64_wrap deleted) rsvd used hostReserved =
    total - hostReserved - load - Z.max 0 (rsvd - held).
Proof.
  intros Hl Ht Hh Hr H1 H2 ->. unfold free_amount. rewrite (int64_wrap_id held) by (unfold is_int64; lia).
  rewrite (int64_wrap_id (rsvd - held)) by (unfold is_int64; lia). set (start := if IgnoreNonrunningGuests o then _ else _).
  assert (∃ k, start = total - load + k * 2 ^ 64) as [k Ek].
  { destruct (int64_wrap_turns running) as [k1 E1], (int64_wrap_turns creating) as [k2 E2], (int64_wrap_turns required) as [k3 E3],
      (int64_wrap_turns deleted) as [k4 E4]. subst start load. destruct (IgnoreNonrunningGuests o); [|destruct (IgnoreFakeDeletedGuests o)].
    - destruct (int64_wrap_turns (total - int64_wrap running)) as [k5 E5].
      destruct (int64_wrap_turns (int64_wrap (total - int64_wrap running) - int64_wrap creating)) as [k6 E6]. exists (k6 + k5 - k1 - k2). lia.
    - destruct (int64_wrap_turns (total - int64_wrap required)) as [k5 E5].
      destruct (int64_wrap_turns (int64_wrap (total - int64_wrap required) + int64_wrap deleted)) as [k6 E6]. exists (k6 + k5 - k3 + k4). lia.
    - destruct (int64_wrap_turns (total - int64_wrap required)) as [k5 E5]. exists (k5 - k3). lia. }
  clearbody start. rewrite (int64_wrap_id (rsvd + hostReserved)) by (unfold is_int64; lia).
  destruct (int64_wrap_turns (start + held)) as [k1 E1].
  rewrite (int64_wrap_exact (int64_wrap (start + held) - (rsvd + hostReserved)) (k1 + k) (total - load + held - rsvd - hostReserved))
    by (unfold is_int64; lia).
  destruct (Z.ltb_spec (rsvd - held) 0); [rewrite int64_wrap_id by (unfold is_int64; lia)|]; lia.
Qed.

(** The numbers of one resource are far from overflow: the amount of a guest, what the host has and keeps for itself, and
    the reserve of all its devices. *)
Record in_range (o : Options) (f : SGuest → Z) (total hostReserved perDevice : Z) (host : SHost) guests devs ids : Prop := {
  ir_guests : Forall (λ g, 0 ≤ f g) guests;
  ir_load : load o guests ids host f ≤ 2 ^ 60;
  ir_held : held o guests devs host f ≤ 2 ^ 60;
  ir_total : - 2 ^ 60 ≤ total ≤ 2 ^ 60;
  ir_host : 0 ≤ hostReserved ≤ 2 ^ 60;
  ir_devices : 0 ≤ Z.of_nat (length (host_devices devs host)) * perDevice ≤ 2 ^ 60 }.

(** What a request with devices may use. *)
Lemma free_with_reserve free rsvd used total hostReserved load held : used = int64_wrap held →
  - 2 ^ 60 ≤ total ≤ 2 ^ 60 → 0 ≤ hostReserved ≤ 2 ^ 60 → 0 ≤ rsvd ≤ 2 ^ 60 → 0 ≤ held ≤ 2 ^ 60 → 0 ≤ load ≤ 2 ^ 60 →
  free = total - hostReserved - load - Z.max 0 (rsvd - held) →
  reservedResourceAddCal free (int64_wrap (rsvd - used)) true = total - hostReserved - load - Z.max 0 (held - rsvd).
Proof.
  intros -> Ht Hh Hr H1 H2 ->. unfold reservedResourceAddCal, reservedResourceCal.
  rewrite (int64_wrap_id held) by (unfold is_int64; lia). rewrite (int64_wrap_id (rsvd - held)) by (unfold is_int64; lia).
  rewrite int64_wrap_id by (unfold is_int64; lia). lia.
Qed.

Lemma reserve_amount o b host (π : ReservedResource → Z) per : 
  (∀ n, π (NewReservedResource (int64_wrap (n * CpuReservedPerIsolatedDevice o)) (int64_wrap (n * MemoryReservedPerIsolatedDevice o))
     (int64_wrap (n * StorageReservedPerIsolatedDevice o))) = int64_wrap (n * per)) → π (NewReservedResource 0 0 0) = 0 →
  0 ≤ Z.of_nat (length (getIsolatedDevices b (HostId host))) * per ≤ 2 ^ 60 →
  π (NewGuestReservedResourceByBuilder o b host) = Z.of_nat (length (getIsolatedDevices b (HostId host))) * per.
Proof.
  intros Hp H0 Hr. unfold NewGuestReservedResourceByBuilder.
  destruct (Z.eqb_spec (Z.of_nat (length (getIsolatedDevices b (HostId host)))) 0) as [E|_]; [by rewrite E|].
  rewrite Hp. apply int64_wrap_id. unfold is_int64. lia.
Qed.

(** What a description gives as free, in exact arithmetic. *)
Lemma free_exact o guests devs guestMeta hostMeta ids host :
  consistent guests devs ids host →
  in_range o VcpuCount (overcommit (CpuCount host) (GetCPUOvercommitBound o host)) (CpuReserved host) (CpuReservedPerIsolatedDevice o) host guests devs ids →
  in_range o VmemSize (overcommit (MemSize host) (GetMemoryOvercommitBound o host)) (MemReserved host) (MemoryReservedPerIsolatedDevice o) host guests devs ids →
  let desc := buildOne o (new_builder guests devs guestMeta hostMeta ids) host in
  let load := load o guests ids host in
  let held := held o guests devs host in
  let reserve per := Z.of_nat (length (host_devices devs host)) * per in
  GetFreeCPUCount desc false =
    TotalCPUCount desc - CpuReserved host - load VcpuCount - Z.max 0 (reserve (CpuReservedPerIsolatedDevice o) - held VcpuCount) ∧
  GetFreeCPUCount desc true =
    TotalCPUCount desc - CpuReserved host - load VcpuCount - Z.max 0 (held VcpuCount - reserve (CpuReservedPerIsolatedDevice o)) ∧
  GetFreeMemSize desc false =
    TotalMemSize desc - MemReserved host - load VmemSize - Z.max 0 (reserve (MemoryReservedPerIsolatedDevice o) - held VmemSize) ∧
  GetFreeMemSize desc true =
    TotalMemSize desc - MemReserved host - load VmemSize - Z.max 0 (held VmemSize - reserve (MemoryReservedPerIsolatedDevice o)).
Proof.
  intros Hc Rc Rm. cbv zeta. set (b := new_builder guests devs guestMeta hostMeta ids).
  pose proof (load_nonneg o guests ids host _ (ir_guests _ _ _ _ _ _ _ _ _ Rc)) as Lc. pose proof (held_nonneg o guests devs host _ (ir_guests _ _ _ _ _ _ _ _ _ Rc)) as Jc.
  pose proof (load_nonneg o guests ids host _ (ir_guests _ _ _ _ _ _ _ _ _ Rm)) as Lm. pose proof (held_nonneg o guests devs host _ (ir_guests _ _ _ _ _ _ _ _ _ Rm)) as Jm.
  destruct Rc as [_ Sc Uc Tc Kc Dc], Rm as [_ Sm Um Tm Km Dm].
  pose proof (builder_devices guests devs guestMeta hostMeta ids host Hc) as Hdev. fold b in Hdev.
  assert (∀ r g, CPUCount (rsvd_step o r g) = if uses o g then int64_wrap (CPUCount r + VcpuCount g) else CPUCount r) as Hs1
    by (intros; unfold rsvd_step, uses; by destruct (_ && _)).
  assert (∀ r g, MemorySize (rsvd_step o r g) = if uses o g then int64_wrap (MemorySize r + VmemSize g) else MemorySize r) as Hs2
    by (intros; unfold rsvd_step, uses; by destruct (_ && _)).
  pose proof (used_sum o guests devs guestMeta hostMeta ids host Hc CPUCount VcpuCount eq_refl Hs1) as U1. fold b in U1.
  pose proof (used_sum o guests devs guestMeta hostMeta ids host Hc MemorySize VmemSize eq_refl Hs2) as U2. fold b in U2.
  pose proof (λ π c f, guests_sum guests devs guestMeta hostMeta ids host Hc π c f) as Q. fold b in Q.
  pose proof (reserve_amount o b host CPUCount (CpuReservedPerIsolatedDevice o) ltac:(done) eq_refl ltac:(by rewrite Hdev)) as R1.
  pose proof (reserve_amount o b host MemorySize (MemoryReservedPerIsolatedDevice o) ltac:(done) eq_refl ltac:(by rewrite Hdev)) as R2.
  rewrite Hdev in R1, R2.
  assert (FreeCPUCount (buildOne o b host) = overcommit (CpuCount host) (GetCPUOvercommitBound o host) - CpuReserved host -
    load o guests ids host VcpuCount - Z.max 0 (Z.of_nat (length (host_devices devs host)) * CpuReservedPerIsolatedDevice o - held o guests devs host VcpuCount)) as F1.
  { cbn [buildOne FreeCPUCount]. rewrite R1, (Q cpuCount IsGuestRunning VcpuCount), (Q cpuReqCount (λ _, true) VcpuCount),
      (Q creatingCPUCount (λ g, negb (IsGuestRunning g) && IsGuestCreating g) VcpuCount),
      (Q cpuFakeDeletedCount (λ g, negb (IsGuestRunning g) && negb (IsGuestCreating g) && IsGuestPendingDelete g) VcpuCount) by done.
    apply free_amount_exact; [apply load_parts|done..]. }
  assert (FreeMemSize (buildOne o b host) = overcommit (MemSize host) (GetMemoryOvercommitBound o host) - MemReserved host -
    load o guests ids host VmemSize - Z.max 0 (Z.of_nat (length (host_devices devs host)) * MemoryReservedPerIsolatedDevice o - held o guests devs host VmemSize)) as F2.
  { cbn [buildOne FreeMemSize]. rewrite R2, (Q memSize IsGuestRunning VmemSize), (Q memReqSize (λ _, true) VmemSize),
      (Q creatingMemSize (λ g, negb (IsGuestRunning g) && IsGuestCreating g) VmemSize),
      (Q memFakeDeletedSize (λ g, negb (IsGuestRunning g) && negb (IsGuestCreating g) && IsGuestPendingDelete g) VmemSize) by done.
    apply free_amount_exact; [apply load_parts|done..]. }
  split_and!; [exact F1| |exact F2|]; unfold GetFreeCPUCount, GetFreeMemSize, GuestReservedCPUCountFree, GuestReservedMemSizeFree;
    cbn [buildOne GuestReservedResource GuestReservedResourceUsed].
  - rewrite R1. by eapply free_with_reserve.
  - rewrite R2. by eapply free_with_reserve.
Qed.


(** A host of 32 CPUs with one device: its guest takes 12 CPUs, 4 more than the reserve of 8; another takes 4. *)
Definition gpu : IsolatedDevice := MkDevice "dev" "g" "h" "GPU-HPC" "P40" "10de:1b38".
Definition gpu_guest : SGuest := MkGuest "g" "h" "" "running" 12 4096 false [] "kvm".
Definition plain_guest : SGuest := MkGuest "k" "h" "" "running" 4 4096 false [] "kvm".
Definition gpu_options : Options :=
  MkOptions false false 8 8192 102400 (f32_of_int 1) (f32_of_int 1) (f32_of_int 1).
Definition gpu_host : SHost :=
  MkHost "h" "h" 32 65536 0 0 (f32_of_int 1) (f32_of_int 1) "running" "online" true "hypervisor" "shared"
    (Some (MkZone "z" "z" "enable")) (Some "region") None [] [] [] ∅.

(** The options of the service as they are by default, which count the guests that run or are being created. *)
Definition default_options : Options := MkOptions true false 8 8192 102400 (f32_of_int 1) (f32_of_int 1) (f32_of_int 1).
Definition stopped_guest : SGuest := MkGuest "s" "h" "" "ready" 16 16384 false [] "kvm".

Lemma gpu_consistent : consistent [gpu_guest; plain_guest; stopped_guest] [gpu] ["h"] gpu_host.
Proof.
  split.
  - apply (bool_decide_unpack _). vm_compute. exact I.
  - left.
  - intros d g _ Hg _. rewrite !elem_of_cons in Hg. destruct Hg as [->|[->|[->|Hg%elem_of_nil]]]; done.
Qed.


End HostDescProofs.
