(* ===== verification/Candidates.v ===== *)
(** * Candidates of the scheduler, and what all its predicates share: scheduler/core/types.go (Candidater),
    scheduler/cache/candidate (the getters), scheduler/algorithm/predicates (predicates.go, error.go) and the table of
    instance types (scheduler/data_manager/sku) *)

From S2P Require Import Prelude Condition Schedtag SchedInfo Storages Unit HostDesc.
Import Unit.
Local Open Scope Z_scope.
Local Open Scope go_scope.

Module Candidates.

(** ** Candidates *)

Inductive Candidater := HostC (h : HostDesc.HostDesc) | BaremetalC (b : HostDesc.BaremetalDesc).

(** The row of a candidate. *)
Definition base_host (c : Candidater) : HostDesc.SHost :=
  match c with HostC h => HostDesc.Host h | BaremetalC b => HostDesc.BmHost b end.

Definition IndexKey (c : Candidater) : string := HostDesc.HostId (base_host c).
Definition CandidateName (c : Candidater) : string := HostDesc.HostName (base_host c).

(** [reviseResourceType], which [newBaseHostDesc] applies to the row. *)
Definition reviseResourceType (resType : string) : string := if String.eqb resType "" then "shared" else resType.
Definition GetResourceType (c : Candidater) : string := reviseResourceType (HostDesc.ResourceType (base_host c)).

Definition GetGuestCount (c : Candidater) : Z :=
  match c with
  | HostC h => HostDesc.GuestCount h
  | BaremetalC b => if String.eqb (HostDesc.ServerID b) "" then 0 else 1
  end.

(** [Get("HostType")]; the description of a baremetal machine has no such key. *)
Definition Get_HostType (c : Candidater) : option string :=
  match c with HostC h => Some (HostDesc.HostType (HostDesc.Host h)) | BaremetalC _ => None end.

(** ** Reasons and errors *)

(** The reasons of a refusal, by message. *)
Inductive reason :=
| InsufficientResource (name : string) (requested total free : Z)
| Mismatch (what current expected : string)
| StorageNotAccessible (storage : string)
| NoEnoughOf (backend : string) (requested free : Z)
| ErrNoEnoughStorage
| DeviceUsed (dev guest : string)
| DeviceNotFound (dev : string)
| DeviceCount (requested total free : Z)
| DeviceTypeShort (devType : string) (requested free : Z)
| DeviceModelShort (vendorModel : string) (requested free : Z)
| NetworkRefused (msg : string)
| ErrHostIsSpecifiedForMigration
| ErrNotSupportNest
| ExcludedGroup (group : string)
| RequiredGroup (group : string)
| TagRefused (e : Schedtag.tag_error)
| NoStorageFor (backend : string)
| StoragesRefused (errs : list Schedtag.tag_error)
| ErrPrepaidHostOccupied
| NoSkuAt (instanceType zone : string)
| ErrBaremetalHasAlreadyBeenOccupied.

Inductive error := NotHostDesc | NotBaremetalDesc | GroupTypeError | EmptyIndexKey | TagError (e : Schedtag.tag_error).

(** ** Instance types (data_manager/sku/sku.go) *)

Record ServerSku := MkSku { SkuId : string; SkuName : string; SkuZoneId : string }.

Definition skuMap_Add (m : gmap string (list ServerSku)) (sku : ServerSku) : gmap string (list ServerSku) :=
  <[SkuName sku := default [] (m !! SkuName sku) ++ [sku]]> m.

(** [syncOnce] with the rows that it has read. *)
Definition syncOnce (skus : list ServerSku) : gmap string (list ServerSku) := foldl skuMap_Add ∅ skus.

Definition GetByZone (m : gmap string (list ServerSku)) (instanceType zoneId : string) : option ServerSku :=
  l ← m !! instanceType; snd <$> list_find (λ s, SkuZoneId s = zoneId) l.

Lemma syncOnce_spec skus instanceType : ∀ m,
  default [] (foldl skuMap_Add m skus !! instanceType) =
  default [] (m !! instanceType) ++ filter (λ s, SkuName s = instanceType) skus.
Proof.
  induction skus as [|s skus IH]; intros m; cbn [foldl]; [by rewrite filter_nil, app_nil_r|].
  rewrite IH. unfold skuMap_Add. rewrite filter_cons. destruct (decide (SkuName s = instanceType)) as [<-|Hne].
  - rewrite lookup_insert_eq. cbn. by rewrite <- app_assoc.
  - by rewrite lookup_insert_ne.
Qed.

Lemma GetByZone_spec skus instanceType zone :
  is_Some (GetByZone (syncOnce skus) instanceType zone) ↔
  ∃ s, s ∈ skus ∧ SkuName s = instanceType ∧ SkuZoneId s = zone.
Proof.
  unfold GetByZone, syncOnce. pose proof (syncOnce_spec skus instanceType ∅) as Hs. rewrite lookup_empty in Hs. cbn [default] in Hs.
  destruct (foldl skuMap_Add ∅ skus !! instanceType) as [l|]; cbn in *.
  - subst l. destruct (list_find _ _) as [[i s]|] eqn:E; cbn.
    + split; [|by eexists]. intros _. apply list_find_Some in E as (Hi & Hz & _).
      apply list_elem_of_lookup_2, list_elem_of_filter in Hi as [Hn Hin]. by exists s.
    + split; [by intros []|]. intros (s & Hin & Hn & Hz). apply list_find_None in E. rewrite Forall_forall in E.
      by destruct (E s); [by apply list_elem_of_filter|].
  - split; [by intros []|]. intros (s & Hin & Hn & _). exfalso.
    apply (not_elem_of_nil s). rewrite Hs. by apply list_elem_of_filter.
Qed.

(** ** What the predicates read besides the unit and the candidate *)

Record Env := MkEnv {
  (** the default overcommit bound of storages, and the names of wires *)
  bound : Storages.float32;
  wire_name : string → option string;
  (** the order in which Go ranges over a map *)
  range : ∀ A, gmap string A → list (string * A);
  range_nat : ∀ A, gmap nat A → list (nat * A);
  (** the parser of conditions, the tables of tags and of dynamic tags, and [GetAllSchedtags] *)
  ParseExpr : string → option Condition.expr;
  tag_table : list Schedtag.SSchedtag;
  rule_table : list Schedtag.SDynamicschedtag;
  GetAllSchedtags : string → outcome Schedtag.tag_error (list Schedtag.SSchedtag);
  (** the JSON of hosts, requests, storages and disks *)
  host_JSON : Candidater → Condition.value;
  request_JSON : SchedInfo.SchedInfo → Condition.value;
  storage_JSON : Storages.SStorage → Condition.value;
  disk_JSON : SchedInfo.DiskConfig → Condition.value;
  (** the instance types, the option of the baremetal predicates, and [GetSplitSizes] of baremetal disks *)
  skus : gmap string (list ServerSku);
  DisableBaremetalPredicates : bool;
  GetSplitSizes : Z → string → list Z }.

(** ** Results *)

Section Results.
Context {P : Type}.
Abbreviation U := (Unit P reason).

Definition GetResult (h : PredicateHelper P reason) : outcome error (bool * list reason * U) :=
  Ret (getResult h, HelperUnit h).

(** [ToHostCandidate] and [ToBaremetalCandidate]. *)
Definition HostCandidate (c : Candidater) : outcome error HostDesc.HostDesc :=
  match c with HostC h => Ret h | BaremetalC _ => Fail NotHostDesc end.
Definition BaremetalCandidate (c : Candidater) : outcome error HostDesc.BaremetalDesc :=
  match c with BaremetalC b => Ret b | HostC _ => Fail NotBaremetalDesc end.
End Results.

End Candidates.
