(* ===== verification/CommonPredicates.v ===== *)
(** * Predicates that guests and baremetal machines share: scheduler/algorithm/predicates (aggregate_predicate.go,
    disk_schedtag_predicate.go, resource_type_predicate.go, sku_predicate.go)

    The tags of hosts; the storages of a candidate that fit the disks of a request and pass their tags, one of which is
    picked when the candidate has been selected; the type of the host; the instance types of public clouds. *)

From S2P Require Import Prelude Condition Score Schedtag SchedInfo Storages Unit HostDesc Candidates.
Import Schedtag Unit Candidates.
Local Open Scope Z_scope.
Local Open Scope go_scope.

Module CommonPredicates.

Section Predicates.
Context (env : Env) {P : Type}.
Abbreviation U := (Unit P reason).
Abbreviation helper := (PredicateHelper P reason).
Abbreviation result := (outcome error (bool * list reason * U)).

(** ** The tags of hosts *)

Definition aggregate_Name : string := "host_aggregate".

(** It runs only when the request does not name its candidates; [None] when it does not run. *)
Definition aggregate_PreExecute (u : U) : outcome error (option SchedtagPredicate) :=
  if negb (ShouldExecuteSchedtagFilter u) then Ret None
  else match GetAllSchedtags env "hosts" with
       | Ret allAggs => Ret (Some (NewSchedtagPredicate (SchedInfo.Schedtags (SchedData u)) allAggs))
       | Fail e => Fail (TagError e)
       | Panic => Panic
       | OutOfFuel => OutOfFuel
       end.

(** A candidate as the checker of tags sees it. *)
Definition schedtagCandidateW (d : SchedInfo.SchedInfo) (c : Candidater) : Schedtag.candidate :=
  Candidate "hosts" (HostDesc.HostSchedtags (base_host c))
    (Some (Condition.JDict [("host", host_JSON env c); ("server", request_JSON env d)])).

Definition aggregate_Execute (p : SchedtagPredicate) (u : U) (c : Candidater) : result :=
  let h := NewPredicateHelper aggregate_Name u (IndexKey c) in
  match Check (ParseExpr env) (tag_table env) (rule_table env) p (schedtagCandidateW (SchedData u) c) with
  | Ret _ => GetResult h
  | Fail e => GetResult (Exclude h (TagRefused e))
  | Panic => Panic
  | OutOfFuel => OutOfFuel
  end.

(** The scores: tags are counted under their identifier, name and strategy. *)
Definition GetSchedtagCount (inTags : list SchedtagConfig) (objTags : list SSchedtag) (strategy : string)
  : gmap string Z :=
  foldl (λ m objTag,
    if existsb (λ tag, names (Id tag) objTag) inTags then
      let key := TagId objTag +:+ ":" +:+ TagName objTag +:+ ":" +:+ strategy in
      <[key := default 0 (m !! key) + 1]> m
    else m) ∅ objTags.

Definition PriorityStep : Z := 1.

Definition SetCandidateScoreBySchedtag (u : U) (c : Candidater) (aggCountMap : gmap string Z) (postiveScore : bool) : U :=
  let stepScore := if postiveScore then PriorityStep else - PriorityStep in
  foldl (λ u p, SetFrontScore u (IndexKey c) (Score.NewScore (p.2 * stepScore) p.1)) u (range env Z aggCountMap).

(** What both plugins do with the tags that are preferred and avoided. *)
Definition set_tag_scores (u : U) (c : Candidater) (prefer avoid : list SchedtagConfig) (objTags : list SSchedtag) : U :=
  let avoidCountMap := GetSchedtagCount avoid objTags STRATEGY_AVOID in
  let preferCountMap := GetSchedtagCount prefer objTags STRATEGY_PREFER in
  SetCandidateScoreBySchedtag (SetCandidateScoreBySchedtag u c preferCountMap true) c avoidCountMap false.

Definition aggregate_OnPriorityEnd (p : SchedtagPredicate) (u : U) (c : Candidater) : U :=
  set_tag_scores u c (preferTags p) (avoidTags p) (HostDesc.HostSchedtags (base_host c)).

(** ** The storages of disks *)

Definition disk_Name : string := "disk_schedtag".

(** The hypervisor of a type of host. *)
Definition HOSTTYPE_HYPERVISOR (hostType : string) : string :=
  if String.eqb hostType "hypervisor" then "kvm"
  else if String.eqb hostType "kubelet" then "container"
  else if bool_decide (hostType ∈ ["baremetal"; "esxi"; "aliyun"; "azure"; "aws"; "qcloud"; "huawei"; "openstack"; "ucloud"])
  then hostType else "".

(** [GetStorageTypes] of the driver of a hypervisor; the process ends when there is no driver. *)
Definition GetStorageTypes (hypervisor : string) : option (list string) :=
  if bool_decide (hypervisor ∈ ["kvm"; "esxi"; "container"; "ucloud"]) then Some []
  else if String.eqb hypervisor "aliyun" then Some ["cloud_efficiency"; "cloud_ssd"; "cloud_essd"; "cloud"; "ephemeral_ssd"]
  else if String.eqb hypervisor "aws" then Some ["gp2"; "io1"; "st1"; "sc1"; "standard"]
  else if String.eqb hypervisor "azure" then Some ["standard_lrs"; "standardssd_lrs"; "premium_lrs"]
  else if String.eqb hypervisor "baremetal" then Some ["baremetal"]
  else if String.eqb hypervisor "huawei" then Some ["SATA"; "SAS"; "SSD"]
  else if String.eqb hypervisor "openstack" then Some ["iscsi"]
  else if String.eqb hypervisor "qcloud" then Some ["cloud_basic"; "cloud_premium"; "cloud_ssd"; "local_basic"; "local_ssd"]
  else None.

Definition isStorageFitDisk (hypervisor : string) (storage : Storages.SStorage) (d : SchedInfo.DiskConfig)
  : outcome error bool :=
  if negb (String.eqb (SchedInfo.DiskStorage d) "") then
    Ret (String.eqb (Storages.StorageId storage) (SchedInfo.DiskStorage d) ||
         String.eqb (Storages.StorageName storage) (SchedInfo.DiskStorage d))
  else if String.eqb (Storages.StorageType storage) (SchedInfo.Backend d) then Ret true
  else
    let! types := of_opt (GetStorageTypes hypervisor) in
    Ret (existsb (String.eqb (Storages.StorageType storage)) types).

Fixpoint fit_storages (hypervisor : string) (d : SchedInfo.DiskConfig) (storages : list Storages.SStorage)
  : outcome error (list Storages.SStorage) :=
  match storages with
  | [] => Ret []
  | s :: storages =>
    let! fit := isStorageFitDisk hypervisor s d in
    let! rest := fit_storages hypervisor d storages in
    Ret (if fit : bool then s :: rest else rest)
  end.

Definition schedtagStorageW (s : Storages.SStorage) (d : SchedInfo.DiskConfig) : Schedtag.candidate :=
  Candidate "storages" (Storages.StorageTags s)
    (Some (Condition.JDict [("storage", storage_JSON env s); ("disk", disk_JSON env d)])).

Definition check (shouldExec : bool) (d : SchedInfo.DiskConfig) (s : Storages.SStorage)
  : outcome tag_error Storages.PredicatedStorage :=
  let! allTags := GetAllSchedtags env "storages" in
  let tagPredicate := NewSchedtagPredicate (SchedInfo.DiskSchedtags d) allTags in
  if shouldExec then
    let! _ := Check (ParseExpr env) (tag_table env) (rule_table env) tagPredicate (schedtagStorageW s d) in
    Ret (Storages.Predicated s (preferTags tagPredicate) (avoidTags tagPredicate))
  else Ret (Storages.Predicated s [] []).

(** The storages that pass and the errors of the others. *)
Fixpoint checkStorages (shouldExec : bool) (d : SchedInfo.DiskConfig) (storages : list Storages.SStorage)
  : outcome error (list Storages.PredicatedStorage * list tag_error) :=
  match storages with
  | [] => Ret ([], [])
  | s :: storages =>
    match check shouldExec d s with
    | Ret ps => let! (ret, errs) := checkStorages shouldExec d storages in Ret (ps :: ret, errs)
    | Fail e => let! (ret, errs) := checkStorages shouldExec d storages in Ret (ret, e :: errs)
    | Panic => Panic
    | OutOfFuel => OutOfFuel
    end
  end.

Definition disk_PreExecute (u : U) : bool := negb (bool_decide (length (SchedInfo.Disks (SchedData u)) = 0%nat)).

(** The loop of [Execute] from disk [idx] on. *)
Fixpoint disk_loop (hypervisor : string) (shouldExec : bool) (storages : list Storages.SStorage) (idx : nat)
    (disks : list SchedInfo.DiskConfig) (ds : Storages.DiskStoragesMap) (h : helper)
  : outcome error (Storages.DiskStoragesMap * helper) :=
  match disks with
  | [] => Ret (ds, h)
  | d :: disks =>
    let! fitStorages := fit_storages hypervisor d storages in
    match fitStorages with
    | [] => Ret (ds, Exclude h (NoStorageFor (SchedInfo.Backend d)))
    | _ =>
      let! (matched, errs) := checkStorages shouldExec d fitStorages in
      let h := match matched with [] => Exclude h (StoragesRefused errs) | _ => h end in
      disk_loop hypervisor shouldExec storages (S idx) disks (<[idx := matched]> ds) h
    end
  end.

Definition GetDiskStoragesMap (u : U) (id : string) : Storages.DiskStoragesMap * U :=
  match CandidateDiskStoragesMap u !! id with
  | Some ds => (ds, u)
  | None => (∅, with_disk_storages (<[id := ∅]> (CandidateDiskStoragesMap u)) u)
  end.

Definition disk_Execute (u : U) (c : Candidater) : result :=
  let (ds, u) := GetDiskStoragesMap u (IndexKey c) in
  let h := NewPredicateHelper disk_Name u (IndexKey c) in
  let d := SchedData u in
  let! (ds, h) :=
    disk_loop (HOSTTYPE_HYPERVISOR (SchedInfo.Hypervisor d)) (ShouldExecuteSchedtagFilter u)
      (HostDesc.Storages (base_host c)) 0 (SchedInfo.Disks d) ds h in
  let u := HelperUnit h in
  Ret (getResult h, with_disk_storages (<[IndexKey c := ds]> (CandidateDiskStoragesMap u)) u).

(** [getAllTags] of both kinds. *)
Definition disk_OnPriorityEnd (u : U) (c : Candidater) : U :=
  let storageTags := HostDesc.Storages (base_host c) ≫= Storages.StorageTags in
  let (ds, u) := GetDiskStoragesMap u (IndexKey c) in
  let noted := (range_nat env _ ds).*2 ≫= λ l, l in
  set_tag_scores u c (noted ≫= Storages.PreferTags) (noted ≫= Storages.AvoidTags) storageTags.

(** The identifier of a missing storage is read from a nil pointer. *)
Definition allocatedDiskResource (d : SchedInfo.DiskConfig) (storages : list Storages.PredicatedStorage)
  : outcome Empty_set CandidateDisk :=
  let! storage := of_opt (Storages.selectStorage (bound env) d storages) in
  Ret (MkCandidateDisk (SchedInfo.Index d) (Storages.StorageId storage)).

(** The loop of [OnSelectEnd] over the map: positions of the result that are not reached stay empty. *)
Fixpoint allocate_loop (disks : list SchedInfo.DiskConfig) (l : list (nat * list Storages.PredicatedStorage))
    (res : list (option CandidateDisk)) : outcome Empty_set (list (option CandidateDisk)) :=
  match l with
  | [] => Ret res
  | (idx, ds) :: l =>
    let! d := of_opt (disks !! idx) in
    let! disk := allocatedDiskResource d ds in
    if (idx <? length res)%nat then allocate_loop disks l (<[idx := Some disk]> res) else Panic
  end.

Definition disk_OnSelectEnd (u : U) (c : Candidater) : outcome Empty_set U :=
  let u := (GetAllocatedResource u (IndexKey c)).2 in
  let (diskStorages, u) := GetDiskStoragesMap u (IndexKey c) in
  let! disks :=
    allocate_loop (SchedInfo.Disks (SchedData u)) (range_nat env _ diskStorages) (replicate (size diskStorages) None) in
  Ret (with_allocated (<[IndexKey c := disks]> (AllocatedResources u)) u).

(** ** The type of the host *)

Definition resource_type_Name : string := "resource_type".

Definition resource_type_PreExecute (u : U) : bool := negb (String.eqb (SchedInfo.ResourceType (SchedData u)) "").

Definition resource_type_Execute (u : U) (c : Candidater) : result :=
  let h := NewPredicateHelper resource_type_Name u (IndexKey c) in
  let hostResType := GetResourceType c in
  let reqResType := SchedInfo.ResourceType (SchedData u) in
  let h := if negb (String.eqb hostResType reqResType)
           then Exclude h (Mismatch "resource_type" hostResType reqResType) else h in
  GetResult
    (if String.eqb hostResType "prepaid"
     then if GetGuestCount c =? 0 then HelperSetCapacity h 1 else Exclude h ErrPrepaidHostOccupied
     else h).

(** ** Instance types *)

Definition instance_type_Name : string := "instance_type".

Definition instance_type_PreExecute (u : U) : bool :=
  negb (String.eqb (SchedInfo.InstanceType (SchedData u)) "" || negb (SchedInfo.IsPublicCloudProvider (SchedData u))).

Definition instance_type_Execute (u : U) (c : Candidater) : result :=
  let h := NewPredicateHelper instance_type_Name u (IndexKey c) in
  let! zone := of_opt (HostDesc.Zone (base_host c)) in
  let instanceType := SchedInfo.InstanceType (SchedData u) in
  GetResult
    (match GetByZone (skus env) instanceType (HostDesc.ZoneId zone) with
     | None => Exclude h (NoSkuAt instanceType (HostDesc.ZoneName zone))
     | Some _ => h
     end).

End Predicates.

End CommonPredicates.
