(* ===== verification/GuestPredicates.v ===== *)
(** * The predicates of guests: scheduler/algorithm/predicates/guest

    Each predicate reads the request of the unit and the description of a candidate, records in the unit how
    many guests of the request the candidate can take, and accepts or refuses it.  The network predicate also
    notes the networks it used in a map of its own, which nothing reads; that map is left out. *)

From stdpp Require Import pretty.
From S2P Require Import Prelude Netutils Networks SchedInfo Score Schedtag Storages Unit HostDesc Candidates.
Import Unit Candidates.
Local Open Scope Z_scope.
Local Open Scope go_scope.

Module GuestPredicates.

(** ** Groups *)

(** The dynamic value of [Get("Groups")]: a nil interface, a pointer to [GroupCounts] (which may be nil), or the
    sum that the reserved pools compute. *)
Inductive groups_value := NilInterface | GroupCountsPtr | AlgorithmResult (groups : list (gmap string Z)).

Definition Get_Groups (c : Candidater) : groups_value :=
  match c with HostC _ => GroupCountsPtr | BaremetalC _ => NilInterface end.

(** [None] is the nil pointer. *)
Definition GetGroupCounts (value : groups_value) : outcome error (option (list (gmap string Z))) :=
  match value with
  | NilInterface => Ret None
  | AlgorithmResult r => Ret (Some r)
  | GroupCountsPtr => Fail GroupTypeError
  end.

Definition ExistsGroup (r : option (list (gmap string Z))) (groupId : string) : outcome error bool :=
  let! groups := of_opt r in
  Ret (existsb (λ counts : gmap string Z, match counts !! groupId with Some n => 0 <? n | None => false end) groups).

Record GroupPredicate := MkGroup {
  ExcludeGroups : list string; RequireGroups : list string; AvoidGroups : list string; PreferGroups : list string }.

Section Predicates.

Context (env : Env) {P : Type}.
Abbreviation U := (Unit P reason).
Abbreviation helper := (PredicateHelper P reason).
(** What [Execute] returns, with the unit it leaves. *)
Abbreviation result := (outcome error (bool * list reason * U)).

(** ** CPU and memory *)

(** Both predicates compare what is free with what is asked for. *)
Definition amount_Execute (name : string) (u : U) (c : Candidater) (free total req : Z) : result :=
  let h := NewPredicateHelper name u (IndexKey c) in
  let h := if free <? req then AppendPredicateFail h (InsufficientResource (CandidateName c) req total free) else h in
  GetResult (HelperSetCapacity h (Z.quot free req)).

Definition cpu_PreExecute (u : U) : bool :=
  if SchedInfo.IsPublicCloudProvider (SchedData u) then false
  else if SchedInfo.Ncpu (SchedData u) <=? 0 then false else true.

Definition cpu_Name : string := "host_cpu".
Definition cpu_Execute (u : U) (c : Candidater) : result :=
  let! hc := HostCandidate c in
  let useRsvd := UseReserved u in
  amount_Execute cpu_Name u c (HostDesc.GetFreeCPUCount hc useRsvd) (HostDesc.GetTotalCPUCount hc useRsvd)
    (SchedInfo.Ncpu (SchedData u)).

Definition memory_PreExecute (u : U) : bool :=
  if SchedInfo.IsPublicCloudProvider (SchedData u) then false
  else if SchedInfo.Memory (SchedData u) <=? 0 then false else true.

Definition memory_Name : string := "host_memory".
Definition memory_Execute (u : U) (c : Candidater) : result :=
  let! hc := HostCandidate c in
  let useRsvd := UseReserved u in
  amount_Execute memory_Name u c (HostDesc.GetFreeMemSize hc useRsvd) (HostDesc.GetTotalMemSize hc useRsvd)
    (SchedInfo.Memory (SchedData u)).

(** ** Storage *)

Definition isMigrate (d : SchedInfo.SchedInfo) : bool := negb (String.eqb (SchedInfo.HostId d) "").

Definition isStorageAccessible (hc : HostDesc.HostDesc) (storage : string) : bool :=
  existsb (λ s, String.eqb storage (Storages.StorageId s) || String.eqb storage (Storages.StorageName s))
    (HostDesc.Storages (HostDesc.Host hc)).

(** [sizeRequest]: the largest and the total size by backend; [storeRequest]: the storages that a migration keeps. *)
Definition request_step (d : SchedInfo.SchedInfo) (p : gmap string (Z * Z) * gmap string Z) (disk : SchedInfo.DiskConfig)
  : gmap string (Z * Z) * gmap string Z :=
  let (sizeRequest, storeRequest) := p in
  if isMigrate d && negb (Storages.IsLocalStorage (SchedInfo.Backend disk))
  then (sizeRequest, <[SchedInfo.DiskStorage disk := 1]> storeRequest)
  else
    let (max, total) := default (-1, 0) (sizeRequest !! SchedInfo.Backend disk) in
    (<[SchedInfo.Backend disk :=
       (if max <? SchedInfo.SizeMb disk then SchedInfo.SizeMb disk else max,
        int64_wrap (total + SchedInfo.SizeMb disk))]> sizeRequest, storeRequest).

Definition storage_requests (d : SchedInfo.SchedInfo) : gmap string (Z * Z) * gmap string Z :=
  foldl (request_step d) (∅, ∅) (SchedInfo.Disks d).

(** [getStorageCapacity]; the largest size is passed and not used. *)
Definition getStorageCapacity (hc : HostDesc.HostDesc) (useRsvd : bool) (backend : string) (reqTotalSize : Z) : Z * Z :=
  let totalFree := HostDesc.GetFreeStorageSizeOfType (bound env) hc backend useRsvd in
  (Z.quot totalFree (Z.max reqTotalSize 1), totalFree).

(** The loop over the size requests. *)
Fixpoint size_loop (hc : HostDesc.HostDesc) (useRsvd : bool) (reqs : list (string * (Z * Z))) (minCapacity : Z) (h : helper)
  : Z * helper :=
  match reqs with
  | [] => (minCapacity, h)
  | (be, (_, total)) :: reqs =>
    let (capacity, totalFree) := getStorageCapacity hc useRsvd be total in
    let h := if capacity =? 0 then AppendPredicateFail h (NoEnoughOf be total totalFree) else h in
    size_loop hc useRsvd reqs (Z.min minCapacity capacity) h
  end.

Definition storage_PreExecute (u : U) : bool := negb (SchedInfo.IsPublicCloudProvider (SchedData u)).

Definition storage_Name : string := "host_storage".
Definition storage_Execute (u : U) (c : Candidater) : result :=
  let h := NewPredicateHelper storage_Name u (IndexKey c) in
  let! hc := HostCandidate c in
  let (sizeRequest, storeRequest) := storage_requests (SchedData u) in
  match list_find (λ s : string * Z, isStorageAccessible hc s.1 = false) (range env _ storeRequest) with
  | Some (_, (store, _)) => GetResult (Exclude h (StorageNotAccessible store))
  | None =>
    let (minCapacity, h) := size_loop hc (UseReserved u) (range env _ sizeRequest) 0xFFFFFFFF h in
    let h := HelperSetCapacity h minCapacity in
    GetResult (if minCapacity <=? 0 then AppendPredicateFail h ErrNoEnoughStorage else h)
  end.

(** ** Isolated devices *)

Definition isolated_device_PreExecute (u : U) : bool :=
  negb (bool_decide (SchedInfo.IsolatedDevices (SchedData u) = [])).

(** The devices asked for by identifier; the reason of the first that is missing or in use. *)
Fixpoint check_ids (hc : HostDesc.HostDesc) (devs : list SchedInfo.IsolatedDeviceConfig) (minCapacity : Z) : reason + Z :=
  match devs with
  | [] => inr minCapacity
  | dev :: devs =>
    if String.eqb (SchedInfo.DevId dev) "" then check_ids hc devs minCapacity
    else match HostDesc.GetIsolatedDevice hc (SchedInfo.DevId dev) with
         | Some fDev => if negb (String.eqb (HostDesc.DevGuestID fDev) "")
                        then inl (DeviceUsed (SchedInfo.DevId dev) (HostDesc.DevGuestID fDev))
                        else check_ids hc devs 1
         | None => inl (DeviceNotFound (SchedInfo.DevId dev))
         end
  end.

Definition count_keys (keys : list string) : gmap string nat :=
  foldl (λ m k, <[k := S (default 0%nat (m !! k))]> m) ∅ keys.

(** The loop over the requests by type, and by vendor and model. *)
Fixpoint device_loop (free : string → nat) (short : string → Z → Z → reason) (reqs : list (string * nat))
    (minCapacity : Z) : reason + Z :=
  match reqs with
  | [] => inr minCapacity
  | (key, reqCount) :: reqs =>
    let freeCount := free key in
    if (freeCount <? reqCount)%nat then inl (short key (Z.of_nat reqCount) (Z.of_nat freeCount))
    else
      let cap := Z.of_nat freeCount `quot` Z.of_nat reqCount in
      device_loop free short reqs (if cap <? minCapacity then cap else minCapacity)
  end.

Definition type_requests (devs : list SchedInfo.IsolatedDeviceConfig) : gmap string nat :=
  count_keys (filter (λ t, t ≠ "") (SchedInfo.DevType <$> devs)).
Definition model_requests (devs : list SchedInfo.IsolatedDeviceConfig) : gmap string nat :=
  count_keys ((λ d, SchedInfo.Vendor d +:+ ":" +:+ SchedInfo.Model d) <$> filter (λ d, SchedInfo.Model d ≠ "") devs).

Definition isolated_device_Name : string := "host_isolated_device".
Definition isolated_device_Execute (u : U) (c : Candidater) : result :=
  let h := NewPredicateHelper isolated_device_Name u (IndexKey c) in
  let reqIsoDevs := SchedInfo.IsolatedDevices (SchedData u) in
  let! hc := HostCandidate c in
  match check_ids hc reqIsoDevs 0xFFFFFFFF with
  | inl r => GetResult (Exclude h r)
  | inr minCapacity =>
    let reqCount := length reqIsoDevs in
    let freeCount := length (HostDesc.UnusedIsolatedDevices hc) in
    let totalCount := length (HostDesc.IsolatedDevices hc) in
    if (freeCount <? reqCount)%nat then
      let h := AppendPredicateFail h
        (InsufficientResource (CandidateName c) (Z.of_nat reqCount) (Z.of_nat totalCount) (Z.of_nat freeCount)) in
      GetResult (Exclude h (DeviceCount (Z.of_nat reqCount) (Z.of_nat totalCount) (Z.of_nat freeCount)))
    else
      match device_loop (λ t, length (HostDesc.UnusedIsolatedDevicesByType hc t)) DeviceTypeShort
              (range env _ (type_requests reqIsoDevs)) minCapacity with
      | inl r => GetResult (Exclude h r)
      | inr minCapacity =>
        match device_loop (λ m, length (HostDesc.UnusedIsolatedDevicesByVendorModel hc m)) DeviceModelShort
                (range env _ (model_requests reqIsoDevs)) minCapacity with
        | inl r => GetResult (Exclude h r)
        | inr minCapacity => GetResult (HelperSetCapacity h minCapacity)
        end
      end
  end.

(** ** Networks *)

(** [netutils.IsExitAddress] and its prefixes. *)
Definition in_prefix (prefix : string) (len addr : Z) : bool :=
  Netutils.Contains (Netutils.ToIPRange (Netutils.MkPrefix (Netutils.addr_of prefix) len)) addr.
Definition IsPrivate (addr : Z) : bool :=
  in_prefix "10.0.0.0" 8 addr || in_prefix "172.16.0.0" 12 addr || in_prefix "192.168.0.0" 16 addr.
Definition IsExitAddress (addr : Z) : bool :=
  negb (IsPrivate addr) && negb (in_prefix "127.0.0.0" 8 addr) && negb (in_prefix "169.254.0.0" 16 addr) &&
  negb (in_prefix "224.0.0.0" 4 addr).
Definition IsExitNetwork (n : Networks.SNetwork) : bool := IsExitAddress (Netutils.addr_of (Networks.GuestIpStart n)).

Definition isMatchServerType (n : Networks.SNetwork) : bool :=
  bool_decide (Networks.ServerType n ∈ ["guest"; ""; "container"]).

Definition counterOfNetwork (u : U) (n : Networks.SNetwork) (r : Z) : Counter * U :=
  let (counter, u) := GetOrCreate u ("net:" +:+ Networks.Id n) (NormalCounter (int64_wrap (Networks.GetPorts n - r))) in
  (counter, SharedResources_Add u (Networks.Id n) counter).

(** The test of the wire of a network; the name of a wire that is not in the database is read from a nil pointer. *)
Definition wire_mismatch (wire : string) (n : Networks.SNetwork) : outcome error bool :=
  if String.eqb wire "" then Ret false
  else if String.prefix (Networks.WireId n) wire then Ret false
  else let! name := of_opt (wire_name env (Networks.WireId n)) in Ret (negb (String.prefix name wire)).

(** The messages of the tests of a random network, in the order of the code. *)
Definition random_errors (d : SchedInfo.SchedInfo) (private exit : bool) (wire : string) (n : Networks.SNetwork)
  : outcome error (list string) :=
  let! mismatch := wire_mismatch wire n in
  Ret ((if isMatchServerType n then [] else ["server type is not match"]) ++
       (if Bool.eqb (IsExitNetwork n) exit then [] else ["exit is not match"]) ++
       (if (0 <? Networks.GetPorts n) || isMigrate d then [] else ["no ports"]) ++
       (if mismatch : bool then ["wire is not match"] else []) ++
       (if (negb private && Networks.IsPublic n) ||
           (private && negb (Networks.IsPublic n) && String.eqb (Networks.ProjectId n) (SchedInfo.Project d))
        then [] else ["not owner"])).

Fixpoint random_loop (d : SchedInfo.SchedInfo) (private exit : bool) (wire : string) (nets : list Networks.SNetwork)
    (u : U) (counters : Counter) (fullErrMsgs : list string) (found : bool)
  : outcome error (U * Counter * list string * bool) :=
  match nets with
  | [] => Ret (u, counters, fullErrMsgs, found)
  | n :: nets =>
    let! errMsgs := random_errors d private exit wire n in
    match errMsgs with
    | [] => let (counter, u) := counterOfNetwork u n 0 in
            random_loop d private exit wire nets u (Counters_Add counters counter) fullErrMsgs true
    | _ => random_loop d private exit wire nets u counters
             (fullErrMsgs ++ [Networks.Id n +:+ ": " +:+ join "," errMsgs]) found
    end
  end.

(** The message is empty when a network was found, and when the host has none at all. *)
Definition isRandomNetworkAvailable (hc : HostDesc.HostDesc) (d : SchedInfo.SchedInfo) (private exit : bool) (wire : string)
    (u : U) (counters : Counter) : outcome error (string * U * Counter) :=
  let! (u, counters, fullErrMsgs, found) :=
    random_loop d private exit wire (HostDesc.HostNetworks (HostDesc.Host hc)) u counters [] false in
  Ret (if found : bool then "" else join "; " fullErrMsgs, u, counters).

(** The loop over the networks of the host for a network that is named. *)
Fixpoint named_loop (d : SchedInfo.SchedInfo) (network : string) (nets : list Networks.SNetwork) (u : U) (counters : Counter)
    (errMsgs : list string) : string * U * Counter :=
  match nets with
  | [] => (match errMsgs with [] => "unknown error" | _ => join "; " errMsgs end, u, counters)
  | net :: nets =>
    let label := Networks.Name net +:+ "(" +:+ Networks.Id net +:+ ")" in
    if negb (String.eqb network (Networks.Id net) || String.eqb network (Networks.Name net))
    then named_loop d network nets u counters (errMsgs ++ [label +:+ ": id/name not matched"])
    else if negb (Networks.IsPublic net || String.eqb (Networks.ProjectId net) (SchedInfo.Project d))
    then named_loop d network nets u counters
           (errMsgs ++ [label +:+ ": not owner (" +:+ Networks.ProjectId net +:+ " != " +:+ SchedInfo.Project d +:+ ")"])
    else if negb ((0 <? Networks.GetPorts net) || isMigrate d)
    then named_loop d network nets u counters (errMsgs ++ [label +:+ ": ports use up"])
    else
      let (counter, u) := counterOfNetwork u net 0 in
      if GetCount counter <? SchedInfo.Count d
      then named_loop d network nets u counters
             (errMsgs ++ [Networks.Name net +:+ ": ports not enough, free: " +:+ pretty (GetCount counter) +:+
                          ", required: " +:+ pretty (SchedInfo.Count d)])
      else ("", u, Counters_Add counters counter)
  end.

Definition isNetworkAvaliable (hc : HostDesc.HostDesc) (d : SchedInfo.SchedInfo) (n : SchedInfo.NetworkConfig) (u : U)
    (counters : Counter) : outcome error (string * U * Counter) :=
  if String.eqb (SchedInfo.Network n) "" then
    let! (ret_msg, u, counters0) :=
      isRandomNetworkAvailable hc d (SchedInfo.Private n) (SchedInfo.Exit n) (SchedInfo.Wire n) u NewCounters in
    Ret (ret_msg, u, Counters_Add counters counters0)
  else
    match HostDesc.HostNetworks (HostDesc.Host hc) with
    | [] => Ret ("no available network on this host", u, counters)
    | nets => Ret (named_loop d (SchedInfo.Network n) nets u counters [])
    end.

Fixpoint specified_loop (hc : HostDesc.HostDesc) (d : SchedInfo.SchedInfo) (ns : list SchedInfo.NetworkConfig) (u : U)
    (counters : Counter) (errMsgs : list string) : outcome error (U * Counter * list string) :=
  match ns with
  | [] => Ret (u, counters, errMsgs)
  | n :: ns =>
    let! (err_msg, u, counters) := isNetworkAvaliable hc d n u counters in
    specified_loop hc d ns u counters (if String.eqb err_msg "" then errMsgs else errMsgs ++ [err_msg])
  end.

Definition network_PreExecute (u : U) : bool :=
  negb (isMigrate (SchedData u) && bool_decide (SchedInfo.Networks (SchedData u) = [])).

Definition network_Name : string := "host_network".
Definition network_Execute (u : U) (c : Candidater) : result :=
  let! hc := HostCandidate c in
  let d := SchedData u in
  let helper u := NewPredicateHelper network_Name u (IndexKey c) in
  match SchedInfo.Networks d with
  | [] =>
    let! (err_msg, u, counters) := isRandomNetworkAvailable hc d false false "" u NewCounters in
    let h := if String.eqb err_msg "" then helper u else Exclude (helper u) (NetworkRefused err_msg) in
    GetResult (SetCapacityCounter h counters)
  | ns =>
    let! (u, counters, errMsgs) := specified_loop hc d ns u NewMinCounters [] in
    match errMsgs with
    | [] => GetResult (SetCapacityCounter (helper u) counters)
    | _ => GetResult (Exclude (helper u) (NetworkRefused (join ", " errMsgs)))
    end
  end.

(** ** The other predicates *)

Definition hostHasContainerTag (c : Candidater) : bool := existsb (λ agg, String.eqb (Schedtag.TagName agg) "container") (HostDesc.HostSchedtags (base_host c)).
Definition hostAllowRunContainer (c : Candidater) : bool :=
  if bool_decide (Get_HostType c = Some SchedInfo.HostTypeKubelet) then true else hostHasContainerTag c.

Definition hypervisor_Name : string := "host_hypervisor_runtime".
Definition hypervisor_Execute (u : U) (c : Candidater) : result :=
  let h := NewPredicateHelper hypervisor_Name u (IndexKey c) in
  let guestNeedType := SchedInfo.Hypervisor (SchedData u) in
  if negb (bool_decide (Get_HostType c = Some guestNeedType)) then
    if String.eqb guestNeedType SchedInfo.SchedTypeContainer && hostAllowRunContainer c then GetResult h
    else GetResult (Exclude h (Mismatch hypervisor_Name (default "<nil>" (Get_HostType c)) guestNeedType))
  else GetResult h.

Definition migrate_PreExecute (u : U) : bool := isMigrate (SchedData u).

Definition migrate_Name : string := "host_migrate".
Definition migrate_Execute (u : U) (c : Candidater) : result :=
  let h := NewPredicateHelper migrate_Name u (IndexKey c) in
  GetResult (if String.eqb (SchedInfo.HostId (SchedData u)) (IndexKey c) then Exclude h ErrHostIsSpecifiedForMigration else h).

Definition nest_Name : string := "host_nest".
Definition nest_Execute (u : U) (c : Candidater) : result :=
  let h := NewPredicateHelper nest_Name u (IndexKey c) in
  let! hc := HostCandidate c in
  GetResult
    (if bool_decide (SchedInfo.Metadata (SchedData u) !! "kvm" = Some "enabled") &&
        negb (bool_decide (HostDesc.Metadata hc !! "nest" = Some "enabled"))
     then Exclude h ErrNotSupportNest else h).

Definition exclude_unless (ok : bool) (r : reason) (h : helper) : helper := if ok then h else Exclude h r.

Definition status_Name : string := "host_status".
Definition status_Execute (u : U) (c : Candidater) : result :=
  let h := NewPredicateHelper status_Name u (IndexKey c) in
  let! hc := HostCandidate c in
  let s := HostDesc.Host hc in
  let h := exclude_unless (String.eqb (HostDesc.Status s) "running") (Mismatch "status" (HostDesc.Status s) "running") h in
  let h := exclude_unless (String.eqb (HostDesc.HostStatus s) "online")
             (Mismatch "host_status" (HostDesc.HostStatus s) "online") h in
  let h := exclude_unless (HostDesc.Enabled s) (Mismatch "enable_status" "false" "true") h in
  let! zone := of_opt (HostDesc.Zone s) in
  let zone := HostDesc.ZoneStatus zone in
  let h := exclude_unless (String.eqb zone "enable") (Mismatch "zone_status" zone "enable") h in
  match HostDesc.Cloudprovider s with
  | None => GetResult h
  | Some (status, health) =>
    let h := exclude_unless (String.eqb status "connected") (Mismatch "cloud_provider_status" status "[connected]") h in
    GetResult (exclude_unless (String.eqb health "normal") (Mismatch "cloud_provider_health_status" health "normal") h)
  end.

(** *** Groups *)

Definition group_step (p : GroupPredicate) (r : SchedInfo.GroupRelation) : GroupPredicate :=
  let g := SchedInfo.GroupId r in
  let s := SchedInfo.Strategy r in
  if String.eqb s "exclude" then MkGroup (ExcludeGroups p ++ [g]) (RequireGroups p) (AvoidGroups p) (PreferGroups p)
  else if String.eqb s "require" then MkGroup (ExcludeGroups p) (RequireGroups p ++ [g]) (AvoidGroups p) (PreferGroups p)
  else if String.eqb s "avoid" then MkGroup (ExcludeGroups p) (RequireGroups p) (AvoidGroups p ++ [g]) (PreferGroups p)
  else if String.eqb s "prefer" then MkGroup (ExcludeGroups p) (RequireGroups p) (AvoidGroups p) (PreferGroups p ++ [g])
  else p.

(** [plugin] is the predicate as it is registered. *)
Definition group_PreExecute (plugin : GroupPredicate → P) (p : GroupPredicate) (u : U) : bool * GroupPredicate * U :=
  match SchedInfo.GroupRelations (SchedData u) with
  | [] => (false, p, u)
  | rs => let p := foldl group_step p rs in (true, p, AppendSelectPlugin u (plugin p))
  end.

(** The first group for which [ExistsGroup] answers [bad]. *)
Fixpoint first_group (g : option (list (gmap string Z))) (bad : bool) (groups : list string) : outcome error (option string) :=
  match groups with
  | [] => Ret None
  | groupId :: groups =>
    let! ok := ExistsGroup g groupId in
    if Bool.eqb ok bad then Ret (Some groupId) else first_group g bad groups
  end.

Definition group_Name : string := "host_group".
Definition group_Execute (p : GroupPredicate) (u : U) (c : Candidater) : result :=
  let h := NewPredicateHelper group_Name u (IndexKey c) in
  let! g := GetGroupCounts (Get_Groups c) in
  match ExcludeGroups p, RequireGroups p with
  | _ :: _, _ =>
    let! bad := first_group g true (ExcludeGroups p) in
    GetResult (match bad with Some groupId => Exclude h (ExcludedGroup groupId) | None => h end)
  | [], _ :: _ =>
    let! bad := first_group g false (RequireGroups p) in
    GetResult (match bad with Some groupId => Exclude h (RequiredGroup groupId) | None => h end)
  | [], [] => GetResult h
  end.

(** The scores of the plugin; [core.PriorityStep] is 1. *)
Definition group_OnPriorityEnd (p : GroupPredicate) (u : U) (c : Candidater) : U :=
  let u := match AvoidGroups p with
           | [] => u
           | gs => SetFrontScore u (IndexKey c) (Score.NewScore (- Z.of_nat (length gs)) "host_group:avoid")
           end in
  match PreferGroups p with
  | [] => u
  | gs => SetFrontScore u (IndexKey c) (Score.NewScore (Z.of_nat (length gs)) "host_group:prefer")
  end.

End Predicates.

End GuestPredicates.
