(* ===== verification/BaremetalPredicates.v ===== *)
(** * The predicates of baremetal machines: scheduler/algorithm/predicates/baremetal

    A machine is given away as a whole: the predicates ask for the very number of processors and the very size of
    memory, and for a layout of the disks. *)

From stdpp Require Import pretty.
From S2P Require Import Prelude Networks DiskConfig SchedInfo Storages Unit HostDesc Candidates GuestPredicates.
Import Unit Candidates.
Local Open Scope Z_scope.
Local Open Scope go_scope.

Module BaremetalPredicates.

(** The dynamic value of a property of a candidate: nil, an [int64] or an integer of another type. *)
Inductive property := Nil | Int64 (z : Z) | OtherInt (z : Z).

Definition GetInt64 (value : property) (def : Z) : outcome error Z :=
  match value with Nil => Ret def | Int64 z => Ret z | OtherInt _ => Panic end.

Definition Get_FreeCPUCount (c : Candidater) : property :=
  Int64 (match c with HostC h => HostDesc.GetFreeCPUCount h false | BaremetalC b => HostDesc.bm_FreeCPUCount b end).
Definition Get_CPUCount (c : Candidater) : property :=
  match c with HostC h => OtherInt (HostDesc.CpuCount (HostDesc.Host h))
             | BaremetalC b => Int64 (HostDesc.CpuCount (HostDesc.BmHost b)) end.
Definition Get_FreeMemSize (c : Candidater) : property :=
  Int64 (match c with HostC h => HostDesc.GetFreeMemSize h false | BaremetalC b => HostDesc.bm_FreeMemSize b end).
Definition Get_MemSize (c : Candidater) : property := OtherInt (HostDesc.MemSize (base_host c)).

Section Predicates.
Context (env : Env) {P : Type}.
Abbreviation U := (Unit P reason).
Abbreviation helper := (PredicateHelper P reason).
Abbreviation result := (outcome error (bool * list reason * U)).

Definition base_PreExecute : bool := negb (DisableBaremetalPredicates env).

(** ** Processors and memory *)

(** Both predicates: the amount is to be there exactly.  The division panics on zero. *)
Definition exact_Execute (name what : string) (free total : property) (req : Z) (u : U) (c : Candidater) : result :=
  let h := NewPredicateHelper name u (IndexKey c) in
  let! free := GetInt64 free 0 in
  if free <? req then
    let! total := GetInt64 total 0 in
    GetResult (HelperSetCapacity (AppendPredicateFail h (InsufficientResource (CandidateName c) req total free)) 0)
  else if free =? 0 then Panic
  else if negb (Z.quot req free =? 1)
  then GetResult (Exclude h (Mismatch what (pretty free) (pretty req)))
  else GetResult (HelperSetCapacity h 1).

Definition cpu_Name : string := "baremetal_cpu".
Definition cpu_Execute (u : U) (c : Candidater) : result :=
  exact_Execute cpu_Name "cpu" (Get_FreeCPUCount c) (Get_CPUCount c) (SchedInfo.Ncpu (SchedData u)) u c.

Definition memory_Name : string := "baremetal_memory".
Definition memory_Execute (u : U) (c : Candidater) : result :=
  exact_Execute memory_Name "memory" (Get_FreeMemSize c) (Get_MemSize c) (SchedInfo.Memory (SchedData u)) u c.

(** ** Status *)

Definition ExpectedStatus : list string := ["running"; "start_convert"].

Definition status_Name : string := "baremetal_status".
Definition status_Execute (u : U) (c : Candidater) : result :=
  let h := NewPredicateHelper status_Name u (IndexKey c) in
  let! bm := BaremetalCandidate c in
  let s := HostDesc.BmHost bm in
  if negb (bool_decide (HostDesc.Status s ∈ ExpectedStatus))
  then GetResult (Exclude h (Mismatch "status" (HostDesc.Status s) "[running start_convert]"))
  else if negb (HostDesc.Enabled s) then GetResult (Exclude h (Mismatch "enable_status" "disable" "enable"))
  else if String.eqb (HostDesc.ServerID bm) "" then GetResult (HelperSetCapacity h 1)
  else GetResult (HelperSetCapacity (AppendPredicateFail h ErrBaremetalHasAlreadyBeenOccupied) 0).

(** ** Storage *)

Definition storage_Name : string := "baremetal_storage".

(** [CalculateLayout] and [CheckDisksAllocable]; each round of the layout takes a disk, so that there are no more rounds
    than disks.  Of the disks of the request only their sizes matter. *)
Definition storage_Execute (u : U) (c : Candidater) : result :=
  let h := NewPredicateHelper storage_Name u (IndexKey c) in
  let d := SchedData u in
  let! candidate := BaremetalCandidate c in
  let storages := HostDesc.StorageInfo candidate in
  match DiskConfig.CalculateLayout (GetSplitSizes env) (length storages) (SchedInfo.BaremetalDiskConfigs d) storages with
  | Ret layouts =>
    if DiskConfig.CheckDisksAllocable (GetSplitSizes env) layouts (SchedInfo.SizeMb <$> SchedInfo.Disks d)
    then GetResult (HelperSetCapacity h 1)
    else GetResult (AppendPredicateFail (HelperSetCapacity h 0) ErrNoEnoughStorage)
  | Fail _ => GetResult (AppendPredicateFail (HelperSetCapacity h 0) ErrNoEnoughStorage)
  | Panic => Panic
  | OutOfFuel => OutOfFuel
  end.

(** ** Networks *)

Definition network_Name : string := "baremetal_network".

Definition network_PreExecute (u : U) : bool :=
  negb (GuestPredicates.isMigrate (SchedData u) && bool_decide (SchedInfo.Networks (SchedData u) = [])).

(** The messages of the tests of ports and wire, which do not end the work on a network. *)
Definition random_errors (d : SchedInfo.SchedInfo) (exit : bool) (wire : string) (n : Networks.SNetwork)
  : outcome error (list string) :=
  let! mismatch := GuestPredicates.wire_mismatch env wire n in
  Ret ((if ((0 <? Networks.GetPorts n) || GuestPredicates.isMigrate d) && Bool.eqb (GuestPredicates.IsExitNetwork n) exit
        then [] else ["no ports"]) ++
       (if mismatch : bool then ["wire is not match"] else [])).

(** The first network of the right owner that has ports ends the search. *)
Fixpoint random_loop (d : SchedInfo.SchedInfo) (private exit : bool) (wire : string) (nets : list Networks.SNetwork)
    (u : U) (counters : Counter) (errMsgs : list string) : outcome error (string * U * Counter) :=
  match nets with
  | [] => Ret (join ";" errMsgs, u, counters)
  | n :: nets =>
    let! errs := random_errors d exit wire n in
    let msg e := Networks.Id n +:+ ": " +:+ e in
    let errMsgs := errMsgs ++ (msg <$> errs) in
    if (negb private && Networks.IsPublic n) ||
       (private && negb (Networks.IsPublic n) && String.eqb (Networks.ProjectId n) (SchedInfo.Project d)) then
      if Networks.GetPorts n =? 0
      then random_loop d private exit wire nets u counters (errMsgs ++ [msg "not enough network port"])
      else
        let (counter, u) := GuestPredicates.counterOfNetwork u n 0 in
        Ret ("", u, Counters_Add counters counter)
    else random_loop d private exit wire nets u counters (errMsgs ++ [msg "not owner"])
  end.

(** [isNetworkAvaliable]: the message, whether a named network was found, the unit and the counters. *)
Definition isNetworkAvaliable (b : HostDesc.BaremetalDesc) (d : SchedInfo.SchedInfo) (network : SchedInfo.NetworkConfig)
    (u : U) (counters : Counter) : outcome error (string * bool * U * Counter) :=
  let nets := HostDesc.HostNetworks (HostDesc.BmHost b) in
  if String.eqb (SchedInfo.Network network) "" then
    let! (msg, u, counters) :=
      random_loop d (SchedInfo.Private network) (SchedInfo.Exit network) (SchedInfo.Wire network) nets u counters [] in
    Ret (msg, false, u, counters)
  else
    let usable net :=
      (String.eqb (SchedInfo.Network network) (Networks.Id net) || String.eqb (SchedInfo.Network network) (Networks.Name net)) &&
      (Networks.IsPublic net || String.eqb (Networks.ProjectId net) (SchedInfo.Project d)) &&
      ((0 <? Networks.GetPorts net) || GuestPredicates.isMigrate d) in
    if existsb usable nets then Ret ("", true, u, counters) else Ret ("unknown error", false, u, counters).

(** The loop over the networks of the request; [SetCapacity(1)] for the named networks that were found. *)
Fixpoint specified_loop (b : HostDesc.BaremetalDesc) (d : SchedInfo.SchedInfo) (ns : list SchedInfo.NetworkConfig) (u : U)
    (found : bool) (counters : Counter) (errMsgs : list string) : outcome error (U * bool * list string) :=
  match ns with
  | [] => Ret (u, found, errMsgs)
  | n :: ns =>
    let! (msg, named, u, counters) := isNetworkAvaliable b d n u counters in
    specified_loop b d ns u (found || named) counters (if String.eqb msg "" then errMsgs else errMsgs ++ [msg])
  end.

Definition network_Execute (u : U) (c : Candidater) : result :=
  let d := SchedData u in
  let! b := BaremetalCandidate c in
  let helper u := NewPredicateHelper network_Name u (IndexKey c) in
  match SchedInfo.Networks d with
  | [] =>
    let! (msg, u, counters) := random_loop d false false "" (HostDesc.HostNetworks (HostDesc.BmHost b)) u NewCounters [] in
    let h := if String.eqb msg "" then helper u else Exclude (helper u) (NetworkRefused msg) in
    GetResult (SetCapacityCounter h counters)
  | ns =>
    let! (u, found, errMsgs) := specified_loop b d ns u false NewCounters [] in
    let h := if found : bool then HelperSetCapacity (helper u) 1 else helper u in
    GetResult (match errMsgs with [] => h | _ => Exclude h (NetworkRefused (join ", " errMsgs)) end)
  end.

End Predicates.

End BaremetalPredicates.
