(* ===== verification/Predicates.v ===== *)
(** * The predicates that the scheduler is configured with: scheduler/algorithmprovider (defaults.go, baremetal.go)

    One type for the predicates of guests and of baremetal machines.  A predicate that keeps data of its own carries them;
    a plugin of a unit is a predicate that registered itself. *)

From S2P Require Import Prelude Schedtag SchedInfo Score Storages Unit HostDesc Candidates.
From S2P Require Import CommonPredicates GuestPredicates BaremetalPredicates.
Import Unit Candidates.
Local Open Scope Z_scope.
Local Open Scope go_scope.

Module Predicates.

Inductive Predicate :=
| StatusPredicate | HypervisorPredicate | AggregatePredicate (p : Schedtag.SchedtagPredicate) | MigratePredicate | NestPredicate
| Group (p : GuestPredicates.GroupPredicate) | CPUPredicate | MemoryPredicate | StoragePredicate | NetworkPredicate
| IsolatedDevicePredicate | ResourceTypePredicate | DiskSchedtagPredicate | InstanceTypePredicate
| BmStatusPredicate | BmCPUPredicate | BmMemoryPredicate | BmStoragePredicate | BmNetworkPredicate.

Definition Name (p : Predicate) : string :=
  match p with
  | StatusPredicate => GuestPredicates.status_Name
  | HypervisorPredicate => GuestPredicates.hypervisor_Name
  | AggregatePredicate _ => CommonPredicates.aggregate_Name
  | MigratePredicate => GuestPredicates.migrate_Name
  | NestPredicate => GuestPredicates.nest_Name
  | Group _ => GuestPredicates.group_Name
  | CPUPredicate => GuestPredicates.cpu_Name
  | MemoryPredicate => GuestPredicates.memory_Name
  | StoragePredicate => GuestPredicates.storage_Name
  | NetworkPredicate => GuestPredicates.network_Name
  | IsolatedDevicePredicate => GuestPredicates.isolated_device_Name
  | ResourceTypePredicate => CommonPredicates.resource_type_Name
  | DiskSchedtagPredicate => CommonPredicates.disk_Name
  | InstanceTypePredicate => CommonPredicates.instance_type_Name
  | BmStatusPredicate => BaremetalPredicates.status_Name
  | BmCPUPredicate => BaremetalPredicates.cpu_Name
  | BmMemoryPredicate => BaremetalPredicates.memory_Name
  | BmStoragePredicate => BaremetalPredicates.storage_Name
  | BmNetworkPredicate => BaremetalPredicates.network_Name
  end.

Abbreviation U := (Unit Predicate reason).

Section Dispatch.
Context (env : Env).

(** Whether the predicate wants to run, the predicate with the data it has gathered, and the unit. *)
Definition PreExecute (p : Predicate) (u : U) : outcome error (bool * Predicate * U) :=
  match p with
  | StatusPredicate | HypervisorPredicate | NestPredicate => Ret (true, p, u)
  | MigratePredicate => Ret (GuestPredicates.migrate_PreExecute u, p, u)
  | AggregatePredicate _ =>
    let! data := CommonPredicates.aggregate_PreExecute env u in
    Ret (match data with
         | Some t => (true, AggregatePredicate t, AppendSelectPlugin u (AggregatePredicate t))
         | None => (false, p, u)
         end)
  | Group g => let '(ok, g, u) := GuestPredicates.group_PreExecute Group g u in Ret (ok, Group g, u)
  | CPUPredicate => Ret (GuestPredicates.cpu_PreExecute u, p, u)
  | MemoryPredicate => Ret (GuestPredicates.memory_PreExecute u, p, u)
  | StoragePredicate => Ret (GuestPredicates.storage_PreExecute u, p, u)
  | NetworkPredicate => Ret (GuestPredicates.network_PreExecute u, p, u)
  | IsolatedDevicePredicate => Ret (GuestPredicates.isolated_device_PreExecute u, p, u)
  | ResourceTypePredicate => Ret (CommonPredicates.resource_type_PreExecute u, p, u)
  | DiskSchedtagPredicate =>
    Ret (if CommonPredicates.disk_PreExecute u then (true, p, AppendSelectPlugin u p) else (false, p, u))
  | InstanceTypePredicate => Ret (CommonPredicates.instance_type_PreExecute u, p, u)
  | BmStatusPredicate | BmCPUPredicate | BmMemoryPredicate | BmStoragePredicate =>
    Ret (BaremetalPredicates.base_PreExecute env, p, u)
  | BmNetworkPredicate =>
    Ret (if BaremetalPredicates.base_PreExecute env
         then (BaremetalPredicates.network_PreExecute u, p, AppendSelectPlugin u p) else (false, p, u))
  end.

Definition Execute (p : Predicate) (u : U) (c : Candidater) : outcome error (bool * list reason * U) :=
  match p with
  | StatusPredicate => GuestPredicates.status_Execute u c
  | HypervisorPredicate => GuestPredicates.hypervisor_Execute u c
  | AggregatePredicate t => CommonPredicates.aggregate_Execute env t u c
  | MigratePredicate => GuestPredicates.migrate_Execute u c
  | NestPredicate => GuestPredicates.nest_Execute u c
  | Group g => GuestPredicates.group_Execute g u c
  | CPUPredicate => GuestPredicates.cpu_Execute u c
  | MemoryPredicate => GuestPredicates.memory_Execute u c
  | StoragePredicate => GuestPredicates.storage_Execute env u c
  | NetworkPredicate => GuestPredicates.network_Execute env u c
  | IsolatedDevicePredicate => GuestPredicates.isolated_device_Execute env u c
  | ResourceTypePredicate => CommonPredicates.resource_type_Execute u c
  | DiskSchedtagPredicate => CommonPredicates.disk_Execute env u c
  | InstanceTypePredicate => CommonPredicates.instance_type_Execute env u c
  | BmStatusPredicate => BaremetalPredicates.status_Execute u c
  | BmCPUPredicate => BaremetalPredicates.cpu_Execute u c
  | BmMemoryPredicate => BaremetalPredicates.memory_Execute u c
  | BmStoragePredicate => BaremetalPredicates.storage_Execute env u c
  | BmNetworkPredicate => BaremetalPredicates.network_Execute env u c
  end.

(** The hooks of the plugins; those of [BasePlugin] do nothing. *)
Definition OnPriorityEnd (p : Predicate) (u : U) (c : Candidater) : U :=
  match p with
  | Group g => GuestPredicates.group_OnPriorityEnd g u c
  | AggregatePredicate t => CommonPredicates.aggregate_OnPriorityEnd env t u c
  | DiskSchedtagPredicate => CommonPredicates.disk_OnPriorityEnd env u c
  | _ => u
  end.

Definition OnSelectEnd (p : Predicate) (u : U) (c : Candidater) : outcome Empty_set U :=
  match p with DiskSchedtagPredicate => CommonPredicates.disk_OnSelectEnd env u c | _ => Ret u end.
End Dispatch.

Definition no_tags : Schedtag.SchedtagPredicate := Schedtag.MkPredicate [] [] [] [].

Definition defaultPredicates : list (string * Predicate) := [
  ("a-GuestHostStatusFilter", StatusPredicate);
  ("b-GuestHypervisorFilter", HypervisorPredicate);
  ("c-GuestAggregateFilter", AggregatePredicate no_tags);
  ("d-GuestMigrateFilter", MigratePredicate);
  ("e-GuestNestFilter", NestPredicate);
  ("f-GuestGroupFilter", Group (GuestPredicates.MkGroup [] [] [] []));
  ("g-GuestCPUFilter", CPUPredicate);
  ("h-GuestMemoryFilter", MemoryPredicate);
  ("i-GuestStorageFilter", StoragePredicate);
  ("j-GuestNetworkFilter", NetworkPredicate);
  ("k-GuestIsolatedDeviceFilter", IsolatedDevicePredicate);
  ("l-GuestResourceTypeFilter", ResourceTypePredicate);
  ("m-GuestDiskschedtagFilter", DiskSchedtagPredicate);
  ("n-ServerSkuFilter", InstanceTypePredicate)].

Definition baremetalPredicates : list (string * Predicate) := [
  ("a-BaremetalStatusFilter", BmStatusPredicate);
  ("b-BaremetalAggregateFilter", AggregatePredicate no_tags);
  ("c-BaremetalCPUFilter", BmCPUPredicate);
  ("d-BaremetalMemoryFilter", BmMemoryPredicate);
  ("e-BaremetalStorageFilter", BmStoragePredicate);
  ("f-BaremetalNetFilter", BmNetworkPredicate);
  ("g-BaremetalResourceTypeFilter", ResourceTypePredicate);
  ("h-DiskschedtagFilter", DiskSchedtagPredicate)].

End Predicates.
