(* ===== verification/Schedule.v ===== *)
(** * Scheduling one unit: pkg/scheduler/core/generic_scheduler.go on the unit of context.go, and the priorities of guests

    The filter runs the predicates of every candidate in parallel on one shared unit.  A check of one candidate
    is a machine that executes a predicate per step, and the filter is the interleaving of those machines; running
    them one after the other is the executable version.  After the filter come the priorities, the selection of
    hosts and the result. *)

From Stdlib Require Import SpecFloat.
From S2P Require Import Prelude SchedInfo Score Scheduler Storages Unit HostDesc Candidates Predicates Condition.
Import Unit Candidates.
Local Open Scope Z_scope.
Local Open Scope go_scope.

Module Schedule.

(** ** Predicates and candidates *)

(** What the scheduler calls of a predicate and of a candidate.  An error of [Execute] leaves the unit as it was. *)
Class SchedPredicate (Pred C R E : Type) := {
  pred_Name : Pred → string;
  pred_PreExecute : Pred → Unit Pred R → outcome E (bool * Pred * Unit Pred R);
  pred_Execute : Pred → Unit Pred R → C → outcome E (bool * list R * Unit Pred R);
  cand_IndexKey : C → string;
  cand_Name : C → string;
  reason_string : R → string;
  error_string : E → string }.

Section Filter.
Context `{SchedPredicate Pred C R E}.
Abbreviation U := (Unit Pred R).

(** [preExecPredicate]: the predicates of the map in the order of the range; the clones that want to run. *)
Fixpoint preExecPredicate (u : U) (predicates : list (string * Pred)) : outcome E (list (string * Pred) * U) :=
  match predicates with
  | [] => Ret ([], u)
  | (name, p) :: predicates =>
    let! (ok, p, u) := pred_PreExecute p u in
    let! (rest, u) := preExecPredicate u predicates in
    Ret (if (ok : bool) then (name, p) :: rest else rest, u)
  end.

Definition sorted_predicates (predicates : list (string * Pred)) : list Pred :=
  omap (λ name, p ← list_find (λ p, p.1 = name) predicates; Some p.2.2) (merge_sort String.le predicates.*1).

(** [toLog]. *)
Definition toLog (c : C) (fit : bool) (message : string) (stage : string) : SchedLog :=
  NewSchedLog (cand_Name c +:+ ":" +:+ cand_IndexKey c) stage
    ((if fit then "Success." else "Failed:") +:+ " " +:+ message) (negb fit).

(** ** The check of one candidate *)

Inductive check :=
| Running (todo : list Pred) (isFit : bool) (fcs : list (FailedCandidate R)) (logs : list SchedLog)
| Done (res : outcome E (bool * list (FailedCandidate R))).

Context (AlwaysCheckAllPredicates : bool).

(** One step of [unitFitsOnCandidate]: the next predicate, or the end, when the log is handed over. *)
Definition check_step (u : U) (c : C) (k : check) : check * U :=
  match k with
  | Done res => (Done res, u)
  | Running [] isFit fcs logs => (Done (Ret (isFit, fcs)), log_Appends u logs)
  | Running (p :: todo) isFit fcs logs =>
    match pred_Execute p u c with
    | Ret (fit, reasons, u) =>
      let logs := logs ++ [toLog c fit (join ", " (reason_string <$> reasons)) (pred_Name p)] in
      if (fit : bool) then (Running todo isFit fcs logs, u)
      else
        let fcs := fcs ++ [Failed (pred_Name p) (cand_IndexKey c) reasons] in
        (Running (if AlwaysCheckAllPredicates then todo else []) false fcs logs, u)
    | Fail e => (Done (Fail e), log_Appends u (logs ++ [toLog c false (error_string e) (pred_Name p)]))
    | Panic => (Done Panic, u)
    | OutOfFuel => (Done OutOfFuel, u)
    end
  end.

Fixpoint run_check (n : nat) (u : U) (c : C) (k : check) : check * U :=
  match n with
  | O => (k, u)
  | S n => let (k, u) := check_step u c k in run_check n u c k
  end.

(** [unitFitsOnCandidate]: a step per predicate and one for the end. *)
Definition unitFitsOnCandidate (u : U) (c : C) (predicates : list Pred) : outcome E (bool * list (FailedCandidate R)) * U :=
  match run_check (S (length predicates)) u c (Running predicates true [] []) with
  | (Done res, u) => (res, u)
  | (_, u) => (OutOfFuel, u)
  end.

(** ** All candidates *)

(** The shared unit and the checks of all candidates; any of them may go on at any time.  A
    predicate is one step here.  [race_step] below takes it apart into entering and leaving,
    where two checks can meet inside a predicate that writes a map without a lock. *)
Inductive par_step : U * list (C * check) → U * list (C * check) → Prop :=
| par_one u u' l1 c k k' l2 todo isFit fcs logs :
    k = Running todo isFit fcs logs → check_step u c k = (k', u') →
    par_step (u, l1 ++ (c, k) :: l2) (u', l1 ++ (c, k') :: l2).

(** The checks with the [Execute] of each predicate as an interval: its accesses to the unit are under locks and take effect
    when it ends, but a predicate may write a map of its own without a lock.  When two checks are inside such predicates at the
    same time the runtime ends the process if it finds the concurrent writes; nothing is said of a run that goes on. *)
Section Races.
Context (unlocked : Pred → bool).

Inductive race := Crashed | Going (u : U) (l : list (C * bool * check)).

(** A check that is inside a predicate that writes without a lock. *)
Definition writing (e : C * bool * check) : bool :=
  match e with (_, true, Running (p :: _) _ _ _) => unlocked p | _ => false end.

Inductive race_step : race → race → Prop :=
| race_enter u l1 c p todo isFit fcs logs l2 : unlocked p && existsb writing (l1 ++ l2) = false →
    race_step (Going u (l1 ++ (c, false, Running (p :: todo) isFit fcs logs) :: l2))
              (Going u (l1 ++ (c, true, Running (p :: todo) isFit fcs logs) :: l2))
| race_meet u l1 c p todo isFit fcs logs l2 : unlocked p && existsb writing (l1 ++ l2) = true →
    race_step (Going u (l1 ++ (c, false, Running (p :: todo) isFit fcs logs) :: l2)) Crashed
| race_leave u u' l1 c todo isFit fcs logs k' l2 : check_step u c (Running todo isFit fcs logs) = (k', u') →
    race_step (Going u (l1 ++ (c, negb (bool_decide (length todo = 0%nat)), Running todo isFit fcs logs) :: l2))
              (Going u' (l1 ++ (c, false, k') :: l2)).

End Races.

(** What [checkUnit] does with the result of a check. *)
Definition collect (c : C) (res : outcome E (bool * list (FailedCandidate R))) (u : U) (fs : list C) (es : list E)
  : outcome (list E) (U * list C * list E) :=
  match res with
  | Ret (true, _) => Ret (u, fs ++ [c], es)
  | Ret (false, fcs) => Ret (AppendFailedCandidates u fcs, fs, es)
  | Fail e => Ret (u, fs, es ++ [e])
  | Panic => Panic
  | OutOfFuel => OutOfFuel
  end.

Fixpoint check_units (u : U) (preds : list Pred) (candidates : list C) (fs : list C) (es : list E)
  : outcome (list E) (U * list C * list E) :=
  match candidates with
  | [] => Ret (u, fs, es)
  | c :: candidates =>
    let (res, u) := unitFitsOnCandidate u c preds in
    let! (u, fs, es) := collect c res u fs es in
    check_units u preds candidates fs es
  end.

(** [findCandidatesThatFit] with the checks in the given order. *)
Definition findCandidatesThatFit (u : U) (candidates : list C) (predicates : list (string * Pred))
  : outcome (list E) (list C * U) :=
  match preExecPredicate u predicates with
  | Fail e => Fail [e]
  | Panic => Panic
  | OutOfFuel => OutOfFuel
  | Ret (newPredicates, u) =>
    match sorted_predicates newPredicates with
    | [] => Ret (candidates, u)
    | preds =>
      let! (u, fs, es) := check_units u preds candidates [] [] in
      match es with [] => Ret (fs, u) | _ => Fail es end
    end
  end.

(** ** Priorities, selection, result *)

Inductive sched_error :=
| NoResourceError
| PredicateErrors (es : list E)
| FitError
| PriorityErrors (es : list E)
| SelectError (e : Scheduler.select_error).

(** [PrioritizeCandidates] of the configured priorities, the hook of a plugin, and [sort.Sort(sort.Reverse(...))]. *)
Context (PrioritizeCandidates : U → list C → outcome (list E) (list Score.HostPriority * U))
  (OnSelectEnd : Pred → U → C → outcome Empty_set U)
  (sort_reverse : list Score.HostPriority → list Score.HostPriority).

Definition capacity_of (u : U) (key : string) : Z := (GetCapacity u key).1.

Definition find_candidate (candidates : list C) (key : string) : option C :=
  snd <$> list_find (λ c, cand_IndexKey c = key) candidates.

(** The selected candidates with their counts. *)
Definition selected_candidates (candidates : list C) (sel : Scheduler.selection) : list (C * Z) :=
  omap (λ p, c ← find_candidate candidates p.1; Some (c, p.2)) sel.

Definition lift {E' A} (f : E' → sched_error) (m : outcome E' A) : outcome sched_error A :=
  match m with Ret a => Ret a | Fail e => Fail (f e) | Panic => Panic | OutOfFuel => OutOfFuel end.

(** The hooks of all plugins for one selected candidate, and for all of them. *)
Fixpoint run_plugins (plugins : list Pred) (u : U) (c : C) : outcome Empty_set U :=
  match plugins with
  | [] => Ret u
  | p :: plugins => let! u := OnSelectEnd p u c in run_plugins plugins u c
  end.

Fixpoint select_ends (plugins : list Pred) (u : U) (scs : list (C * Z)) : outcome Empty_set U :=
  match scs with
  | [] => Ret u
  | sc :: scs => let! u := run_plugins plugins u sc.1 in select_ends plugins u scs
  end.

(** [SelectHosts] with its plugins, which run before the count is checked. *)
Definition SelectHosts (fuel : nat) (u : U) (filtered : list C) (priorityList : list Score.HostPriority)
  : outcome sched_error (list (C * Z) * U) :=
  let d := SchedData u in
  let! (rest, sel) := lift SelectError
    (Scheduler.select_hosts (capacity_of u) sort_reverse fuel (SchedInfo.Count d) priorityList) in
  let scs := selected_candidates filtered sel in
  let! u := lift (λ e : Empty_set, match e with end) (select_ends (selectPlugins u) u scs) in
  if negb (SchedInfo.IsSuggestion d) && negb (SchedInfo.BestEffort d) && (0 <? rest)
  then Fail (SelectError Scheduler.NoEnoughResource) else Ret (scs, u).

(** [Schedule]: the result, the candidates marked dirty with their counts, and the unit. *)
Definition Schedule (fuel : nat) (u : U) (candidates : list C) (predicates : list (string * Pred))
  : outcome sched_error (list (Scheduler.SchedResultItem (list (option CandidateDisk))) * list (string * Z) * U) :=
  let d := SchedData u in
  match candidates with
  | [] => Fail NoResourceError
  | _ =>
    let! (filtered, u) := lift PredicateErrors (findCandidatesThatFit u candidates predicates) in
    if bool_decide (length filtered = 0%nat) && negb (SchedInfo.IsSuggestion d) then Fail FitError
    else
      let! (selected, u) :=
        if negb (bool_decide (length filtered = 0%nat)) then
          let! (priorityList, u) := lift PriorityErrors (PrioritizeCandidates u filtered) in
          SelectHosts fuel u filtered priorityList
        else Ret ([], u) in
      let items := Scheduler.generateScheduleResult cand_IndexKey (capacity_of u) (λ id, (GetAllocatedResource u id).1) (SchedInfo.SuggestionLimit d)
        (SchedInfo.SuggestionAll d) (negb (bool_decide (SchedInfo.Candidates d = []))) selected candidates in
      let dirty := if negb (SchedInfo.IsSuggestion d) && negb (SchedInfo.SkipDirtyMarkHost d)
                   then (λ p, (cand_IndexKey p.1, p.2)) <$> selected else [] in
      Ret (items, dirty, u)
  end.

End Filter.

Arguments check Pred R E : clear implicits.
Arguments race Pred C R E : clear implicits.

(** ** The configured predicates *)

Section Configured.
(** The texts of reasons and errors, which only appear in the log. *)
Context (env : Env) (reason_str : reason → string) (error_str : error → string).

Definition env_SchedPredicate : SchedPredicate Predicates.Predicate Candidater reason error := {|
  pred_Name := Predicates.Name;
  pred_PreExecute := Predicates.PreExecute env;
  pred_Execute := Predicates.Execute env;
  cand_IndexKey := IndexKey;
  cand_Name := CandidateName;
  reason_string := reason_str;
  error_string := error_str |}.

(** [GetDiskStoragesMap] writes a map that the checks of all candidates share, without a lock; the other predicates write
    their own state before the checks, or a [sync.Map]. *)
Definition unlocked (p : Predicates.Predicate) : bool :=
  match p with Predicates.DiskSchedtagPredicate => true | _ => false end.

(** ** The priorities of guests (algorithm/priorities) *)

Inductive Priority := AvoidSameHost | LowLoad | Creating | CapacityPriority.

Definition priority_Name (p : Priority) : string :=
  match p with
  | AvoidSameHost => "guest_avoid_same_host"
  | LowLoad => "host_lowload"
  | Creating => "creating"
  | CapacityPriority => "host_capacity"
  end.

Definition ScoreIntervals (p : Priority) : Score.Intervals :=
  match p with LowLoad => Score.NewIntervals 0 1 5 | _ => Score.NewIntervals 0 1 2 end.

(** [setIntervalScore] and [setRawScore]. *)
Definition interval_score (p : Priority) (val : Z) : Score.SScore :=
  Score.NewScore (Score.ToScore (ScoreIntervals p) val) (priority_Name p).
Definition raw_score (p : Priority) (val : Z) : Score.SScore := Score.NewScore val (priority_Name p).

(** [int(score)] of a float64 that is between 0 and 10. *)
Definition f64_to_int (f : Condition.float64) : Z := Storages.f32_to_int f.

(** The score of a host with little load. *)
Definition lowload (h : HostDesc.HostDesc) : option Z :=
  let rate a b := Condition.f_div (Condition.f_of_int a) (Condition.f_of_int b) in
  let half := Condition.f_div (Condition.f_of_int 1) (Condition.f_of_int 2) in
  let cpuCommitRate := rate (HostDesc.RunningCPUCount h) (HostDesc.TotalCPUCount h) in
  let memCommitRate := rate (HostDesc.RunningMemSize h) (HostDesc.TotalMemSize h) in
  if SFltb cpuCommitRate half && SFltb memCommitRate half then
    Some (f64_to_int (Condition.f_mul (Condition.f_of_int 10)
      (Condition.f_sub (Condition.f_sub (Condition.f_of_int 1) cpuCommitRate) memCommitRate)))
  else None.

Abbreviation GU := (Unit Predicates.Predicate reason).

Definition priority_Map (p : Priority) (u : GU) (c : Candidater) : outcome error GU :=
  let key := IndexKey c in
  match p with
  | AvoidSameHost =>
    let! hc := HostCandidate c in
    Ret (match HostDesc.Tenants (HostDesc.Host hc) !! SchedInfo.Project (SchedData u) with
         | Some count => if 0 <? count then SetFrontScore u key (raw_score p (-1 * count)) else u
         | None => u
         end)
  | LowLoad =>
    let! hc := HostCandidate c in
    Ret (match lowload hc with Some score => SetScore u key (interval_score p score) | None => u end)
  | Creating =>
    let! hc := HostCandidate c in
    Ret (if 0 <? HostDesc.CreatingGuestCount hc
         then SetFrontScore u key (interval_score p (- HostDesc.CreatingGuestCount hc)) else u)
  | CapacityPriority =>
    let (capacity, u) := GetCapacity u key in
    Ret (SetScore u key (raw_score p capacity))
  end.

(** [processCandidate] for all candidates: the error of a priority ends the work on that candidate. *)
Fixpoint map_priorities (ps : list Priority) (u : GU) (c : Candidater)
  : outcome error GU * GU :=
  match ps with
  | [] => (Ret u, u)
  | p :: ps => match priority_Map p u c with
               | Ret u => map_priorities ps u c
               | m => (m, u)
               end
  end.

Fixpoint process_candidates (ps : list Priority) (u : GU) (cs : list Candidater)
    (es : list error) : outcome (list error) (GU * list error) :=
  match cs with
  | [] => Ret (u, es)
  | c :: cs =>
    match map_priorities ps u c with
    | (Ret _, u) => process_candidates ps u cs es
    | (Fail e, u) => process_candidates ps u cs (es ++ [e])
    | (Panic, _) => Panic
    | (OutOfFuel, _) => OutOfFuel
    end
  end.

(** [EqualPriority], used when no priority is configured; a candidate without a key is an error. *)
Fixpoint equal_priorities (cs : list Candidater) : option (list Score.HostPriority) :=
  match cs with
  | [] => Some []
  | c :: cs =>
    if String.eqb (IndexKey c) "" then None
    else rest ← equal_priorities cs; Some (Score.MkHost (IndexKey c) [Score.NewZeroScore] :: rest)
  end.

(** [PrioritizeCandidates]: the priorities of every candidate, then its plugins, then its bucket.  The channel of errors
    holds three for each priority, and it is read only after all candidates: with more errors the workers block and it does
    not return. *)
Definition PrioritizeCandidates (ps : list Priority) (u : GU) (cs : list Candidater)
  : outcome (list error) (list Score.HostPriority * GU) :=
  match ps with
  | [] => match equal_priorities cs with Some l => Ret (l, u) | None => Fail [EmptyIndexKey] end
  | _ =>
    let! (u, es) := process_candidates ps u cs [] in
    match es with
    | [] =>
      let u := foldl (λ u c, foldl (λ u p, Predicates.OnPriorityEnd env p u c) u (selectPlugins u)) u cs in
      Ret ((λ c, Score.MkHost (IndexKey c) (GetScore u (IndexKey c))) <$> cs, u)
    | _ => if bool_decide (3 * length ps < length es)%nat then OutOfFuel else Fail es
    end
  end.

Definition defaultPriorities : list Priority := [AvoidSameHost; CapacityPriority; Creating; LowLoad].

End Configured.

End Schedule.
