(* ===== verification/CapacityProofs.v ===== *)
(** * Capacities of the scheduling unit: proofs about counters, the capacity table and the helper *)

From S2P Require Import Prelude SchedInfo Score Storages Unit.
Import Unit.
Local Open Scope Z_scope.

Module CapacityProofs.

(** ** Counters *)

(** Induction over counters with the hypothesis for every member of a list. *)
Section Induction.
Context (Q : Counter → Prop).
Context (Hn : ∀ v, Q (NormalCounter v)) (Hs : ∀ cs sum, Forall Q cs → Q (Counters cs sum))
  (Hm : ∀ cs, Forall Q cs → Q (MinCounters cs)).

Fixpoint counter_ind' (c : Counter) : Q c :=
  let fix all (cs : list Counter) : Forall Q cs :=
    match cs with
    | [] => Forall_nil_2 Q
    | c :: cs => Forall_cons_2 Q c cs (counter_ind' c) (all cs)
    end in
  match c with
  | NormalCounter v => Hn v
  | Counters cs sum => Hs cs sum (all cs)
  | MinCounters cs => Hm cs (all cs)
  end.
End Induction.

(** Keeping the sums does not change a count. *)
Lemma GetCount_counted c : GetCount (counted c) = GetCount c.
Proof.
  induction c as [v|cs sum IH|cs IH] using counter_ind'; [done|..].
  - assert (map GetCount (map counted cs) = map GetCount cs) as Hmap.
    { induction IH as [|c cs Hc _ IHcs]; [done|]. cbn [map]. by rewrite Hc, IHcs. }
    cbn [counted GetCount]. destruct (sum =? EmptyCapacity) eqn:E; cbn [GetCount]; [|by rewrite E].
    destruct (add_counts _ =? EmptyCapacity); [by rewrite Hmap|done].
  - assert (map GetCount (map counted cs) = map GetCount cs) as Hmap.
    { induction IH as [|c cs Hc _ IHcs]; [done|]. cbn [map]. by rewrite Hc, IHcs. }
    cbn [counted GetCount]. by rewrite Hmap.
Qed.

(** A sum counter after any number of additions: the cached sum is never stale. *)
Lemma Counters_Add_count cs sum c :
  GetCount (Counters_Add (Counters cs sum) c) = add_counts (map GetCount (cs ++ [c])).
Proof. done. Qed.

(** ** The least count *)

Lemma least_count_lower values n :
  n ≤ least_count values ↔ n ≤ MaxCapacity ∧ ∀ name c, values !! name = Some c → n ≤ GetCount c.
Proof.
  unfold least_count.
  induction values as [|name c values Hn Hff IH] using map_first_key_ind.
  { rewrite map_fold_empty. split; [|by intros []]. intros Hle. split; [done|]. intros ?? H. by rewrite lookup_empty in H. }
  rewrite map_fold_insert_first_key by done.
  set (rest := map_fold _ _ _) in *. split.
  - intros Hle. assert (n ≤ rest ∧ n ≤ GetCount c) as [Hr Hc].
    { destruct (Z.ltb_spec (GetCount c) rest); lia. }
    apply IH in Hr as [Hmax Hall]. split; [done|]. intros name' c'.
    destruct (decide (name = name')) as [<-|Hne].
    + rewrite lookup_insert_eq. by intros [= <-].
    + rewrite lookup_insert_ne by done. apply Hall.
  - intros [Hmax Hall].
    assert (n ≤ GetCount c) by (apply (Hall name); apply lookup_insert_eq).
    assert (n ≤ rest).
    { apply IH. split; [done|]. intros name' c' H'. apply (Hall name'). rewrite lookup_insert_ne; [done|congruence]. }
    destruct (Z.ltb_spec (GetCount c) rest); lia.
Qed.

Lemma least_count_le values name c : values !! name = Some c → least_count values ≤ GetCount c.
Proof. intros H. eapply least_count_lower; [reflexivity|exact H]. Qed.

Section Unit.
Context {P R : Type}.
Implicit Types (u : Unit P R) (h : PredicateHelper P R).

(** ** The table *)

(** Every recorded counter counts from zero, and a cached minimum is the minimum. *)
Definition capacity_ok (o : Capacity) : Prop :=
  (∀ name c, Values o !! name = Some c → 0 ≤ GetCount c) ∧ (MinValue o = EmptyCapacity ∨ MinValue o = least_count (Values o)).

Definition unit_ok u : Prop := map_Forall (λ _, capacity_ok) (CapacityMap u).

Lemma least_count_nonneg o : capacity_ok o → 0 ≤ least_count (Values o).
Proof. intros [H _]. apply least_count_lower. done. Qed.

(** [GetCapacity] is the least count of the predicates that recorded one, cached or not. *)
Lemma GetCapacity_spec u key : unit_ok u →
  (GetCapacity u key).1 = match CapacityMap u !! key with Some o => least_count (Values o) | None => 0 end.
Proof.
  intros Hok. unfold GetCapacity. destruct (CapacityMap u !! key) as [o|] eqn:E; [|done].
  destruct (Hok _ _ E) as [_ [Hmin|Hmin]]; [by rewrite Hmin|]. rewrite Hmin.
  pose proof (least_count_nonneg o (Hok _ _ E)). by destruct (Z.eqb_spec (least_count (Values o)) EmptyCapacity).
Qed.

Lemma SetCapacity_ok u key name c : unit_ok u → unit_ok (SetCapacity u key name c).2.
Proof.
  intros Hok. unfold SetCapacity. destruct (validateCapacityInput c) eqn:Ev; [|done]. cbn [negb snd].
  unfold unit_ok. cbn. apply map_Forall_insert_2; [|done]. split; [|by left]. cbn. intros name' c'.
  unfold validateCapacityInput in Ev. apply Z.leb_le in Ev.
  destruct (decide (name = name')) as [<-|Hne].
  - rewrite lookup_insert_eq. intros [= <-]. by rewrite GetCount_counted.
  - rewrite lookup_insert_ne by done. intros H. destruct (CapacityMap u !! key) as [o|] eqn:Eo; cbn in H.
    + destruct (Hok _ _ Eo) as [Hv _]. by apply (Hv name').
    + by rewrite lookup_empty in H.
Qed.

Lemma GetCapacity_ok u key : unit_ok u → unit_ok (GetCapacity u key).2.
Proof.
  intros Hok. unfold GetCapacity. destruct (CapacityMap u !! key) as [o|] eqn:E; [|done].
  destruct (MinValue o =? EmptyCapacity); [|done]. unfold unit_ok. cbn. apply map_Forall_insert_2; [|done].
  split; [|by right]. apply (Hok _ _ E).
Qed.

(** Reading a capacity changes no capacity. *)
Lemma GetCapacity_stable u key key' : unit_ok u → (GetCapacity (GetCapacity u key).2 key').1 = (GetCapacity u key').1.
Proof.
  intros Hok. rewrite !GetCapacity_spec by (try apply GetCapacity_ok; done).
  unfold GetCapacity. destruct (CapacityMap u !! key) as [o|] eqn:E; [|done].
  destruct (MinValue o =? EmptyCapacity); [|done]. cbn.
  destruct (decide (key = key')) as [<-|Hne]; [by rewrite lookup_insert_eq, E|by rewrite lookup_insert_ne].
Qed.

(** ** What a predicate does to the table *)

(** The counter that a predicate has recorded for a candidate. *)
Definition recorded u (key name : string) : option Counter := o ← CapacityMap u !! key; Values o !! name.

(** The table after a predicate recorded a counter, if it did. *)
Definition record u (key name : string) (k : option Counter) : gmap string Capacity :=
  match k with Some c => CapacityMap (SetCapacity u key name c).2 | None => CapacityMap u end.

(** Two units that agree on everything except the shared counters, the log and the failures. *)
Definition quiet u u' : Prop :=
  SchedData u' = SchedData u ∧ CapacityMap u' = CapacityMap u ∧ ScoreMap u' = ScoreMap u ∧
  selectPlugins u' = selectPlugins u ∧ CandidateDiskStoragesMap u' = CandidateDiskStoragesMap u.

#[global] Instance quiet_preorder : PreOrder quiet.
Proof. split; [done|]. intros u1 u2 u3 (?&?&?&?&?) (?&?&?&?&?). repeat split; congruence. Qed.

(** The storages of disks after a predicate noted some for a candidate, if it did. *)
Definition noted u (key : string) (w : option Storages.DiskStoragesMap) : gmap string Storages.DiskStoragesMap :=
  match w with Some ds => <[key := ds]> (CandidateDiskStoragesMap u) | None => CandidateDiskStoragesMap u end.

(** [u'] is [u] after recording [k] and noting [w] for one candidate and predicate. *)
Definition effect (key name : string) (k : option Counter) (w : option Storages.DiskStoragesMap) u u' : Prop :=
  SchedData u' = SchedData u ∧ CapacityMap u' = record u key name k ∧ ScoreMap u' = ScoreMap u ∧
  selectPlugins u' = selectPlugins u ∧ CandidateDiskStoragesMap u' = noted u key w.

Lemma record_other u key name k key' : key' ≠ key → record u key name k !! key' = CapacityMap u !! key'.
Proof.
  intros Hne. destruct k as [c|]; [|done]. unfold record, SetCapacity.
  destruct (validateCapacityInput c); [|done]. cbn. by rewrite lookup_insert_ne.
Qed.

(** The entry of the candidate depends only on what it was. *)
Lemma record_same u1 u2 key name k :
  CapacityMap u1 !! key = CapacityMap u2 !! key → record u1 key name k !! key = record u2 key name k !! key.
Proof.
  intros H. destruct k as [c|]; [|done]. unfold record, SetCapacity.
  destruct (validateCapacityInput c); [|done]. cbn. by rewrite !lookup_insert_eq, H.
Qed.

Lemma record_ext u v key name k : CapacityMap v = CapacityMap u → record v key name k = record u key name k.
Proof.
  intros E. destruct k as [c|]; [|done]. unfold record, SetCapacity. destruct (validateCapacityInput c); [|done].
  cbn. by rewrite E.
Qed.

Lemma record_ok u u' key name k : unit_ok u → CapacityMap u' = record u key name k → unit_ok u'.
Proof.
  intros Hok E. unfold unit_ok. rewrite E. destruct k as [c|]; [|done]. by apply (SetCapacity_ok u key name c).
Qed.

(** Recording a valid counter over another one. *)
Lemma record_again u u' key name k c : CapacityMap u' = record u key name k → validateCapacityInput c = true →
  record u' key name (Some c) = record u key name (Some c).
Proof.
  intros E Hv. unfold record, SetCapacity. rewrite Hv. cbn. rewrite E. destruct k as [c'|]; [|done].
  unfold record, SetCapacity. destruct (validateCapacityInput c'); [|done]. cbn.
  rewrite lookup_insert_eq. cbn. by rewrite insert_insert_eq, insert_insert_eq.
Qed.

(** ** The helper *)

(** A helper made from [u] for a predicate and a candidate, that has recorded [k] so far. *)
Definition helps (key name : string) (k : option Counter) u h : Prop :=
  predicate h = name ∧ CandidateKey h = key ∧ effect key name k None u (HelperUnit h).

Lemma helps_new key name u u' : quiet u u' → helps key name None u (NewPredicateHelper name u' key).
Proof. intros (?&?&?&?&?). by repeat split. Qed.

Lemma helps_start key name u : helps key name None u (NewPredicateHelper name u key).
Proof. by apply helps_new. Qed.

Lemma helps_fail key name k u h r : helps key name k u h → helps key name k u (AppendPredicateFail h r).
Proof. intros H. exact H. Qed.

Lemma helps_counter key name k u h c : validateCapacityInput c = true →
  helps key name k u h → helps key name (Some c) u (SetCapacityCounter h c).
Proof.
  intros Hv (Hn & Hk & Hd & Hc & Hs & Hp & Hw). unfold helps. cbn. rewrite Hn, Hk. split; [done|]. split; [done|].
  split; [|split; [|split; [|split]]].
  2: { change (record (HelperUnit h) key name (Some c) = record u key name (Some c)). by eapply record_again. }
  all: unfold SetCapacity; by rewrite Hv.
Qed.

Lemma helps_rejected key name k u h c : validateCapacityInput c = false →
  helps key name k u h → helps key name k u (SetCapacityCounter h c).
Proof. intros Hv H. unfold helps. cbn. unfold SetCapacity. by rewrite Hv. Qed.

Lemma helps_capacity key name k u h z :
  helps key name k u h → helps key name (Some (NormalCounter (Z.max z 0))) u (HelperSetCapacity h z).
Proof.
  intros H. unfold HelperSetCapacity. replace (if z <? 0 then 0 else z) with (Z.max z 0) by (destruct (Z.ltb_spec z 0); lia).
  eapply helps_counter; [|exact H]. unfold validateCapacityInput. cbn. apply Z.leb_le. lia.
Qed.

Lemma helps_exclude key name k u h r :
  helps key name k u h → helps key name (Some (NormalCounter 0)) u (Exclude h r).
Proof. intros H. apply helps_fail. by apply (helps_capacity _ _ _ _ _ 0) in H. Qed.

(** What a helper says depends on its failures and its last capacity only. *)
Lemma getResult_true h rs : getResult h = (true, rs) ↔ rs = [] ∧ predicateFails h = [] ∧ capacity h ≠ 0.
Proof.
  unfold getResult. destruct (predicateFails h); [|split; [done|naive_solver]].
  destruct (Z.eqb_spec (capacity h) 0); split; naive_solver.
Qed.

Lemma recorded_effect key name c w u u' : validateCapacityInput c = true →
  effect key name (Some c) w u u' → recorded u' key name = Some (counted c).
Proof.
  intros Hv (_ & Hc & _). unfold recorded. rewrite Hc. unfold record, SetCapacity. rewrite Hv. cbn.
  by rewrite lookup_insert_eq; cbn; rewrite lookup_insert_eq.
Qed.

Lemma recorded_capacity u key name c : unit_ok u → recorded u key name = Some c →
  0 ≤ (GetCapacity u key).1 ≤ GetCount c.
Proof.
  intros Hok Hr. rewrite GetCapacity_spec by done. unfold recorded in Hr.
  destruct (CapacityMap u !! key) as [o|] eqn:E; [|done]. cbn in Hr.
  split; [apply least_count_nonneg, (Hok _ _ E)|by eapply least_count_le].
Qed.

(** Recording under another name keeps what was recorded. *)
Lemma recorded_other u u' key name name' k : name' ≠ name →
  CapacityMap u' = record u key name k → recorded u' key name' = recorded u key name'.
Proof.
  intros Hne E. unfold recorded. rewrite E. destruct k as [c|]; [|done]. unfold record, SetCapacity.
  destruct (validateCapacityInput c); [|done]. cbn. rewrite lookup_insert_eq. cbn. rewrite lookup_insert_ne by done.
  by destruct (CapacityMap u !! key).
Qed.

End Unit.

End CapacityProofs.
