(* ===== verification/PredicateLocality.v ===== *)
(** * Predicates are local: what the scheduler relies on when it runs them in parallel

    A predicate's verdict does not depend on the tables of the unit, and it writes only the capacity of its own
    candidate under its own name, and, if it is the disk predicate, the storages it notes for that candidate.  The class
    states this for any family of predicates; the configured predicates are an instance. *)

From S2P Require Import Prelude Netutils Networks Schedtag SchedInfo Score Storages Unit HostDesc.
From S2P Require Import Candidates CommonPredicates GuestPredicates BaremetalPredicates Predicates.
From S2P Require Import Schedule CapacityProofs.
Import Unit Schedule CapacityProofs.
Local Open Scope Z_scope.
Local Open Scope go_scope.

Module PredicateLocality.

(** ** Related outcomes *)

Definition orel {E A B} (Q : A → B → Prop) (m1 : outcome E A) (m2 : outcome E B) : Prop :=
  match m1, m2 with
  | Ret a, Ret b => Q a b
  | Fail e1, Fail e2 => e1 = e2
  | Panic, Panic | OutOfFuel, OutOfFuel => True
  | _, _ => False
  end.

Lemma orel_bind {E A B A' B'} (Q : A → B → Prop) (Q' : A' → B' → Prop) (m1 : outcome E A) (m2 : outcome E B) k1 k2 :
  orel Q m1 m2 → (∀ a b, Q a b → orel Q' (k1 a) (k2 b)) → orel Q' (obind m1 k1) (obind m2 k2).
Proof. intros Hm Hk. destruct m1, m2; cbn in *; try done. by apply Hk. Qed.

Lemma orel_refl {E A} (Q : A → A → Prop) (m : outcome E A) : (∀ a, Q a a) → orel Q m m.
Proof. intros H. by destruct m; cbn. Qed.

Lemma orel_bind_same {E A A' B'} (Q' : A' → B' → Prop) (m : outcome E A) k1 k2 :
  (∀ a, orel Q' (k1 a) (k2 a)) → orel Q' (obind m k1) (obind m k2).
Proof. intros H. by destruct m; cbn. Qed.

(** ** The class *)

Section Class.
Context {Pred R : Type}.

(** The outcomes of one predicate for one candidate on two units. *)
Definition same_result {E} (inv : Unit Pred R → Prop) (key name : string) (u1 u2 : Unit Pred R)
  : outcome E (bool * list R * Unit Pred R) → outcome E (bool * list R * Unit Pred R) → Prop :=
  orel (λ r1 r2, r1.1 = r2.1 ∧ ∃ k w, effect key name k w u1 r1.2 ∧ effect key name k w u2 r2.2 ∧ inv r1.2 ∧ inv r2.2 ∧
    (name ≠ CommonPredicates.disk_Name → w = None)).

Lemma same_result_bind {E A} inv key name u1 u2 (m : outcome E A) k1 k2 :
  (∀ a, same_result inv key name u1 u2 (k1 a) (k2 a)) → same_result inv key name u1 u2 (obind m k1) (obind m k2).
Proof. apply orel_bind_same. Qed.
End Class.

(** The part of a unit that [PreExecute] leaves alone. *)
Definition untouched {Pred R} (u u' : Unit Pred R) : Prop :=
  SchedData u' = SchedData u ∧ CapacityMap u' = CapacityMap u ∧ CounterMap u' = CounterMap u ∧
  CandidateDiskStoragesMap u' = CandidateDiskStoragesMap u.

(** [inv] is what the predicates keep about the shared counters; [known] tells which candidates they may meet. *)
Class LocalPredicates `{SchedPredicate Pred C R E} (inv : Unit Pred R → Prop) (known : C → Prop) : Prop := {
  lp_inv_ext : ∀ u u', CounterMap u' = CounterMap u → inv u → inv u';
  lp_pre : ∀ p u ok p' u', pred_PreExecute p u = Ret (ok, p', u') → untouched u u' ∧ pred_Name p' = pred_Name p;
  lp_local : ∀ p u1 u2 c, known c → SchedData u1 = SchedData u2 → inv u1 → inv u2 →
    CandidateDiskStoragesMap u1 !! cand_IndexKey c = CandidateDiskStoragesMap u2 !! cand_IndexKey c →
    same_result inv (cand_IndexKey c) (pred_Name p) u1 u2 (pred_Execute p u1 c) (pred_Execute p u2 c) }.

(** ** Helpers on two units *)

Section Helpers.
Context {Pred R : Type} (inv : Unit Pred R → Prop).
Context (inv_ext : ∀ u u', CounterMap u' = CounterMap u → inv u → inv u').
Context (key name : string) (u1 u2 : Unit Pred R).

Record hsim (h1 h2 : PredicateHelper Pred R) : Prop := {
  hs_effect : ∃ k, helps key name k u1 h1 ∧ helps key name k u2 h2;
  hs_fails : predicateFails h1 = predicateFails h2;
  hs_capacity : capacity h1 = capacity h2;
  hs_inv1 : inv (HelperUnit h1);
  hs_inv2 : inv (HelperUnit h2) }.

Lemma hsim_new u1' u2' : quiet u1 u1' → quiet u2 u2' → inv u1' → inv u2' →
  hsim (NewPredicateHelper name u1' key) (NewPredicateHelper name u2' key).
Proof. intros. split; [|done..]. exists None. by split; apply helps_new. Qed.

Lemma hsim_fail h1 h2 r : hsim h1 h2 → hsim (AppendPredicateFail h1 r) (AppendPredicateFail h2 r).
Proof. intros [[k He] Hf Hc ??]. split; [by exists k|cbn; by rewrite Hf|done..]. Qed.

Lemma SetCapacity_counters (u : Unit Pred R) k n c : CounterMap (SetCapacity u k n c).2 = CounterMap u.
Proof. unfold SetCapacity. by destruct (validateCapacityInput c). Qed.

Lemma hsim_counter h1 h2 c : hsim h1 h2 → hsim (SetCapacityCounter h1 c) (SetCapacityCounter h2 c).
Proof.
  intros [(k & He1 & He2) Hf Hc Hi1 Hi2]. split; [|done|done|..].
  - destruct (validateCapacityInput c) eqn:Hv.
    + exists (Some c). by split; eapply helps_counter.
    + exists k. by split; apply helps_rejected.
  - apply (inv_ext (HelperUnit h1)); [apply SetCapacity_counters|done].
  - apply (inv_ext (HelperUnit h2)); [apply SetCapacity_counters|done].
Qed.

Lemma hsim_capacity h1 h2 z : hsim h1 h2 → hsim (HelperSetCapacity h1 z) (HelperSetCapacity h2 z).
Proof. apply hsim_counter. Qed.

Lemma hsim_exclude h1 h2 r : hsim h1 h2 → hsim (Exclude h1 r) (Exclude h2 r).
Proof. intros H. by apply hsim_fail, hsim_capacity. Qed.

Lemma hsim_result {E} h1 h2 : hsim h1 h2 →
  same_result (E := E) inv key name u1 u2 (Ret (getResult h1, HelperUnit h1)) (Ret (getResult h2, HelperUnit h2)).
Proof.
  intros [(k & (_ & _ & He1) & (_ & _ & He2)) Hf Hc ??]. cbn. split; [unfold getResult; by rewrite Hf, Hc|by exists k, None].
Qed.
End Helpers.

#[global] Hint Resolve hsim_fail hsim_capacity hsim_exclude : onecloud.

(** ** The configured predicates *)

Section Configured.
Import Candidates Predicates.
Context (env : Env) (reason_str : reason → string) (error_str : error → string).

(** The networks of all hosts: rows with one identifier are copies of one network. *)
Context (nets : list Networks.SNetwork).
Context (nets_copies : ∀ n n', n ∈ nets → n' ∈ nets → Networks.Id n = Networks.Id n' → Networks.GetPorts n = Networks.GetPorts n').

Definition ports_counter (n : Networks.SNetwork) : Counter := NormalCounter (int64_wrap (Networks.GetPorts n - 0)).

(** The shared counter of a network, once created, is its number of ports. *)
Definition counters_ok (u : U) : Prop :=
  ∀ n c, n ∈ nets → CounterMap u !! ("net:" +:+ Networks.Id n) = Some c → c = ports_counter n.

Definition known_host (c : Candidater) : Prop :=
  ∀ n, n ∈ HostDesc.HostNetworks (base_host c) → n ∈ nets.

Lemma counters_ok_ext u u' : CounterMap u' = CounterMap u → counters_ok u → counters_ok u'.
Proof. intros E H n c. rewrite E. apply H. Qed.

Lemma counterOfNetwork_spec u n : n ∈ nets → counters_ok u →
  ∃ u', GuestPredicates.counterOfNetwork u n 0 = (ports_counter n, u') ∧ quiet u u' ∧ counters_ok u'.
Proof.
  intros Hn Hok. unfold GuestPredicates.counterOfNetwork, GetOrCreate.
  destruct (CounterMap u !! ("net:" +:+ Networks.Id n)) as [c|] eqn:E.
  - rewrite (Hok n c Hn E). eexists. split; [done|]. split; [done|]. exact Hok.
  - eexists. split; [done|]. split; [done|]. intros n' c' Hn'. cbn.
    destruct (decide (Networks.Id n = Networks.Id n')) as [Heq|Hne].
    + rewrite <- Heq, lookup_insert_eq. intros [= <-]. unfold ports_counter. by rewrite (nets_copies n n' Hn Hn' Heq).
    + rewrite lookup_insert_ne; [by apply Hok|]. intros H. apply Hne. by injection H.
Qed.

(** What the search for networks does on two units. *)
Definition nets_sim {X} (u1 u2 : U) (r1 r2 : U * X) : Prop :=
  r1.2 = r2.2 ∧ quiet u1 r1.1 ∧ quiet u2 r2.1 ∧ counters_ok r1.1 ∧ counters_ok r2.1.

Lemma nets_sim_trans {X} u1 u2 u1' u2' (r1 r2 : U * X) :
  quiet u1 u1' → quiet u2 u2' → nets_sim u1' u2' r1 r2 → nets_sim u1 u2 r1 r2.
Proof. intros H1 H2 (?&?&?&?&?). split_and!; try done; etrans; eassumption. Qed.

Lemma random_loop_sim d private exit wire l : (∀ n, n ∈ l → n ∈ nets) → ∀ u1 u2 cs errs found,
  counters_ok u1 → counters_ok u2 →
  orel (λ r1 r2, nets_sim u1 u2 (r1.1.1.1, (r1.1.1.2, r1.1.2, r1.2)) (r2.1.1.1, (r2.1.1.2, r2.1.2, r2.2)))
    (GuestPredicates.random_loop env d private exit wire l u1 cs errs found)
    (GuestPredicates.random_loop env d private exit wire l u2 cs errs found).
Proof.
  induction l as [|n l IH]; intros Hl u1 u2 cs errs found H1 H2; cbn [GuestPredicates.random_loop].
  { cbn. by split_and!. }
  assert (∀ n, n ∈ l → n ∈ nets) as Hl' by (intros; apply Hl; by right).
  apply orel_bind_same. intros [|e es]; [|by apply IH].
  destruct (counterOfNetwork_spec u1 n) as (u1' & -> & Hq1 & H1'); [apply Hl; left|done|].
  destruct (counterOfNetwork_spec u2 n) as (u2' & -> & Hq2 & H2'); [apply Hl; left|done|].
  specialize (IH Hl' u1' u2' (Counters_Add cs (ports_counter n)) errs true H1' H2').
  destruct (GuestPredicates.random_loop _ _ _ _ _ _ u1' _ _ _), (GuestPredicates.random_loop _ _ _ _ _ _ u2' _ _ _); cbn in *; try done.
  by eapply nets_sim_trans.
Qed.

Lemma isRandomNetworkAvailable_sim hc d private exit wire u1 u2 cs : known_host (HostC hc) →
  counters_ok u1 → counters_ok u2 →
  orel (λ r1 r2, nets_sim u1 u2 (r1.1.2, (r1.1.1, r1.2)) (r2.1.2, (r2.1.1, r2.2)))
    (GuestPredicates.isRandomNetworkAvailable env hc d private exit wire u1 cs)
    (GuestPredicates.isRandomNetworkAvailable env hc d private exit wire u2 cs).
Proof.
  intros Hk H1 H2. unfold GuestPredicates.isRandomNetworkAvailable. eapply orel_bind; [by apply random_loop_sim|].
  intros [[[u1' c1] e1] f1] [[[u2' c2] e2] f2] (E & Hs). cbn in E. simplify_eq. cbn. by split.
Qed.

Lemma named_loop_sim d network l : (∀ n, n ∈ l → n ∈ nets) → ∀ u1 u2 cs errs, counters_ok u1 → counters_ok u2 →
  let r1 := GuestPredicates.named_loop d network l u1 cs errs in let r2 := GuestPredicates.named_loop d network l u2 cs errs in
  nets_sim u1 u2 (r1.1.2, (r1.1.1, r1.2)) (r2.1.2, (r2.1.1, r2.2)).
Proof.
  induction l as [|n l IH]; intros Hl u1 u2 cs errs H1 H2; cbn [GuestPredicates.named_loop]; cbv zeta.
  { by split_and!. }
  assert (∀ n, n ∈ l → n ∈ nets) as Hl' by (intros; apply Hl; by right).
  destruct (negb _); [by apply IH|]. destruct (negb _); [by apply IH|]. destruct (negb _); [by apply IH|].
  destruct (counterOfNetwork_spec u1 n) as (u1' & -> & Hq1 & H1'); [apply Hl; left|done|].
  destruct (counterOfNetwork_spec u2 n) as (u2' & -> & Hq2 & H2'); [apply Hl; left|done|].
  destruct (_ <? _); [eapply nets_sim_trans; [exact Hq1|exact Hq2|by apply IH]|by split_and!].
Qed.

Lemma isNetworkAvaliable_sim hc d n u1 u2 cs : known_host (HostC hc) → counters_ok u1 → counters_ok u2 →
  orel (λ r1 r2, nets_sim u1 u2 (r1.1.2, (r1.1.1, r1.2)) (r2.1.2, (r2.1.1, r2.2)))
    (GuestPredicates.isNetworkAvaliable env hc d n u1 cs) (GuestPredicates.isNetworkAvaliable env hc d n u2 cs).
Proof.
  intros Hk H1 H2. unfold GuestPredicates.isNetworkAvaliable. destruct (String.eqb _ _).
  - eapply orel_bind; [by apply isRandomNetworkAvailable_sim|].
    intros [[m1 u1'] c1] [[m2 u2'] c2] (E & Hs). cbn in E. simplify_eq. by split.
  - destruct (HostDesc.HostNetworks (HostDesc.Host hc)) as [|x l] eqn:El; [cbn; by split_and!|].
    cbn [orel]. apply (named_loop_sim d _ (x :: l)); [|done..]. intros n' Hn'. apply Hk. cbn [base_host]. by rewrite El.
Qed.

Lemma specified_loop_sim hc d ns : known_host (HostC hc) → ∀ u1 u2 cs errs, counters_ok u1 → counters_ok u2 →
  orel (λ r1 r2, nets_sim u1 u2 (r1.1.1, (r1.1.2, r1.2)) (r2.1.1, (r2.1.2, r2.2)))
    (GuestPredicates.specified_loop env hc d ns u1 cs errs) (GuestPredicates.specified_loop env hc d ns u2 cs errs).
Proof.
  intros Hk. induction ns as [|n ns IH]; intros u1 u2 cs errs H1 H2; cbn [GuestPredicates.specified_loop]; [cbn; by split_and!|].
  eapply orel_bind; [by apply isNetworkAvaliable_sim|].
  intros [[m1 u1'] c1] [[m2 u2'] c2] (E & Hq1 & Hq2 & H1' & H2'). cbn in E, Hq1, Hq2, H1', H2'. simplify_eq.
  specialize (IH u1' u2' c2 (if String.eqb m2 "" then errs else errs ++ [m2]) H1' H2').
  destruct (GuestPredicates.specified_loop _ _ _ _ u1' _ _), (GuestPredicates.specified_loop _ _ _ _ u2' _ _); cbn in *; try done. by eapply nets_sim_trans.
Qed.

(** A predicate whose [PreExecute] gathers no data. *)
Definition plain (p : Predicate) : Prop := match p with Group _ | AggregatePredicate _ => False | _ => True end.

Lemma PreExecute_spec p u ok q u' : PreExecute env p u = Ret (ok, q, u') →
  untouched u u' ∧ Name q = Name p ∧ (plain p → q = p).
Proof.
  destruct p as [| |t| | |g| | | | | | | | | | | | |]; cbn; try (intros [= <- <- <-]; done).
  - destruct (CommonPredicates.aggregate_PreExecute env u) as [[t'|]| | |]; cbn; try done; intros [= <- <- <-]; done.
  - unfold GuestPredicates.group_PreExecute. destruct (SchedInfo.GroupRelations (SchedData u)); intros [= <- <- <-]; done.
  - destruct (CommonPredicates.disk_PreExecute u); intros [= <- <- <-]; done.
  - destruct (BaremetalPredicates.base_PreExecute env); intros [= <- <- <-]; done.
Qed.

(** Whether a predicate wants to run, and the data it gathers, depend on the request only. *)
Lemma PreExecute_data p u1 u2 ok q u1' : SchedData u1 = SchedData u2 →
  PreExecute env p u1 = Ret (ok, q, u1') → ∃ u2', PreExecute env p u2 = Ret (ok, q, u2').
Proof.
  intros E. destruct p as [| |t| | |g| | | | | | | | | | | | |]; cbn.
  all: unfold GuestPredicates.migrate_PreExecute, GuestPredicates.cpu_PreExecute, GuestPredicates.memory_PreExecute,
    GuestPredicates.storage_PreExecute, GuestPredicates.network_PreExecute, GuestPredicates.isolated_device_PreExecute,
    GuestPredicates.group_PreExecute, CommonPredicates.aggregate_PreExecute, CommonPredicates.resource_type_PreExecute,
    CommonPredicates.disk_PreExecute, CommonPredicates.instance_type_PreExecute, BaremetalPredicates.network_PreExecute,
    ShouldExecuteSchedtagFilter; rewrite ?E; try (intros [= <- <- <-]; by eexists).
  - repeat case_match; cbn; try done; intros [= <- <- <-]; by eexists.
  - destruct (SchedInfo.GroupRelations (SchedData u2)); intros [= <- <- <-]; by eexists.
  - destruct (negb _); intros [= <- <- <-]; by eexists.
  - destruct (BaremetalPredicates.base_PreExecute env); intros [= <- <- <-]; by eexists.
Qed.

(** The network predicate. *)
Lemma network_local u1 u2 c : known_host c → SchedData u1 = SchedData u2 → counters_ok u1 → counters_ok u2 →
  same_result counters_ok (IndexKey c) GuestPredicates.network_Name u1 u2
    (GuestPredicates.network_Execute env u1 c) (GuestPredicates.network_Execute env u2 c).
Proof.
  intros Hk Hd H1 H2. unfold GuestPredicates.network_Execute. destruct c as [hc|]; [|done]. cbn [HostCandidate obind]. rewrite Hd.
  destruct (SchedInfo.Networks (SchedData u2)) as [|n ns].
  - eapply orel_bind; [by apply isRandomNetworkAvailable_sim|].
    intros [[m1 u1'] c1] [[m2 u2'] c2] (E & Hq1 & Hq2 & H1' & H2'). cbn in E, Hq1, Hq2, H1', H2'. simplify_eq.
    apply hsim_result, hsim_counter; [apply counters_ok_ext|].
    destruct (String.eqb m2 ""); [by apply hsim_new|]. apply hsim_exclude; [apply counters_ok_ext|by apply hsim_new].
  - eapply orel_bind; [by apply specified_loop_sim|].
    intros [[u1' c1] e1] [[u2' c2] e2] (E & Hq1 & Hq2 & H1' & H2'). cbn in E, Hq1, Hq2, H1', H2'. simplify_eq.
    destruct e2 as [|e es]; apply hsim_result.
    + apply hsim_counter; [apply counters_ok_ext|by apply hsim_new].
    + apply hsim_exclude; [apply counters_ok_ext|by apply hsim_new].
Qed.

(** The other predicates do not touch the shared counters: whatever the helper does, it does on both units. *)
Ltac local_step :=
  match goal with
  | |- same_result _ _ _ _ _ (obind ?m _) (obind ?m _) => apply same_result_bind; intros ?
  | |- same_result _ _ _ _ _ (GetResult _) (GetResult _) => apply hsim_result
  | |- hsim _ _ _ _ _ (NewPredicateHelper _ _ _) _ => by apply hsim_new
  | |- hsim _ _ _ _ _ (GuestPredicates.exclude_unless ?b _ _) _ => unfold GuestPredicates.exclude_unless
  | |- hsim _ _ _ _ _ (AppendPredicateFail _ _) _ => apply hsim_fail
  | |- hsim _ _ _ _ _ (HelperSetCapacity _ _) _ => apply hsim_capacity; [apply counters_ok_ext|]
  | |- hsim _ _ _ _ _ (Exclude _ _) _ => apply hsim_exclude; [apply counters_ok_ext|]
  | |- _ => case_go
  end.

Lemma size_loop_sim key name u1 u2 hc useRsvd reqs : ∀ m h1 h2, hsim counters_ok key name u1 u2 h1 h2 →
  let r1 := GuestPredicates.size_loop env hc useRsvd reqs m h1 in let r2 := GuestPredicates.size_loop env hc useRsvd reqs m h2 in
  r1.1 = r2.1 ∧ hsim counters_ok key name u1 u2 r1.2 r2.2.
Proof.
  induction reqs as [|[be [mx total]] reqs IH]; intros m h1 h2 Hh; cbn [GuestPredicates.size_loop]; [done|].
  destruct (GuestPredicates.getStorageCapacity _ _ _ _ _) as [cap free]. apply IH. destruct (cap =? 0); [by apply hsim_fail|done].
Qed.

Lemma storage_local u1 u2 c : SchedData u1 = SchedData u2 → counters_ok u1 → counters_ok u2 →
  same_result counters_ok (IndexKey c) GuestPredicates.storage_Name u1 u2
    (GuestPredicates.storage_Execute env u1 c) (GuestPredicates.storage_Execute env u2 c).
Proof.
  intros Hd H1 H2. unfold GuestPredicates.storage_Execute. apply same_result_bind. intros hc.
  unfold UseReserved. rewrite Hd. destruct (GuestPredicates.storage_requests _) as [sizes stores].
  destruct (list_find _ _) as [[i [store z]]|]; [by repeat local_step|].
  destruct (size_loop_sim (IndexKey c) GuestPredicates.storage_Name u1 u2 hc
    (negb (bool_decide (SchedInfo.IsolatedDevices (SchedData u2) = []))) (range env _ sizes) 0xFFFFFFFF
    (NewPredicateHelper GuestPredicates.storage_Name u1 (IndexKey c)) (NewPredicateHelper GuestPredicates.storage_Name u2 (IndexKey c)))
    as [E Hh]; [by apply hsim_new|].
  destruct (GuestPredicates.size_loop _ _ _ _ _ (NewPredicateHelper _ u1 _)) as [m1 h1],
    (GuestPredicates.size_loop _ _ _ _ _ (NewPredicateHelper _ u2 _)) as [m2 h2]. cbn in E, Hh. subst m2.
  by repeat local_step.
Qed.

(** The disk predicate: what it notes depends on what it had noted. *)
Lemma disk_loop_sim key name u1 u2 hyp se storages disks : ∀ idx ds h1 h2, hsim counters_ok key name u1 u2 h1 h2 →
  orel (λ r1 r2, r1.1 = r2.1 ∧ hsim counters_ok key name u1 u2 r1.2 r2.2)
    (CommonPredicates.disk_loop env hyp se storages idx disks ds h1)
    (CommonPredicates.disk_loop env hyp se storages idx disks ds h2).
Proof.
  induction disks as [|d disks IH]; intros idx ds h1 h2 Hh; cbn [CommonPredicates.disk_loop]; [done|].
  apply orel_bind_same. intros [|x l].
  - cbn. split; [done|]. apply hsim_exclude; [apply counters_ok_ext|done].
  - apply orel_bind_same. intros [[|m ms] errs]; apply IH; [apply hsim_exclude; [apply counters_ok_ext|]|]; done.
Qed.

(** The unit on which the disk predicate works, with what it has noted for the candidate so far. *)
Lemma GetDiskStoragesMap_spec (u : U) key : ∃ u',
  CommonPredicates.GetDiskStoragesMap u key = (default ∅ (CandidateDiskStoragesMap u !! key), u') ∧
  SchedData u' = SchedData u ∧ CapacityMap u' = CapacityMap u ∧ ScoreMap u' = ScoreMap u ∧
  selectPlugins u' = selectPlugins u ∧ CounterMap u' = CounterMap u ∧
  ∀ ds, <[key := ds]> (CandidateDiskStoragesMap u') = <[key := ds]> (CandidateDiskStoragesMap u).
Proof.
  unfold CommonPredicates.GetDiskStoragesMap. destruct (CandidateDiskStoragesMap u !! key) as [ds|]; cbn.
  - by exists u.
  - eexists. split; [done|]. split_and!; try done. intros ds. cbn. by rewrite insert_insert_eq.
Qed.

Lemma disk_local u1 u2 c : SchedData u1 = SchedData u2 → counters_ok u1 → counters_ok u2 →
  CandidateDiskStoragesMap u1 !! IndexKey c = CandidateDiskStoragesMap u2 !! IndexKey c →
  same_result counters_ok (IndexKey c) CommonPredicates.disk_Name u1 u2
    (CommonPredicates.disk_Execute env u1 c) (CommonPredicates.disk_Execute env u2 c).
Proof.
  intros Hd H1 H2 He. unfold CommonPredicates.disk_Execute.
  destruct (GetDiskStoragesMap_spec u1 (IndexKey c)) as (v1 & -> & D1 & C1 & S1 & P1 & K1 & W1).
  destruct (GetDiskStoragesMap_spec u2 (IndexKey c)) as (v2 & -> & D2 & C2 & S2 & P2 & K2 & W2).
  rewrite He. unfold ShouldExecuteSchedtagFilter. rewrite D1, D2, Hd.
  eapply orel_bind.
  { apply (disk_loop_sim (IndexKey c) CommonPredicates.disk_Name v1 v2), hsim_new; [done..| |]; by eapply counters_ok_ext. }
  intros [ds1 h1] [ds2 h2] [E Hh]. cbn in E, Hh. subst ds2.
  destruct Hh as [(k & (_ & _ & A1 & B1 & G1 & Q1 & N1) & (_ & _ & A2 & B2 & G2 & Q2 & N2)) Hf Hc I1 I2].
  cbn. split; [unfold getResult; by rewrite Hf, Hc|]. exists k, (Some ds1).
  unfold effect, noted in *. cbn. rewrite N1, N2, W1, W2.
  rewrite B1, B2, (record_ext u1 v1 _ _ _ C1), (record_ext u2 v2 _ _ _ C2).
  split_and!; try congruence; [by apply (counters_ok_ext (HelperUnit h1))|by apply (counters_ok_ext (HelperUnit h2))].
Qed.

(** The networks of baremetal machines. *)
Lemma bm_random_loop_sim d private exit wire l : (∀ n, n ∈ l → n ∈ nets) → ∀ u1 u2 cs errs,
  counters_ok u1 → counters_ok u2 →
  orel (λ r1 r2, nets_sim u1 u2 (r1.1.2, (r1.1.1, r1.2)) (r2.1.2, (r2.1.1, r2.2)))
    (BaremetalPredicates.random_loop env d private exit wire l u1 cs errs)
    (BaremetalPredicates.random_loop env d private exit wire l u2 cs errs).
Proof.
  induction l as [|n l IH]; intros Hl u1 u2 cs errs H1 H2; cbn [BaremetalPredicates.random_loop]; [cbn; by split_and!|].
  assert (∀ n, n ∈ l → n ∈ nets) as Hl' by (intros; apply Hl; by right).
  apply orel_bind_same. intros es. destruct (_ || _); [|by apply IH]. destruct (_ =? 0); [by apply IH|].
  destruct (counterOfNetwork_spec u1 n) as (u1' & -> & Hq1 & H1'); [apply Hl; left|done|].
  destruct (counterOfNetwork_spec u2 n) as (u2' & -> & Hq2 & H2'); [apply Hl; left|done|]. by split_and!.
Qed.

Lemma bm_specified_loop_sim b d ns : known_host (BaremetalC b) → ∀ u1 u2 found cs errs, counters_ok u1 → counters_ok u2 →
  orel (λ r1 r2, nets_sim u1 u2 (r1.1.1, (r1.1.2, r1.2)) (r2.1.1, (r2.1.2, r2.2)))
    (BaremetalPredicates.specified_loop env b d ns u1 found cs errs) (BaremetalPredicates.specified_loop env b d ns u2 found cs errs).
Proof.
  intros Hk. induction ns as [|n ns IH]; intros u1 u2 found cs errs H1 H2;
    cbn [BaremetalPredicates.specified_loop]; [cbn; by split_and!|].
  assert (orel (λ r1 r2, nets_sim u1 u2 (r1.1.2, (r1.1.1, r1.2)) (r2.1.2, (r2.1.1, r2.2)))
    (BaremetalPredicates.isNetworkAvaliable env b d n u1 cs) (BaremetalPredicates.isNetworkAvaliable env b d n u2 cs)) as Hn.
  { unfold BaremetalPredicates.isNetworkAvaliable. destruct (String.eqb _ _); [|destruct (existsb _ _); cbn; by split_and!].
    eapply orel_bind; [by apply bm_random_loop_sim|].
    intros [[m1 u1'] c1] [[m2 u2'] c2] (E & Hs). cbn in E. simplify_eq. by split. }
  eapply orel_bind; [exact Hn|].
  intros [[[m1 f1] u1'] c1] [[[m2 f2] u2'] c2] (E & Hq1 & Hq2 & H1' & H2'). cbn in E, Hq1, Hq2, H1', H2'. simplify_eq.
  specialize (IH u1' u2' (found || f2) c2 (if String.eqb m2 "" then errs else errs ++ [m2]) H1' H2').
  destruct (BaremetalPredicates.specified_loop _ _ _ _ u1' _ _ _), (BaremetalPredicates.specified_loop _ _ _ _ u2' _ _ _);
    cbn in *; try done. by eapply nets_sim_trans.
Qed.

Lemma bm_network_local u1 u2 c : known_host c → SchedData u1 = SchedData u2 → counters_ok u1 → counters_ok u2 →
  same_result counters_ok (IndexKey c) BaremetalPredicates.network_Name u1 u2
    (BaremetalPredicates.network_Execute env u1 c) (BaremetalPredicates.network_Execute env u2 c).
Proof.
  intros Hk Hd H1 H2. unfold BaremetalPredicates.network_Execute. destruct c as [|b]; [done|].
  cbn [BaremetalCandidate obind]. rewrite Hd. destruct (SchedInfo.Networks (SchedData u2)) as [|n ns].
  - eapply orel_bind; [by apply bm_random_loop_sim|].
    intros [[m1 u1'] c1] [[m2 u2'] c2] (E & Hq1 & Hq2 & H1' & H2'). cbn in E, Hq1, Hq2, H1', H2'. simplify_eq.
    apply hsim_result, hsim_counter; [apply counters_ok_ext|].
    destruct (String.eqb m2 ""); [by apply hsim_new|]. apply hsim_exclude; [apply counters_ok_ext|by apply hsim_new].
  - eapply orel_bind; [by apply bm_specified_loop_sim|].
    intros [[u1' f1] e1] [[u2' f2] e2] (E & Hq1 & Hq2 & H1' & H2'). cbn in E, Hq1, Hq2, H1', H2'. simplify_eq.
    assert (hsim counters_ok (IndexKey (BaremetalC b)) BaremetalPredicates.network_Name u1 u2
      (if f2 then HelperSetCapacity (NewPredicateHelper BaremetalPredicates.network_Name u1' (IndexKey (BaremetalC b))) 1
       else NewPredicateHelper BaremetalPredicates.network_Name u1' (IndexKey (BaremetalC b)))
      (if f2 then HelperSetCapacity (NewPredicateHelper BaremetalPredicates.network_Name u2' (IndexKey (BaremetalC b))) 1
       else NewPredicateHelper BaremetalPredicates.network_Name u2' (IndexKey (BaremetalC b)))) as Hh.
    { destruct f2; [apply hsim_capacity; [apply counters_ok_ext|]|]; by apply hsim_new. }
    destruct e2; apply hsim_result; [exact Hh|]. apply hsim_exclude; [apply counters_ok_ext|exact Hh].
Qed.

#[global] Instance env_local :
  LocalPredicates (H := env_SchedPredicate env reason_str error_str) counters_ok known_host.
Proof.
  split; [apply counters_ok_ext|..].
  { intros p u ok p' u' Ep. by destruct (PreExecute_spec p u ok p' u' Ep) as (? & ? & _). }
  intros p u1 u2 c Hk Hd H1 H2 He.
  destruct p; cbn [pred_Execute env_SchedPredicate Execute cand_IndexKey pred_Name Name] in *.
  - unfold GuestPredicates.status_Execute. rewrite ?Hd. by repeat local_step.
  - unfold GuestPredicates.hypervisor_Execute. rewrite ?Hd. by repeat local_step.
  - unfold CommonPredicates.aggregate_Execute. rewrite ?Hd. by repeat local_step.
  - unfold GuestPredicates.migrate_Execute. rewrite ?Hd. by repeat local_step.
  - unfold GuestPredicates.nest_Execute. rewrite ?Hd. by repeat local_step.
  - unfold GuestPredicates.group_Execute. by repeat local_step.
  - unfold GuestPredicates.cpu_Execute, GuestPredicates.amount_Execute, UseReserved. rewrite ?Hd. by repeat local_step.
  - unfold GuestPredicates.memory_Execute, GuestPredicates.amount_Execute, UseReserved. rewrite ?Hd. by repeat local_step.
  - by apply storage_local.
  - by apply network_local.
  - unfold GuestPredicates.isolated_device_Execute. rewrite ?Hd. by repeat local_step.
  - unfold CommonPredicates.resource_type_Execute. rewrite ?Hd. by repeat local_step.
  - by apply disk_local.
  - unfold CommonPredicates.instance_type_Execute. rewrite ?Hd. by repeat local_step.
  - unfold BaremetalPredicates.status_Execute. rewrite ?Hd. by repeat local_step.
  - unfold BaremetalPredicates.cpu_Execute, BaremetalPredicates.exact_Execute. rewrite ?Hd. by repeat local_step.
  - unfold BaremetalPredicates.memory_Execute, BaremetalPredicates.exact_Execute. rewrite ?Hd. by repeat local_step.
  - unfold BaremetalPredicates.storage_Execute. rewrite ?Hd. by repeat local_step.
  - by apply bm_network_local.
Qed.

End Configured.

End PredicateLocality.
