(* ===== verification/ScheduleProofs.v ===== *)
(** * Filtering in parallel: every interleaving of the checks gives the result of the checks alone *)

From S2P Require Import Prelude SchedInfo Score Scheduler SchedulerProofs Storages Unit.
From S2P Require Import CommonPredicates Schedule CapacityProofs PredicateLocality.
Import Unit Schedule CapacityProofs PredicateLocality.
Local Open Scope Z_scope.
Local Open Scope go_scope.

Module ScheduleProofs.

Section Local.
Context `{SP : SchedPredicate Pred C R E}.
Context (inv : Unit Pred R → Prop) (known : C → Prop) `{!LocalPredicates inv known}.
Context (always : bool).
Implicit Types (u : Unit Pred R) (c : C) (k : check Pred R E).
Notation storages := CandidateDiskStoragesMap.

(** ** One check *)

(** What the check of one candidate may change. *)
Definition frame (key : string) u u' : Prop :=
  SchedData u' = SchedData u ∧ ScoreMap u' = ScoreMap u ∧ selectPlugins u' = selectPlugins u ∧
  (∀ key', key' ≠ key → CapacityMap u' !! key' = CapacityMap u !! key' ∧ storages u' !! key' = storages u !! key').

#[local] Instance frame_preorder key : PreOrder (frame key).
Proof.
  split; [done|]. intros u1 u2 u3 (?&?&?&F1) (?&?&?&F2). split_and!; try congruence.
  intros key' Hne. destruct (F1 key' Hne), (F2 key' Hne). split; congruence.
Qed.

Lemma effect_frame key name r w u u' : effect key name r w u u' → frame key u u'.
Proof.
  intros (?&Hc&?&?&Hw). split_and!; try done. intros key' Hne. rewrite Hc, Hw. split; [by apply record_other|].
  destruct w; cbn; [by rewrite lookup_insert_ne|done].
Qed.

(** Two units on which one check goes on. *)
Record together (key : string) (u1 u2 u1' u2' : Unit Pred R) : Prop := {
  tg_frame1 : frame key u1 u1';
  tg_frame2 : frame key u2 u2';
  tg_inv1 : inv u1';
  tg_inv2 : inv u2';
  tg_ok1 : unit_ok u1 → unit_ok u1';
  tg_ok2 : unit_ok u2 → unit_ok u2';
  tg_entry : CapacityMap u1 !! key = CapacityMap u2 !! key → CapacityMap u1' !! key = CapacityMap u2' !! key;
  tg_storages : storages u1 !! key = storages u2 !! key → storages u1' !! key = storages u2' !! key }.

Lemma together_trans key u1 u2 v1 v2 w1 w2 :
  together key u1 u2 v1 v2 → together key v1 v2 w1 w2 → together key u1 u2 w1 w2.
Proof. intros [] []. split; eauto; by etrans. Qed.

Lemma together_effect key name r w u1 u2 u1' u2' :
  effect key name r w u1 u1' → effect key name r w u2 u2' → inv u1' → inv u2' → together key u1 u2 u1' u2'.
Proof.
  intros H1 H2 Hi1 Hi2. pose proof H1 as (_&Hc1&_&_&Hw1). pose proof H2 as (_&Hc2&_&_&Hw2).
  split; [by eapply effect_frame|by eapply effect_frame|done|done|..].
  - intros Hok. exact (record_ok _ _ _ _ _ Hok Hc1).
  - intros Hok. exact (record_ok _ _ _ _ _ Hok Hc2).
  - intros Heq. rewrite Hc1, Hc2. by apply record_same.
  - intros Heq. rewrite Hw1, Hw2. destruct w; cbn; [by rewrite !lookup_insert_eq|done].
Qed.

Lemma together_logs key u1 u2 l : inv u1 → inv u2 → together key u1 u2 (log_Appends u1 l) (log_Appends u2 l).
Proof.
  intros Hi1 Hi2. split; try done; [by apply (lp_inv_ext (C := C) u1)|by apply (lp_inv_ext (C := C) u2)].
Qed.

Lemma together_refl key u1 u2 : inv u1 → inv u2 → together key u1 u2 u1 u2.
Proof. by split. Qed.

Lemma check_step_local u1 u2 c k : known c → SchedData u1 = SchedData u2 → inv u1 → inv u2 →
  storages u1 !! cand_IndexKey c = storages u2 !! cand_IndexKey c →
  (check_step always u1 c k).1 = (check_step always u2 c k).1 ∧
  together (cand_IndexKey c) u1 u2 (check_step always u1 c k).2 (check_step always u2 c k).2.
Proof.
  intros Hk Hd H1 H2 Hs. destruct k as [[|p todo] isFit fcs logs|res]; cbn [check_step].
  - split; [done|by apply together_logs].
  - pose proof (lp_local p u1 u2 c Hk Hd H1 H2 Hs) as Hl. unfold same_result in Hl.
    destruct (pred_Execute p u1 c) as [[[b1 rs1] u1']|e1| |], (pred_Execute p u2 c) as [[[b2 rs2] u2']|e2| |]; cbn in Hl; try done.
    + destruct Hl as (E1 & r & w & He1 & He2 & Hi1 & Hi2 & _). simplify_eq.
      assert (together (cand_IndexKey c) u1 u2 u1' u2') by (by eapply together_effect).
      by destruct b2.
    + subst e2. split; [done|by apply together_logs].
  - split; [done|by apply together_refl].
Qed.

Lemma run_check_local n c : known c → ∀ u1 u2 k, SchedData u1 = SchedData u2 → inv u1 → inv u2 →
  storages u1 !! cand_IndexKey c = storages u2 !! cand_IndexKey c →
  (run_check always n u1 c k).1 = (run_check always n u2 c k).1 ∧
  together (cand_IndexKey c) u1 u2 (run_check always n u1 c k).2 (run_check always n u2 c k).2.
Proof.
  intros Hk. induction n as [|n IH]; intros u1 u2 k Hd H1 H2 Hs; cbn [run_check]; [split; [done|by apply together_refl]|].
  destruct (check_step_local u1 u2 c k Hk Hd H1 H2 Hs) as [Ek Ht].
  destruct (check_step always u1 c k) as [k1 v1], (check_step always u2 c k) as [k2 v2]. cbn in Ek, Ht. subst k2.
  destruct Ht as [[D1 F1] [D2 F2] I1 I2 O1 O2 En Es].
  destruct (IH v1 v2 k1) as [Ek' Ht']; [congruence|done|done|by apply Es|]. split; [done|].
  eapply together_trans; [|exact Ht']. by split.
Qed.

(** A check is done after a step per predicate and one more, and stays done. *)
Lemma run_check_done n u c res : run_check always n u c (Done res) = (Done res, u).
Proof. by induction n. Qed.

Lemma run_check_add m n u c k :
  run_check always (m + n) u c k = let (k, u) := run_check always m u c k in run_check always n u c k.
Proof.
  revert u k. induction m as [|m IH]; intros u k; [done|]. cbn [Nat.add run_check].
  destruct (check_step always u c k). apply IH.
Qed.

(** The steps that a check has left. *)
Definition left (k : check Pred R E) : nat := match k with Running todo _ _ _ => S (length todo) | Done _ => 0 end.

Lemma check_step_left u c todo isFit fcs logs :
  (left (check_step always u c (Running todo isFit fcs logs)).1 < left (Running todo isFit fcs logs))%nat.
Proof.
  destruct todo as [|p todo]; cbn; [lia|].
  destruct (pred_Execute p u c) as [[[[] rs] u']|e| |]; cbn; try lia. destruct always; cbn; lia.
Qed.

Lemma run_check_enough n u c k : (left k ≤ n)%nat → ∃ res, (run_check always n u c k).1 = Done res.
Proof.
  revert u k. induction n as [|n IH]; intros u k Hn.
  { destruct k; cbn in Hn; [lia|by eexists]. }
  destruct k as [todo isFit fcs logs|res]; [|eexists; by rewrite run_check_done].
  pose proof (check_step_left u c todo isFit fcs logs). cbn [run_check].
  destruct (check_step always u c (Running todo isFit fcs logs)) as [k' u']. cbn in *. apply IH. lia.
Qed.

(** The check of a candidate returns, whatever its predicates answer. *)
Lemma unitFits_run u c preds :
  run_check always (S (length preds)) u c (Running preds true [] []) =
  (Done (unitFitsOnCandidate always u c preds).1, (unitFitsOnCandidate always u c preds).2).
Proof.
  unfold unitFitsOnCandidate.
  destruct (run_check_enough (S (length preds)) u c (Running preds true [] [])) as [res Hres]; [done|].
  destruct (run_check _ _ u c _) as [k u']. cbn in Hres. by subst k.
Qed.

(** A check that is done after some steps has the result of [unitFitsOnCandidate]. *)
Lemma run_check_unitFits n u c preds res u' :
  run_check always n u c (Running preds true [] []) = (Done res, u') →
  unitFitsOnCandidate always u c preds = (res, u').
Proof.
  intros Er. pose proof (unitFits_run u c preds) as Hu.
  assert (run_check always (n + S (length preds)) u c (Running preds true [] []) = (Done res, u')) as E1.
  { rewrite run_check_add, Er. apply run_check_done. }
  assert (run_check always (S (length preds) + n) u c (Running preds true [] []) =
    (Done (unitFitsOnCandidate always u c preds).1, (unitFitsOnCandidate always u c preds).2)) as E2.
  { rewrite run_check_add, Hu. apply run_check_done. }
  rewrite Nat.add_comm, E2 in E1. by destruct (unitFitsOnCandidate always u c preds); simplify_eq/=.
Qed.

(** ** All checks *)

Notation key := cand_IndexKey.

Section Parallel.
Context (u0 : Unit Pred R) (preds : list Pred) (inv0 : inv u0).

(** A check in the shared unit is where it would be alone on the first unit, and so is its capacity entry. *)
Definition as_alone u (p : C * check Pred R E) : Prop :=
  known p.1 ∧
  ∃ n v, run_check always n u0 p.1 (Running preds true [] []) = (p.2, v) ∧
         CapacityMap u !! key p.1 = CapacityMap v !! key p.1 ∧ storages u !! key p.1 = storages v !! key p.1.

Lemma par_step_alone u l u' l' :
  NoDup (key <$> l.*1) → SchedData u = SchedData u0 → inv u → Forall (as_alone u) l →
  par_step always (u, l) (u', l') →
  l'.*1 = l.*1 ∧ SchedData u' = SchedData u0 ∧ inv u' ∧ Forall (as_alone u') l' ∧
  (∀ key', key' ∉ key <$> l.*1 →
     CapacityMap u' !! key' = CapacityMap u !! key' ∧ storages u' !! key' = storages u !! key').
Proof.
  intros Hnd Hd Hi Hl Hs. inversion Hs as [? ? l1 c k k' l2 todo isFit fcs logs Ek Est]; subst.
  apply Forall_app in Hl as [Hl1 Hl2]. apply Forall_cons in Hl2 as [(Hk & n & v & En & Ev & Esv) Hl2]. cbn [fst snd] in *.
  assert (inv v ∧ SchedData v = SchedData u0) as [Hv Hdv].
  { destruct (run_check_local n c Hk u0 u0 (Running preds true [] [])) as [_ Ht]; [done..|].
    rewrite En in Ht. destruct Ht as [[D _] _ ? _ _ _ _ _]. done. }
  destruct (check_step_local u v c (Running todo isFit fcs logs) Hk (eq_trans Hd (eq_sym Hdv)) Hi Hv Esv) as [Est2 Ht]. rewrite Est in Est2, Ht. cbn [fst snd] in Est2, Ht.
  destruct Ht as [[D1 [_ [_ F1]]] _ I1 _ _ _ Hentry Hstor].
  rewrite fmap_app, fmap_cons, fmap_app, fmap_cons in Hnd. cbn [fst] in Hnd.
  apply NoDup_app in Hnd as (_ & Hdis & Hnd2). apply NoDup_cons in Hnd2 as [Hnc _].
  assert (∀ p, as_alone u p → key p.1 ≠ key c → as_alone u' p) as Hother.
  { intros p (Hkp & m & w & Em & Ew & Esw) Hne. split; [done|]. exists m, w. split; [done|].
    destruct (F1 (key p.1) Hne) as [-> ->]. done. }
  split; [by rewrite !fmap_app|]. split; [congruence|]. split; [done|]. split.
  - apply Forall_app. split.
    + apply Forall_forall. intros p Hp. apply Hother; [by eapply Forall_forall in Hl1|].
      intros Heq. apply (Hdis (key p.1)); [|rewrite Heq; left]. apply list_elem_of_fmap_2, list_elem_of_fmap_2, Hp.
    + apply Forall_cons. split.
      * split; [done|]. destruct (check_step always v c _) as [k2 v2] eqn:Ev2. cbn [fst snd] in *. subst k2.
        exists (n + 1)%nat, v2. rewrite run_check_add, En. cbn [run_check]. rewrite Ev2. split; [done|]. split; [by apply Hentry|by apply Hstor].
      * apply Forall_forall. intros p Hp. apply Hother; [by eapply Forall_forall in Hl2|].
        intros Heq. apply Hnc. rewrite <- Heq. apply list_elem_of_fmap_2, list_elem_of_fmap_2, Hp.
  - intros key' Hkey'. apply F1. intros ->. apply Hkey'. rewrite fmap_app, fmap_app, elem_of_app. right. left.
Qed.

Lemma par_steps_alone u l u' l' :
  rtc (par_step always) (u, l) (u', l') →
  NoDup (key <$> l.*1) → SchedData u = SchedData u0 → inv u → Forall (as_alone u) l →
  l'.*1 = l.*1 ∧ SchedData u' = SchedData u0 ∧ inv u' ∧ Forall (as_alone u') l' ∧
  (∀ key', key' ∉ key <$> l.*1 →
     CapacityMap u' !! key' = CapacityMap u !! key' ∧ storages u' !! key' = storages u !! key').
Proof.
  intros Hs. remember (u, l) as s eqn:Es. remember (u', l') as s' eqn:Es'. revert u l Es.
  induction Hs as [s|s [u1 l1] s' Hstep _ IH]; intros u l -> Hnd Hd Hi Hl.
  { injection Es' as <- <-. by split_and!. }
  destruct (par_step_alone u l u1 l1 Hnd Hd Hi Hl Hstep) as (E1 & Hd1 & Hi1 & Hl1 & Hf1).
  destruct (IH Es' u1 l1 eq_refl) as (E2 & Hd2 & Hi2 & Hl2 & Hf2); [by rewrite E1|done..|].
  split_and!; try done; [congruence|]. intros key' Hk'.
  destruct (Hf1 key' Hk'), (Hf2 key') as [? ?]; [by rewrite E1|]. split; congruence.
Qed.
End Parallel.

(** The checks that all candidates start with. *)
Definition start (preds : list Pred) (cs : list C) : list (C * check Pred R E) :=
  (λ c, (c, Running preds true [] [])) <$> cs.

Definition finished (l : list (C * check Pred R E)) : Prop := Forall (λ p, left p.2 = 0%nat) l.

Lemma start_fst preds cs : (start preds cs).*1 = cs.
Proof. unfold start. rewrite <- list_fmap_compose. apply list_fmap_id. Qed.

(** The steps that all checks have left. *)
Definition work (l : list (C * check Pred R E)) : nat := sum_list (left <$> l.*2).

Lemma par_step_work u l u' l' : par_step always (u, l) (u', l') → (work l' < work l)%nat.
Proof.
  intros Hs. inversion Hs as [? ? l1 c k k' l2 todo isFit fcs logs Ek Est]; subst.
  pose proof (check_step_left u c todo isFit fcs logs) as Hlt. rewrite Est in Hlt. cbn [fst] in Hlt.
  unfold work. rewrite !fmap_app, !sum_list_with_app. cbn in *. lia.
Qed.

Lemma par_step_progress u l : finished l ∨ ∃ s, par_step always (u, l) s.
Proof.
  destruct (decide (Exists (λ p, left p.2 ≠ 0%nat) l)) as [He|Hn].
  - right. apply Exists_exists in He as ([c k] & Hp & Hk). apply list_elem_of_split in Hp as (l1 & l2 & ->).
    destruct k as [todo isFit fcs logs|]; [|done].
    destruct (check_step always u c (Running todo isFit fcs logs)) as [k' u'] eqn:Ek.
    eexists. by econstructor.
  - left. apply Forall_forall. intros p Hp. destruct (decide (left p.2 = 0%nat)); [done|].
    destruct Hn. apply Exists_exists. by exists p.
Qed.

Lemma start_alone u0 preds cs : Forall known cs → Forall (as_alone u0 preds u0) (start preds cs).
Proof.
  intros Hk. unfold start. apply Forall_fmap. eapply Forall_impl; [exact Hk|]. intros c Hc. split; [done|].
  by exists 0%nat, u0.
Qed.

Lemma nsteps_work n s s' : nsteps (par_step always) n s s' → (n + work s'.2 ≤ work s.2)%nat.
Proof.
  induction 1 as [s|n [u1 l1] [u2 l2] s3 Hs _ IH]; [lia|]. apply par_step_work in Hs. cbn [fst snd] in *. lia.
Qed.

Lemma start_work preds cs : work (start preds cs) = (length cs * S (length preds))%nat.
Proof. unfold work, start. induction cs as [|c cs IH]; [done|]. cbn in *. by rewrite IH. Qed.

Lemma finished_alone u0 preds u l cs : l.*1 = cs → Forall (as_alone u0 preds u) l → finished l →
  l = (λ c, (c, Done (unitFitsOnCandidate always u0 c preds).1)) <$> cs ∧
  ∀ c, c ∈ cs →
    CapacityMap u !! key c = CapacityMap (unitFitsOnCandidate always u0 c preds).2 !! key c ∧
    storages u !! key c = storages (unitFitsOnCandidate always u0 c preds).2 !! key c.
Proof.
  intros <-. induction l as [|[c k] l IH]; intros Hl Hf; [split; [done|by intros ? ?%elem_of_nil]|].
  apply Forall_cons in Hl as [(_ & n & v & Er & Ev & Esv) Hl]. apply Forall_cons in Hf as [Hk Hf]. cbn [fst snd] in *.
  destruct (IH Hl Hf) as [E1 E2]. destruct k as [|res]; [done|].
  apply run_check_unitFits in Er. split.
  - cbn [fmap list_fmap fst]. rewrite Er. cbn [fst]. by f_equal.
  - intros c' [->|Hc']%elem_of_cons; [cbn [fst]; by rewrite Er|by apply E2].
Qed.

(** ** Checks that may meet inside a predicate *)

Section Races.
Context (unlocked : Pred → bool).

Definition race_start (preds : list Pred) (cs : list C) : list (C * bool * check Pred R E) :=
  (λ c, (c, false, Running preds true [] [])) <$> cs.
Definition checks (l : list (C * bool * check Pred R E)) : list (C * check Pred R E) := (λ e, (e.1.1, e.2)) <$> l.

(** The steps that are left: two for a predicate that is not entered yet. *)
Definition race_left (e : C * bool * check Pred R E) : nat :=
  match e with
  | (_, b, Running todo _ _ _) => 2 * length todo + 1 - (if b : bool then 1 else 0)
  | (_, _, Done _) => 0
  end.
Definition race_work (s : race Pred C R E) : nat :=
  match s with Crashed => 0 | Going _ l => S (sum_list (race_left <$> l)) end.

(** The predicates a check has left are among those it started with. *)
Definition todo_in (preds : list Pred) (e : C * bool * check Pred R E) : Prop :=
  match e.2 with Running todo _ _ _ => todo ⊆ preds | Done _ => True end.

Lemma check_step_todo u c todo isFit fcs logs k' u' : check_step always u c (Running todo isFit fcs logs) = (k', u') →
  match k' with Running todo' _ _ _ => todo' ⊆ todo ∧ (S (length todo') ≤ length todo)%nat | Done _ => True end.
Proof.
  destruct todo as [|p todo]; cbn [check_step]; [by intros [= <- <-]|]. destruct (pred_Execute p u c) as [[[[] reasons] u1]|e| |];
    intros [= <- <-]; try done; [split; [by intros x Hx; right|cbn; lia]|].
  destruct always; (split; [|cbn; lia]); [by intros x Hx; right|by intros x Hx%elem_of_nil].
Qed.

(** A step of the race is a step of the checks, or none, or the end of the process. *)
Lemma race_step_checks u l u' l' : race_step always unlocked (Going u l) (Going u' l') →
  (u', checks l') = (u, checks l) ∨ par_step always (u, checks l) (u', checks l').
Proof.
  inversion 1 as [? l1 c p todo isFit fcs logs l2|?|? ? l1 c todo isFit fcs logs k' l2 Hst]; subst; unfold checks; rewrite !fmap_app; cbn.
  - by left.
  - right. by eapply par_one.
Qed.

Lemma race_steps_checks n u l u' l' : nsteps (race_step always unlocked) n (Going u l) (Going u' l') →
  rtc (par_step always) (u, checks l) (u', checks l').
Proof.
  revert u l. induction n as [|n IH]; intros u l Hs; inversion Hs as [|? ? y ? H1 H2]; subst; [done|].
  destruct y as [|u1 l1]; [by inversion H2 as [|? ? ? ? Hb _]; subst; inversion Hb|].
  destruct (race_step_checks u l u1 l1 H1) as [E1|Hp]; [injection E1 as -> <-; by apply IH|]. eapply rtc_l; [exact Hp|by apply IH].
Qed.

Lemma race_step_work s s' : race_step always unlocked s s' → (race_work s' < race_work s)%nat.
Proof.
  destruct 1 as [u l1 c p todo isFit fcs logs l2|?|u u' l1 c todo isFit fcs logs k' l2 Hst]; cbn [race_work]; [|lia|];
    rewrite !fmap_app, !sum_list_with_app; [cbn; lia|].
  apply check_step_todo in Hst. destruct k' as [todo' ? ? ?|?], todo as [|p todo]; cbn in *; try destruct Hst; try lia; case_bool_decide; cbn [negb]; lia.
Qed.

Lemma race_steps_work n s s' : nsteps (race_step always unlocked) n s s' → (n + race_work s' ≤ race_work s)%nat.
Proof. induction 1 as [s|n s1 s2 s3 Hs _ IH]; [lia|]. apply race_step_work in Hs. lia. Qed.

Lemma race_start_work preds cs : sum_list (race_left <$> race_start preds cs) = (length cs * S (2 * length preds))%nat.
Proof. unfold race_start. induction cs as [|c cs IH]; [done|]. cbn [fmap list_fmap race_left sum_list length] in *. cbn in *. lia. Qed.

Lemma race_start_checks preds cs : checks (race_start preds cs) = start preds cs.
Proof. unfold checks, race_start, start. by rewrite <- list_fmap_compose. Qed.

(** While a check is not at its end the checks can go on without a crash. *)
Definition entered_ok (e : C * bool * check Pred R E) : Prop :=
  match e with (_, true, Running [] _ _ _) | (_, true, Done _) => False | _ => True end.

Lemma race_progress u l : Forall entered_ok l → finished (checks l) ∨ ∃ u' l', race_step always unlocked (Going u l) (Going u' l').
Proof.
  intros Hok. destruct (decide (Exists (λ e, e.1.2 = true) l)) as [He|Hn].
  - right. apply Exists_exists in He as ([[c []] k] & Hin & Hb); [|done]. pose proof (proj1 (Forall_forall _ _) Hok _ Hin) as He.
    apply list_elem_of_split in Hin as (l1 & l2 & ->). destruct k as [[|p todo] isFit fcs logs|]; [done| |done].
    destruct (check_step always u c (Running (p :: todo) isFit fcs logs)) as [k' u'] eqn:Ek.
    eexists _, _. exact (race_leave always unlocked u u' l1 c (p :: todo) isFit fcs logs k' l2 Ek).
  - assert (∀ e, e ∈ l → e.1.2 = false) as Hout.
    { intros e Hin. destruct (e.1.2) eqn:Eb; [|done]. destruct Hn. apply Exists_exists. by exists e. }
    destruct (decide (Exists (λ e, left e.2 ≠ 0%nat) l)) as [He|Hd].
    + right. apply Exists_exists in He as ([[c b] k] & Hin & Hk). pose proof (Hout _ Hin) as Hb. cbn in Hb. subst b.
      apply list_elem_of_split in Hin as (l1 & l2 & ->). destruct k as [[|p todo] isFit fcs logs|]; [| |done].
      * destruct (check_step always u c (Running [] isFit fcs logs)) as [k' u'] eqn:Ek.
        eexists _, _. exact (race_leave always unlocked u u' l1 c [] isFit fcs logs k' l2 Ek).
      * eexists _, _. apply race_enter. apply andb_false_iff. right. apply not_true_iff_false. intros (e & He & Hw)%existsb_exists.
        apply list_elem_of_In in He. apply elem_of_app in He.
        assert (e.1.2 = false) as Hb by (apply Hout; rewrite elem_of_app, elem_of_cons; tauto). destruct e as [[c' []] k]; done.
    + left. unfold finished, checks. apply Forall_fmap, Forall_forall. intros e Hin. cbn.
      destruct (decide (left e.2 = 0%nat)); [done|]. destruct Hd. apply Exists_exists. by exists e.
Qed.

Lemma race_step_inv preds s u' l' : race_step always unlocked s (Going u' l') →
  ∀ u l, s = Going u l → Forall entered_ok l → Forall (todo_in preds) l →
  Forall entered_ok l' ∧ Forall (todo_in preds) l' ∧ length l' = length l.
Proof.
  inversion 1 as [? l1 c p todo isFit fcs logs l2|?|? ? l1 c todo isFit fcs logs k' l2 Hst]; subst; intros u0 l0 [= <- <-] Hok Hin;
    apply Forall_app in Hok as [? [? ?]%Forall_cons], Hin as [? [Ht ?]%Forall_cons]; rewrite !length_app; cbn [length].
  - split_and!; [apply Forall_app; split; [|constructor]; done..|done].
  - apply check_step_todo in Hst. split_and!; [apply Forall_app; split; [done|constructor; [by destruct k' as [[]|]|done]]| |done].
    apply Forall_app; split; [done|]. constructor; [|done]. unfold todo_in in *. cbn [snd] in *. destruct k' as [todo'|]; [|done].
    destruct Hst. by etrans.
Qed.

Lemma race_steps_inv preds n s s' : nsteps (race_step always unlocked) n s s' →
  ∀ u l, s = Going u l → Forall entered_ok l → Forall (todo_in preds) l →
  match s' with
  | Crashed => (2 ≤ length l)%nat ∧ ∃ p, p ∈ preds ∧ unlocked p = true
  | Going _ l' => Forall entered_ok l' ∧ Forall (todo_in preds) l' ∧ length l' = length l
  end.
Proof.
  induction 1 as [s|n s1 s2 s3 Hs Hn IH]; intros u l -> Hok Hin; [done|].
  destruct s2 as [|u2 l2].
  - inversion Hn as [|? ? ? ? Hb _]; subst; [|by inversion Hb]. inversion Hs as [|? l1 c p todo isFit fcs logs l2 Hm|]; subst.
    apply andb_true_iff in Hm as [Hp Hm]. rewrite length_app. cbn [length]. split.
    + assert (length (l1 ++ l2) ≠ 0%nat) as Hlen by (by destruct (l1 ++ l2)). rewrite length_app in Hlen. lia.
    + apply Forall_app in Hin as [_ [Hin _]%Forall_cons]. exists p. split; [|done]. apply Hin. left.
  - destruct (race_step_inv preds _ u2 l2 Hs u l eq_refl Hok Hin) as (Hok2 & Hin2 & Hlen).
    specialize (IH u2 l2 eq_refl Hok2 Hin2). destruct s3; [by rewrite <- Hlen|]. by rewrite <- Hlen.
Qed.

End Races.

(** A run of the checks in the order in which a list of positions gives them their turns. *)
Definition race_turn (unlocked : Pred → bool) (s : race Pred C R E) (i : nat) : race Pred C R E :=
  match s with
  | Going u l =>
    match l !! i with
    | Some (c, false, Running (p :: todo) isFit fcs logs) =>
      if unlocked p && existsb (writing unlocked) (take i l ++ drop (S i) l) then Crashed
      else Going u (<[i := (c, true, Running (p :: todo) isFit fcs logs)]> l)
    | Some (c, false, Running [] isFit fcs logs) =>
      let (k, u) := check_step always u c (Running [] isFit fcs logs) in Going u (<[i := (c, false, k)]> l)
    | Some (c, true, Running (p :: todo) isFit fcs logs) =>
      let (k, u) := check_step always u c (Running (p :: todo) isFit fcs logs) in Going u (<[i := (c, false, k)]> l)
    | _ => s
    end
  | Crashed => Crashed
  end.
Definition race_turns (unlocked : Pred → bool) (turns : list nat) (s : race Pred C R E) : race Pred C R E := foldl (race_turn unlocked) s turns.

Lemma race_turns_reachable unlocked ts : ∀ s, rtc (race_step always unlocked) s (race_turns unlocked ts s).
Proof.
  induction ts as [|i ts IH]; intros s; [done|]. change (race_turns unlocked (i :: ts) s) with (race_turns unlocked ts (race_turn unlocked s i)).
  destruct s as [|u l]; [apply IH|]. cbn [race_turn].
  destruct (l !! i) as [[[c b] k]|] eqn:Ei; [|apply IH].
  assert (∀ e, <[i := e]> l = take i l ++ e :: drop (S i) l) as Hins by (intros e; apply insert_take_drop; by eapply lookup_lt_Some).
  pose proof (take_drop_middle l i _ Ei) as El.
  destruct b, k as [[|p todo] isFit fcs logs|]; try apply IH.
  - destruct (check_step always u c (Running (p :: todo) isFit fcs logs)) as [k' u'] eqn:Ek.
    eapply rtc_l; [|apply IH]. rewrite <- El at 1. rewrite Hins. exact (race_leave always unlocked u u' _ c (p :: todo) _ _ _ k' _ Ek).
  - destruct (check_step always u c (Running [] isFit fcs logs)) as [k' u'] eqn:Ek.
    eapply rtc_l; [|apply IH]. rewrite <- El at 1. rewrite Hins. exact (race_leave always unlocked u u' _ c [] _ _ _ k' _ Ek).
  - destruct (unlocked p && existsb _ _) eqn:Ew; (eapply rtc_l; [|apply IH]); rewrite <- El at 1.
    + by apply race_meet.
    + rewrite Hins. by apply race_enter.
Qed.

(** ** The accepted candidates *)

(** A check that has failed once stays failed. *)
Lemma run_check_failed n c : ∀ u todo fcs logs fcs' v,
  run_check always n u c (Running todo false fcs logs) ≠ (Done (Ret (true, fcs')), v).
Proof.
  induction n as [|n IH]; intros u [|p todo] fcs logs fcs' v Er; cbn [run_check check_step] in Er; try done.
  { by rewrite run_check_done in Er. }
  destruct (pred_Execute p u c) as [[[[] rs] u']|e| |]; try (by rewrite run_check_done in Er); by apply IH in Er.
Qed.

(** A predicate that accepted the candidate on the way, and whose record is still there at the end; and so are the
    storages that the disk predicate noted. *)
Definition accepted_by (u v : Unit Pred R) (c : C) (p : Pred) : Prop :=
  ∃ w w' rs, SchedData w = SchedData u ∧ inv w ∧ pred_Execute p w c = Ret (true, rs, w') ∧
    recorded v (cand_IndexKey c) (pred_Name p) = recorded w' (cand_IndexKey c) (pred_Name p) ∧
    (pred_Name p = CommonPredicates.disk_Name →
       storages w !! cand_IndexKey c = storages u !! cand_IndexKey c ∧ storages v !! cand_IndexKey c = storages w' !! cand_IndexKey c).

Lemma run_check_accepted c n : known c → ∀ todo u isFit fcs logs fcs' v, NoDup (pred_Name <$> todo) → inv u →
  run_check always n u c (Running todo isFit fcs logs) = (Done (Ret (true, fcs')), v) →
  Forall (accepted_by u v c) todo ∧
  (∀ name, name ∉ pred_Name <$> todo → recorded v (cand_IndexKey c) name = recorded u (cand_IndexKey c) name) ∧
  (CommonPredicates.disk_Name ∉ pred_Name <$> todo → storages v !! cand_IndexKey c = storages u !! cand_IndexKey c).
Proof.
  intros Hk. induction n as [|n IH]; intros [|p todo] u isFit fcs logs fcs' v Hnd Hi Er; cbn [run_check check_step] in Er; try done.
  { rewrite run_check_done in Er. injection Er as _ _ <-. done. }
  apply NoDup_cons in Hnd as [Hp Hnd].
  pose proof (lp_local p u u c Hk eq_refl Hi Hi eq_refl) as Hl. unfold same_result in Hl.
  destruct (pred_Execute p u c) as [[[b rs] u']|e| |] eqn:Ex; try (by rewrite run_check_done in Er).
  destruct Hl as (_ & r & w & (Hd & Hc & _ & _ & Hw) & _ & Hi' & _ & Hown). cbn [snd] in *.
  assert (pred_Name p ≠ CommonPredicates.disk_Name → storages u' = storages u) as Hkeep by (intros Hn; by rewrite Hw, Hown).
  destruct b; [|by apply run_check_failed in Er].
  destruct (IH todo u' isFit fcs _ fcs' v Hnd Hi' Er) as (Hacc & Hrec & Hst). split_and!.
  - apply Forall_cons. split.
    + exists u, u', rs. split_and!; try done; [by apply Hrec|]. intros Hn. split; [done|]. apply Hst. by rewrite <- Hn.
    + rewrite Forall_forall in Hacc |- *. intros q Hq. destruct (Hacc q Hq) as (w0 & w' & rs' & Hdw & ? & ? & ? & Hs).
      exists w0, w', rs'. split_and!; try done; [congruence|]. intros Hn. destruct (Hs Hn) as [Hs1 Hs2]. split; [|done].
      rewrite Hs1. f_equal. apply Hkeep. intros Hpn. apply Hp. rewrite Hpn, <- Hn. by apply list_elem_of_fmap_2.
  - intros name Hn. rewrite fmap_cons, not_elem_of_cons in Hn. destruct Hn as [Hne Hn].
    rewrite Hrec by done. by eapply recorded_other.
  - intros Hn. rewrite fmap_cons, not_elem_of_cons in Hn. destruct Hn as [Hne Hn].
    rewrite Hst by done. by rewrite Hkeep.
Qed.

(** ** One check after the other *)

(** What the checks of [cs] leave of [u]: the candidates [gs] have been accepted, and their capacity entries are
    those of their own checks. *)
Record checked (preds : list Pred) (cs : list C) (u u' : Unit Pred R) (gs : list C) : Prop := {
  ck_sub : gs `sublist_of` cs;
  ck_inv : inv u';
  ck_ok : unit_ok u';
  ck_data : SchedData u' = SchedData u;
  ck_plugins : selectPlugins u' = selectPlugins u;
  ck_frame : ∀ key', key' ∉ key <$> cs →
    CapacityMap u' !! key' = CapacityMap u !! key' ∧ storages u' !! key' = storages u !! key';
  ck_accepted : ∀ c, c ∈ gs → ∃ w fcs v, inv w ∧ SchedData w = SchedData u ∧ storages w !! key c = storages u !! key c ∧
    unitFitsOnCandidate always w c preds = (Ret (true, fcs), v) ∧
    CapacityMap u' !! key c = CapacityMap v !! key c ∧ storages u' !! key c = storages v !! key c }.

(** After the check of [c], with the failures noted, go on with [cs]. *)
Lemma checked_cons preds c cs u v w u' res gs :
  known c → key c ∉ key <$> cs → inv u → unit_ok u → unitFitsOnCandidate always u c preds = (res, v) →
  CapacityMap w = CapacityMap v → CounterMap w = CounterMap v → SchedData w = SchedData v → selectPlugins w = selectPlugins v →
  storages w = storages v →
  (inv w → unit_ok w → checked preds cs w u' gs) →
  checked preds (c :: cs) u u' (match res with Ret (true, _) => c :: gs | _ => gs end).
Proof.
  intros Hk Hc Hi Hok Eu Hcm Hct Hsd Hsp Hst Hrest. pose proof (unitFits_run u c preds) as Hrun.
  destruct (run_check_local (S (length preds)) c Hk u u (Running preds true [] []) eq_refl Hi Hi eq_refl) as [_ Ht].
  rewrite Hrun, Eu in Ht. cbn [snd] in Ht. destruct Ht as [(D1 & _ & P1 & F1) _ I1 _ O1 _ _ _].
  destruct Hrest as [Hsub ?? Hd Hp Hf Ha]; [by apply (lp_inv_ext (C := C) v)|by unfold unit_ok; rewrite Hcm; apply O1|].
  split; try done.
  - destruct res as [[[] fcs]| | |]; by constructor.
  - congruence.
  - congruence.
  - intros key' Hk'. rewrite fmap_cons, not_elem_of_cons in Hk'. destruct Hk' as [Hne Hk'].
    destruct (Hf key' Hk') as [-> ->]. rewrite Hcm, Hst. by apply F1.
  - assert (∀ c', c' ∈ gs → ∃ w fcs v, inv w ∧ SchedData w = SchedData u ∧ storages w !! key c' = storages u !! key c' ∧
      unitFitsOnCandidate always w c' preds = (Ret (true, fcs), v) ∧
      CapacityMap u' !! key c' = CapacityMap v !! key c' ∧ storages u' !! key c' = storages v !! key c') as Ha'.
    { intros c' Hc'. destruct (Ha c' Hc') as (w' & fcs' & v' & ? & ? & Hs & ? & ? & ?). exists w', fcs', v'.
      split_and!; try done; [congruence|]. rewrite Hs, Hst. apply F1. intros Heq. apply Hc. rewrite <- Heq.
      apply list_elem_of_fmap_2. by eapply elem_of_sublist. }
    destruct res as [[[] fcs]| | |]; try done. intros c' [->|Hc']%elem_of_cons; [|by apply Ha'].
    exists u, fcs, v. rewrite <- Hcm, <- Hst. split_and!; try done; by apply Hf.
Qed.

Lemma check_units_spec preds cs : ∀ u fs es u' fs' es', NoDup (key <$> cs) → Forall known cs → inv u → unit_ok u →
  check_units always u preds cs fs es = Ret (u', fs', es') → ∃ gs, fs' = fs ++ gs ∧ checked preds cs u u' gs.
Proof.
  induction cs as [|c cs IH]; intros u fs es u' fs' es' Hnd Hkn Hi Hok Ec; cbn [check_units] in Ec.
  { injection Ec as <- <- <-. exists []. rewrite app_nil_r. split; [done|]. split; try done. by intros ? ?%elem_of_nil. }
  rewrite fmap_cons in Hnd. apply NoDup_cons in Hnd as [Hc Hnd]. apply Forall_cons in Hkn as [Hkc Hkn].
  destruct (unitFitsOnCandidate always u c preds) as [res v] eqn:Eu.
  assert (∃ w fs1 es1, collect c res v fs es = Ret (w, fs1, es1) ∧
    fs1 = fs ++ match res with Ret (true, _) => [c] | _ => [] end ∧ CapacityMap w = CapacityMap v ∧
    CounterMap w = CounterMap v ∧ SchedData w = SchedData v ∧ selectPlugins w = selectPlugins v ∧ storages w = storages v) as
    (w & fs1 & es1 & Ecol & -> & Hcm & ? & ? & ? & ?).
  { destruct res as [[[] fcs]|e| |]; cbn [collect obind] in *; try done; do 3 eexists; split; try done;
      split_and!; try done; by rewrite app_nil_r. }
  rewrite Ecol in Ec. cbn [obind] in Ec.
  assert (inv w → unit_ok w → ∃ gs, fs' = (fs ++ match res with Ret (true, _) => [c] | _ => [] end) ++ gs ∧ checked preds cs w u' gs) as Hw.
  { intros. by apply IH in Ec. }
  pose proof (unitFits_run u c preds) as Hrun.
  destruct (run_check_local (S (length preds)) c Hkc u u (Running preds true [] []) eq_refl Hi Hi eq_refl) as [_ Ht].
  rewrite Hrun, Eu in Ht. cbn [snd] in Ht. destruct Ht as [_ _ I1 _ O1 _ _ _].
  destruct Hw as (gs & -> & Hck); [by apply (lp_inv_ext (C := C) v)|unfold unit_ok; by rewrite Hcm; apply O1|].
  exists (match res with Ret (true, _) => c :: gs | _ => gs end). split.
  - destruct res as [[[] fcs]| | |]; by rewrite <- app_assoc.
  - by eapply checked_cons.
Qed.

(** ** The filter *)

(** The predicates that run are those whose [PreExecute] said so, with the state it gave them. *)
Lemma preExec_spec predicates : ∀ u news u', preExecPredicate u predicates = Ret (news, u') →
  untouched u u' ∧ news.*1 `sublist_of` predicates.*1 ∧ (pred_Name <$> news.*2) `sublist_of` (pred_Name <$> predicates.*2) ∧
  (∀ p, p ∈ predicates.*2 → ∃ v v' ok q, SchedData v = SchedData u ∧ pred_PreExecute p v = Ret (ok, q, v') ∧
     (ok = true → q ∈ news.*2)).
Proof.
  induction predicates as [|[name p] predicates IH]; intros u news u' Ep; cbn [preExecPredicate] in Ep.
  { injection Ep as <- <-. split_and!; try done. by intros ? ?%elem_of_nil. }
  destruct (pred_PreExecute p u) as [[[ok p'] u1]| | |] eqn:Epre; cbn [obind] in Ep; try done.
  destruct (lp_pre p u ok p' u1 Epre) as ((Hd & Hcm & Hct & Hst) & Hn).
  destruct (preExecPredicate u1 predicates) as [[rest u2]| | |] eqn:Er; cbn [obind] in Ep; try done. injection Ep as <- <-.
  destruct (IH _ _ _ Er) as ((? & ? & ? & ?) & Hs1 & Hs2 & Hin).
  split; [split_and!; congruence|]. split; [destruct ok; by constructor|].
  split; [destruct ok; cbn; [rewrite Hn|]; by constructor|].
  intros q [->|Hq]%elem_of_cons.
  - exists u, u1, ok, p'. split; [done|]. split; [done|]. intros ->. left.
  - destruct (Hin q Hq) as (v & v' & ok' & q' & Hv & Ev & Hok). exists v, v', ok', q'.
    split; [congruence|]. split; [done|]. intros Ht. destruct ok; [right|]; by apply Hok.
Qed.

Lemma omap_perm {A B} (f : A → option B) l1 l2 : l1 ≡ₚ l2 → omap f l1 ≡ₚ omap f l2.
Proof.
  induction 1 as [|x l1 l2 _ IH|x y l|l1 l2 l3 _ IH1 _ IH2]; cbn; [done|..].
  - destruct (f x); [by constructor|done].
  - destruct (f x), (f y); try done. constructor.
  - by etrans.
Qed.

Lemma sorted_predicates_perm (ps : list (string * Pred)) : NoDup ps.*1 → sorted_predicates ps ≡ₚ ps.*2.
Proof.
  intros Hnd. unfold sorted_predicates.
  set (f := λ name, p ← list_find (λ p : string * Pred, p.1 = name) ps; Some p.2.2).
  assert (∀ l, (∀ x, x ∈ l → f x.1 = Some x.2) → omap f l.*1 = l.*2) as Hl.
  { induction l as [|x l IHl]; intros Hx; [done|]. cbn. rewrite (Hx x) by left. by rewrite IHl by (intros; apply Hx; by right). }
  rewrite <- (Hl ps); [apply omap_perm, merge_sort_Permutation|].
  intros [name p] Hin. unfold f. cbn. apply list_elem_of_lookup in Hin as [i Hi].
  destruct (list_find (λ q : string * Pred, q.1 = name) ps) as [[j [name' p']]|] eqn:Ef.
  - apply list_find_Some in Ef as (Hj & E' & _). cbn in E'. subst name'. cbn.
    assert (i = j) as <-; [|congruence].
    eapply (NoDup_lookup ps.*1); [done|..]; by rewrite list_lookup_fmap, ?Hi, ?Hj.
  - apply list_find_None in Ef. rewrite Forall_forall in Ef. by destruct (Ef (name, p) (list_elem_of_lookup_2 _ _ _ Hi)).
Qed.

(** The predicates that wanted to run have all accepted a candidate that passed the filter, and their records stand. *)
Lemma filter_accepted d candidates predicates filtered (u' : Unit Pred R) :
  inv (NewScheduleUnit d) → NoDup (key <$> candidates) → Forall known candidates →
  NoDup predicates.*1 → NoDup (pred_Name <$> predicates.*2) →
  findCandidatesThatFit always (NewScheduleUnit d) candidates predicates = Ret (filtered, u') →
  unit_ok u' ∧ filtered `sublist_of` candidates ∧ SchedData u' = d ∧
  (∃ news u1, preExecPredicate (NewScheduleUnit d) predicates = Ret (news, u1) ∧ selectPlugins u' = selectPlugins u1) ∧
  ∀ p, p ∈ predicates.*2 → ∃ v v' ok q, SchedData v = d ∧ pred_PreExecute p v = Ret (ok, q, v') ∧
    (ok = true → ∀ c, c ∈ filtered → ∃ w w' rs, SchedData w = d ∧ pred_Execute q w c = Ret (true, rs, w') ∧
       recorded u' (key c) (pred_Name q) = recorded w' (key c) (pred_Name q) ∧
       (pred_Name q = CommonPredicates.disk_Name → storages w !! key c = None ∧ storages u' !! key c = storages w' !! key c)).
Proof.
  intros Hi0 Hnd Hkn Hn1 Hn2 Ef. unfold findCandidatesThatFit in Ef.
  destruct (preExecPredicate _ predicates) as [[news u1]| | |] eqn:Ep; try done.
  destruct (preExec_spec predicates _ _ _ Ep) as ((Hd & Hc & Hct & Hst) & Hs1 & Hs2 & Hwant).
  assert (sorted_predicates news ≡ₚ news.*2) as Hperm by (apply sorted_predicates_perm; eapply sublist_NoDup; [exact Hn1|exact Hs1]).
  assert (unit_ok u1) as Hok by (unfold unit_ok; rewrite Hc; apply map_Forall_empty).
  assert (inv u1) as Hi by (by apply (lp_inv_ext (C := C) (NewScheduleUnit d))).
  enough (unit_ok u' ∧ filtered `sublist_of` candidates ∧ SchedData u' = d ∧ selectPlugins u' = selectPlugins u1 ∧ ∀ q c, q ∈ news.*2 → c ∈ filtered →
    ∃ w w' rs, SchedData w = d ∧ pred_Execute q w c = Ret (true, rs, w') ∧
      recorded u' (key c) (pred_Name q) = recorded w' (key c) (pred_Name q) ∧
      (pred_Name q = CommonPredicates.disk_Name → storages w !! key c = None ∧ storages u' !! key c = storages w' !! key c))
    as (? & ? & ? & ? & Hall).
  { split_and!; [done..|by exists news, u1|]. intros p Hp. destruct (Hwant p Hp) as (v & v' & ok & q & Hv & Ev & Hq).
    exists v, v', ok, q. split; [done|]. split; [done|]. intros Ht c Hcf. by apply Hall; [apply Hq|]. }
  destruct (sorted_predicates news) as [|p0 ps] eqn:Es.
  { injection Ef as <- <-. split_and!; [done..|]. intros q c Hq _. rewrite <- Hperm in Hq. by apply elem_of_nil in Hq. }
  destruct (check_units always u1 (p0 :: ps) candidates [] []) as [[[u2 fs] es]| | |] eqn:Eu; cbn [obind] in Ef; try done.
  destruct es; [|done]. injection Ef as <- <-.
  destruct (check_units_spec _ _ _ _ _ _ _ _ Hnd Hkn Hi Hok Eu) as (gs & -> & [Hsub ? Hok2 Hd2 Hp2 _ Hacc]).
  cbn [app]. split_and!; [done|done|by rewrite Hd2, Hd|done|]. intros q c Hq Hcg.
  destruct (Hacc c Hcg) as (w & fcs & v & Hiw & Hdw & Hsw & Hu & Hent & Hsv).
  assert (known c) as Hkc by (rewrite Forall_forall in Hkn; apply Hkn; by eapply elem_of_sublist).
  assert (NoDup (pred_Name <$> p0 :: ps)) as Hn3 by (rewrite Hperm; eapply sublist_NoDup; [exact Hn2|exact Hs2]).
  pose proof (unitFits_run w c (p0 :: ps)) as Hr. rewrite Hu in Hr. cbn [fst snd] in Hr.
  destruct (run_check_accepted c _ Hkc (p0 :: ps) w true [] [] fcs v Hn3 Hiw Hr) as [Hall _].
  rewrite Forall_forall in Hall. destruct (Hall q) as (x & x' & rs & Hdx & _ & Hx & Hrec & Hsx); [by rewrite Hperm|].
  exists x, x', rs. split; [by rewrite Hdx, Hdw, Hd|]. split; [done|].
  split; [etrans; [|exact Hrec]; unfold recorded; by rewrite Hent|].
  intros Hn. destruct (Hsx Hn) as [Hs3 Hs4]. rewrite Hs3, Hsw, Hst, Hsv. done.
Qed.

End Local.

End ScheduleProofs.
