(* ===== verification/Pipeline.v ===== *)
(** * From the filter to the result: what is known of a host that the scheduler gives guests to *)

From S2P Require Import Prelude SchedInfo Score Scheduler SchedulerProofs Networks Storages Unit.
From S2P Require Import HostDesc Candidates CommonPredicates GuestPredicates BaremetalPredicates.
From S2P Require Import Predicates Schedule CapacityProofs PredicateLocality ScheduleProofs.
Import Unit Candidates Predicates Schedule CapacityProofs PredicateLocality ScheduleProofs.
Local Open Scope Z_scope.
Local Open Scope go_scope.

Module Pipeline.

Section Pipeline.
Context (env : Env) (reason_str : reason → string) (error_str : error → string) (always : bool).

#[local] Instance SPE : SchedPredicate Predicate Candidater reason error := env_SchedPredicate env reason_str error_str.

(** ** The priorities change scores only *)

(** The request, the plugins and the capacities of two units are the same, and the storages noted in the first are
    noted in the second. *)
Record scored (u u' : U) : Prop := {
  sc_data : SchedData u' = SchedData u;
  sc_plugins : selectPlugins u' = selectPlugins u;
  sc_room : unit_ok u → unit_ok u' ∧ ∀ key, capacity_of u' key = capacity_of u key;
  sc_storages : ∀ key ds, CandidateDiskStoragesMap u !! key = Some ds → CandidateDiskStoragesMap u' !! key = Some ds }.

#[local] Instance scored_preorder : PreOrder scored.
Proof.
  split; [done|]. intros u1 u2 u3 [D1 P1 R1 S1] [D2 P2 R2 S2]. split; [congruence..| |auto].
  intros Hok. destruct (R1 Hok) as [Hok2 E1]. destruct (R2 Hok2) as [Hok3 E2]. split; [done|]. intros key. by rewrite E2, E1.
Qed.

Lemma scored_table u u' : SchedData u' = SchedData u → selectPlugins u' = selectPlugins u → CapacityMap u' = CapacityMap u →
  CandidateDiskStoragesMap u' = CandidateDiskStoragesMap u → scored u u'.
Proof.
  intros ? ? E Es. split; [done..| |by rewrite Es]. intros Hok. unfold unit_ok, capacity_of, GetCapacity. rewrite E.
  split; [done|]. intros key. destruct (CapacityMap u !! key) as [o|]; [|done]. by destruct (MinValue o =? EmptyCapacity).
Qed.

Lemma scored_capacity u key : scored u (GetCapacity u key).2.
Proof.
  split.
  1,2: unfold GetCapacity; destruct (CapacityMap u !! key) as [o|]; [|done]; by destruct (MinValue o =? EmptyCapacity).
  - intros Hok. split; [by apply GetCapacity_ok|]. intros key'. by apply GetCapacity_stable.
  - unfold GetCapacity; destruct (CapacityMap u !! key) as [o|]; [|done]; by destruct (MinValue o =? EmptyCapacity).
Qed.

Lemma priority_Map_scored p u c u' : priority_Map p u c = Ret u' → scored u u'.
Proof.
  destruct p; cbn [priority_Map].
  1-3: destruct (HostCandidate c) as [h| | |]; cbn [obind]; try done.
  1: destruct (HostDesc.Tenants (HostDesc.Host h) !! _) as [n|]; [destruct (0 <? n)|].
  1-3: intros [= <-]; by apply scored_table.
  1: destruct (lowload h).
  3: destruct (0 <? HostDesc.CreatingGuestCount h).
  1-4: intros [= <-]; by apply scored_table.
  destruct (GetCapacity u (IndexKey c)) as [n u1] eqn:E. intros [= <-]. transitivity u1; [|by apply scored_table].
  replace u1 with (GetCapacity u (IndexKey c)).2 by (by rewrite E). apply scored_capacity.
Qed.

Lemma map_priorities_scored ps c : ∀ u m u', map_priorities ps u c = (m, u') → scored u u'.
Proof.
  induction ps as [|p ps IH]; intros u m u' E; cbn [map_priorities] in E; [by simplify_eq|].
  destruct (priority_Map p u c) as [u1| | |] eqn:Ep; try (by simplify_eq).
  etrans; [by eapply priority_Map_scored|by eapply IH].
Qed.

Lemma process_candidates_scored ps cs : ∀ u es u' es', process_candidates ps u cs es = Ret (u', es') → scored u u'.
Proof.
  induction cs as [|c cs IH]; intros u es u' es' E; cbn [process_candidates] in E; [by simplify_eq|].
  destruct (map_priorities ps u c) as [m u1] eqn:Em. apply map_priorities_scored in Em.
  destruct m; try done; (etrans; [exact Em|by eapply IH]).
Qed.

Lemma foldl_scored {A} (f : U → A → U) (l : list A) : (∀ u x, scored u (f u x)) → ∀ u, scored u (foldl f u l).
Proof. intros Hf. induction l as [|x l IH]; intros u; cbn [foldl]; [done|]. etrans; [apply Hf|apply IH]. Qed.

Lemma set_tag_scores_scored u c prefer avoid objTags : scored u (CommonPredicates.set_tag_scores env u c prefer avoid objTags).
Proof.
  assert (∀ u m b, scored u (CommonPredicates.SetCandidateScoreBySchedtag env u c m b)) as Hs.
  { intros u0 m b. unfold CommonPredicates.SetCandidateScoreBySchedtag. apply foldl_scored. intros. by apply scored_table. }
  unfold CommonPredicates.set_tag_scores. eapply transitivity; apply Hs.
Qed.

Lemma GetDiskStoragesMap_scored (u : U) key : scored u (CommonPredicates.GetDiskStoragesMap u key).2.
Proof.
  unfold CommonPredicates.GetDiskStoragesMap. destruct (CandidateDiskStoragesMap u !! key) as [ds|] eqn:E; [done|].
  split; [done..| |].
  - intros Hok. split; [done|]. intros key'. unfold capacity_of, GetCapacity. cbn.
    destruct (CapacityMap u !! key') as [o|]; [|done]. by destruct (MinValue o =? EmptyCapacity).
  - intros key' ds Hd. cbn. rewrite lookup_insert_ne; [done|]. intros ->. congruence.
Qed.

Lemma OnPriorityEnd_scored p u c : scored u (OnPriorityEnd env p u c).
Proof.
  destruct p; try done; cbn [OnPriorityEnd].
  - apply set_tag_scores_scored.
  - unfold GuestPredicates.group_OnPriorityEnd.
    destruct (GuestPredicates.AvoidGroups p), (GuestPredicates.PreferGroups p); by apply scored_table.
  - unfold CommonPredicates.disk_OnPriorityEnd. pose proof (GetDiskStoragesMap_scored u (IndexKey c)) as Hs.
    destruct (CommonPredicates.GetDiskStoragesMap u (IndexKey c)) as [ds u1]. cbn in Hs.
    etrans; [exact Hs|apply set_tag_scores_scored].
Qed.

Lemma PrioritizeCandidates_scored ps u cs pl u' : PrioritizeCandidates env ps u cs = Ret (pl, u') →
  scored u u' ∧ Score.Host <$> pl = IndexKey <$> cs.
Proof.
  unfold PrioritizeCandidates. destruct ps as [|p ps].
  - destruct (equal_priorities cs) as [l|] eqn:E; [|done]. intros [= <- <-]. split; [done|].
    revert l E. induction cs as [|c cs IH]; intros l E; cbn in E; [by simplify_eq|].
    destruct (String.eqb (IndexKey c) ""); [done|]. destruct (equal_priorities cs) as [rest|]; [|done]. cbn in E. simplify_eq.
    cbn. by rewrite IH.
  - destruct (process_candidates _ _ _ _) as [[u1 es]| | |] eqn:E; cbn [obind]; try done.
    destruct es; [|by case_bool_decide]. intros Ep. injection Ep as <- <-. split.
    + etrans; [by eapply process_candidates_scored|]. apply foldl_scored. intros u0 c. apply foldl_scored. intros u3 q.
      apply OnPriorityEnd_scored.
    + by rewrite <- list_fmap_compose.
Qed.

(** ** The result *)

Lemma suggest_counts {D} (capacity : string → Z) (allocated : string → D) limit want cs : ∀ ids results it,
  it ∈ (Scheduler.suggest IndexKey capacity allocated limit want cs ids results).2 → 0 < Scheduler.Count it → it ∈ results.
Proof.
  induction cs as [|c cs IH]; intros ids results it Hin Hc; cbn [Scheduler.suggest] in Hin; [done|].
  destruct (_ <=? _); [done|]. destruct (_ && _); [|by eapply IH].
  apply IH in Hin; [|done]. apply elem_of_app in Hin as [Hin|Hin]; [done|]. apply list_elem_of_singleton in Hin as ->. by cbn in Hc.
Qed.

Lemma result_counts {D} (capacity : string → Z) (allocated : string → D) limit all has scs cs it :
  it ∈ Scheduler.generateScheduleResult IndexKey capacity allocated limit all has scs cs → 0 < Scheduler.Count it →
  ∃ c, (c, Scheduler.Count it) ∈ scs ∧ Scheduler.ID it = IndexKey c ∧ Scheduler.Allocated it = allocated (IndexKey c).
Proof.
  intros Hin Hc. unfold Scheduler.generateScheduleResult in Hin.
  destruct (Scheduler.suggest _ _ _ _ _ _ _ _) as [ids results] eqn:Es.
  assert (it ∈ results) as Hr by (destruct (_ || _); [by eapply suggest_counts|done]).
  replace results with (ids, results).2 in Hr by done. rewrite <- Es in Hr. apply suggest_counts in Hr; [|done].
  apply list_elem_of_fmap in Hr as ([c n] & -> & Hin'). by exists c.
Qed.

Lemma selected_candidates_elem (cs : list Candidater) sel c n : (c, n) ∈ selected_candidates cs sel →
  c ∈ cs ∧ (IndexKey c, n) ∈ sel.
Proof.
  unfold selected_candidates. intros Hin. apply list_elem_of_omap in Hin as ([k m] & Hs & E). cbn in E.
  unfold find_candidate in E. destruct (list_find _ cs) as [[i c']|] eqn:Ef; cbn in E; [|done]. simplify_eq.
  apply list_find_Some in Ef as (Hi & Hk & _). cbn in Hk. subst k. split; [by eapply list_elem_of_lookup_2|done].
Qed.

(** A host that is given guests: it passed the filter, its count is within the capacity that the predicates recorded
    (or one), and the plugins of the unit have seen it. *)
Record placed (d : SchedInfo.SchedInfo) (filtered : list Candidater) (u1 u' : U) (c : Candidater) (n : Z)
    (disks : list (option CandidateDisk)) : Prop := {
  pl_in : c ∈ filtered;
  pl_count : n ≤ Z.max 1 (capacity_of u1 (IndexKey c));
  pl_allocated : disks = (GetAllocatedResource u' (IndexKey c)).1;
  pl_plugins : ∃ u2 scs, scored u1 u2 ∧ (c, n) ∈ scs ∧
    select_ends (OnSelectEnd env) (selectPlugins u1) u2 scs = Ret u' }.

Lemma Schedule_placed ps sort_reverse fuel d candidates predicates items dirty u' :
  (∀ l, sort_reverse l ≡ₚ l) → NoDup (IndexKey <$> candidates) →
  (∀ filtered u1, findCandidatesThatFit always (NewScheduleUnit d) candidates predicates = Ret (filtered, u1) →
     filtered `sublist_of` candidates ∧ unit_ok u1 ∧ SchedData u1 = d) →
  0 ≤ SchedInfo.Count d < Z.of_nat fuel →
  Schedule always (PrioritizeCandidates env ps) (OnSelectEnd env) sort_reverse fuel (NewScheduleUnit d) candidates predicates
    = Ret (items, dirty, u') →
  ∃ filtered u1, findCandidatesThatFit always (NewScheduleUnit d) candidates predicates = Ret (filtered, u1) ∧
    ∀ it, it ∈ items → 0 < Scheduler.Count it →
    ∃ c, c ∈ candidates ∧ Scheduler.ID it = IndexKey c ∧ placed d filtered u1 u' c (Scheduler.Count it) (Scheduler.Allocated it).
Proof.
  intros Hsort Hnd Hfilter Hfuel Es. unfold Schedule in Es. cbn [SchedData NewScheduleUnit] in Es.
  destruct candidates as [|c0 cs] eqn:Ecs; [done|]. rewrite <- Ecs in *. clear Ecs c0 cs.
  destruct (findCandidatesThatFit _ _ _ _) as [[filtered u1]| | |] eqn:Ef; cbn [lift obind] in Es; try done.
  exists filtered, u1. split; [done|]. intros it Hit Hcount. destruct (Hfilter filtered u1 eq_refl) as (Hsub & Hok & Hd).
  assert (NoDup (IndexKey <$> filtered)) as Hndf by (eapply sublist_NoDup; [exact Hnd|by apply fmap_sublist]).
  destruct (bool_decide (length filtered = 0%nat)) eqn:El; cbn [negb andb] in Es.
  { destruct (SchedInfo.IsSuggestion d); cbn [negb andb obind] in Es; [|done]. injection Es as <- _ _.
    apply result_counts in Hit as (c & Hin & _); [|done]. by apply elem_of_nil in Hin. }
  destruct (PrioritizeCandidates env ps u1 filtered) as [[pl u2]| | |] eqn:Ep; cbn [lift obind] in Es; try done.
  apply PrioritizeCandidates_scored in Ep as [Hsc Hhosts]. destruct (sc_room _ _ Hsc Hok) as [Hok2 Hcap].
  unfold SelectHosts in Es. rewrite (sc_data _ _ Hsc), Hd, (sc_plugins _ _ Hsc) in Es.
  destruct (Scheduler.select_hosts _ _ _ _ _) as [[rest sel]| | |] eqn:Esel; cbn [lift obind] in Es; try done.
  destruct (select_ends _ _ _ _) as [u3|[]| |] eqn:Een; cbn [lift obind] in Es; try done.
  destruct (_ && (0 <? rest)) eqn:Erest; cbn [obind] in Es; [done|]. injection Es as <- _ <-.
  assert (Scheduler.SelectHosts (capacity_of u2) sort_reverse fuel (SchedInfo.Count d) (SchedInfo.IsSuggestion d)
    (SchedInfo.BestEffort d) pl = Ret sel) as Eall by (unfold Scheduler.SelectHosts; rewrite Esel; cbn [obind]; by rewrite Erest).
  apply result_counts in Hit as (c & Hin & Hid & Hal); [|done]. pose proof Hin as Hin'.
  apply selected_candidates_elem in Hin' as [Hcf Hsel]. exists c. split; [by eapply elem_of_sublist|]. split; [done|].
  split; [done| |done|by exists u2, (selected_candidates filtered sel)].
  pose proof (SchedulerProofs.SelectHosts_entries _ _ _ _ _ _ _ _ Hsort ltac:(by rewrite Hhosts) Hfuel Eall _ _ Hsel) as Hw.
  unfold SchedulerProofs.weight in Hw. by rewrite Hcap in Hw.
Qed.

(** ** The marks *)

Lemma suggest_app {D} (capacity : string → Z) (allocated : string → D) limit want cs : ∀ ids results,
  ∃ tail, (Scheduler.suggest IndexKey capacity allocated limit want cs ids results).2 = results ++ tail ∧
    Forall (λ it, Scheduler.Count it = 0) tail.
Proof.
  induction cs as [|c cs IH]; intros ids results; cbn [Scheduler.suggest]; [exists []; split; [by rewrite app_nil_r|constructor]|].
  destruct (_ <=? _); [exists []; split; [by rewrite app_nil_r|constructor]|]. destruct (_ && _); [|apply IH].
  destruct (IH (IndexKey c :: ids) (results ++ [Scheduler.newSchedResultByCtx IndexKey capacity allocated 0 c])) as (tail & E & Ht).
  eexists. split; [rewrite E, <- app_assoc; done|]. by constructor.
Qed.

Lemma generate_marks {D} (capacity : string → Z) (allocated : string → D) limit all has scs cs :
  ∃ tail, (λ it, (Scheduler.ID it, Scheduler.Count it)) <$>
      Scheduler.generateScheduleResult IndexKey capacity allocated limit all has scs cs =
    ((λ p, (IndexKey p.1, p.2)) <$> scs) ++ tail ∧ Forall (λ p, p.2 = 0) tail.
Proof.
  unfold Scheduler.generateScheduleResult. set (ids0 := (λ it, IndexKey it.1) <$> scs). set (first := (λ it, Scheduler.newSchedResultByCtx _ _ _ _ _) <$> scs).
  destruct (suggest_app capacity allocated limit (λ c, 0 <? capacity (IndexKey c)) cs ids0 first) as (t1 & E1 & Ht1).
  destruct (Scheduler.suggest _ _ _ _ _ _ _ _) as [ids results]. cbn in E1. subst results.
  assert (∃ tail, (if all || has then (Scheduler.suggest IndexKey capacity allocated limit (λ _, true) cs ids (first ++ t1)).2
    else first ++ t1) = first ++ tail ∧ Forall (λ it, Scheduler.Count it = 0) tail) as (tail & -> & Ht).
  { destruct (all || has); [|by exists t1]. destruct (suggest_app capacity allocated limit (λ _, true) cs ids (first ++ t1)) as (t2 & -> & Ht2).
    exists (t1 ++ t2). rewrite app_assoc. split; [done|]. by apply Forall_app. }
  exists ((λ it, (Scheduler.ID it, Scheduler.Count it)) <$> tail). rewrite fmap_app. subst first. rewrite <- list_fmap_compose.
  split; [done|]. by apply Forall_fmap.
Qed.

Lemma SelectHosts_marks sort_reverse fuel u filtered pl scs u' :
  SelectHosts (OnSelectEnd env) sort_reverse fuel u filtered pl = Ret (scs, u') →
  NoDup (IndexKey <$> scs.*1) ∧ Forall (λ p, 1 ≤ p.2 ∧ p.1 ∈ filtered) scs.
Proof.
  unfold SelectHosts. destruct (Scheduler.select_hosts _ _ _ _ _) as [[rest sel]| | |] eqn:Esel; cbn [lift obind]; try done.
  destruct (select_ends _ _ _ _) as [u4|[]| |]; cbn [lift obind]; try done. destruct (_ && (0 <? rest)); [done|].
  intros E. injection E as <- _. apply SchedulerProofs.select_hosts_ok in Esel as [Hnd Hpos]. split.
  - eapply sublist_NoDup; [exact Hnd|]. clear. unfold selected_candidates. induction sel as [|[k n] sel IH]; [constructor|].
    cbn [omap list_omap fst snd]. unfold find_candidate at 1. destruct (list_find _ filtered) as [[i c]|] eqn:E; cbn.
    + apply list_find_Some in E as (_ & Hk & _). cbn in Hk. rewrite Hk. by constructor.
    + by constructor.
  - apply Forall_forall. intros [c n] Hin. apply selected_candidates_elem in Hin as [Hc Hs].
    rewrite Forall_forall in Hpos. split; [apply (Hpos _ Hs)|done].
Qed.

(** The items of a result are those of the selection and items without guests.  The dirty candidates are the selection,
    unless nothing is to be marked; every selected candidate occurs once, with a positive count. *)
Lemma Schedule_marks ps sort_reverse fuel d candidates predicates items dirty u' :
  (∀ filtered u1, findCandidatesThatFit always (NewScheduleUnit d) candidates predicates = Ret (filtered, u1) →
     filtered `sublist_of` candidates) →
  Schedule always (PrioritizeCandidates env ps) (OnSelectEnd env) sort_reverse fuel (NewScheduleUnit d) candidates predicates
    = Ret (items, dirty, u') →
  ∃ scs tail, (λ it, (Scheduler.ID it, Scheduler.Count it)) <$> items = scs ++ tail ∧ Forall (λ p, p.2 = 0) tail ∧
    NoDup scs.*1 ∧ Forall (λ p, 1 ≤ p.2 ∧ p.1 ∈ IndexKey <$> candidates) scs ∧
    dirty = if negb (SchedInfo.IsSuggestion d) && negb (SchedInfo.SkipDirtyMarkHost d) then scs else [].
Proof.
  intros Hfilter Es. unfold Schedule in Es. cbn [SchedData NewScheduleUnit] in Es.
  destruct candidates as [|c0 cs] eqn:Ecs; [done|]. rewrite <- Ecs in *. clear Ecs c0 cs.
  destruct (findCandidatesThatFit _ _ _ _) as [[filtered u1]| | |] eqn:Ef; cbn [lift obind] in Es; try done.
  pose proof (Hfilter filtered u1 eq_refl) as Hsub. destruct (_ && negb (SchedInfo.IsSuggestion d)); [done|].
  assert (∃ scs u2, (if negb (bool_decide (length filtered = 0%nat))
      then let! (pl, u) := lift PriorityErrors (PrioritizeCandidates env ps u1 filtered) in
           SelectHosts (OnSelectEnd env) sort_reverse fuel u filtered pl
      else Ret ([], u1)) = Ret (scs, u2) ∧ NoDup (IndexKey <$> scs.*1) ∧ Forall (λ p, 1 ≤ p.2 ∧ p.1 ∈ filtered) scs)
    as (scs & u2 & Esel & Hnd & Hpos).
  { destruct (negb (bool_decide (length filtered = 0%nat))); [|exists [], u1; split_and!; [done|constructor..]].
    destruct (PrioritizeCandidates env ps u1 filtered) as [[pl u2]| | |]; cbn [lift obind] in Es |- *; try done.
    destruct (SelectHosts _ _ _ _ _ _) as [[scs u3]| | |] eqn:Es2; cbn [obind] in Es; try done.
    exists scs, u3. split; [done|]. by eapply SelectHosts_marks. }
  rewrite Esel in Es. cbn [obind] in Es. injection Es as <- <- _.
  destruct (generate_marks (capacity_of u2) (λ id, (GetAllocatedResource u2 id).1) (SchedInfo.SuggestionLimit d) (SchedInfo.SuggestionAll d)
    (negb (bool_decide (SchedInfo.Candidates d = []))) scs candidates) as (tail & -> & Ht).
  exists ((λ p, (IndexKey p.1, p.2)) <$> scs), tail. split_and!; [done..| | |done].
  - assert (((λ p, (IndexKey p.1, p.2)) <$> scs).*1 = IndexKey <$> scs.*1) as ->; [|done]. clear. by induction scs; f_equal/=.
  - apply Forall_fmap. eapply Forall_impl; [exact Hpos|]. intros [c n] [? Hin]. split; [done|].
    apply (list_elem_of_fmap_2 IndexKey candidates c). by eapply elem_of_sublist.
Qed.

End Pipeline.

End Pipeline.
