(* ===== verification/Overcommit.v ===== *)
(** * No host is promised more than it has: from the predicates of guests to the result of the scheduler *)

From S2P Require Import Prelude SchedInfo Score Scheduler SchedulerProofs Networks Storages Unit.
From S2P Require Import HostDesc Candidates CommonPredicates GuestPredicates BaremetalPredicates.
From S2P Require Import Predicates Schedule CapacityProofs PredicateLocality ScheduleProofs.
From S2P Require Import Pipeline.
Import Unit Candidates Predicates Schedule CapacityProofs PredicateLocality ScheduleProofs Pipeline.
Local Open Scope Z_scope.
Local Open Scope go_scope.

Module Overcommit.

(** ** What fits *)

Definition rsvd (d : SchedInfo.SchedInfo) : bool := negb (bool_decide (SchedInfo.IsolatedDevices d = [])).

Definition fits_cpu (d : SchedInfo.SchedInfo) (c : Candidater) (n : Z) : Prop :=
  ∃ h, c = HostC h ∧ n * SchedInfo.Ncpu d ≤ HostDesc.GetFreeCPUCount h (rsvd d).
Definition fits_memory (d : SchedInfo.SchedInfo) (c : Candidater) (n : Z) : Prop :=
  ∃ h, c = HostC h ∧ n * SchedInfo.Memory d ≤ HostDesc.GetFreeMemSize h (rsvd d).
Definition fits_storage (bound : Storages.float32) (d : SchedInfo.SchedInfo) (c : Candidater) (n : Z) : Prop :=
  ∃ h, c = HostC h ∧ ∀ be mx total, (GuestPredicates.storage_requests d).1 !! be = Some (mx, total) →
    n * Z.max total 1 ≤ HostDesc.GetFreeStorageSizeOfType bound h be (rsvd d).
Definition fits_devices (d : SchedInfo.SchedInfo) (c : Candidater) (n : Z) : Prop :=
  ∃ h, c = HostC h ∧ ∀ t k, GuestPredicates.type_requests (SchedInfo.IsolatedDevices d) !! t = Some k →
    n * Z.of_nat k ≤ Z.of_nat (length (HostDesc.UnusedIsolatedDevicesByType h t)).

Section Sound.
Context (env : Env) (range_perm : ∀ A (m : gmap string A), range env A m ≡ₚ map_to_list m).
Abbreviation helper := (PredicateHelper Predicate reason).

(** A predicate that wants to run and accepts a candidate has recorded how many guests fit, and one does. *)
Class SoundPredicate (p : Predicate) (fits : SchedInfo.SchedInfo → Candidater → Z → Prop) : Prop :=
  sound_predicate : ∀ u v c rs u', PreExecute env p u = Ret (true, p, v) → Execute env p u c = Ret (true, rs, u') →
    ∃ cnt, recorded u' (IndexKey c) (Name p) = Some cnt ∧ 1 ≤ GetCount cnt ∧
      ∀ n, 0 ≤ n ≤ GetCount cnt → fits (SchedData u) c n.

(** The helper accepted, and its last act was to record a capacity. *)
Lemma accept_capacity key name k (u : U) (h : helper) z rs u' : helps key name k u h →
  GetResult (HelperSetCapacity h z) = Ret (true, rs, u') →
  predicateFails h = [] ∧ 1 ≤ z ∧ recorded u' key name = Some (NormalCounter z).
Proof.
  intros Hh Hr. unfold GetResult in Hr. injection Hr as Hg <-. apply getResult_true in Hg as (-> & Hf & Hc). cbn in Hf, Hc.
  assert (1 ≤ z) as Hz.
  { unfold EmptyCapacity in Hc. destruct (Z.ltb_spec z 0); [done|]. destruct (Z.ltb_spec z (-1)); lia. }
  split; [done|]. split; [done|]. apply (helps_capacity _ _ _ _ _ z) in Hh as (_ & _ & He).
  assert (validateCapacityInput (NormalCounter (Z.max z 0)) = true) as Hv by (apply Z.leb_le; cbn; lia).
  etrans; [exact (recorded_effect _ _ _ _ _ _ Hv He)|]. cbn. do 2 f_equal. lia.
Qed.

Lemma refused (h : helper) r rs u' : GetResult (AppendPredicateFail h r) ≠ Ret (true, rs, u').
Proof.
  intros Hr. unfold GetResult in Hr. assert (getResult (AppendPredicateFail h r) = (true, rs)) as Hg by congruence.
  apply getResult_true in Hg as (_ & Hf & _). cbn in Hf. by destruct (predicateFails h).
Qed.

Lemma quot_fits free req n : 0 < req → 1 ≤ free `quot` req → n ≤ free `quot` req → n * req ≤ free.
Proof.
  intros Hr H1 Hn. assert (0 ≤ free).
  { destruct (Z.lt_ge_cases free 0); [|done]. assert (free `quot` req ≤ 0 `quot` req) by (apply Z.quot_le_mono; lia).
    rewrite Z.quot_0_l in *; lia. }
  pose proof (Z.mul_quot_le free req ltac:(done) ltac:(lia)). nia.
Qed.

(** ** CPU and memory *)

Lemma amount_sound name (u : U) c free total req rs u' : 0 < req →
  GuestPredicates.amount_Execute name u c free total req = Ret (true, rs, u') →
  ∃ cnt, recorded u' (IndexKey c) name = Some cnt ∧ 1 ≤ GetCount cnt ∧ ∀ n, 0 ≤ n ≤ GetCount cnt → n * req ≤ free.
Proof.
  intros Hr Hx. unfold GuestPredicates.amount_Execute in Hx.
  eapply (accept_capacity (IndexKey c) name None u) in Hx as (_ & H1 & Hrec).
  - exists (NormalCounter (free `quot` req)). split; [done|]. split; [done|]. intros n Hn. cbn in Hn. apply quot_fits; lia.
  - destruct (free <? req); [apply helps_fail|]; apply helps_start.
Qed.

#[global] Instance cpu_sound : SoundPredicate CPUPredicate fits_cpu.
Proof.
  intros u v c rs u' Hp Hx. cbn in Hp. injection Hp as Hp _. unfold GuestPredicates.cpu_PreExecute in Hp.
  destruct (SchedInfo.IsPublicCloudProvider _); [done|]. destruct (Z.leb_spec (SchedInfo.Ncpu (SchedData u)) 0); [done|].
  destruct c as [h|]; [|done]. cbn [Execute GuestPredicates.cpu_Execute HostCandidate obind] in Hx.
  apply amount_sound in Hx as (cnt & ? & ? & Hf); [|lia]. exists cnt. split_and!; [done..|].
  intros n Hn. exists h. split; [done|by apply Hf].
Qed.

#[global] Instance memory_sound : SoundPredicate MemoryPredicate fits_memory.
Proof.
  intros u v c rs u' Hp Hx. cbn in Hp. injection Hp as Hp _. unfold GuestPredicates.memory_PreExecute in Hp.
  destruct (SchedInfo.IsPublicCloudProvider _); [done|]. destruct (Z.leb_spec (SchedInfo.Memory (SchedData u)) 0); [done|].
  destruct c as [h|]; [|done]. cbn [Execute GuestPredicates.memory_Execute HostCandidate obind] in Hx.
  apply amount_sound in Hx as (cnt & ? & ? & Hf); [|lia]. exists cnt. split_and!; [done..|].
  intros n Hn. exists h. split; [done|by apply Hf].
Qed.

(** ** Storage *)

Lemma size_loop_helps key name (u : U) hc r reqs : ∀ m h, helps key name None u h →
  helps key name None u (GuestPredicates.size_loop env hc r reqs m h).2.
Proof.
  induction reqs as [|[be [mx total]] reqs IH]; intros m h Hh; cbn [GuestPredicates.size_loop]; [done|].
  destruct (GuestPredicates.getStorageCapacity _ _ _ _ _) as [cap free]. apply IH. destruct (cap =? 0); [by apply helps_fail|done].
Qed.

Lemma size_loop_min hc r reqs : ∀ m (h : helper),
  (GuestPredicates.size_loop env hc r reqs m h).1 ≤ m ∧
  ∀ be mx total, (be, (mx, total)) ∈ reqs →
    (GuestPredicates.size_loop env hc r reqs m h).1 ≤ HostDesc.GetFreeStorageSizeOfType (bound env) hc be r `quot` Z.max total 1.
Proof.
  induction reqs as [|[be [mx total]] reqs IH]; intros m h; cbn [GuestPredicates.size_loop]; [split; [done|by intros ??? ?%elem_of_nil]|].
  destruct (GuestPredicates.getStorageCapacity env hc r be total) as [cap free] eqn:E. unfold GuestPredicates.getStorageCapacity in E. injection E as <- <-.
  set (h' := if _ =? 0 then _ else h). destruct (IH (Z.min m (HostDesc.GetFreeStorageSizeOfType (bound env) hc be r `quot` Z.max total 1)) h')
    as [Hm Ha]. split; [lia|]. intros be' mx' total' [[= -> -> ->]|Hin]%elem_of_cons; [lia|by apply (Ha _ mx')].
Qed.

#[global] Instance storage_sound : SoundPredicate StoragePredicate (fits_storage (bound env)).
Proof.
  intros u v c rs u' _ Hx. destruct c as [h|]; [|done]. cbn [Execute GuestPredicates.storage_Execute HostCandidate obind] in Hx.
  unfold fits_storage. destruct (GuestPredicates.storage_requests (SchedData u)) as [sizes stores].
  destruct (list_find _ _) as [[i [store z]]|].
  { by apply refused in Hx. }
  pose proof (size_loop_helps (IndexKey (HostC h)) GuestPredicates.storage_Name u h (UseReserved u) (range env _ sizes) 0xFFFFFFFF
    _ (helps_start _ _ u)) as Hh.
  destruct (size_loop_min h (UseReserved u) (range env _ sizes) 0xFFFFFFFF
    (NewPredicateHelper GuestPredicates.storage_Name u (IndexKey (HostC h)))) as [_ Hmin].
  destruct (GuestPredicates.size_loop _ _ _ _ _ _) as [m hh]. cbn [fst snd] in Hh, Hmin.
  destruct (Z.leb_spec m 0) as [Hle|Hgt].
  { by apply refused in Hx. }
  eapply accept_capacity in Hx as (_ & H1 & Hrec); [|exact Hh].
  exists (NormalCounter m). split; [done|]. split; [done|]. intros n Hn. exists h. split; [done|].
  intros be mx total Hb. cbn in Hn.
  assert (m ≤ HostDesc.GetFreeStorageSizeOfType (bound env) h be (UseReserved u) `quot` Z.max total 1) as Hq.
  { apply (Hmin be mx). rewrite range_perm. by apply elem_of_map_to_list. }
  apply quot_fits; [lia| |]; change (rsvd (SchedData u)) with (UseReserved u); lia.
Qed.

(** ** Devices *)

Lemma device_loop_min free short reqs : ∀ m m', GuestPredicates.device_loop free short reqs m = inr m' →
  m' ≤ m ∧ ∀ key k, (key, k) ∈ reqs → m' ≤ Z.of_nat (free key) `quot` Z.of_nat k.
Proof.
  induction reqs as [|[key k] reqs IH]; intros m m' E; cbn [GuestPredicates.device_loop] in E.
  { injection E as <-. split; [done|]. by intros ?? ?%elem_of_nil. }
  destruct (Nat.ltb_spec (free key) k); [done|]. apply IH in E as [Hm Ha].
  set (q := Z.of_nat (free key) `quot` Z.of_nat k) in *.
  assert (m' ≤ q ∧ m' ≤ m) as [Hq Hm'] by (destruct (Z.ltb_spec q m); lia).
  split; [done|]. intros key' k' [[= -> ->]|Hin]%elem_of_cons; [done|by apply Ha].
Qed.

#[global] Instance device_sound : SoundPredicate IsolatedDevicePredicate fits_devices.
Proof.
  intros u v c rs u' _ Hx. destruct c as [h|]; [|done]. cbn [Execute GuestPredicates.isolated_device_Execute HostCandidate obind] in Hx.
  destruct (GuestPredicates.check_ids _ _ _) as [r|m0]; [by apply refused in Hx|].
  destruct (_ <? _)%nat; [by apply refused in Hx|].
  destruct (GuestPredicates.device_loop _ DeviceTypeShort _ m0) as [r|m1] eqn:E1; [by apply refused in Hx|].
  destruct (GuestPredicates.device_loop _ DeviceModelShort _ m1) as [r|m2] eqn:E2; [by apply refused in Hx|].
  apply device_loop_min in E1 as [_ Ht]. apply device_loop_min in E2 as [Hm _].
  eapply accept_capacity in Hx as (_ & H1 & Hrec); [|apply helps_start].
  exists (NormalCounter m2). split; [done|]. split; [done|]. intros n Hn. exists h. split; [done|].
  intros t k Hk. cbn in Hn.
  assert (m1 ≤ Z.of_nat (length (HostDesc.UnusedIsolatedDevicesByType h t)) `quot` Z.of_nat k) as Hq.
  { apply Ht. rewrite range_perm. by apply elem_of_map_to_list. }
  destruct k as [|k]; [lia|]. apply quot_fits; lia.
Qed.

(** ** From the predicates to the filter and the result *)

Context (reason_str : reason → string) (error_str : error → string) (always : bool).
Context (nets : list Networks.SNetwork).
Context (nets_copies : ∀ n n', n ∈ nets → n' ∈ nets → Networks.Id n = Networks.Id n' → Networks.GetPorts n = Networks.GetPorts n').

#[local] Instance SPG : SchedPredicate Predicate Candidater reason error := env_SchedPredicate env reason_str error_str.
#[local] Instance LPG : LocalPredicates (counters_ok nets) (known_host nets) :=
  env_local env reason_str error_str nets nets_copies.

Lemma counters_ok_new d : counters_ok nets (NewScheduleUnit d).
Proof. intros n c _ E. cbn in E. by rewrite lookup_empty in E. Qed.

Section Filter.
Context (d : SchedInfo.SchedInfo) (candidates : list Candidater) (predicates : list (string * Predicate)).
Context (keys : NoDup (IndexKey <$> candidates)) (known : Forall (known_host nets) candidates).
Context (names1 : NoDup predicates.*1) (names2 : NoDup (Name <$> predicates.*2)).

Lemma filter_spec filtered u' :
  findCandidatesThatFit always (NewScheduleUnit d) candidates predicates = Ret (filtered, u') →
  unit_ok u' ∧ filtered `sublist_of` candidates ∧ SchedData u' = d ∧
  (∃ news u1, preExecPredicate (NewScheduleUnit d) predicates = Ret (news, u1) ∧ selectPlugins u' = selectPlugins u1) ∧
  ∀ p v, p ∈ predicates.*2 → plain p → PreExecute env p (NewScheduleUnit d) = Ret (true, p, v) →
    ∀ c, c ∈ filtered → ∃ w w' rs, SchedData w = d ∧ Execute env p w c = Ret (true, rs, w') ∧
      recorded u' (IndexKey c) (Name p) = recorded w' (IndexKey c) (Name p) ∧
      (Name p = CommonPredicates.disk_Name → CandidateDiskStoragesMap w !! IndexKey c = None ∧
         CandidateDiskStoragesMap u' !! IndexKey c = CandidateDiskStoragesMap w' !! IndexKey c).
Proof.
  intros Ef. destruct (filter_accepted (SP := SPG) _ _ always d candidates predicates filtered u' (counters_ok_new d)
    keys known names1 names2 Ef) as (? & ? & ? & ? & Hacc).
  split_and!; [done..|]. intros p v Hp Hpl Hpre c Hc. destruct (Hacc p Hp) as (v0 & v' & ok & q & Hd & Ep & Hok).
  destruct (PreExecute_data env p v0 (NewScheduleUnit d) ok q v' Hd Ep) as [v1 Ev1].
  assert (ok = true ∧ q = p) as [-> ->] by (split; congruence). by apply Hok.
Qed.

Lemma filter_fits filtered u' :
  findCandidatesThatFit always (NewScheduleUnit d) candidates predicates = Ret (filtered, u') →
  ∀ c p fits v, c ∈ filtered → SoundPredicate p fits → p ∈ predicates.*2 → plain p →
    PreExecute env p (NewScheduleUnit d) = Ret (true, p, v) →
    ∃ cnt, recorded u' (IndexKey c) (Name p) = Some cnt ∧ 1 ≤ GetCount cnt ∧ ∀ n, 0 ≤ n ≤ GetCount cnt → fits d c n.
Proof.
  intros Ef c p fits v Hcf Hs Hp Hpl Hpre. destruct (filter_spec filtered u' Ef) as (_ & _ & _ & _ & Hacc).
  destruct (Hacc p v Hp Hpl Hpre c Hcf) as (w & w' & rs & Hd & Hx & Hrec & _).
  destruct (PreExecute_data env p (NewScheduleUnit d) w true p v) as [v2 Ev2]; [by rewrite Hd|done|].
  destruct (Hs w v2 c rs w' Ev2 Hx) as (cnt & Hcnt & H1 & Hf). exists cnt. rewrite Hrec. rewrite Hd in Hf. done.
Qed.

(** The group predicate, which runs for every request with group relations, accepts no host. *)
Lemma filter_no_group filtered u' g :
  Group g ∈ predicates.*2 → SchedInfo.GroupRelations d ≠ [] → (∀ c, c ∈ candidates → ∃ h, c = HostC h) →
  findCandidatesThatFit always (NewScheduleUnit d) candidates predicates = Ret (filtered, u') → filtered = [].
Proof.
  intros Hg Hrel Hhosts Ef.
  destruct (filter_accepted (SP := SPG) _ _ always d candidates predicates filtered u' (counters_ok_new d)
    keys known names1 names2 Ef) as (_ & Hsub & _ & _ & Hacc).
  destruct (Hacc (Group g) Hg) as (v & v' & ok & q & Hd & Ep & Hok).
  destruct filtered as [|c filtered]; [done|]. destruct (Hhosts c) as [h ->]; [eapply elem_of_sublist; [left|done]|].
  cbn in Ep. unfold GuestPredicates.group_PreExecute in Ep. rewrite Hd in Ep. cbn in Ep.
  destruct (SchedInfo.GroupRelations d) as [|r rs0]; [done|]. cbn in Ep. injection Ep as <- <- _.
  by destruct (Hok eq_refl (HostC h) ltac:(left)) as (w & w' & rs & _ & Hx & _).
Qed.

Lemma Schedule_fits ps sort_reverse fuel items dirty u' :
  (∀ l, sort_reverse l ≡ₚ l) → 0 ≤ SchedInfo.Count d < Z.of_nat fuel →
  Schedule always (PrioritizeCandidates env ps) (OnSelectEnd env) sort_reverse fuel (NewScheduleUnit d) candidates predicates
    = Ret (items, dirty, u') →
  ∃ filtered u1, findCandidatesThatFit always (NewScheduleUnit d) candidates predicates = Ret (filtered, u1) ∧
  ∀ it, it ∈ items → 0 < Scheduler.Count it →
  ∃ c, c ∈ candidates ∧ Scheduler.ID it = IndexKey c ∧ placed env d filtered u1 u' c (Scheduler.Count it) (Scheduler.Allocated it) ∧
    ∀ p fits v, SoundPredicate p fits → p ∈ predicates.*2 → plain p → PreExecute env p (NewScheduleUnit d) = Ret (true, p, v) →
      fits d c (Scheduler.Count it).
Proof.
  intros Hsort Hfuel Es.
  destruct (Schedule_placed env reason_str error_str always ps sort_reverse fuel d candidates predicates items dirty u' Hsort keys)
    as (filtered & u1 & Ef & Hpl); [|done|done|].
  { intros filtered u1 Ef. destruct (filter_spec filtered u1 Ef) as (? & ? & ? & _). done. }
  exists filtered, u1. split; [done|]. intros it Hit Hc. destruct (Hpl it Hit Hc) as (c & Hin & Hid & Hp).
  exists c. split_and!; [done..|]. intros p fits v Hs Hpin Hplain Hpre.
  destruct (filter_fits filtered u1 Ef c p fits v (pl_in _ _ _ _ _ _ _ _ Hp) Hs Hpin Hplain Hpre) as (cnt & Hrec & H1 & Hf).
  apply Hf. destruct (filter_spec filtered u1 Ef) as (Hok & _).
  pose proof (recorded_capacity u1 _ _ _ Hok Hrec). pose proof (pl_count _ _ _ _ _ _ _ _ Hp) as Hw. unfold capacity_of in Hw. lia.
Qed.
End Filter.

End Sound.

Lemma default_keys : NoDup defaultPredicates.*1.
Proof. apply (bool_decide_unpack _). vm_compute. exact I. Qed.
Lemma default_names : NoDup (Name <$> defaultPredicates.*2).
Proof. apply (bool_decide_unpack _). vm_compute. exact I. Qed.
Lemma baremetal_keys : NoDup baremetalPredicates.*1.
Proof. apply (bool_decide_unpack _). vm_compute. exact I. Qed.
Lemma baremetal_names : NoDup (Name <$> baremetalPredicates.*2).
Proof. apply (bool_decide_unpack _). vm_compute. exact I. Qed.

Lemma default_has p :
  p ∈ [CPUPredicate; MemoryPredicate; StoragePredicate; IsolatedDevicePredicate; ResourceTypePredicate; DiskSchedtagPredicate] →
  p ∈ defaultPredicates.*2.
Proof. cbn. rewrite !elem_of_cons. tauto. Qed.

(** ** What the requests ask for *)

(** Without a migration the size request of a backend is the sum of its disks. *)
Lemma storage_requests_total d be : GuestPredicates.isMigrate d = false → be ∈ SchedInfo.Backend <$> SchedInfo.Disks d →
  ∃ mx, (GuestPredicates.storage_requests d).1 !! be = Some (mx, SchedInfo.getDiskSize d be).
Proof.
  intros Hm Hbe. unfold GuestPredicates.storage_requests, SchedInfo.getDiskSize.
  assert (∀ disks (p : gmap string (Z * Z) * gmap string Z),
    let p' := foldl (GuestPredicates.request_step d) p disks in
    let tot := foldl (λ total disk, if String.eqb (SchedInfo.Backend disk) be then int64_wrap (total + SchedInfo.SizeMb disk) else total)
      (default (-1, 0) (p.1 !! be)).2 disks in
    (default (-1, 0) (p'.1 !! be)).2 = tot ∧ (be ∈ SchedInfo.Backend <$> disks ∨ is_Some (p.1 !! be) → is_Some (p'.1 !! be))) as Hgen.
  { induction disks as [|disk disks IH]; intros p; cbv zeta; cbn [foldl].
    { split; [done|]. by intros [?%elem_of_nil|?]. }
    destruct (IH (GuestPredicates.request_step d p disk)) as [Ht Hs]. rewrite Ht. destruct p as [sizes stores].
    unfold GuestPredicates.request_step in *. rewrite Hm in *. cbn [andb] in *.
    destruct (default (-1, 0) (sizes !! SchedInfo.Backend disk)) as [mx t] eqn:Ed. cbn [fst snd] in *.
    destruct (String.eqb_spec (SchedInfo.Backend disk) be) as [<-|Hne].
    - rewrite lookup_insert_eq in *. cbn in *. rewrite Ed. cbn. split; [done|]. intros _. apply Hs. right. by eexists.
    - rewrite lookup_insert_ne in * by done. split; [done|]. intros [Hin|Hin]; apply Hs; [|by right].
      apply elem_of_cons in Hin as [->|Hin]; [done|by left]. }
  destruct (Hgen (SchedInfo.Disks d) (∅, ∅)) as [Ht Hs]. destruct Hs as [[mx t] Ht']; [by left|].
  rewrite Ht' in Ht. cbn in Ht. exists mx. rewrite Ht'. by rewrite Ht.
Qed.

(** The requests of a type are as many as the devices of that type in the request. *)
Lemma count_keys_spec keys t : default 0%nat (GuestPredicates.count_keys keys !! t) = length (filter (λ k, k = t) keys).
Proof.
  unfold GuestPredicates.count_keys.
  assert (∀ m : gmap string nat, default 0%nat (foldl (λ m k, <[k := S (default 0%nat (m !! k))]> m) m keys !! t) =
    (default 0 (m !! t) + length (filter (λ k, k = t) keys))%nat) as H.
  { induction keys as [|k keys IH]; intros m; cbn [foldl]; [cbn; lia|]. rewrite IH, filter_cons.
    destruct (decide (k = t)) as [->|Hne].
    - rewrite lookup_insert_eq. cbn. lia.
    - by rewrite lookup_insert_ne. }
  rewrite H. by rewrite lookup_empty.
Qed.

(** How many devices of a type a request asks for. *)
Definition devices_of_type (d : SchedInfo.SchedInfo) (t : string) : nat :=
  length (filter (λ dev, SchedInfo.DevType dev = t) (SchedInfo.IsolatedDevices d)).

Lemma type_requests_spec d t : t ≠ "" → (0 < devices_of_type d t)%nat →
  GuestPredicates.type_requests (SchedInfo.IsolatedDevices d) !! t = Some (devices_of_type d t).
Proof.
  intros Ht Hpos. unfold GuestPredicates.type_requests. set (keys := filter _ _).
  assert (length (filter (λ k, k = t) keys) = devices_of_type d t) as Hlen.
  { subst keys. unfold devices_of_type. induction (SchedInfo.IsolatedDevices d) as [|dev devs IH]; [done|].
    cbn [fmap list_fmap]. rewrite !filter_cons. destruct (decide (SchedInfo.DevType dev = t)) as [->|Hne].
    - rewrite decide_True by done. rewrite filter_cons, decide_True by done. cbn. by rewrite IH.
    - destruct (decide _); [rewrite filter_cons, decide_False by done|]; exact IH. }
  pose proof (count_keys_spec keys t) as Hc. rewrite Hlen in Hc.
  destruct (GuestPredicates.count_keys keys !! t) as [k|]; cbn in Hc; [by subst k|lia].
Qed.

(** The guests of a host in the result fit into what its description gives as free. *)
Lemma Schedule_within env reason_str error_str always nets ps sort_reverse fuel d candidates items dirty u' :
  (∀ A (m : gmap string A), range env A m ≡ₚ map_to_list m) → (∀ l, sort_reverse l ≡ₚ l) →
  (∀ n n', n ∈ nets → n' ∈ nets → Networks.Id n = Networks.Id n' → Networks.GetPorts n = Networks.GetPorts n') →
  Forall (known_host nets) candidates → NoDup (IndexKey <$> candidates) → 0 ≤ SchedInfo.Count d < Z.of_nat fuel →
  Schedule (H := env_SchedPredicate env reason_str error_str) always (PrioritizeCandidates env ps) (OnSelectEnd env) sort_reverse fuel
    (NewScheduleUnit d) candidates defaultPredicates = Ret (items, dirty, u') →
  ∀ it, it ∈ items → 0 < Scheduler.Count it →
  ∃ c, c ∈ candidates ∧ Scheduler.ID it = IndexKey c ∧
    (SchedInfo.IsPublicCloudProvider d = false →
      ∃ h, c = HostC h ∧
        (0 < SchedInfo.Ncpu d → Scheduler.Count it * SchedInfo.Ncpu d ≤ HostDesc.GetFreeCPUCount h (rsvd d)) ∧
        (0 < SchedInfo.Memory d → Scheduler.Count it * SchedInfo.Memory d ≤ HostDesc.GetFreeMemSize h (rsvd d)) ∧
        (GuestPredicates.isMigrate d = false → ∀ be, be ∈ SchedInfo.Backend <$> SchedInfo.Disks d →
          Scheduler.Count it * SchedInfo.getDiskSize d be ≤ HostDesc.GetFreeStorageSizeOfType (bound env) h be (rsvd d)) ∧
        (∀ t, t ≠ "" →
          Scheduler.Count it * Z.of_nat (devices_of_type d t) ≤ Z.of_nat (length (HostDesc.UnusedIsolatedDevicesByType h t)))).
Proof.
  intros Hrange Hsort Hcopies Hkn Hnd Hfuel Es it Hit Hc.
  destruct (Schedule_fits env reason_str error_str always nets Hcopies d candidates defaultPredicates Hnd Hkn default_keys default_names
    ps sort_reverse fuel items dirty u' Hsort Hfuel Es) as (filtered & u1 & _ & Hitems).
  destruct (Hitems it Hit Hc) as (c & Hin & Hid & _ & Hfit).
  exists c. split; [done|]. split; [done|]. intros Hpub.
  destruct (Hfit StoragePredicate (fits_storage (bound env)) (NewScheduleUnit d)) as (h & -> & Hst);
    [by apply storage_sound|by apply default_has; do 2 right; left|done| |].
  { cbn. unfold GuestPredicates.storage_PreExecute. cbn. by rewrite Hpub. }
  exists h. split; [done|]. split_and!.
  - intros Hn. destruct (Hfit CPUPredicate fits_cpu (NewScheduleUnit d)) as (h' & [= <-] & Hf); [apply cpu_sound|by apply default_has; left|done| |exact Hf].
    cbn. unfold GuestPredicates.cpu_PreExecute. cbn. rewrite Hpub. by destruct (Z.leb_spec (SchedInfo.Ncpu d) 0); [lia|].
  - intros Hm. destruct (Hfit MemoryPredicate fits_memory (NewScheduleUnit d)) as (h' & [= <-] & Hf); [apply memory_sound|by apply default_has; right; left|done| |exact Hf].
    cbn. unfold GuestPredicates.memory_PreExecute. cbn. rewrite Hpub. by destruct (Z.leb_spec (SchedInfo.Memory d) 0); [lia|].
  - intros Hmig be Hbe. destruct (storage_requests_total d be Hmig Hbe) as [mx Hreq]. specialize (Hst be mx _ Hreq). nia.
  - intros t Ht. destruct (Nat.eq_dec (devices_of_type d t) 0) as [->|Hpos]; [lia|].
    destruct (Hfit IsolatedDevicePredicate fits_devices (NewScheduleUnit d)) as (h' & [= <-] & Hf);
      [by apply device_sound|by apply default_has; do 3 right; left|done| |].
    + cbn. unfold GuestPredicates.isolated_device_PreExecute. cbn. destruct (SchedInfo.IsolatedDevices d) eqn:E; [|done].
      exfalso. apply Hpos. unfold devices_of_type. by rewrite E.
    + apply (Hf t). apply type_requests_spec; [done|lia].
Qed.

End Overcommit.
