(* ===== verification/DiskPlacement.v ===== *)
(** * Where the disks of a request go: from the disk predicate to the result of the scheduler *)

From S2P Require Import Prelude Condition Schedtag SchedInfo Score Scheduler Networks Storages Unit.
From S2P Require Import HostDesc Candidates CommonPredicates GuestPredicates BaremetalPredicates.
From S2P Require Import Predicates Schedule CapacityProofs PredicateLocality ScheduleProofs.
From S2P Require Import Pipeline.
Import Schedtag Storages Unit Candidates CommonPredicates.
Local Open Scope Z_scope.
Local Open Scope go_scope.

Module DiskPlacement.

(** ** The storage with the most free capacity *)

Section Choice.
Context (bound : float32).
Notation free := (GetFreeCapacity bound).

Definition most_free (l : list SStorage) (s : SStorage) : Prop := s ∈ l ∧ ∀ x, x ∈ l → free x ≤ free s.

Lemma least_used_spec b l : ∃ s, least_used bound (Some b) (free b) l = Some s ∧ most_free (b :: l) s.
Proof.
  revert b. induction l as [|x l IH]; intros b; cbn [least_used].
  { exists b. split; [done|]. split; [left|]. intros y [->|Hy]%elem_of_cons; [done|by apply elem_of_nil in Hy]. }
  destruct (Z.ltb_spec (free b) (free x)) as [Hlt|Hge].
  - destruct (IH x) as (s & -> & Hs & Hm). exists s. split; [done|]. split; [by right|].
    intros y [->|Hy]%elem_of_cons; [|by apply Hm]. specialize (Hm x ltac:(left)). lia.
  - destruct (IH b) as (s & -> & Hs & Hm). exists s. split; [done|]. split.
    + apply elem_of_cons in Hs as [->|Hs]; [left|by right; right].
    + intros y [->|[->|Hy]%elem_of_cons]%elem_of_cons; [apply Hm; left| |apply Hm; by right].
      specialize (Hm b ltac:(left)). lia.
Qed.

(** The storages that [GetLeastUsedStorage] chooses from. *)
Definition pool (backend : string) (l : list SStorage) : list SStorage :=
  match filter (λ s, StorageType s = backend) l with
  | [] => l
  | ts => if String.eqb backend "" then l else ts
  end.

Lemma GetLeastUsedStorage_spec l backend : l ≠ [] →
  ∃ s, GetLeastUsedStorage bound l backend = Some s ∧ most_free (pool backend l) s.
Proof.
  assert (∀ l, l ≠ [] → ∃ s, getLeastUsedStorage bound l = Some s ∧ most_free l s) as Hall.
  { intros [|b l0] Hne; [done|]. apply least_used_spec. }
  intros Hne. unfold GetLeastUsedStorage, pool. destruct (String.eqb backend ""); cbn [negb].
  - replace (match filter _ l with [] => l | _ => l end) with l by (by destruct (filter _ l)).
    destruct l; [done|]. by apply Hall.
  - destruct (filter _ l) as [|t ts]; by apply Hall.
Qed.

Lemma pool_elem backend l l' : (∀ s, s ∈ l ↔ s ∈ l') → ∀ s, s ∈ pool backend l ↔ s ∈ pool backend l'.
Proof.
  intros He s. unfold pool.
  assert (∀ s, s ∈ filter (λ s, StorageType s = backend) l ↔ s ∈ filter (λ s, StorageType s = backend) l') as Hf.
  { intros x. rewrite !list_elem_of_filter. by rewrite He. }
  destruct (filter _ l) as [|t ts] eqn:E1, (filter _ l') as [|t' ts'] eqn:E2; [done|..].
  - exfalso. apply (not_elem_of_nil t'). apply Hf. left.
  - exfalso. apply (not_elem_of_nil t). apply Hf. left.
  - by destruct (String.eqb backend "").
Qed.

Lemma selectStorage_spec d storages : storages ≠ [] →
  ∃ s, selectStorage bound d storages = Some s ∧ most_free (pool (SchedInfo.Backend d) (storage_of <$> storages)) s.
Proof.
  intros Hne. unfold selectStorage. set (sorted := _ ++ _).
  assert (∀ s, s ∈ sorted ↔ s ∈ storages) as He.
  { intros s. subst sorted. rewrite !elem_of_app, !list_elem_of_filter. split; [naive_solver|]. intros Hs.
    destruct (isNoTag s) eqn:E1; [by right; left|]. destruct (hasPreferTags s) eqn:E2; [by left|].
    right. right. split_and!; [done..| |done]. unfold isNoTag, hasPreferTags, hasAvoidTags in *.
    apply negb_false_iff in E2. rewrite E2 in E1. cbn [andb] in E1. by rewrite E1. }
  assert (∀ s, s ∈ storage_of <$> sorted ↔ s ∈ storage_of <$> storages) as Hf.
  { intros s. rewrite !list_elem_of_fmap. naive_solver. }
  destruct (GetLeastUsedStorage_spec (storage_of <$> sorted) (SchedInfo.Backend d)) as (s & -> & Hs & Hm).
  { destruct storages as [|x storages]; [done|]. intros E. apply fmap_nil_inv in E.
    apply (not_elem_of_nil x). rewrite <- E. apply He. left. }
  exists s. split; [done|]. split; [by apply (pool_elem _ _ _ Hf)|]. intros x Hx. by apply Hm, (pool_elem _ _ _ Hf).
Qed.
End Choice.

(** ** What the predicate notes *)

Section Disks.
Context (env : Env) (hyp : string) (shouldExec : bool).
Abbreviation Predicate := Predicates.Predicate.
Abbreviation helper := (PredicateHelper Predicate reason).

(** The tags of a disk allow a storage. *)
Definition allowed (d : SchedInfo.DiskConfig) (s : SStorage) : Prop :=
  ∃ all, GetAllSchedtags env "storages" = Ret all ∧
    (shouldExec = true →
     Check (ParseExpr env) (tag_table env) (rule_table env) (NewSchedtagPredicate (SchedInfo.DiskSchedtags d) all)
       (schedtagStorageW env s d) = Ret tt).

(** A storage fits a disk and its tags allow it. *)
Definition passes (d : SchedInfo.DiskConfig) (s : SStorage) : Prop := isStorageFitDisk hyp s d = Ret true ∧ allowed d s.

Lemma fit_storages_spec d l m : fit_storages hyp d l = Ret m → ∀ s, s ∈ m ↔ s ∈ l ∧ isStorageFitDisk hyp s d = Ret true.
Proof.
  revert m. induction l as [|x l IH]; intros m E s; cbn [fit_storages] in E.
  { injection E as <-. rewrite elem_of_nil. naive_solver. }
  destruct (isStorageFitDisk hyp x d) as [b| | |] eqn:Ex; cbn [obind] in E; try done.
  destruct (fit_storages hyp d l) as [rest| | |]; cbn [obind] in E; try done.
  assert (m = if b then x :: rest else rest) as -> by congruence. specialize (IH rest eq_refl s).
  destruct b; rewrite !elem_of_cons, ?IH; split; try tauto.
  - by intros [->|[? ?]]; auto.
  - intros [[->|?] ?]; [congruence|tauto].
Qed.

Lemma check_spec d s : (∀ ps, check env shouldExec d s = Ret ps → storage_of ps = s ∧ allowed d s) ∧
  (∀ e, check env shouldExec d s = Fail e → ¬ allowed d s).
Proof.
  unfold check, allowed. destruct (GetAllSchedtags env "storages") as [all|e| |]; cbn [obind]; try (by split).
  - destruct shouldExec; [|split; [|done]; intros ps [= <-]; split; [done|by exists all]].
    destruct (Check _ _ _ _ _) as [[]|e| |] eqn:Ec; cbn [obind]; split; try done.
    + intros ps [= <-]. split; [done|]. by exists all.
    + intros e' _ (all' & [= <-] & Hc). specialize (Hc eq_refl). congruence.
  - split; [done|]. by intros e' _ (all' & ? & _).
Qed.

Lemma checkStorages_spec d l m errs : checkStorages env shouldExec d l = Ret (m, errs) →
  ∀ s, s ∈ storage_of <$> m ↔ s ∈ l ∧ allowed d s.
Proof.
  revert m errs. induction l as [|x l IH]; intros m errs E s; cbn [checkStorages] in E.
  { injection E as <- <-. rewrite !elem_of_nil. naive_solver. }
  destruct (check_spec d x) as [Hret Hfail].
  destruct (check env shouldExec d x) as [ps|e| |]; try done;
    destruct (checkStorages env shouldExec d l) as [[m' errs']| | |]; cbn [obind] in E; try done; specialize (IH m' errs' eq_refl s).
  - destruct (Hret ps eq_refl) as [Hps Hx]. assert (m = ps :: m') as -> by congruence.
    rewrite fmap_cons, elem_of_cons, IH, Hps, elem_of_cons. naive_solver.
  - assert (m = m') as -> by congruence. rewrite IH, elem_of_cons. specialize (Hfail e eq_refl). naive_solver.
Qed.

Lemma Exclude_fails (h : helper) r : predicateFails (Exclude h r) ≠ [].
Proof. unfold Exclude, AppendPredicateFail. cbn. by destruct (predicateFails h). Qed.

Lemma disk_loop_fails storages disks : ∀ idx ds (h : helper) ds' h', predicateFails h ≠ [] →
  disk_loop env hyp shouldExec storages idx disks ds h = Ret (ds', h') → predicateFails h' ≠ [].
Proof.
  induction disks as [|d disks IH]; intros idx ds h ds' h' Hh E; cbn [disk_loop] in E; [by injection E as _ <-|].
  destruct (fit_storages hyp d storages) as [[|x l]| | |]; cbn [obind] in E; try done.
  { injection E as _ <-. apply Exclude_fails. }
  destruct (checkStorages _ _ d (x :: l)) as [[m errs]| | |]; cbn [obind] in E; try done.
  apply IH in E; [done|]. destruct m; [apply Exclude_fails|done].
Qed.

(** What the loop has noted for a disk when it found nothing wrong. *)
Definition noted (storages : list SStorage) (d : SchedInfo.DiskConfig) (m : list PredicatedStorage) : Prop :=
  m ≠ [] ∧ ∀ s, s ∈ storage_of <$> m ↔ s ∈ storages ∧ passes d s.

Lemma disk_loop_spec storages disks : ∀ idx (ds ds' : DiskStoragesMap) (h h' : helper),
  disk_loop env hyp shouldExec storages idx disks ds h = Ret (ds', h') → predicateFails h' = [] →
  h' = h ∧ (∀ k, (k < idx)%nat ∨ (idx + length disks ≤ k)%nat → ds' !! k = ds !! k) ∧
  (∀ k d, disks !! k = Some d → ∃ m, ds' !! (idx + k)%nat = Some m ∧ noted storages d m).
Proof.
  induction disks as [|d disks IH]; intros idx ds ds' h h' E Hf; cbn [disk_loop] in E.
  { injection E as <- <-. split_and!; [done..|]. intros k d Hk. by rewrite lookup_nil in Hk. }
  destruct (fit_storages hyp d storages) as [[|x l]| | |] eqn:El; cbn [obind] in E; try done.
  { injection E as _ <-. by destruct (Exclude_fails h (NoStorageFor (SchedInfo.Backend d))). }
  destruct (checkStorages _ _ d (x :: l)) as [[m errs]| | |] eqn:Ec; cbn [obind] in E; try done.
  destruct m as [|ps m].
  { exfalso. revert Hf. eapply disk_loop_fails; [|exact E]. apply Exclude_fails. }
  destruct (IH _ _ _ _ _ E Hf) as (Hh & H1 & H3). split_and!; [done|..].
  - intros k Hk. cbn [length] in Hk. rewrite H1 by lia. apply lookup_insert_ne. lia.
  - intros [|k] d' Hk; cbn in Hk.
    + injection Hk as <-. exists (ps :: m). rewrite Nat.add_0_r, H1 by lia. split; [apply lookup_insert_eq|].
      split; [done|]. intros s. rewrite (checkStorages_spec d _ _ _ Ec s), (fit_storages_spec d _ _ El s). unfold passes. naive_solver.
    + rewrite <- Nat.add_succ_comm. by apply H3.
Qed.

(** The table of a candidate that has been asked once and accepted. *)
Record table_ok (storages : list SStorage) (disks : list SchedInfo.DiskConfig) (ds : DiskStoragesMap) : Prop := {
  tb_size : size ds = length disks;
  tb_in : ∀ k m, ds !! k = Some m → ∃ d, disks !! k = Some d ∧ noted storages d m;
  tb_all : ∀ k d, disks !! k = Some d → ∃ m, ds !! k = Some m ∧ noted storages d m }.

Lemma disk_loop_table storages disks ds (h h' : helper) :
  disk_loop env hyp shouldExec storages 0 disks ∅ h = Ret (ds, h') → predicateFails h' = [] → table_ok storages disks ds.
Proof.
  intros E Hf. destruct (disk_loop_spec storages disks 0 ∅ ds h h' E Hf) as (_ & H2 & H3).
  assert (∀ k, is_Some (ds !! k) ↔ (k < length disks)%nat) as Hk.
  { intros k. split.
    - intros [m Hm]. destruct (decide (k < length disks)%nat); [done|]. exfalso. rewrite H2 in Hm by (right; lia). done.
    - intros Hlt. apply lookup_lt_is_Some_2 in Hlt as [d Hd]. destruct (H3 k d Hd) as (m & Hm & _). by exists m. }
  split; [| |exact H3].
  - rewrite <- size_dom. assert (dom ds = list_to_set (seq 0 (length disks))) as ->.
    { apply set_eq. intros k. rewrite elem_of_dom, Hk, elem_of_list_to_set, elem_of_seq. lia. }
    rewrite size_list_to_set by apply NoDup_seq. apply length_seq.
  - intros k m Hm. assert (is_Some (ds !! k)) as Hs by (by exists m). apply Hk, lookup_lt_is_Some_2 in Hs as [d Hd].
    exists d. split; [done|]. destruct (H3 k d Hd) as (m' & Hm' & Hn). cbn in Hm'. congruence.
Qed.

(** ** Allocation *)

(** The storage of a disk: it passes, and has the most free capacity among those of the backend type of the disk, or
    among all that pass when the disk names no type or none has it. *)
Definition best_storage (storages : list SStorage) (d : SchedInfo.DiskConfig) (s : SStorage) : Prop :=
  s ∈ storages ∧ passes d s ∧
  ∀ x, x ∈ storages → passes d x →
    StorageType x = SchedInfo.Backend d ∨ SchedInfo.Backend d = "" ∨
      (∀ y, y ∈ storages → passes d y → StorageType y ≠ SchedInfo.Backend d) →
    GetFreeCapacity (bound env) x ≤ GetFreeCapacity (bound env) s.

Lemma noted_best storages d m : noted storages d m →
  ∃ s, selectStorage (bound env) d m = Some s ∧ best_storage storages d s.
Proof.
  intros [Hne Hall]. destruct (selectStorage_spec (bound env) d m Hne) as (s & Hs & Hpool & Hmax). exists s. split; [done|].
  assert (s ∈ storage_of <$> m) as Hsm.
  { unfold pool in Hpool. destruct (filter _ _) as [|t ts] eqn:Ef; [done|]. destruct (String.eqb (SchedInfo.Backend d) ""); [done|].
    rewrite <- Ef in Hpool. by apply list_elem_of_filter in Hpool as [_ ?]. }
  apply Hall in Hsm as [Hin Hp]. split; [done|]. split; [done|].
  intros x Hx Hpx Ht. apply Hmax. assert (x ∈ storage_of <$> m) as Hxm by (by apply Hall).
  unfold pool. destruct (filter _ _) as [|t ts] eqn:Ef; [done|]. destruct (String.eqb_spec (SchedInfo.Backend d) ""); [done|].
  assert (t ∈ filter (λ s, StorageType s = SchedInfo.Backend d) (storage_of <$> m)) as Htm by (rewrite Ef; left).
  apply list_elem_of_filter in Htm as [Htt Htm]. apply Hall in Htm as [Hts Htp].
  rewrite <- Ef. apply list_elem_of_filter. split; [|done].
  destruct Ht as [Ht|[Ht|Ht]]; [done|done|]. by destruct (Ht t Hts Htp).
Qed.

Lemma allocate_loop_spec disks l : NoDup l.*1 → ∀ res,
  (∀ idx m, (idx, m) ∈ l → (idx < length res)%nat ∧ ∃ d s, disks !! idx = Some d ∧ selectStorage (bound env) d m = Some s) →
  ∃ res', allocate_loop env disks l res = Ret res' ∧ length res' = length res ∧
    (∀ idx, idx ∉ l.*1 → res' !! idx = res !! idx) ∧
    (∀ idx m d s, (idx, m) ∈ l → disks !! idx = Some d → selectStorage (bound env) d m = Some s →
       res' !! idx = Some (Some (MkCandidateDisk (SchedInfo.Index d) (StorageId s)))).
Proof.
  induction l as [|[idx m] l IH]; intros Hnd res H; cbn [allocate_loop].
  { exists res. split_and!; [done..|]. intros idx m d s Hin. by apply elem_of_nil in Hin. }
  rewrite fmap_cons, NoDup_cons in Hnd. destruct Hnd as [Hidx Hnd]. cbn [fst] in Hidx.
  destruct (H idx m (list_elem_of_here _ _)) as (Hlt & d & s & Hd & Hs).
  unfold allocatedDiskResource. rewrite Hd. cbn [of_opt obind]. rewrite Hs. cbn [of_opt obind].
  rewrite (proj2 (Nat.ltb_lt _ _) Hlt).
  destruct (IH Hnd (<[idx := Some (MkCandidateDisk (SchedInfo.Index d) (StorageId s))]> res)) as (res' & E & Hlen & Hout & Hin).
  { intros k mk Hk. rewrite length_insert. apply H. by right. }
  rewrite length_insert in Hlen. exists res'. split_and!; [done..| |].
  - intros k Hk. rewrite fmap_cons, not_elem_of_cons in Hk. destruct Hk as [Hk1 Hk2]. cbn [fst] in Hk1.
    rewrite Hout by done. by apply list_lookup_insert_ne.
  - intros k mk dk sk Hk Hdk Hsk. apply elem_of_cons in Hk as [[= -> ->]|Hk]; [|by apply (Hin k mk)].
    rewrite Hout by done. rewrite list_lookup_insert_eq by done. congruence.
Qed.

Context (range_perm : ∀ A (m : gmap nat A), range_nat env A m ≡ₚ map_to_list m).

(** The disks of a table. *)
Lemma table_allocated storages disks ds : table_ok storages disks ds →
  ∃ res, allocate_loop env disks (range_nat env _ ds) (replicate (size ds) None) = Ret res ∧ length res = length disks ∧
    ∀ i d, disks !! i = Some d → ∃ s, res !! i = Some (Some (MkCandidateDisk (SchedInfo.Index d) (StorageId s))) ∧
      best_storage storages d s.
Proof.
  intros [Hsize Hin Hall].
  destruct (allocate_loop_spec disks (range_nat env _ ds)) with (res := replicate (size ds) (None : option CandidateDisk))
    as (res & Er & Hlen & _ & Hres).
  { rewrite (fmap_Permutation fst _ _ (range_perm _ ds)). apply NoDup_fst_map_to_list. }
  { intros idx m Hm. rewrite (range_perm _ ds) in Hm. apply elem_of_map_to_list in Hm.
    destruct (Hin idx m Hm) as (d & Hd & Hn). destruct (noted_best storages d m Hn) as (s & Hs & _).
    split; [|by exists d, s]. rewrite length_replicate, Hsize. by eapply lookup_lt_Some. }
  exists res. split; [done|]. split; [by rewrite Hlen, length_replicate|]. intros i d Hd.
  destruct (Hall i d Hd) as (m & Hm & Hn). destruct (noted_best storages d m Hn) as (s & Hs & Hb). exists s. split; [|done].
  apply (Hres i m d s); [|done..]. rewrite (range_perm _ ds). by apply elem_of_map_to_list.
Qed.
End Disks.

(** ** In the scheduler *)

Section Schedule.
Import Predicates Schedule Pipeline PredicateLocality.
Context (env : Env) (range_perm : ∀ A (m : gmap nat A), range_nat env A m ≡ₚ map_to_list m).

Definition hypervisor_of (d : SchedInfo.SchedInfo) : string := HOSTTYPE_HYPERVISOR (SchedInfo.Hypervisor d).
Definition checks_tags (d : SchedInfo.SchedInfo) : bool := bool_decide (SchedInfo.Candidates d = []).

(** The table of a candidate for a request. *)
Definition disks_noted (d : SchedInfo.SchedInfo) (c : Candidater) (ds : DiskStoragesMap) : Prop :=
  table_ok env (hypervisor_of d) (checks_tags d) (HostDesc.Storages (base_host c)) (SchedInfo.Disks d) ds.

Lemma disk_Execute_noted (w : U) c rs w' : CandidateDiskStoragesMap w !! IndexKey c = None →
  disk_Execute env w c = Ret (true, rs, w') →
  ∃ ds, CandidateDiskStoragesMap w' !! IndexKey c = Some ds ∧ disks_noted (SchedData w) c ds.
Proof.
  intros Hn E. unfold disk_Execute in E.
  destruct (GetDiskStoragesMap_spec w (IndexKey c)) as (w1 & Ew & Hd & _). rewrite Ew, Hn in E. cbn [default from_option id] in E.
  rewrite Hd in E. destruct (disk_loop _ _ _ _ _ _ _ _) as [[ds h]| | |] eqn:El; cbn [obind] in E; try done.
  assert (getResult h = (true, rs)) as Hr by congruence.
  assert (w' = with_disk_storages (<[IndexKey c := ds]> (CandidateDiskStoragesMap (HelperUnit h))) (HelperUnit h)) as -> by congruence.
  exists ds. split; [cbn; apply lookup_insert_eq|]. apply CapacityProofs.getResult_true in Hr as (_ & Hf & _).
  unfold ShouldExecuteSchedtagFilter in El. rewrite Hd in El. by eapply disk_loop_table.
Qed.

(** The disks of a candidate have been allocated from its table. *)
Definition allocated (d : SchedInfo.SchedInfo) (u : U) (key : string) : Prop :=
  ∃ ds res, CandidateDiskStoragesMap u !! key = Some ds ∧ AllocatedResources u !! key = Some res ∧
    allocate_loop env (SchedInfo.Disks d) (range_nat env _ ds) (replicate (size ds) None) = Ret res.

(** What the hook of a plugin leaves. *)
Record hooked (d : SchedInfo.SchedInfo) (u u' : U) : Prop := {
  hk_data : SchedData u' = SchedData u;
  hk_storages : ∀ key ds, CandidateDiskStoragesMap u !! key = Some ds → CandidateDiskStoragesMap u' !! key = Some ds;
  hk_allocated : ∀ key, allocated d u key → allocated d u' key }.

#[local] Instance hooked_preorder d : PreOrder (hooked d).
Proof. split; [done|]. intros u1 u2 u3 [D1 S1 A1] [D2 S2 A2]. split; [congruence|auto..]. Qed.

Lemma OnSelectEnd_hooked p (u : U) c u' : OnSelectEnd env p u c = Ret u' →
  hooked (SchedData u) u u' ∧
  (p = DiskSchedtagPredicate → is_Some (CandidateDiskStoragesMap u !! IndexKey c) → allocated (SchedData u) u' (IndexKey c)).
Proof.
  destruct p; try (intros [= <-]; by split). cbn [OnSelectEnd]. unfold disk_OnSelectEnd.
  set (u0 := (GetAllocatedResource u (IndexKey c)).2).
  assert (SchedData u0 = SchedData u ∧ CandidateDiskStoragesMap u0 = CandidateDiskStoragesMap u ∧
    ∀ key, key ≠ IndexKey c → AllocatedResources u0 !! key = AllocatedResources u !! key) as (D0 & S0 & A0).
  { subst u0. unfold GetAllocatedResource. destruct (AllocatedResources u !! IndexKey c); [done|]. cbn.
    split_and!; [done..|]. intros key Hne. by apply lookup_insert_ne. }
  destruct (GetDiskStoragesMap u0 (IndexKey c)) as [ds u1] eqn:Eg.
  assert (SchedData u1 = SchedData u ∧ CandidateDiskStoragesMap u1 !! IndexKey c = Some ds ∧
    (∀ key ds', CandidateDiskStoragesMap u !! key = Some ds' → CandidateDiskStoragesMap u1 !! key = Some ds') ∧
    AllocatedResources u1 = AllocatedResources u0) as (D1 & Hds & S1 & A1).
  { unfold GetDiskStoragesMap in Eg. rewrite S0 in Eg.
    destruct (CandidateDiskStoragesMap u !! IndexKey c) as [ds0|] eqn:Es; injection Eg as <- <-; cbn.
    - rewrite S0, Es. by split_and!; try done; rewrite S0.
    - split_and!; [done|apply lookup_insert_eq| |done]. intros key ds' Hk. rewrite lookup_insert_ne; [done|congruence]. }
  rewrite D1. destruct (allocate_loop _ _ _ _) as [res|[]| |] eqn:Ea; cbn [obind]; try done. intros [= <-].
  assert (allocated (SchedData u) (with_allocated (<[IndexKey c := res]> (AllocatedResources u1)) u1) (IndexKey c)) as Hal.
  { exists ds, res. cbn. rewrite lookup_insert_eq. done. }
  split; [|done]. split; [done|done|].
  intros key (ds' & res' & E1 & E2 & E3). destruct (decide (key = IndexKey c)) as [->|Hne]; [done|].
  exists ds', res'. cbn. rewrite lookup_insert_ne by done. rewrite A1, A0 by done. split; [by apply S1|done].
Qed.

Lemma run_plugins_hooked c : ∀ plugins (u u' : U), run_plugins (OnSelectEnd env) plugins u c = Ret u' →
  hooked (SchedData u) u u' ∧
  (DiskSchedtagPredicate ∈ plugins → is_Some (CandidateDiskStoragesMap u !! IndexKey c) → allocated (SchedData u) u' (IndexKey c)).
Proof.
  induction plugins as [|p plugins IH]; intros u u' E; cbn [run_plugins] in E.
  { injection E as <-. split; [done|]. by intros ?%elem_of_nil. }
  destruct (OnSelectEnd env p u c) as [u1|[]| |] eqn:Ep; cbn [obind] in E; try done.
  destruct (OnSelectEnd_hooked p u c u1 Ep) as [Hh Hp]. destruct (IH u1 u' E) as [Hh' Hp'].
  rewrite (hk_data _ _ _ Hh) in *. split; [by etrans|]. intros Hin Hs. apply elem_of_cons in Hin as [<-|Hin].
  - by apply (hk_allocated _ _ _ Hh'), Hp.
  - apply Hp'; [done|]. destruct Hs as [ds Hs]. exists ds. by apply (hk_storages _ _ _ Hh).
Qed.

Lemma select_ends_hooked plugins : ∀ scs (u u' : U), select_ends (OnSelectEnd env) plugins u scs = Ret u' →
  hooked (SchedData u) u u' ∧
  (DiskSchedtagPredicate ∈ plugins → ∀ c n, (c, n) ∈ scs → is_Some (CandidateDiskStoragesMap u !! IndexKey c) →
     allocated (SchedData u) u' (IndexKey c)).
Proof.
  induction scs as [|[c0 n0] scs IH]; intros u u' E; cbn [select_ends] in E.
  { injection E as <-. split; [done|]. by intros _ ?? ?%elem_of_nil. }
  cbn [fst] in E. destruct (run_plugins _ _ _ _) as [u1|[]| |] eqn:Ep; cbn [obind] in E; try done.
  destruct (run_plugins_hooked c0 plugins u u1 Ep) as [Hh Hp]. destruct (IH u1 u' E) as [Hh' Hp'].
  rewrite (hk_data _ _ _ Hh) in *. split; [by etrans|]. intros Hd c n Hin Hs. apply elem_of_cons in Hin as [[= -> ->]|Hin].
  - by apply (hk_allocated _ _ _ Hh'), Hp.
  - apply (Hp' Hd c n Hin). destruct Hs as [ds Hs]. exists ds. by apply (hk_storages _ _ _ Hh).
Qed.

(** The disk predicate registers itself when the request has disks. *)
Lemma preExec_plugin reason_str error_str predicates : ∀ (u : U) news u',
  preExecPredicate (H := env_SchedPredicate env reason_str error_str) u predicates = Ret (news, u') →
  (∀ p, p ∈ selectPlugins u → p ∈ selectPlugins u') ∧ SchedData u' = SchedData u ∧
  (DiskSchedtagPredicate ∈ predicates.*2 → SchedInfo.Disks (SchedData u) ≠ [] → DiskSchedtagPredicate ∈ selectPlugins u').
Proof.
  induction predicates as [|[name p] predicates IH]; intros u news u' Ep; cbn [preExecPredicate] in Ep.
  { injection Ep as _ <-. split_and!; [done..|]. by intros ?%elem_of_nil. }
  cbn [pred_PreExecute env_SchedPredicate] in Ep.
  destruct (PreExecute env p u) as [[[ok q] u1]| | |] eqn:E1; cbn [obind] in Ep; try done.
  destruct (preExecPredicate u1 predicates) as [[rest u2]| | |] eqn:E2; cbn [obind] in Ep; try done. injection Ep as _ <-.
  destruct (IH u1 rest u2 E2) as (Hin & Hd & Hdisk).
  destruct (PreExecute_spec env p u ok q u1 E1) as ((Hd1 & _) & _).
  assert (∀ x, x ∈ selectPlugins u → x ∈ selectPlugins u1) as Hin1.
  { intros x Hx. destruct p; cbn in E1; try (injection E1 as _ _ <-; done).
    - destruct (aggregate_PreExecute env u) as [[t|]| | |]; cbn in E1; try done; injection E1 as _ _ <-; [|done].
      cbn. apply elem_of_app. by left.
    - unfold GuestPredicates.group_PreExecute in E1.
      destruct (SchedInfo.GroupRelations (SchedData u)); injection E1 as _ _ <-; [done|]. cbn. apply elem_of_app. by left.
    - destruct (disk_PreExecute u); injection E1 as _ _ <-; [|done]. cbn. apply elem_of_app. by left.
    - destruct (BaremetalPredicates.base_PreExecute env); injection E1 as _ _ <-; [|done]. cbn. apply elem_of_app. by left. }
  split_and!; [auto|congruence|]. rewrite fmap_cons. cbn [snd]. intros [<-|Hp]%elem_of_cons Hne.
  - apply Hin. cbn in E1. unfold disk_PreExecute in E1. rewrite bool_decide_eq_false_2 in E1 by (by destruct (SchedInfo.Disks (SchedData u))).
    cbn [negb] in E1. injection E1 as _ _ <-. cbn. apply elem_of_app. right. left.
  - apply Hdisk; [done|]. by rewrite Hd1.
Qed.

(** A placed candidate that the disk predicate accepted has its disks in the result. *)
Lemma placed_disks d filtered (u1 u' : U) c n disks ds :
  placed env d filtered u1 u' c n disks → SchedData u1 = d → DiskSchedtagPredicate ∈ selectPlugins u1 →
  CandidateDiskStoragesMap u1 !! IndexKey c = Some ds → disks_noted d c ds →
  length disks = length (SchedInfo.Disks d) ∧
  ∀ i disk, SchedInfo.Disks d !! i = Some disk →
    ∃ s, disks !! i = Some (Some (MkCandidateDisk (SchedInfo.Index disk) (StorageId s))) ∧
      best_storage env (hypervisor_of d) (checks_tags d) (HostDesc.Storages (base_host c)) disk s.
Proof.
  intros [_ _ Hal (u2 & scs & Hsc & Hin & Hends)] Hd Hp Hds Hnoted.
  assert (SchedData u2 = d) as Hd2 by (by rewrite (sc_data _ _ Hsc)).
  assert (CandidateDiskStoragesMap u2 !! IndexKey c = Some ds) as Hds2 by (by apply (sc_storages _ _ Hsc)).
  destruct (select_ends_hooked _ _ _ _ Hends) as [Hh Halloc].
  destruct (Halloc Hp c n Hin) as (ds' & res & E1 & E2 & E3); [by eexists|]. rewrite Hd2 in *.
  assert (ds' = ds) as -> by (pose proof (hk_storages _ _ _ Hh _ _ Hds2); congruence).
  assert (disks = res) as -> by (rewrite Hal; unfold GetAllocatedResource; by rewrite E2).
  destruct (table_allocated env _ _ range_perm _ _ ds Hnoted) as (res' & Er & Hlen & Hres).
  assert (res' = res) as -> by congruence. done.
Qed.
End Schedule.

End DiskPlacement.
