(* ===== verification/BaremetalFit.v ===== *)
(** * Baremetal machines are given away whole: what the baremetal predicates record *)

From S2P Require Import Prelude DiskConfig SchedInfo Storages Unit HostDesc Candidates.
From S2P Require Import CommonPredicates BaremetalPredicates Predicates CapacityProofs.
From S2P Require Import PredicateLocality Overcommit.
Import Unit Candidates Predicates CapacityProofs Overcommit.
Local Open Scope Z_scope.
Local Open Scope go_scope.

Module BaremetalFit.

Section Sound.
Context (env : Env).

(** ** What fits *)

(** At most one guest, on a machine that is on, enabled and free. *)
Definition fits_status (d : SchedInfo.SchedInfo) (c : Candidater) (n : Z) : Prop :=
  ∃ b, c = BaremetalC b ∧ n ≤ 1 ∧ HostDesc.Status (HostDesc.BmHost b) ∈ BaremetalPredicates.ExpectedStatus ∧
    HostDesc.Enabled (HostDesc.BmHost b) = true ∧ HostDesc.ServerID b = "".

Definition fits_exactly (req : SchedInfo.SchedInfo → Z) (free : Candidater → Z) (d : SchedInfo.SchedInfo) (c : Candidater) (n : Z) : Prop :=
  0 < req d → free c = req d.

Definition fits_layout (d : SchedInfo.SchedInfo) (c : Candidater) (n : Z) : Prop :=
  ∃ b layouts, c = BaremetalC b ∧
    DiskConfig.CalculateLayout (GetSplitSizes env) (length (HostDesc.StorageInfo b)) (SchedInfo.BaremetalDiskConfigs d)
      (HostDesc.StorageInfo b) = Ret layouts ∧
    DiskConfig.CheckDisksAllocable (GetSplitSizes env) layouts (SchedInfo.SizeMb <$> SchedInfo.Disks d) = true.

(** ** The predicates *)

(** A helper that accepts with capacity one. *)
Lemma accept_one (fits : SchedInfo.SchedInfo → Candidater → Z → Prop) key name (u : U) c rs u' :
  GetResult (HelperSetCapacity (NewPredicateHelper name u key) 1) = Ret (true, rs, u') →
  (∀ n, 0 ≤ n ≤ 1 → fits (SchedData u) c n) →
  ∃ cnt, recorded u' key name = Some cnt ∧ 1 ≤ GetCount cnt ∧ ∀ n, 0 ≤ n ≤ GetCount cnt → fits (SchedData u) c n.
Proof.
  intros Hx Hf. eapply accept_capacity in Hx as (_ & _ & Hrec); [|apply helps_start].
  by exists (NormalCounter 1).
Qed.

#[global] Instance bm_status_sound : SoundPredicate env BmStatusPredicate fits_status.
Proof.
  intros u v c rs u' _ Hx. destruct c as [|b]; [done|].
  cbn [Execute BaremetalPredicates.status_Execute BaremetalCandidate obind] in Hx.
  destruct (bool_decide (_ ∈ _)) eqn:Est; cbn [negb] in Hx; [|by apply refused in Hx].
  destruct (HostDesc.Enabled (HostDesc.BmHost b)) eqn:Een; cbn [negb] in Hx; [|by apply refused in Hx].
  destruct (String.eqb_spec (HostDesc.ServerID b) "") as [Hs|Hs].
  - apply (accept_one fits_status (IndexKey (BaremetalC b)) BaremetalPredicates.status_Name u _ _ _ Hx).
    intros n Hn. exists b. split_and!; try done; [lia|by apply bool_decide_eq_true in Est].
  - exfalso. unfold GetResult in Hx. assert (getResult (HelperSetCapacity (AppendPredicateFail (NewPredicateHelper
      BaremetalPredicates.status_Name u (IndexKey (BaremetalC b))) ErrBaremetalHasAlreadyBeenOccupied) 0) = (true, rs)) as Hg by congruence.
    by apply getResult_true in Hg as (_ & Hf & _).
Qed.

Lemma exact_sound name what free total req (reqf : SchedInfo.SchedInfo → Z) (freef : Candidater → Z) (u : U) c rs u' :
  free = BaremetalPredicates.Int64 (freef c) → req = reqf (SchedData u) →
  BaremetalPredicates.exact_Execute name what free total req u c = Ret (true, rs, u') →
  ∃ cnt, recorded u' (IndexKey c) name = Some cnt ∧ 1 ≤ GetCount cnt ∧
    ∀ n, 0 ≤ n ≤ GetCount cnt → fits_exactly reqf freef (SchedData u) c n.
Proof.
  intros -> -> Hx. unfold BaremetalPredicates.exact_Execute in Hx. cbn [BaremetalPredicates.GetInt64 obind] in Hx.
  destruct (Z.ltb_spec (freef c) (reqf (SchedData u))) as [Hlt|Hge].
  { by destruct (BaremetalPredicates.GetInt64 total 0). }
  destruct (Z.eqb_spec (freef c) 0) as [|Hnz]; [done|].
  destruct (Z.eqb_spec (reqf (SchedData u) `quot` freef c) 1) as [Hq|Hq]; cbn [negb] in Hx; [|by apply refused in Hx].
  apply (accept_one (fits_exactly reqf freef) (IndexKey c) name u _ _ _ Hx). intros n _ Hpos.
  pose proof (Z.mul_quot_le (reqf (SchedData u)) (freef c) ltac:(lia) Hnz). nia.
Qed.

#[global] Instance bm_cpu_sound : SoundPredicate env BmCPUPredicate
  (fits_exactly SchedInfo.Ncpu (λ c, match c with BaremetalC b => HostDesc.bm_FreeCPUCount b | HostC h => HostDesc.GetFreeCPUCount h false end)).
Proof. intros u v c rs u' _ Hx. eapply exact_sound; [|reflexivity|exact Hx]. by destruct c. Qed.

#[global] Instance bm_memory_sound : SoundPredicate env BmMemoryPredicate
  (fits_exactly SchedInfo.Memory (λ c, match c with BaremetalC b => HostDesc.bm_FreeMemSize b | HostC h => HostDesc.GetFreeMemSize h false end)).
Proof. intros u v c rs u' _ Hx. eapply exact_sound; [|reflexivity|exact Hx]. by destruct c. Qed.

#[global] Instance bm_storage_sound : SoundPredicate env BmStoragePredicate fits_layout.
Proof.
  intros u v c rs u' _ Hx. destruct c as [|b]; [done|].
  cbn [Execute BaremetalPredicates.storage_Execute BaremetalCandidate obind] in Hx.
  destruct (DiskConfig.CalculateLayout _ _ _ _) as [layouts| | |] eqn:El; try done.
  destruct (DiskConfig.CheckDisksAllocable _ _ _) eqn:Ec; [|by apply refused in Hx].
  apply (accept_one fits_layout (IndexKey (BaremetalC b)) BaremetalPredicates.storage_Name u _ _ _ Hx).
  intros n _. by exists b, layouts.
Qed.

(** The memory of a machine is read as a value of another type than it has: a machine that is free and has too little
    memory ends the process. *)
Lemma bm_short_memory_panics (u : U) b : HostDesc.ServerID b = "" →
  HostDesc.MemSize (HostDesc.BmHost b) < SchedInfo.Memory (SchedData u) →
  Execute env BmMemoryPredicate u (BaremetalC b) = Panic.
Proof.
  intros Hs Hm. cbn. unfold BaremetalPredicates.memory_Execute, BaremetalPredicates.exact_Execute. cbn.
  unfold HostDesc.bm_FreeMemSize. rewrite Hs. cbn. by destruct (Z.ltb_spec (HostDesc.MemSize (HostDesc.BmHost b)) (SchedInfo.Memory (SchedData u))); [|lia].
Qed.

Lemma bm_has p : p ∈ [BmStatusPredicate; BmCPUPredicate; BmMemoryPredicate; BmStoragePredicate; DiskSchedtagPredicate] →
  p ∈ baremetalPredicates.*2.
Proof. cbn. rewrite !elem_of_cons. tauto. Qed.

End Sound.

End BaremetalFit.
