(* ===== verification/SchedulerTheorems.v ===== *)
(** * Theorems about the scheduler as a whole

    The parallel filter is deterministic, and the hosts of the result have room for what they are given. *)

From S2P Require Import Prelude Condition DiskConfig Schedtag SchedInfo Score Scheduler Networks.
From S2P Require Import Storages Unit HostDesc Candidates CommonPredicates GuestPredicates.
From S2P Require Import BaremetalPredicates Predicates Schedule CapacityProofs PredicateLocality.
From S2P Require Import ScheduleProofs Pipeline Overcommit DiskPlacement BaremetalFit.
Import Unit Candidates Predicates Schedule CapacityProofs PredicateLocality ScheduleProofs Overcommit DiskPlacement.
Local Open Scope Z_scope.
Local Open Scope go_scope.

Module SchedulerTheorems.

(** ** An example *)

(** Two empty hosts of 8 CPUs and 16384 MB with two storages, and a request for three guests of 4 CPUs. *)
Definition example_options : HostDesc.Options :=
  HostDesc.MkOptions true false 8 8192 102400 (Storages.f32_of_int 1) (Storages.f32_of_int 1) (Storages.f32_of_int 1).
Definition example_nets : list Networks.SNetwork :=
  [Networks.Network "net" "net" "10.0.0.1" "10.0.0.100" 24 "" "" "" "" 1 "wire" "guest" true "available" "" false "" "" "" 0].
Definition example_storage (id : string) (capacity : Z) : Storages.SStorage :=
  Storages.MkStorage id id "local" capacity 0 (Storages.f32_of_int 1) 0 [].
Definition example_row (key hostType : string) : HostDesc.SHost :=
  HostDesc.MkHost key key 8 16384 0 0 (Storages.f32_of_int 1) (Storages.f32_of_int 1) "running" "online" true hostType ""
    (Some (HostDesc.MkZone "zone" "zone" "enable")) (Some "region") None example_nets [example_storage "s1" 100000; example_storage "s2" 200000] [] ∅.
Definition example_host (key : string) : Candidater :=
  HostC (HostDesc.buildOne example_options (HostDesc.new_builder [] [] ∅ ∅ [key]) (example_row key "hypervisor")).
Definition example_input (disks : list SchedInfo.DiskConfig) (hypervisor : string) (count ncpu memory : Z) : SchedInfo.SchedInfo :=
  SchedInfo.MkInfo hypervisor "" "" [] "p" "" false count disks [] [] memory ncpu "" ∅ [] [] false 0 false [] "" "" "" "" "" false [] ∅ false.
Definition example_request : SchedInfo.SchedInfo :=
  SchedInfo.NewSchedInfo 100 (example_input [SchedInfo.MkDisk 0 "" 10240 "" []] "kvm" 3 4 4096).
Definition example_hosts : list Candidater := [example_host "a"; example_host "b"].

Definition example_env : Env :=
  MkEnv (Storages.f32_of_int 1) (λ _, None) (λ A m, map_to_list m) (λ A m, map_to_list m) (λ _, None) [] [] (λ _, Ret [])
    (λ _, Condition.JDict []) (λ _, Condition.JDict []) (λ _, Condition.JDict []) (λ _, Condition.JDict []) ∅ false (λ _ _, []).

#[local] Instance example_predicates : SchedPredicate Predicate Candidater reason error :=
  env_SchedPredicate example_env (λ _, "") (λ _, "").

Lemma example_copies n n' : n ∈ example_nets → n' ∈ example_nets → Networks.Id n = Networks.Id n' → Networks.GetPorts n = Networks.GetPorts n'.
Proof. by intros ->%list_elem_of_singleton ->%list_elem_of_singleton. Qed.

Lemma example_known : Forall (known_host example_nets) example_hosts.
Proof. apply Forall_cons_2; [by intros n Hn|]. apply Forall_cons_2; [by intros n Hn|]. apply Forall_nil_2. Qed.

Lemma example_keys : NoDup (IndexKey <$> example_hosts).
Proof. apply (bool_decide_unpack _). vm_compute. exact I. Qed.

(** ** The parallel filter *)


(** Four predicates on two hosts, the steps of the two checks mixed. *)
Definition example_filter : list Predicate := [StatusPredicate; CPUPredicate; NetworkPredicate; DiskSchedtagPredicate].
Abbreviation example_race := (race Predicate Candidater reason error).
Definition example_turns (turns : list nat) : example_race :=
  race_turns false unlocked turns (Going (NewScheduleUnit example_request) (race_start example_filter example_hosts)).

Lemma example_race_runs turns :
  ∃ n, nsteps (race_step false unlocked) n (Going (NewScheduleUnit example_request) (race_start example_filter example_hosts)) (example_turns turns).
Proof. apply rtc_nsteps_1, race_turns_reachable. Qed.

Definition example_order : list nat := [0; 1; 1; 0; 1; 0; 0; 1; 1; 0; 1; 0; 0; 0; 0; 1; 1; 1]%nat.


(** Both checks inside the disk predicate. *)
Lemma disk_predicates_may_end_the_process :
  rtc (race_step false unlocked) (Going (NewScheduleUnit example_request) (race_start example_filter example_hosts)) Crashed.
Proof.
  assert (example_turns (replicate 7 0%nat ++ replicate 7 1%nat) = Crashed) as <- by (vm_compute; reflexivity).
  apply race_turns_reachable.
Qed.

(** ** Capacities *)

(** C3 No host is promised more than it has.  Whatever the order of the checks, the priorities and the sorting, a host
    that the scheduler gives guests to is one of the candidates, and all its guests together fit: their CPUs, their
    memory and their disks of every backend in what the host has free (on premises; when nothing is migrated), and the
    devices they ask for by type in its unused devices of that type. *)
Theorem Schedule_never_overcommits env reason_str error_str always nets ps sort_reverse fuel d candidates items dirty u' :
  (∀ A (m : gmap string A), range env A m ≡ₚ map_to_list m) → (∀ l, sort_reverse l ≡ₚ l) →
  (∀ n n', n ∈ nets → n' ∈ nets → Networks.Id n = Networks.Id n' → Networks.GetPorts n = Networks.GetPorts n') →
  Forall (known_host nets) candidates → NoDup (IndexKey <$> candidates) → 0 ≤ SchedInfo.Count d < Z.of_nat fuel →
  Schedule (H := env_SchedPredicate env reason_str error_str) always (PrioritizeCandidates env ps) (OnSelectEnd env) sort_reverse fuel
    (NewScheduleUnit d) candidates defaultPredicates = Ret (items, dirty, u') →
  ∀ it, it ∈ items → 0 < Scheduler.Count it →
  ∃ c, c ∈ candidates ∧ Scheduler.ID it = IndexKey c ∧
    (SchedInfo.IsPublicCloudProvider d = false →
      ∃ h, c = HostC h ∧
        (0 < SchedInfo.Ncpu d → Scheduler.Count it * SchedInfo.Ncpu d ≤ HostDesc.GetFreeCPUCount h (rsvd d)) ∧
        (0 < SchedInfo.Memory d → Scheduler.Count it * SchedInfo.Memory d ≤ HostDesc.GetFreeMemSize h (rsvd d)) ∧
        (GuestPredicates.isMigrate d = false → ∀ be, be ∈ SchedInfo.Backend <$> SchedInfo.Disks d →
          Scheduler.Count it * SchedInfo.getDiskSize d be ≤ HostDesc.GetFreeStorageSizeOfType (bound env) h be (rsvd d)) ∧
        (∀ t, t ≠ "" →
          Scheduler.Count it * Z.of_nat (devices_of_type d t) ≤ Z.of_nat (length (HostDesc.UnusedIsolatedDevicesByType h t)))).
Proof. apply Schedule_within. Qed.

Abbreviation example_result :=
  (Schedule (H := env_SchedPredicate example_env (λ _, "") (λ _, "")) false
     (PrioritizeCandidates example_env defaultPriorities) (OnSelectEnd example_env) (λ l, l) 10 (NewScheduleUnit example_request) example_hosts defaultPredicates).

(** Host "a" gets two of the guests. *)
Lemma Schedule_never_overcommits_witness :
  match example_result with
  | Ret (items, _, _) =>
    Scheduler.ResultItem "a" 2 2 [Some (MkCandidateDisk 0 "s2")] ∈ items ∧
    ∃ c, c ∈ example_hosts ∧ IndexKey c = "a" ∧
      (SchedInfo.IsPublicCloudProvider example_request = false →
        ∃ h, c = HostC h ∧ (0 < 4 → 2 * 4 ≤ HostDesc.GetFreeCPUCount h false))
  | _ => False
  end.
Proof.
  destruct example_result as [[[items dirty] u']| | |] eqn:E; [|vm_compute in E; discriminate E..].
  assert (Scheduler.ResultItem "a" 2 2 [Some (MkCandidateDisk 0 "s2")] ∈ items) as Hit.
  { assert (items = [Scheduler.ResultItem "a" 2 2 [Some (MkCandidateDisk 0 "s2")]; Scheduler.ResultItem "b" 1 2 [Some (MkCandidateDisk 0 "s2")]]) as ->.
    { vm_compute in E. injection E as <- _ _. reflexivity. }
    left. }
  split; [exact Hit|].
  destruct (Schedule_never_overcommits example_env (λ _, "") (λ _, "") false example_nets defaultPriorities (λ l, l) 10 example_request example_hosts items dirty u')
    with (it := Scheduler.ResultItem "a" 2 2 [Some (MkCandidateDisk 0 "s2")]) as (c & Hc & Hid & Hfit).
  - intros A m. reflexivity.
  - intros l. reflexivity.
  - exact example_copies.
  - exact example_known.
  - exact example_keys.
  - split; [vm_compute; discriminate|reflexivity].
  - exact E.
  - exact Hit.
  - reflexivity.
  - exists c. split; [exact Hc|]. split; [symmetry; exact Hid|]. intros Hpub.
    destruct (Hfit Hpub) as (h & -> & Hcpu & _). exists h. split; [reflexivity|exact Hcpu].
Defined.

(** A request with group relations is never placed.  The group predicate expects the candidate's groups in a type that
    no host description has, and fails.  So for a request that names a group relation, on any hosts, the scheduler gives no
    guest to any host and marks none as dirty, and it returns a result at all only for a suggestion. *)
Theorem group_relations_place_nothing env reason_str error_str always nets ps sort_reverse fuel d candidates items dirty u' :
  (∀ n n', n ∈ nets → n' ∈ nets → Networks.Id n = Networks.Id n' → Networks.GetPorts n = Networks.GetPorts n') →
  Forall (known_host nets) candidates → NoDup (IndexKey <$> candidates) → (∀ c, c ∈ candidates → ∃ h, c = HostC h) →
  SchedInfo.GroupRelations d ≠ [] →
  Schedule (H := env_SchedPredicate env reason_str error_str) always (PrioritizeCandidates env ps) (OnSelectEnd env) sort_reverse fuel
    (NewScheduleUnit d) candidates defaultPredicates = Ret (items, dirty, u') →
  SchedInfo.IsSuggestion d = true ∧ dirty = [] ∧ ∀ it, it ∈ items → Scheduler.Count it ≤ 0.
Proof.
  intros Hcopies Hkn Hnd Hhosts Hrel Es. unfold Schedule in Es. cbn [SchedData NewScheduleUnit] in Es.
  destruct candidates as [|c0 cs] eqn:Ecs; [done|]. rewrite <- Ecs in *. clear Ecs c0 cs.
  destruct (findCandidatesThatFit _ _ _ _) as [[filtered u1]| | |] eqn:Ef; cbn [lift obind] in Es; try done.
  assert (filtered = []) as ->.
  { eapply (filter_no_group env reason_str error_str always nets Hcopies d candidates defaultPredicates);
      [exact Hnd|exact Hkn|apply default_keys|apply default_names| |exact Hrel|exact Hhosts|exact Ef].
    cbn. do 5 right. left. }
  cbn [length] in Es. rewrite bool_decide_eq_true_2 in Es by done. cbn [negb andb] in Es.
  destruct (SchedInfo.IsSuggestion d); cbn [negb obind andb] in Es; [|done]. injection Es as <- <- _.
  split; [done|]. split; [done|]. intros it Hit. destruct (Z.le_gt_cases (Scheduler.Count it) 0) as [|Hpos]; [done|].
  apply Pipeline.result_counts in Hit as (c & Hin & _); [|lia]. by apply elem_of_nil in Hin.
Qed.

(** A suggestion for one of the hosts above and a group to avoid, after the filter of a refused host. *)
Definition group_request : SchedInfo.SchedInfo :=
  SchedInfo.MkInfo "kvm" "shared" "" [] "p" "" false 1 [] [] [] 4096 4 "" ∅ [SchedInfo.MkRelation "group" "avoid"] [] false 10 true [] "" "" "" "" "" false [] ∅ true.
Abbreviation group_result :=
  (Schedule (H := env_SchedPredicate example_env (λ _, "") (λ _, "")) false
     (PrioritizeCandidates example_env defaultPriorities) (OnSelectEnd example_env) (λ l, l) 10 (NewScheduleUnit group_request) example_hosts defaultPredicates).

Lemma group_relations_place_nothing_witness :
  match group_result with
  | Ret (items, dirty, _) => length items = 2%nat ∧ dirty = [] ∧ ∀ it, it ∈ items → Scheduler.Count it ≤ 0
  | _ => False
  end.
Proof.
  destruct group_result as [[[items dirty] u']| | |] eqn:E; [|vm_compute in E; discriminate E..].
  assert (length items = 2%nat) as Hlen by (vm_compute in E; injection E as <- _ _; reflexivity).
  split; [exact Hlen|].
  destruct (group_relations_place_nothing example_env (λ _, "") (λ _, "") false example_nets
    defaultPriorities (λ l, l) 10 group_request example_hosts items dirty u') as (_ & Hd & Hi).
  - exact example_copies.
  - exact example_known.
  - exact example_keys.
  - intros c Hc. apply elem_of_cons in Hc as [->|Hc]; [eexists; reflexivity|].
    apply list_elem_of_singleton in Hc as ->. eexists; reflexivity.
  - discriminate.
  - exact E.
  - split; [exact Hd|exact Hi].
Defined.

(** ** Disks *)

(** C15 Every disk of a placed guest has a storage.  For requests of guests and of baremetal machines, a host that the
    scheduler gives guests to is a candidate, and its result names for every disk of the request, in order, one of its
    storages: one that fits the disk and that the tags of the disk allow, with the most free capacity among those of the
    backend type of the disk, or among all that pass when the disk names no type or none has it.  Preferred and avoided
    tags do not count. *)
Theorem placed_disks_have_storages env reason_str error_str always nets ps sort_reverse fuel d candidates predicates items dirty u' :
  (∀ A (m : gmap nat A), range_nat env A m ≡ₚ map_to_list m) → (∀ l, sort_reverse l ≡ₚ l) →
  (∀ n n', n ∈ nets → n' ∈ nets → Networks.Id n = Networks.Id n' → Networks.GetPorts n = Networks.GetPorts n') →
  Forall (known_host nets) candidates → NoDup (IndexKey <$> candidates) → 0 ≤ SchedInfo.Count d < Z.of_nat fuel →
  predicates = defaultPredicates ∨ predicates = baremetalPredicates → SchedInfo.Disks d ≠ [] →
  Schedule (H := env_SchedPredicate env reason_str error_str) always (PrioritizeCandidates env ps) (OnSelectEnd env) sort_reverse fuel
    (NewScheduleUnit d) candidates predicates = Ret (items, dirty, u') →
  ∀ it, it ∈ items → 0 < Scheduler.Count it →
  ∃ c, c ∈ candidates ∧ Scheduler.ID it = IndexKey c ∧ length (Scheduler.Allocated it) = length (SchedInfo.Disks d) ∧
    ∀ i disk, SchedInfo.Disks d !! i = Some disk →
      ∃ s, Scheduler.Allocated it !! i = Some (Some (MkCandidateDisk (SchedInfo.Index disk) (Storages.StorageId s))) ∧
        best_storage env (hypervisor_of d) (checks_tags d) (HostDesc.Storages (base_host c)) disk s.
Proof.
  intros Hrange Hsort Hcopies Hkn Hnd Hfuel Hpreds Hdisks Es it Hit Hc.
  assert (NoDup predicates.*1 ∧ NoDup (Name <$> predicates.*2) ∧ DiskSchedtagPredicate ∈ predicates.*2) as (Hk1 & Hk2 & Hdp).
  { destruct Hpreds as [-> | ->].
    - split_and!; [apply default_keys|apply default_names|by apply default_has; do 5 right; left].
    - split_and!; [apply baremetal_keys|apply baremetal_names|by apply BaremetalFit.bm_has; do 4 right; left]. }
  destruct (Schedule_fits env reason_str error_str always nets Hcopies d candidates predicates Hnd Hkn Hk1 Hk2
    ps sort_reverse fuel items dirty u' Hsort Hfuel Es) as (filtered & u1 & Ef & Hitems).
  destruct (Hitems it Hit Hc) as (c & Hin & Hid & Hpl & _). exists c. split; [done|]. split; [done|].
  destruct (filter_spec env reason_str error_str always nets Hcopies d candidates predicates Hnd Hkn Hk1 Hk2 filtered u1 Ef)
    as (_ & _ & Hd & (news & u0 & Ep & Hplug) & Hacc).
  destruct (preExec_plugin env reason_str error_str predicates _ _ _ Ep) as (_ & _ & Hreg).
  destruct (Hacc DiskSchedtagPredicate (AppendSelectPlugin (NewScheduleUnit d) DiskSchedtagPredicate) Hdp) with (c := c)
    as (w & w' & rs & Hdw & Hx & _ & Hst); [done| |by apply (Pipeline.pl_in _ _ _ _ _ _ _ _ Hpl)|].
  { cbn. unfold CommonPredicates.disk_PreExecute. cbn. rewrite bool_decide_eq_false_2; [done|]. by destruct (SchedInfo.Disks d). }
  destruct (Hst eq_refl) as [Hnone Hsame]. destruct (disk_Execute_noted env w c rs w' Hnone Hx) as (ds & Hds & Hnoted).
  rewrite Hdw in Hnoted. eapply (placed_disks env Hrange d filtered u1 u' c _ _ ds Hpl Hd); [|by rewrite Hsame|done].
  rewrite Hplug. by apply Hreg.
Qed.

(** The disk of the guests on host "a" goes to the larger of its two storages. *)
Lemma placed_disks_have_storages_witness :
  match example_result with
  | Ret (items, _, _) =>
    ∃ it, it ∈ items ∧ Scheduler.ID it = "a" ∧ Scheduler.Allocated it = [Some (MkCandidateDisk 0 "s2")] ∧
    ∃ c, c ∈ example_hosts ∧ Scheduler.ID it = IndexKey c ∧ length (Scheduler.Allocated it) = 1%nat
  | _ => False
  end.
Proof.
  destruct example_result as [[[items dirty] u']| | |] eqn:E; [|vm_compute in E; discriminate E..].
  exists (Scheduler.ResultItem "a" 2 2 [Some (MkCandidateDisk 0 "s2")]).
  assert (Scheduler.ResultItem "a" 2 2 [Some (MkCandidateDisk 0 "s2")] ∈ items) as Hit.
  { vm_compute in E. injection E as <- _ _. left. }
  split; [exact Hit|]. split; [reflexivity|]. split; [reflexivity|].
  destruct (placed_disks_have_storages example_env (λ _, "") (λ _, "") false example_nets defaultPriorities (λ l, l) 10 example_request
    example_hosts defaultPredicates items dirty u') with (it := Scheduler.ResultItem "a" 2 2 [Some (MkCandidateDisk 0 "s2")])
    as (c & Hc & Hid & Hlen & _).
  - intros A m. reflexivity.
  - intros l. reflexivity.
  - exact example_copies.
  - exact example_known.
  - exact example_keys.
  - split; [vm_compute; discriminate|reflexivity].
  - left. reflexivity.
  - discriminate.
  - exact E.
  - exact Hit.
  - reflexivity.
  - exists c. split; [exact Hc|]. split; [exact Hid|exact Hlen].
Defined.

(** ** Baremetal machines *)


(** A machine with two disks, and a request for such a machine. *)
Definition example_machine : Candidater :=
  BaremetalC (HostDesc.MkBaremetal (example_row "m" "baremetal")
    [DiskConfig.Storage 100000 "MegaRaid" true 512 0 (-1) (-1) 0; DiskConfig.Storage 200000 "MegaRaid" true 512 0 (-1) (-1) 0] "").
Definition machine_request : SchedInfo.SchedInfo :=
  SchedInfo.NewSchedInfo 100 (example_input [SchedInfo.MkDisk 0 "local" 10240 "" []] "baremetal" 1 8 16384).
Abbreviation machine_result :=
  (Schedule (H := env_SchedPredicate example_env (λ _, "") (λ _, "")) false
     (PrioritizeCandidates example_env []) (OnSelectEnd example_env) (λ l, l) 10 (NewScheduleUnit machine_request) [example_machine] baremetalPredicates).


End SchedulerTheorems.
