(* ===== verification/CandidateCache.v ===== *)
(** * The caches of the scheduler: pkg/scheduler/cache (cache.go, item.go, candidate/default.go), the pool of dirty
    candidates (vendor/yunion.io/x/pkg/util/ttlpool) and the store both are built on (vendor/yunion.io/x/pkg/util/cache)

    The key functions of the scheduler return no error, so neither do the operations of the store.  A read of the
    database is an argument: the objects it returns, or nothing when it fails. *)

From S2P Require Import Prelude.
Local Open Scope Z_scope.
Local Open Scope go_scope.

Module CandidateCache.

(** ** The store with expiry (expiration_cache.go) *)

Record timestampedEntry (A : Type) := Entry { obj : A; timestamp : Z }.
Arguments Entry {A}.
Arguments obj {A}.
Arguments timestamp {A}.

Abbreviation ExpirationCache A := (gmap string (timestampedEntry A)).

Section Store.
Context {A : Type} (Key : A → string) (ttl : Z).
(** The order of a range over the entries. *)
Context (range : ∀ B, gmap string B → list (string * B)).

Definition IsExpired (now : Z) (e : timestampedEntry A) : bool := (0 <? ttl) && (ttl <? now - timestamp e).

Definition getOrExpire (now : Z) (c : ExpirationCache A) (key : string) : option A * ExpirationCache A :=
  match c !! key with
  | None => (None, c)
  | Some e => if IsExpired now e then (None, delete key c) else (Some (obj e), c)
  end.

Definition store_Add (now : Z) (c : ExpirationCache A) (x : A) : ExpirationCache A := <[Key x := Entry x now]> c.
Definition store_Delete (c : ExpirationCache A) (x : A) : ExpirationCache A := delete (Key x) c.

Definition list_step (now : Z) (p : list A * ExpirationCache A) (it : string * timestampedEntry A)
  : list A * ExpirationCache A :=
  match getOrExpire now p.2 (Key (obj it.2)) with
  | (Some x, c) => (p.1 ++ [x], c)
  | (None, c) => (p.1, c)
  end.

Definition store_List (now : Z) (c : ExpirationCache A) : list A * ExpirationCache A :=
  foldl (list_step now) ([], c) (range _ c).

End Store.

(** ** The pool of dirty candidates (ttlpool/pool.go) *)

(** The pool holds its items without expiry, and how often each has to be deleted. *)
Record CountPool := MkPool { ttlPool : ExpirationCache string; countMap : gmap string Z }.

Definition NewCountPool : CountPool := MkPool ∅ ∅.

(** [Add] of an item with its key; [count] is a [uint64]. *)
Definition pool_Add (now : Z) (p : CountPool) (key : string) (count : Z) : CountPool :=
  if count <=? 0 then p
  else MkPool (store_Add id now (ttlPool p) key) (<[key := count]> (countMap p)).

Definition pool_DeleteByKey (p : CountPool) (key : string) : CountPool :=
  match countMap p !! key with
  | None => MkPool (store_Delete id (ttlPool p) key) (countMap p)
  | Some count =>
    let minusCount := uint_wrap 64 (count - 1) in
    if minusCount <=? 0 then MkPool (store_Delete id (ttlPool p) key) (delete key (countMap p))
    else MkPool (ttlPool p) (<[key := minusCount]> (countMap p))
  end.

Definition pool_HasByKey (now : Z) (p : CountPool) (key : string) : bool :=
  bool_decide (is_Some (getOrExpire 0 now (ttlPool p) key).1).

Definition pool_GetCountByKey (p : CountPool) (key : string) : option Z := countMap p !! key.

Definition pool_GetByKey (now : Z) (p : CountPool) (key : string) : option string :=
  match pool_GetCountByKey p key with
  | None => None
  | Some count => if count <=? 0 then None else (getOrExpire 0 now (ttlPool p) key).1
  end.

(** ** A cache of descriptions (cache.go) *)

Record schedulerCache (A : Type) := MkCache {
  cache : ExpirationCache A; cacheCandidate : gmap string A; readyCh : bool; fullUpdateCounter : Z }.
Arguments MkCache {A}.
Arguments cache {A}.
Arguments cacheCandidate {A}.
Arguments readyCh {A}.
Arguments fullUpdateCounter {A}.

Definition newSchedulerCache {A} : schedulerCache A := MkCache ∅ ∅ false 0.

Inductive cache_error := LoadFailed | ObjectNotFound (key : string).

Section Cache.
Context {A : Type} (Key : A → string) (ttl : Z) (range : ∀ B, gmap string B → list (string * B)).

Definition with_cache (c : schedulerCache A) (s : ExpirationCache A) : schedulerCache A :=
  MkCache s (cacheCandidate c) (readyCh c) (fullUpdateCounter c).

Definition cache_Add (now : Z) (c : schedulerCache A) (x : A) : schedulerCache A :=
  with_cache c (store_Add Key now (cache c) x).
Definition cache_Delete (c : schedulerCache A) (x : A) : schedulerCache A := with_cache c (store_Delete Key (cache c) x).
Definition cache_List (now : Z) (c : schedulerCache A) : list A * schedulerCache A :=
  let (l, s) := store_List Key ttl range now (cache c) in (l, with_cache c s).

(** [Get]; [update] is the read of the key that a miss causes. *)
Definition cache_Get (now : Z) (update : option (list A)) (c : schedulerCache A) (key : string)
  : outcome cache_error A * schedulerCache A :=
  match getOrExpire ttl now (cache c) key with
  | (Some x, s) => (Ret x, with_cache c s)
  | (None, s) =>
    let c := with_cache c s in
    match update with
    | None => (Fail LoadFailed, c)
    | Some [] => (Fail (ObjectNotFound key), c)
    | Some (x :: _) => (Ret x, cache_Add now c x)
    end
  end.

(** [loadObjects], first part: what has to be seen again or else is gone.  [None] stands for all objects. *)
Definition need_update (c : schedulerCache A) (ids : option (list string)) : gmap string bool :=
  match ids with
  | None => foldl (λ m k, if String.eqb k.1 "" then m else <[k.1 := true]> m) ∅ (range _ (cacheCandidate c))
  | Some ids => foldl (λ m i, if String.eqb i "" then m else <[i := true]> m) ∅ ids
  end.

(** [loadObjects], second part: the objects that were read are entered, and those not seen again deleted. *)
Definition enter_object (now : Z) (p : schedulerCache A * gmap string bool) (x : A)
  : schedulerCache A * gmap string bool :=
  let (c, need) := p in
  let c := cache_Add now c x in
  let need := if bool_decide (is_Some (need !! Key x)) then <[Key x := false]> need else need in
  (MkCache (cache c) (<[Key x := x]> (cacheCandidate c)) (readyCh c) (fullUpdateCounter c), need).

Definition drop_object (c : schedulerCache A) (s : string * bool) : schedulerCache A :=
  if s.2 then
    match cacheCandidate c !! s.1 with
    | Some x =>
      cache_Delete (MkCache (cache c) (delete s.1 (cacheCandidate c)) (readyCh c) (fullUpdateCounter c)) x
    | None => c
    end
  else c.

Definition enter_objects (now : Z) (need : gmap string bool) (objects : list A) (c : schedulerCache A) : schedulerCache A :=
  let (c, need) := foldl (enter_object now) (c, need) objects in
  foldl drop_object c (range _ need).

Definition loadObjects (now : Z) (ids : option (list string)) (objects : option (list A)) (c : schedulerCache A)
  : option (list A) * schedulerCache A :=
  match objects with
  | None => (None, c)
  | Some objs => (Some objs, enter_objects now (need_update c ids) objs c)
  end.

(** ** Regular updates (candidate/default.go) *)

Context (UpdatedAt : A → Z) (ReloadCount : Z).

Inductive update_plan := UpdateAll | UpdateSome (ids : list string) | NoNeedUpdate | StatusFailed.

(** [generalGetUpdateFunc]; [status] are the hosts of the database with their time of change. *)
Definition GetUpdate (counter : Z) (d : list A) (status : option (list (string * Z))) : update_plan * Z :=
  if ReloadCount <=? counter then (UpdateAll, 1)
  else
    let allStatus := foldl (λ m x, <[Key x := UpdatedAt x]> m) (∅ : gmap string Z) d in
    match status with
    | None => (StatusFailed, counter + 1)
    | Some modified =>
      match filter (λ s, allStatus !! s.1 ≠ Some s.2) modified with
      | [] => (NoNeedUpdate, counter + 1)
      | l => (UpdateSome l.*1, counter + 1)
      end
    end.

(** [updateAllObjects], with the read of the objects as a function of the plan. *)
Definition updateAllObjects (now : Z) (status : option (list (string * Z))) (read : option (list string) → option (list A))
    (c : schedulerCache A) : schedulerCache A :=
  let (d, c) := cache_List now c in
  let (plan, counter) := GetUpdate (fullUpdateCounter c) d status in
  let c := MkCache (cache c) (cacheCandidate c) (readyCh c) counter in
  let c :=
    match plan with
    | UpdateAll => (loadObjects now None (read None) c).2
    | UpdateSome ids => (loadObjects now (Some ids) (read (Some ids)) c).2
    | NoNeedUpdate | StatusFailed => c
    end in
  MkCache (cache c) (cacheCandidate c) true (fullUpdateCounter c).

End Cache.

End CandidateCache.
