(* ===== verification/CandidateCacheProofs.v ===== *)
(** * The caches and the pool of dirty candidates: what an operation can change *)

From S2P Require Import Prelude CandidateCache.
Import CandidateCache.
Local Open Scope Z_scope.
Local Open Scope go_scope.

Module CandidateCacheProofs.

(** ** The pool counts *)

Definition pool_count (p : CountPool) (k : string) : Z := default 0 (countMap p !! k).

(** The items of the pool are those with a count, which is positive. *)
Record pool_ok (p : CountPool) : Prop := {
  po_dom : ∀ k, is_Some (ttlPool p !! k) ↔ is_Some (countMap p !! k);
  po_count : ∀ k n, countMap p !! k = Some n → 1 ≤ n < 2 ^ 64 }.

Lemma new_pool_ok : pool_ok NewCountPool.
Proof. split; [intros k; cbn; by rewrite !lookup_empty|by intros]. Qed.

Lemma pool_count_nonneg p k : pool_ok p → 0 ≤ pool_count p k.
Proof. intros Hp. unfold pool_count. destruct (countMap p !! k) as [n|] eqn:E; [apply (po_count _ Hp) in E|]; cbn; lia. Qed.

Lemma HasByKey_count now p k : pool_ok p → pool_HasByKey now p k = bool_decide (0 < pool_count p k).
Proof.
  intros Hp. unfold pool_HasByKey, pool_count, getOrExpire, IsExpired. cbn [Z.ltb Z.compare andb].
  pose proof (po_dom _ Hp k) as Hd. pose proof (po_count _ Hp k) as Hc.
  destruct (ttlPool p !! k) as [e|], (countMap p !! k) as [n|]; cbn.
  - specialize (Hc n eq_refl). symmetry. apply bool_decide_eq_true_2. lia.
  - destruct (proj1 Hd); [by eexists|done].
  - destruct (proj2 Hd); [by eexists|done].
  - done.
Qed.

Lemma pool_Add_spec now p k n : pool_ok p → 1 ≤ n < 2 ^ 64 →
  pool_ok (pool_Add now p k n) ∧ ∀ k', pool_count (pool_Add now p k n) k' = if decide (k' = k) then n else pool_count p k'.
Proof.
  intros Hp Hn. unfold pool_Add. rewrite (proj2 (Z.leb_gt _ _)) by lia. split; [split|].
  - intros k'. cbn. unfold store_Add. cbn. destruct (decide (k' = k)) as [->|Hne].
    + rewrite !lookup_insert_eq. split; by eexists.
    + rewrite !lookup_insert_ne by done. apply Hp.
  - intros k' m. cbn. destruct (decide (k' = k)) as [->|Hne].
    + rewrite lookup_insert_eq. intros [= <-]. lia.
    + rewrite lookup_insert_ne by done. apply Hp.
  - intros k'. unfold pool_count. cbn. destruct (decide (k' = k)) as [->|Hne];
      [by rewrite lookup_insert_eq|by rewrite lookup_insert_ne].
Qed.

Lemma pool_DeleteByKey_spec p k : pool_ok p →
  pool_ok (pool_DeleteByKey p k) ∧
  ∀ k', pool_count (pool_DeleteByKey p k) k' = if decide (k' = k) then Z.max 0 (pool_count p k - 1) else pool_count p k'.
Proof.
  intros Hp. unfold pool_DeleteByKey, pool_count. destruct (countMap p !! k) as [n|] eqn:E; cbn.
  - pose proof (po_count _ Hp _ _ E) as Hn. unfold uint_wrap. rewrite Z.mod_small by lia.
    destruct (Z.leb_spec (n - 1) 0); cbn.
    + split; [split; intros k'; cbn; unfold store_Delete; cbn; destruct (decide (k' = k)) as [->|Hne]|].
      * rewrite !lookup_delete_eq. by split; intros [].
      * rewrite !lookup_delete_ne by done. apply Hp.
      * intros m. by rewrite lookup_delete_eq.
      * intros m. rewrite lookup_delete_ne by done. apply Hp.
      * intros k'. destruct (decide (k' = k)) as [->|Hne]; [rewrite lookup_delete_eq; cbn; lia|by rewrite lookup_delete_ne].
    + split; [split; intros k'; cbn; destruct (decide (k' = k)) as [->|Hne]|].
      * rewrite lookup_insert_eq. rewrite (po_dom _ Hp), E. split; by eexists.
      * rewrite lookup_insert_ne by done. apply Hp.
      * intros m. rewrite lookup_insert_eq. intros [= <-]. lia.
      * intros m. rewrite lookup_insert_ne by done. apply Hp.
      * intros k'. destruct (decide (k' = k)) as [->|Hne]; [rewrite lookup_insert_eq; cbn; lia|by rewrite lookup_insert_ne].
  - split; [split; intros k'; cbn; unfold store_Delete; cbn|].
    + destruct (decide (k' = k)) as [->|Hne]; [rewrite lookup_delete_eq, E; by split; intros []|].
      rewrite lookup_delete_ne by done. apply Hp.
    + apply Hp.
    + intros k'. destruct (decide (k' = k)) as [->|Hne]; [by rewrite E|done].
Qed.

(** Deleting each of several keys once. *)
Lemma pool_deletes_spec keys : ∀ p, pool_ok p → NoDup keys →
  pool_ok (foldl pool_DeleteByKey p keys) ∧
  ∀ k, pool_count (foldl pool_DeleteByKey p keys) k = if decide (k ∈ keys) then Z.max 0 (pool_count p k - 1) else pool_count p k.
Proof.
  induction keys as [|k0 keys IH]; intros p Hp Hnd; cbn [foldl]; [split; [done|]; intros k; by rewrite decide_False by apply not_elem_of_nil|].
  apply NoDup_cons in Hnd as [Hk0 Hnd]. destruct (pool_DeleteByKey_spec p k0 Hp) as [Hp' Hc]. destruct (IH _ Hp' Hnd) as [Hp'' Hc''].
  split; [done|]. intros k. rewrite Hc'', !Hc. destruct (decide (k ∈ keys)) as [Hin|Hni].
  - rewrite decide_False by (by intros ->). by rewrite decide_True by by right.
  - destruct (decide (k = k0)) as [->|Hne]; [by rewrite decide_True by left|].
    rewrite decide_False; [done|]. by intros [?|?]%elem_of_cons.
Qed.

(** ** What a cache holds *)

Section Cache.
Context {A : Type} (Key : A → string) (ttl : Z) (range : ∀ B, gmap string B → list (string * B))
  (range_perm : ∀ B (m : gmap string B), range B m ≡ₚ map_to_list m).

Definition cached (s : ExpirationCache A) (k : string) (x : A) : Prop := ∃ t, s !! k = Some (Entry x t).

(** Every object is under its key, and all satisfy [Q]. *)
Definition holds (Q : A → Prop) (s : ExpirationCache A) : Prop := ∀ k x, cached s k x → Key x = k ∧ Q x.

Lemma holds_subseteq Q s s' : s' ⊆ s → holds Q s → holds Q s'.
Proof. intros Hs Hq k x [t Hk]. apply Hq. exists t. by eapply lookup_weaken. Qed.

Lemma holds_mono (Q Q' : A → Prop) s : (∀ k x, cached s k x → Q x → Q' x) → holds Q s → holds Q' s.
Proof. intros Hm Hq k x Hk. destruct (Hq _ _ Hk) as [? ?]. split; [done|by eapply Hm]. Qed.

Lemma holds_Add Q s now x : holds Q s → Q x → holds Q (store_Add Key now s x).
Proof.
  intros Hq Hx k y [t Hk]. unfold store_Add in Hk. destruct (decide (k = Key x)) as [->|Hne].
  - rewrite lookup_insert_eq in Hk. by injection Hk as <- _.
  - rewrite lookup_insert_ne in Hk by done. apply Hq. by exists t.
Qed.

Lemma getOrExpire_spec now s k : (getOrExpire ttl now s k).2 ⊆ s ∧
  ∀ x, (getOrExpire ttl now s k).1 = Some x → cached s k x.
Proof.
  unfold getOrExpire. destruct (s !! k) as [[x t]|] eqn:E; [destruct (IsExpired _ _ _)|]; cbn; (split; [|]); try done.
  - apply delete_subseteq.
  - intros y [= <-]. by exists t.
Qed.

Lemma store_List_spec Q s now : holds Q s →
  (store_List Key ttl range now s).2 ⊆ s ∧ NoDup (Key <$> (store_List Key ttl range now s).1) ∧
  ∀ x, x ∈ (store_List Key ttl range now s).1 → cached s (Key x) x.
Proof.
  intros Hq. unfold store_List. set (its := range _ s).
  assert (∀ it, it ∈ its → s !! it.1 = Some it.2) as Hin.
  { intros [k e] Hk. subst its. rewrite range_perm in Hk. by apply elem_of_map_to_list in Hk. }
  assert (NoDup its.*1) as Hnd by (subst its; rewrite range_perm; apply NoDup_fst_map_to_list).
  enough (∀ l s', s' ⊆ s → NoDup (Key <$> l) → (∀ x, x ∈ l → cached s (Key x) x ∧ Key x ∉ its.*1) →
    (foldl (list_step Key ttl now) (l, s') its).2 ⊆ s ∧ NoDup (Key <$> (foldl (list_step Key ttl now) (l, s') its).1) ∧
    ∀ x, x ∈ (foldl (list_step Key ttl now) (l, s') its).1 → cached s (Key x) x) as H.
  { apply H; [done|apply NoDup_nil_2|]. by intros x ?%elem_of_nil. }
  clearbody its. induction its as [|[k [y t]] its IH]; intros l s' Hs Hl Hx; cbn [foldl].
  { split; [done|]. split; [done|]. intros x Hxl. by apply Hx. }
  cbn in Hnd. apply NoDup_cons in Hnd as [Hk Hnd]. pose proof (Hin (k, Entry y t) ltac:(left)) as Hy. cbn in Hy.
  destruct (Hq k y ltac:(by exists t)) as [Hky _].
  assert (∀ l' s'', s'' ⊆ s' → l' = l ∨ l' = l ++ [y] →
    (foldl (list_step Key ttl now) (l', s'') its).2 ⊆ s ∧ NoDup (Key <$> (foldl (list_step Key ttl now) (l', s'') its).1) ∧
    ∀ x, x ∈ (foldl (list_step Key ttl now) (l', s'') its).1 → cached s (Key x) x) as Hgo.
  { intros l' s'' Hs'' Hl'. apply IH; [intros it Hit; apply Hin; by right|done|by etrans| |].
    - destruct Hl' as [->| ->]; [done|]. rewrite fmap_app. apply NoDup_app. split; [done|]. split; [|apply NoDup_singleton].
      intros z Hz. apply list_elem_of_fmap in Hz as (x & -> & Hxl). cbn. intros Heq%list_elem_of_singleton.
      destruct (Hx x Hxl) as [_ Hni]. apply Hni. cbn. rewrite Heq, Hky. left.
    - intros x Hxl. assert (x ∈ l ∨ x = y) as [Hxl'| ->].
      { destruct Hl' as [->| ->]; [by left|]. apply elem_of_app in Hxl as [?|Hxy]; [by left|right; by apply list_elem_of_singleton in Hxy]. }
      + destruct (Hx x Hxl') as [Hc Hni]. split; [done|]. intros Hi. apply Hni. cbn. by right.
      + rewrite Hky. split; [by exists t|done]. }
  unfold list_step at 2 4 6. cbn [fst snd obj]. destruct (getOrExpire_spec now s' (Key y)) as [Hsub Hsome].
  destruct (getOrExpire ttl now s' (Key y)) as [[z|] s'']; cbn in Hsub, Hsome; apply Hgo; try done; [|by left].
  right. destruct (Hsome z eq_refl) as [t' Hz]. f_equal. f_equal. rewrite Hky in Hz.
  apply (lookup_weaken _ s) in Hz; [|done]. congruence.
Qed.

(** [cache_Get]: the answer was in the cache or has just been read, and only that is new. *)
Lemma cache_Get_spec Q c now update k : holds Q (cache c) → (∀ l x, update = Some l → x ∈ l → Q x) →
  holds Q (cache (cache_Get Key ttl now update c k).2) ∧
  ∀ x, (cache_Get Key ttl now update c k).1 = Ret x → cached (cache c) k x ∨ ∃ l, update = Some l ∧ x ∈ l.
Proof.
  intros Hq Hu. unfold cache_Get. destruct (getOrExpire_spec now (cache c) k) as [Hsub Hsome].
  destruct (getOrExpire ttl now (cache c) k) as [[x|] s]; cbn in Hsub, Hsome.
  - split; [by eapply holds_subseteq|]. intros y [= <-]. left. by apply Hsome.
  - destruct update as [[|x l]|]; cbn; [split; [by eapply holds_subseteq|done]| |split; [by eapply holds_subseteq|done]].
    split; [|intros y [= <-]; right; eexists; split; [done|left]].
    apply holds_Add; [by eapply holds_subseteq|]. eapply Hu; [done|left].
Qed.

(** After a load an object in the cache was read, or was there before and not read again. *)
Lemma enter_objects_cached now need objs c k x : cached (cache (enter_objects Key range now need objs c)) k x →
  (x ∈ objs ∧ Key x = k) ∨ (cached (cache c) k x ∧ k ∉ Key <$> objs).
Proof.
  unfold enter_objects. destruct (foldl (enter_object Key now) (c, need) objs) as [c1 need1] eqn:E1. intros Hk.
  assert (cached (cache c1) k x) as Hk1.
  { revert Hk. generalize (range _ need1). intros l. clear E1. revert c1. induction l as [|[i b] l IH]; intros c1 Hk; cbn [foldl] in Hk; [done|].
    apply IH in Hk. unfold drop_object in Hk. cbn in Hk. destruct b; [|done].
    destruct (cacheCandidate c1 !! i) as [y|]; [|done]. destruct Hk as [t Hk]. cbn in Hk. unfold store_Delete in Hk.
    apply lookup_delete_Some in Hk as [_ Hk]. by exists t. }
  clear Hk. revert c need E1. induction objs as [|y objs IH]; intros c need E1; cbn [foldl] in E1.
  { injection E1 as <- _. right. split; [done|apply not_elem_of_nil]. }
  apply IH in E1 as [[Hin <-]|[Hc Hni]]; [left; split; [by right|done]|].
  destruct Hc as [t Hc]. cbn in Hc. unfold store_Add in Hc. destruct (decide (k = Key y)) as [->|Hne].
  - rewrite lookup_insert_eq in Hc. injection Hc as <- _. left. split; [left|done].
  - rewrite lookup_insert_ne in Hc by done. right. split; [by exists t|]. cbn. by intros [?|?]%elem_of_cons.
Qed.

End Cache.

End CandidateCacheProofs.
