(* ===== verification/CandidateManager.v ===== *)
(** * The candidates of the scheduler: pkg/scheduler/data_manager/candidate_manager.go over the caches, and the builders
    that fill them from the database (cache/candidate: hosts.go, baremetals.go, base.go, default.go) *)

From S2P Require Import Prelude DiskConfig SchedInfo HostDesc Candidates CandidateCache.
Import Candidates CandidateCache.
Local Open Scope Z_scope.
Local Open Scope go_scope.

Module CandidateManager.

(** ** The builders *)

(** The tables that the builders read. *)
Record Database := MkDatabase {
  db_hosts : list HostDesc.SHost; db_storageInfo : gmap string (list DiskConfig.BaremetalStorage);
  db_guests : list HostDesc.SGuest; db_devs : list HostDesc.IsolatedDevice;
  db_guestMeta : gmap string (list (string * string)); db_hostMeta : gmap string (list (string * string)) }.

Definition isBaremetal (h : HostDesc.SHost) : bool := String.eqb (HostDesc.HostType h) "baremetal".

(** [HostBuilder.AllIDs] and [HostBuilder.Do].  The descriptions are built in parallel; this is the order of the rows. *)
Definition host_AllIDs (db : Database) : list string :=
  HostDesc.HostId <$> filter (λ h, isBaremetal h = false) (db_hosts db).
Definition host_Do (o : HostDesc.Options) (db : Database) (ids : list string) : list Candidater :=
  let b := HostDesc.new_builder (db_guests db) (db_devs db) (db_guestMeta db) (db_hostMeta db) ids in
  (λ h, HostC (HostDesc.buildOne o b h)) <$>
    filter (λ h, HostDesc.HostId h ∈ ids ∧ isBaremetal h = false) (db_hosts db).

(** [fillServerID]: two guests on one machine are an error, and the machine is left out. *)
Definition fillServerID (db : Database) (h : HostDesc.SHost) : option string :=
  match filter (λ g, HostDesc.GuestHostId g = HostDesc.HostId h ∧ HostDesc.GuestHypervisor g = "baremetal") (db_guests db) with
  | [] => Some ""
  | [g] => Some (HostDesc.GuestId g)
  | _ => None
  end.

Definition bm_buildOne (db : Database) (h : HostDesc.SHost) : option Candidater :=
  server ← fillServerID db h;
  Some (BaremetalC (HostDesc.MkBaremetal h (default [] (db_storageInfo db !! HostDesc.HostId h)) server)).

Definition bm_AllIDs (db : Database) : list string :=
  HostDesc.HostId <$> filter (λ h, isBaremetal h = true) (db_hosts db).
Definition bm_Do (db : Database) (ids : list string) : list Candidater :=
  omap (bm_buildOne db) (filter (λ h, HostDesc.HostId h ∈ ids ∧ isBaremetal h = true) (db_hosts db)).

(** What [Load] and [Update] of a cache read, by the resource type of its candidates. *)
Definition read_candidates (o : HostDesc.Options) (db : Database) (resType : string) (ids : option (list string))
  : list Candidater :=
  if String.eqb resType "host" then host_Do o db (default (host_AllIDs db) ids)
  else bm_Do db (default (bm_AllIDs db) ids).

(** ** The manager *)

Record CandidateManager := MkManager { impls : gmap string (schedulerCache Candidater); dirtyPool : CountPool }.

Definition AddImpl (cm : CandidateManager) (name : string) (impl : schedulerCache Candidater) : CandidateManager :=
  MkManager (<[name := impl]> (impls cm)) (dirtyPool cm).

Definition NewCandidateManager : CandidateManager :=
  AddImpl (AddImpl (MkManager ∅ NewCountPool) "host" newSchedulerCache) "baremetal" newSchedulerCache.

Record CandidateGetArgs := MkArgs { ResType : string; RegionID : string; ZoneID : string; HostTypes : list string }.

Inductive manager_error := NotSupported (resType : string) | InDirtyPool (key : string) | CacheError (e : cache_error).

Section Manager.
(** The time to live of the caches, the order of ranges, and the read of the database; a read that fails is [None]. *)
Context (ttl : Z) (range : ∀ B, gmap string B → list (string * B))
  (read : string → option (list string) → option (list Candidater)).

Definition DirtyPoolHas (now : Z) (cm : CandidateManager) (key : string) : bool := pool_HasByKey now (dirtyPool cm) key.

Definition getImpl (cm : CandidateManager) (resType : string) : outcome manager_error (schedulerCache Candidater) :=
  match impls cm !! resType with Some impl => Ret impl | None => Fail (NotSupported resType) end.

(** The zone and the region of a candidate are pointers; they are followed only when the request names one. *)
Definition matchRegion (args : CandidateGetArgs) (c : Candidater) : outcome manager_error bool :=
  if String.eqb (RegionID args) "" then Ret true
  else let! region := of_opt (HostDesc.Region (base_host c)) in Ret (String.eqb region (RegionID args)).
Definition matchZone (args : CandidateGetArgs) (c : Candidater) : outcome manager_error bool :=
  if String.eqb (ZoneID args) "" then Ret true
  else let! zone := of_opt (HostDesc.Zone (base_host c)) in Ret (String.eqb (HostDesc.ZoneId zone) (ZoneID args)).
Definition matchHostTypes (args : CandidateGetArgs) (c : Candidater) : bool :=
  match HostTypes args with [] => true | types => bool_decide (HostDesc.HostType (base_host c) ∈ types) end.

Fixpoint get_loop (now : Z) (cm : CandidateManager) (args : CandidateGetArgs) (cs : list Candidater)
  : outcome manager_error (list Candidater) :=
  match cs with
  | [] => Ret []
  | c :: cs =>
    if DirtyPoolHas now cm (IndexKey c) then get_loop now cm args cs
    else
      let! region := matchRegion args c in
      if negb region then get_loop now cm args cs
      else
        let! zone := matchZone args c in
        if negb zone || negb (matchHostTypes args c) then get_loop now cm args cs
        else let! rest := get_loop now cm args cs in Ret (c :: rest)
  end.

Definition GetCandidates (now : Z) (cm : CandidateManager) (args : CandidateGetArgs)
  : outcome manager_error (list Candidater * CandidateManager) :=
  let! impl := getImpl cm (ResType args) in
  let (candidates, impl) := cache_List IndexKey ttl range now impl in
  let cm := AddImpl cm (ResType args) impl in
  let! result := get_loop now cm args candidates in
  Ret (result, cm).

Definition lift_cache {A} (m : outcome cache_error A) : outcome manager_error A :=
  match m with Ret a => Ret a | Fail e => Fail (CacheError e) | Panic => Panic | OutOfFuel => OutOfFuel end.

(** [impl.GetCandidate]: a miss reads one candidate from the database. *)
Definition impl_GetCandidate (now : Z) (resType : string) (impl : schedulerCache Candidater) (key : string)
  : outcome manager_error Candidater * schedulerCache Candidater :=
  let (r, impl) := cache_Get IndexKey ttl now (read resType (Some [key])) impl key in (lift_cache r, impl).

Fixpoint ids_loop (now : Z) (resType : string) (pool : CountPool) (impl : schedulerCache Candidater) (ids : list string)
  : outcome manager_error (list Candidater) * schedulerCache Candidater :=
  match ids with
  | [] => (Ret [], impl)
  | key :: ids =>
    if pool_HasByKey now pool key then ids_loop now resType pool impl ids
    else
      match impl_GetCandidate now resType impl key with
      | (Ret c, impl) =>
        let (rest, impl) := ids_loop now resType pool impl ids in ((let! rest := rest in Ret (c :: rest)), impl)
      | (Fail e, impl) => (Fail e, impl)
      | (Panic, impl) => (Panic, impl)
      | (OutOfFuel, impl) => (OutOfFuel, impl)
      end
  end.

Definition GetCandidatesByIds (now : Z) (cm : CandidateManager) (resType : string) (ids : list string)
  : outcome manager_error (list Candidater) * CandidateManager :=
  match getImpl cm resType with
  | Ret impl =>
    let (cs, impl) := ids_loop now resType (dirtyPool cm) impl ids in (cs, AddImpl cm resType impl)
  | Fail e => (Fail e, cm)
  | Panic => (Panic, cm)
  | OutOfFuel => (OutOfFuel, cm)
  end.

Definition GetCandidate (now : Z) (cm : CandidateManager) (key resType : string)
  : outcome manager_error Candidater * CandidateManager :=
  match getImpl cm resType with
  | Ret impl =>
    if DirtyPoolHas now cm key then (Fail (InDirtyPool key), cm)
    else let (c, impl) := impl_GetCandidate now resType impl key in (c, AddImpl cm resType impl)
  | Fail e => (Fail e, cm)
  | Panic => (Panic, cm)
  | OutOfFuel => (OutOfFuel, cm)
  end.

(** [Reload] and [ReloadAll]; the first result is whether the read succeeded. *)
Definition load_impl (now : Z) (cm : CandidateManager) (resType : string) (ids : option (list string))
  : bool * CandidateManager :=
  match getImpl cm resType with
  | Ret impl =>
    let (objs, impl) := loadObjects IndexKey range now ids (read resType ids) impl in
    (bool_decide (is_Some objs), AddImpl cm resType impl)
  | _ => (false, cm)
  end.

Definition Reload (now : Z) (cm : CandidateManager) (resType : string) (ids : list string) : bool * CandidateManager :=
  match ids with [] => (true, cm) | _ => load_impl now cm resType (Some ids) end.
Definition ReloadAll (now : Z) (cm : CandidateManager) (resType : string) : bool * CandidateManager :=
  load_impl now cm resType None.

Definition SetCandidateDirty (now : Z) (cm : CandidateManager) (key : string) (count : Z) : CandidateManager :=
  MkManager (impls cm) (pool_Add now (dirtyPool cm) key count).
Definition CleanDirtyCandidatesOnce (cm : CandidateManager) (keys : list string) : CandidateManager :=
  MkManager (impls cm) (foldl pool_DeleteByKey (dirtyPool cm) keys).

End Manager.

(** [ToHostCandidates]. *)
Fixpoint ToHostCandidates (cs : list Candidater) : option (list HostDesc.HostDesc) :=
  match cs with
  | [] => Some []
  | HostC h :: cs => rest ← ToHostCandidates cs; Some (h :: rest)
  | BaremetalC _ :: _ => None
  end.

End CandidateManager.
