(* ===== verification/SchedService.v ===== *)
(** * The scheduler service: pkg/scheduler/manager (task_queue.go, scheduler.go, expire_queue.go)

    A request becomes a task with one executor, which waits in a queue until the goroutine of the queue executes it.
    Notices that hosts have changed are merged in batches; a batch reloads the hosts and lets the scheduler see them again.
    The service is a transition function on the events between which other goroutines can run. *)

From S2P Require Import Prelude SchedInfo Scheduler Unit Candidates CandidateCache CandidateManager.
Import Candidates CandidateCache CandidateManager.
Local Open Scope Z_scope.
Local Open Scope go_scope.

Module SchedService.

(** What [GenericScheduler.Schedule] returns: the items, and the candidates it marks as dirty with their counts. *)
Abbreviation item := (Scheduler.SchedResultItem (list (option Unit.CandidateDisk))).

(** ** Tasks and their executors (task_queue.go) *)

Inductive ExecutorStatus := Waiting | Running | Failed | Killed | Success.
#[global] Instance ExecutorStatus_eq : EqDecision ExecutorStatus.
Proof. solve_decision. Defined.

Section Service.
(** Errors of the scheduler, and what it does with a request and its candidates. *)
Context {E : Type} (schedule : SchedInfo.SchedInfo → list Candidater → outcome E (list item * list (string * Z))).
Context (ttl : Z) (range : ∀ B, gmap string B → list (string * B)).
(** The lengths of the queues of executors and notices. *)
Context (QueueLength ExpireQueueMaxLength : nat).

Inductive task_error := ManagerError (e : manager_error) | ScheduleError (e : E).

Record TaskExecutor := MkExecutor {
  te_task : nat; Status : ExecutorStatus; te_result : option (outcome task_error (list item)); completed : bool }.

Record Task := MkTask {
  t_info : SchedInfo.SchedInfo; taskExecutors : list nat; completedCount : Z; waitClosed : bool;
  resultItems : option (list item); resultError : option task_error }.

Definition NewTask (info : SchedInfo.SchedInfo) : Task := MkTask info [] 0 false None None.
Definition NewTaskExecutor (task : nat) : TaskExecutor := MkExecutor task Waiting None false.

Definition with_status (st : ExecutorStatus) (te : TaskExecutor) : TaskExecutor :=
  MkExecutor (te_task te) st (te_result te) (completed te).

Definition Kill (te : TaskExecutor) : TaskExecutor :=
  if decide (Status te = Waiting) then with_status Killed te else te.

(** ** Expiry (expire_queue.go) *)

Record ExpireArgs := MkExpire { DirtyHosts : list string; DirtyBaremetals : list string }.

(** A goroutine of a batch: what it reloads, and whether it has done so. *)
Record ReloadJob := MkJob { job_type : string; job_ids : list string; reloaded : bool }.

(** ** The service *)

Record Service := MkService {
  tasks : list Task; executors : list TaskExecutor;
  queues : gmap string (list nat);
  (** What the goroutine of each queue executes, with the candidates it was given. *)
  current : gmap string (nat * outcome task_error (list Candidater));
  (** The lock of the task manager: the task that is being added. *)
  adding : option nat;
  candidates : CandidateManager;
  expireChannel : list ExpireArgs;
  jobs : list ReloadJob;
  (** The expiry goroutine waits for its batch. *)
  batchWait : bool;
  (** Full loads that have read the database and not yet entered what they read. *)
  loads : list (string * gmap string bool * list Candidater);
  (** The goroutines of queues that have listed the candidates and not yet asked which of them are dirty. *)
  listed : gmap string (CandidateGetArgs * list Candidater) }.

Definition NewService : Service :=
  MkService [] [] ∅ ∅ None NewCandidateManager [] [] false [] ∅.

Definition with_candidates (s : Service) (cm : CandidateManager) : Service :=
  MkService (tasks s) (executors s) (queues s) (current s) (adding s) cm (expireChannel s) (jobs s) (batchWait s) (loads s) (listed s).

(** [GetQueue]: the key of the queue of a request. *)
Definition queue_key (info : SchedInfo.SchedInfo) : string := SchedInfo.Type_ info +:+ ":" +:+ "".

(** [AddTask] up to the send to the queue, which blocks when the queue is full. *)
Definition submit (s : Service) (info : SchedInfo.SchedInfo) : option Service :=
  let key := queue_key info in
  let queue := default [] (queues s !! key) in
  let i := length (tasks s) in
  if bool_decide (adding s = None) && bool_decide (length queue < QueueLength)%nat then
    Some (MkService (tasks s ++ [NewTask info]) (executors s ++ [NewTaskExecutor i])
            (<[key := queue ++ [i]]> (queues s)) (current s) (Some i) (candidates s) (expireChannel s) (jobs s)
            (batchWait s) (loads s) (listed s))
  else None.

(** The end of [AddTask]: the executor is entered in its task. *)
Definition attach (s : Service) : option Service :=
  i ← adding s;
  Some (MkService (alter (λ t, MkTask (t_info t) (taskExecutors t ++ [i]) (completedCount t) (waitClosed t) (resultItems t)
                                  (resultError t)) i (tasks s))
          (executors s) (queues s) (current s) None (candidates s) (expireChannel s) (jobs s) (batchWait s) (loads s) (listed s)).

(** *** Candidates of a request (scheduler.go) *)

Definition CandidateType (info : SchedInfo.SchedInfo) : string :=
  if String.eqb (SchedInfo.Hypervisor info) "baremetal" then "baremetal" else "host".

Definition candidate_args (info : SchedInfo.SchedInfo) : CandidateGetArgs :=
  MkArgs (CandidateType info) (SchedInfo.PreferRegion info) (SchedInfo.PreferZone info) (SchedInfo.GetCandidateHostTypes info).

Definition manager_outcome {A} (m : outcome manager_error A) : outcome task_error A :=
  match m with Ret a => Ret a | Fail e => Fail (ManagerError e) | Panic => Panic | OutOfFuel => OutOfFuel end.

Definition candidatesByProvider (read : string → option (list string) → option (list Candidater)) (now : Z)
    (cm : CandidateManager) (info : SchedInfo.SchedInfo) : outcome task_error (list Candidater) * CandidateManager :=
  match SchedInfo.Candidates info with
  | [] =>
    match GetCandidates ttl range now cm
      (candidate_args info) with
    | Ret (cs, cm) => (Ret cs, cm)
    | Fail e => (Fail (ManagerError e), cm)
    | Panic => (Panic, cm)
    | OutOfFuel => (OutOfFuel, cm)
    end
  | ids =>
    let (cs, cm) := GetCandidatesByIds ttl read now cm (CandidateType info) ids in (manager_outcome cs, cm)
  end.

(** *** Execution *)

Definition set_executor (s : Service) (i : nat) (te : TaskExecutor) : Service :=
  MkService (tasks s) (<[i := te]> (executors s)) (queues s) (current s) (adding s) (candidates s) (expireChannel s) (jobs s)
    (batchWait s) (loads s) (listed s).
Definition set_task (s : Service) (i : nat) (t : Task) : Service :=
  MkService (<[i := t]> (tasks s)) (executors s) (queues s) (current s) (adding s) (candidates s) (expireChannel s) (jobs s)
    (batchWait s) (loads s) (listed s).

(** The goroutine of a queue takes the next executor and, when it is still waiting, asks for the candidates.  Something
    that is not enabled is [Fail]. *)
Definition start (read : string → option (list string) → option (list Candidater)) (now : Z) (key : string) (s : Service)
  : outcome unit Service :=
  match current s !! key, queues s !! key with
  | None, Some (i :: queue) =>
    let s := MkService (tasks s) (executors s) (<[key := queue]> (queues s)) (current s) (adding s) (candidates s)
               (expireChannel s) (jobs s) (batchWait s) (loads s) (listed s) in
    let! te := of_opt (executors s !! i) in
    if decide (Status te = Waiting) then
      let s := set_executor s i (with_status Running te) in
      let! t := of_opt (tasks s !! te_task te) in
      let (cs, cm) := candidatesByProvider read now (candidates s) (t_info t) in
      match cs with
      | Panic => Panic
      | _ => Ret (MkService (tasks s) (executors s) (queues s) (<[key := (i, cs)]> (current s)) (adding s) cm
                    (expireChannel s) (jobs s) (batchWait s) (loads s) (listed s))
      end
    else Ret s
  | _, _ => Fail tt
  end.

(** [GetCandidates] lists the cache, then asks for every candidate whether it is dirty; other goroutines can run in between.
    The two steps of [start] for a request without hosts of its own. *)
Definition start_list (now : Z) (key : string) (s : Service) : outcome unit Service :=
  match current s !! key, queues s !! key with
  | None, Some (i :: queue) =>
    let! te := of_opt (executors s !! i) in
    let! t := of_opt (tasks s !! te_task te) in
    match decide (Status te = Waiting), SchedInfo.Candidates (t_info t), impls (candidates s) !! CandidateType (t_info t) with
    | left _, [], Some impl =>
      let (cs, impl) := cache_List IndexKey ttl range now impl in
      Ret (MkService (tasks s) (<[i := with_status Running te]> (executors s)) (<[key := queue]> (queues s))
             (<[key := (i, Ret [])]> (current s)) (adding s) (AddImpl (candidates s) (CandidateType (t_info t)) impl)
             (expireChannel s) (jobs s) (batchWait s) (loads s) (<[key := (candidate_args (t_info t), cs)]> (listed s)))
    | _, _, _ => Fail tt
    end
  | _, _ => Fail tt
  end.

Definition check_listed (now : Z) (key : string) (s : Service) : outcome unit Service :=
  match current s !! key, listed s !! key with
  | Some (i, _), Some (args, cs) =>
    match get_loop now (candidates s) args cs with
    | Panic => Panic
    | r => Ret (MkService (tasks s) (executors s) (queues s) (<[key := (i, manager_outcome r)]> (current s)) (adding s)
                  (candidates s) (expireChannel s) (jobs s) (batchWait s) (loads s) (delete key (listed s)))
    end
  | _, _ => Fail tt
  end.

(** Closing the channel of a task a second time panics. *)
Definition close_wait (t : Task) : outcome unit Task :=
  if waitClosed t then Panic
  else Ret (MkTask (t_info t) (taskExecutors t) (completedCount t) true (resultItems t) (resultError t)).

(** [onTaskCompleted] with [onError] and [onCompleted]. *)
Definition onTaskCompleted (s : Service) (te : TaskExecutor) (r : outcome task_error (list item)) : outcome unit Service :=
  let! t := of_opt (tasks s !! te_task te) in
  match r with
  | Fail e =>
    let t := MkTask (t_info t) (taskExecutors t) (completedCount t) (waitClosed t) (resultItems t) (Some e) in
    let s := MkService (tasks s) (foldl (λ l i, alter Kill i l) (executors s) (taskExecutors t)) (queues s) (current s)
               (adding s) (candidates s) (expireChannel s) (jobs s) (batchWait s) (loads s) (listed s) in
    let! t := close_wait t in Ret (set_task s (te_task te) t)
  | Ret items =>
    let n := completedCount t + 1 in
    let t := MkTask (t_info t) (taskExecutors t) n (waitClosed t) (Some items) (resultError t) in
    if Z.of_nat (length (taskExecutors t)) <=? n then let! t := close_wait t in Ret (set_task s (te_task te) t)
    else Ret (set_task s (te_task te) t)
  | Panic => Panic
  | OutOfFuel => OutOfFuel
  end.

Definition DirtySelectedCandidates (now : Z) (cm : CandidateManager) (scs : list (string * Z)) : CandidateManager :=
  foldl (λ cm sc, SetCandidateDirty now cm sc.1 (uint_wrap 64 sc.2)) cm scs.

(** The rest of [TaskExecutor.execute]: the schedule of the candidates, and the marks it makes. *)
Definition execute (info : SchedInfo.SchedInfo) (cs : outcome task_error (list Candidater))
  : outcome task_error (list item) * list (string * Z) :=
  match cs with
  | Ret cs =>
    match schedule info cs with
    | Ret (items, dirty) => (Ret items, dirty)
    | Fail e => (Fail (ScheduleError e), [])
    | Panic => (Panic, [])
    | OutOfFuel => (OutOfFuel, [])
    end
  | Fail e => (Fail e, [])
  | Panic => (Panic, [])
  | OutOfFuel => (OutOfFuel, [])
  end.

(** The rest of [TaskExecutor.Execute]: the marks, the status and the callback; the queue is idle again. *)
Definition complete (now : Z) (key : string) (i task : nat) (r : outcome task_error (list item)) (dirty : list (string * Z))
    (s : Service) : outcome unit Service :=
  let te := MkExecutor task (match r with Ret _ => Success | _ => Failed end) (Some r) true in
  onTaskCompleted
    (MkService (tasks s) (<[i := te]> (executors s)) (queues s) (delete key (current s)) (adding s)
       (DirtySelectedCandidates now (candidates s) dirty) (expireChannel s) (jobs s) (batchWait s) (loads s) (listed s)) te r.

Definition finish (now : Z) (key : string) (s : Service) : outcome unit Service :=
  match current s !! key, listed s !! key with
  | Some (i, cs), None =>
    let! te := of_opt (executors s !! i) in
    let! t := of_opt (tasks s !! te_task te) in
    let (r, dirty) := execute (t_info t) cs in
    complete now key i (te_task te) r dirty s
  | _, _ => Fail tt
  end.

(** *** Batches of notices *)

(** [ExpireManager.Add]: a full channel blocks. *)
Definition Expire (s : Service) (args : ExpireArgs) : option Service :=
  if bool_decide (length (expireChannel s) < ExpireQueueMaxLength)%nat then
    Some (MkService (tasks s) (executors s) (queues s) (current s) (adding s) (candidates s) (expireChannel s ++ [args])
            (jobs s) (batchWait s) (loads s) (listed s))
  else None.

(** The hosts of several notices, each once. *)
Definition merge_ids (f : ExpireArgs → list string) (args : list ExpireArgs) : list string :=
  foldl (λ ids i, if bool_decide (i ∈ ids) then ids else ids ++ [i]) [] (args ≫= f).

(** [batchMergeExpire] up to its goroutines; a goroutine without hosts does nothing. *)
Definition drain (s : Service) : option Service :=
  if batchWait s || bool_decide (expireChannel s = []) then None
  else
    let job resType ids := match ids with [] => [] | _ => [MkJob resType ids false] end in
    let new := job "host" (merge_ids DirtyHosts (expireChannel s)) ++
               job "baremetal" (merge_ids DirtyBaremetals (expireChannel s)) in
    Some (MkService (tasks s) (executors s) (queues s) (current s) (adding s) (candidates s) [] (jobs s ++ new) true (loads s) (listed s)).

(** The goroutine of job [n] reloads its hosts; a failure is only logged. *)
Definition reload_job (read : string → option (list string) → option (list Candidater)) (now : Z) (n : nat) (s : Service)
  : option Service :=
  j ← jobs s !! n;
  if reloaded j then None
  else
    let (_, cm) := Reload range read now (candidates s) (job_type j) (job_ids j) in
    Some (MkService (tasks s) (executors s) (queues s) (current s) (adding s) cm (expireChannel s)
            (<[n := MkJob (job_type j) (job_ids j) true]> (jobs s)) (batchWait s) (loads s) (listed s)).

(** Then it cleans them, each once. *)
Definition clean_job (n : nat) (s : Service) : option Service :=
  j ← jobs s !! n;
  if reloaded j then
    Some (MkService (tasks s) (executors s) (queues s) (current s) (adding s)
            (CleanDirtyCandidatesOnce (candidates s) (job_ids j)) (expireChannel s) (delete n (jobs s)) (batchWait s) (loads s) (listed s))
  else None.

(** The expiry goroutine goes on when the goroutines of the batch are done, or after the timeout. *)
Definition batch_end (timeout : bool) (s : Service) : option Service :=
  if batchWait s && (timeout || bool_decide (jobs s = [])) then
    Some (MkService (tasks s) (executors s) (queues s) (current s) (adding s) (candidates s) (expireChannel s) (jobs s) false
            (loads s) (listed s))
  else None.

(** *** Loads *)

(** [ReloadAll] and a regular update, which loads the hosts that have changed or all, in one step; and a load as the two
    steps between which other goroutines can run: the read of the database and the entry of its result. *)
Definition reload_all (read : string → option (list string) → option (list Candidater)) (now : Z) (resType : string)
    (s : Service) : Service :=
  with_candidates s (ReloadAll range read now (candidates s) resType).2.

Definition regular_update (read : string → option (list string) → option (list Candidater)) (now : Z) (resType : string)
    (ids : option (list string)) (s : Service) : Service :=
  with_candidates s (load_impl range read now (candidates s) resType ids).2.

Definition begin_load (read : string → option (list string) → option (list Candidater)) (resType : string) (s : Service)
  : option Service :=
  impl ← impls (candidates s) !! resType;
  objs ← read resType None;
  Some (MkService (tasks s) (executors s) (queues s) (current s) (adding s) (candidates s) (expireChannel s) (jobs s)
          (batchWait s) (loads s ++ [(resType, need_update range impl None, objs)]) (listed s)).

Definition end_load (now : Z) (n : nat) (s : Service) : option Service :=
  '(resType, need, objs) ← loads s !! n;
  impl ← impls (candidates s) !! resType;
  Some (MkService (tasks s) (executors s) (queues s) (current s) (adding s)
          (AddImpl (candidates s) resType (enter_objects IndexKey range now need objs impl)) (expireChannel s) (jobs s)
          (batchWait s) (delete n (loads s)) (listed s)).

(** ** Events *)

Inductive event :=
| Submit (info : SchedInfo.SchedInfo)
| Attach
| Start (key : string)
| StartList (key : string)
| CheckListed (key : string)
| Finish (key : string)
| Notice (args : ExpireArgs)
| Drain
| ReloadJ (n : nat)
| CleanJ (n : nat)
| BatchEnd (timeout : bool)
| FullLoad (resType : string)
| Update (resType : string) (ids : option (list string))
| BeginLoad (resType : string)
| EndLoad (n : nat).

Definition enabled (o : option Service) : outcome unit Service := match o with Some s => Ret s | None => Fail tt end.

(** One event at time [now], with the database as it can be read at that moment. *)
Definition exec (read : string → option (list string) → option (list Candidater)) (now : Z) (s : Service) (e : event)
  : outcome unit Service :=
  match e with
  | Submit info => enabled (submit s info)
  | Attach => enabled (attach s)
  | Start key => start read now key s
  | StartList key => start_list now key s
  | CheckListed key => check_listed now key s
  | Finish key => finish now key s
  | Notice args => enabled (Expire s args)
  | Drain => enabled (drain s)
  | ReloadJ n => enabled (reload_job read now n s)
  | CleanJ n => enabled (clean_job n s)
  | BatchEnd timeout => enabled (batch_end timeout s)
  | FullLoad resType => Ret (reload_all read now resType s)
  | Update resType ids => Ret (regular_update read now resType ids s)
  | BeginLoad resType => enabled (begin_load read resType s)
  | EndLoad n => enabled (end_load now n s)
  end.

End Service.

Arguments TaskExecutor E : clear implicits.
Arguments Task E : clear implicits.
Arguments Service E : clear implicits.
Arguments task_error E : clear implicits.

End SchedService.
