(* ===== verification/SchedAnswers.v ===== *)
(** * The answers of the scheduler service: pkg/scheduler/handler (handler.go, backup_helper.go)

    The result of a schedule is turned into one resource per guest; for guests with a backup, into pairs of hosts.  The
    names in a resource are left out, here as in the items of a result. *)

From S2P Require Import Prelude SchedInfo Scheduler Unit Candidates CandidateCache CandidateManager SchedService.
Import CandidateManager SchedService.
Local Open Scope Z_scope.
Local Open Scope go_scope.

Module SchedAnswers.

Inductive CandidateResource :=
| MkResource (HostId : string) (Disks : list (option Unit.CandidateDisk)) (BackupCandidate : option CandidateResource)
| ErrorResource (Error : string).

Definition ToCandidateResource (it : item) : CandidateResource :=
  MkResource (Scheduler.ID it) (Scheduler.Allocated it) None.

(** ** Ordinary requests *)

(** The inner loop of [transToRegionSchedResult]: a resource for each guest of an item, whose count goes to zero. *)
Fixpoint item_loop (n : nat) (it : item) : list CandidateResource :=
  match n with O => [] | S n => ToCandidateResource it :: item_loop n it end.

Definition transToRegionSchedResult (result : list item) (count : Z) : list CandidateResource :=
  let apiResults := result ≫= λ it, item_loop (Z.to_nat (Scheduler.Count it)) it in
  apiResults ++ replicate (Z.to_nat (count - Z.of_nat (length apiResults))) (ErrorResource "Out of resource").

(** ** Requests with a backup *)

Fixpoint selectMasterHost (result : list item) (preferMasterHost preferBackupHost : string) : option item :=
  match result with
  | [] => None
  | host :: restHosts =>
    if (1 <=? Scheduler.ItemCapacity host) && negb (String.eqb (Scheduler.ID host) preferBackupHost) then
      if String.eqb preferMasterHost "" then Some host
      else selectMasterHost restHosts preferMasterHost preferBackupHost
    else selectMasterHost restHosts preferMasterHost preferBackupHost
  end.

Definition canHostAsBackup (masterID preferBackupHost : string) (host : item) : bool :=
  if String.eqb (Scheduler.ID host) masterID then false
  else if Scheduler.ItemCapacity host =? 0 then false
  else String.eqb preferBackupHost "" || String.eqb (Scheduler.ID host) preferBackupHost.

Fixpoint selectBackupHost (masterID preferBackupHost : string) (result : list item) : option item :=
  match result with
  | [] => None
  | firstHost :: restHosts =>
    if canHostAsBackup masterID preferBackupHost firstHost then Some firstHost
    else selectBackupHost masterID preferBackupHost restHosts
  end.

(** [markHostUsed] on the item of a host, which the result shares; it is marked dirty with its count so far. *)
Definition mark_item (it : item) : item :=
  Scheduler.ResultItem (Scheduler.ID it) (int64_wrap (Scheduler.Count it + 1)) (int64_wrap (Scheduler.ItemCapacity it - 1))
    (Scheduler.Allocated it).

Definition markHostUsed (now : Z) (host : string) (p : list item * CandidateManager) : list item * CandidateManager :=
  ((λ it, if String.eqb (Scheduler.ID it) host then mark_item it else it) <$> p.1,
   match list_find (λ it, Scheduler.ID it = host) p.1 with
   | Some (_, it) => SetCandidateDirty now p.2 host (uint_wrap 64 (Scheduler.Count (mark_item it)))
   | None => p.2
   end).

Inductive backup_error := NoMasterHost | NoBackupHost (master : string).

Section Backup.
(** [sort.Sort(sort.Reverse(result))]: by capacity, the largest first. *)
Context (sort_reverse : list item → list item) (now : Z) (preferMasterHost preferBackupHost : string).

Definition getSchedBackupResult (result : list item) (cm : CandidateManager)
  : outcome backup_error (CandidateResource * list item * CandidateManager) :=
  match selectMasterHost result preferMasterHost preferBackupHost with
  | None => Fail NoMasterHost
  | Some masterHost =>
    match selectBackupHost (Scheduler.ID masterHost) preferBackupHost result with
    | None => Fail (NoBackupHost (Scheduler.ID masterHost))
    | Some backupHost =>
      let (result, cm) := markHostUsed now (Scheduler.ID backupHost) (markHostUsed now (Scheduler.ID masterHost) (result, cm)) in
      Ret (MkResource (Scheduler.ID masterHost) (Scheduler.Allocated masterHost) (Some (ToCandidateResource backupHost)),
           sort_reverse result, cm)
    end
  end.

Definition backup_message (e : backup_error) : string :=
  match e with
  | NoMasterHost => "Can't find master host"
  | NoBackupHost master => "Can't find backup host by master " +:+ master
  end.

(** [newBackupSchedResult]: an error is an entry of the answer, and the next guest is tried. *)
Fixpoint newBackupSchedResult (n : nat) (result : list item) (cm : CandidateManager)
  : list CandidateResource * list item * CandidateManager :=
  match n with
  | O => ([], result, cm)
  | S n =>
    match getSchedBackupResult result cm with
    | Ret (target, result, cm) =>
      let '(rest, result, cm) := newBackupSchedResult n result cm in (target :: rest, result, cm)
    | Fail e =>
      let '(rest, result, cm) := newBackupSchedResult n result cm in (ErrorResource (backup_message e) :: rest, result, cm)
    | _ => ([], result, cm)
    end
  end.

Definition clear_count (it : item) : item :=
  Scheduler.ResultItem (Scheduler.ID it) 0 (Scheduler.ItemCapacity it) (Scheduler.Allocated it).

Definition transToBackupSchedResult (result : list item) (count : Z) (cm : CandidateManager)
  : list CandidateResource * list item * CandidateManager :=
  newBackupSchedResult (Z.to_nat count) (clear_count <$> result) cm.

End Backup.

End SchedAnswers.
