(* ===== verification/SchedSystem.v ===== *)
(** * The scheduler service together with the region service and the database

    The region creates the guests that it was promised and then tells the scheduler that their hosts have changed.  What
    the scheduler decides from its cache, which may be old, is compared with the database. *)

From S2P Require Import Prelude SchedInfo Scheduler Unit Storages HostDesc HostDescProofs Candidates.
From S2P Require Import CandidateCache CandidateCacheProofs CandidateManager SchedService SchedAnswers.
Import Candidates CandidateCache CandidateManager SchedService SchedAnswers CandidateCacheProofs.
Local Open Scope Z_scope.
Local Open Scope go_scope.

Module SchedSystem.

(** ** What guests take and hosts have *)

Inductive resource := CPU | Mem.

Definition amount (r : resource) (g : HostDesc.SGuest) : Z :=
  match r with CPU => HostDesc.VcpuCount g | Mem => HostDesc.VmemSize g end.
Definition need (r : resource) (d : SchedInfo.SchedInfo) : Z :=
  match r with CPU => SchedInfo.Ncpu d | Mem => SchedInfo.Memory d end.
Definition total (o : HostDesc.Options) (r : resource) (h : HostDesc.SHost) : Z :=
  match r with
  | CPU => Storages.overcommit (HostDesc.CpuCount h) (HostDesc.GetCPUOvercommitBound o h)
  | Mem => Storages.overcommit (HostDesc.MemSize h) (HostDesc.GetMemoryOvercommitBound o h)
  end.
Definition kept (r : resource) (h : HostDesc.SHost) : Z :=
  match r with CPU => HostDesc.CpuReserved h | Mem => HostDesc.MemReserved h end.
Definition per_device (o : HostDesc.Options) (r : resource) : Z :=
  match r with CPU => HostDesc.CpuReservedPerIsolatedDevice o | Mem => HostDesc.MemoryReservedPerIsolatedDevice o end.
Definition free (r : resource) (h : HostDesc.HostDesc) : Z :=
  match r with CPU => HostDesc.GetFreeCPUCount h false | Mem => HostDesc.GetFreeMemSize h false end.

(** What the guests of a host leave free according to the database: the total, less what is kept for the host, less what
    the guests that the options count take, less the part of the reserve for devices that is not used. *)
Definition free_in (o : HostDesc.Options) (db : Database) (r : resource) (h : HostDesc.SHost) : Z :=
  total o r h - kept r h -
  HostDescProofs.sum_of (λ g, if HostDescProofs.counts o g then amount r g else 0) (HostDescProofs.residents (db_guests db) h) -
  Z.max 0 (Z.of_nat (length (HostDescProofs.host_devices (db_devs db) h)) * per_device o r -
    HostDescProofs.held o (db_guests db) (db_devs db) h (amount r)).

(** ** The system *)

Section System.
Context {E : Type} (schedule : SchedInfo.SchedInfo → list Candidater → outcome E (list item * list (string * Z))).
Context (o : HostDesc.Options) (ttl : Z) (range : ∀ B, gmap string B → list (string * B)).
Context (QueueLength ExpireQueueMaxLength : nat).

(** The guests promised in answers and not yet created, by host, and the hosts of created guests that the scheduler has
    not yet been told of. *)
Record System := MkSystem {
  service : Service E; db : Database; promised : list (string * SchedInfo.SchedInfo); unnotified : list string }.

(** The hosts in an answer. *)
Definition resource_hosts (r : CandidateResource) : list string :=
  match r with MkResource h _ _ => [h] | ErrorResource _ => [] end.
Definition granted_hosts (items : list item) (count : Z) : list string :=
  transToRegionSchedResult items count ≫= resource_hosts.

(** What finishing the current task of a queue promises. *)
Definition grants (s : Service E) (key : string) : list (string * SchedInfo.SchedInfo) :=
  default [] (
    '(i, cs) ← current s !! key;
    te ← executors s !! i;
    t ← tasks s !! te_task te;
    match (execute schedule (t_info t) cs).1 with
    | Ret items => if SchedInfo.IsSuggestion (t_info t) then None
                   else Some ((λ h, (h, t_info t)) <$> granted_hosts items (SchedInfo.Count (t_info t)))
    | _ => None
    end).

(** A guest of a promise: on the promised host, as large as the request, with a new identifier and no backup. *)
Definition guest_of (db : Database) (p : string * SchedInfo.SchedInfo) (g : HostDesc.SGuest) : bool :=
  String.eqb (HostDesc.GuestHostId g) p.1 && String.eqb (HostDesc.BackupHostId g) "" &&
  (HostDesc.VcpuCount g =? SchedInfo.Ncpu p.2) && (HostDesc.VmemSize g =? SchedInfo.Memory p.2) &&
  bool_decide (HostDesc.GuestId g ∉ HostDesc.GuestId <$> db_guests db) &&
  bool_decide (HostDesc.GuestId g ∉ HostDesc.DevGuestID <$> db_devs db).

Definition insert_guest (db : Database) (g : HostDesc.SGuest) : Database :=
  MkDatabase (db_hosts db) (db_storageInfo db) (db_guests db ++ [g]) (db_devs db) (db_guestMeta db) (db_hostMeta db).

Inductive sys_event :=
| Ev (now : Z) (e : event)
| Create (k : nat) (g : HostDesc.SGuest)
| Notify (k : nat).

Definition sys_read (s : System) (resType : string) (ids : option (list string)) : option (list Candidater) :=
  Some (read_candidates o (db s) resType ids).

Definition sys_exec (s : System) (ev : sys_event) : outcome unit System :=
  match ev with
  | Ev now e =>
    let new := match e with Finish key => grants (service s) key | _ => [] end in
    let! sv := exec schedule ttl range QueueLength ExpireQueueMaxLength (sys_read s) now (service s) e in
    Ret (MkSystem sv (db s) (promised s ++ new) (unnotified s))
  | Create k g =>
    match promised s !! k with
    | Some p => if guest_of (db s) p g
                then Ret (MkSystem (service s) (insert_guest (db s) g) (delete k (promised s)) (unnotified s ++ [p.1]))
                else Fail tt
    | None => Fail tt
    end
  | Notify k =>
    match unnotified s !! k with
    | Some h => let! sv := enabled (Expire ExpireQueueMaxLength (service s) (MkExpire [h] [])) in
                Ret (MkSystem sv (db s) (promised s) (delete k (unnotified s)))
    | None => Fail tt
    end
  end.

Fixpoint sys_run (s : System) (evs : list sys_event) : outcome unit System :=
  match evs with
  | [] => Ret s
  | ev :: evs => let! s := sys_exec s ev in sys_run s evs
  end.

Definition initial (db : Database) : System := MkSystem NewService db [] [].

(** ** The runs that are considered *)

(** A request that promises guests: on premises, without devices, and marking what it selects. *)
Definition ordinary (d : SchedInfo.SchedInfo) : Prop :=
  SchedInfo.IsSuggestion d = false ∧ SchedInfo.SkipDirtyMarkHost d = false ∧ SchedInfo.IsPublicCloudProvider d = false ∧
  SchedInfo.IsolatedDevices d = [] ∧ 0 < SchedInfo.Ncpu d ∧ 0 < SchedInfo.Memory d ∧ 1 ≤ SchedInfo.Count d ∧
  SchedInfo.Hypervisor d ≠ "baremetal".

(** Requests for guests as [NewSchedInfo] makes them: a suggestion or an ordinary one. *)
Definition request_ok (d : SchedInfo.SchedInfo) : Prop :=
  SchedInfo.Type_ d = "" ∧ SchedInfo.Hypervisor d ≠ "baremetal" ∧ NoDup (SchedInfo.Candidates d) ∧
  (SchedInfo.IsSuggestion d = true ∨ ordinary d).

(** Notices come from the region, a batch is not abandoned, a load enters what it has read at once, and candidates are
    asked for dirtiness as soon as they are listed. *)
Definition considered (ev : sys_event) : Prop :=
  match ev with
  | Ev _ (Submit d) => request_ok d
  | Ev _ (Notice _) | Ev _ (BatchEnd true) | Ev _ (BeginLoad _) | Ev _ (EndLoad _) | Ev _ (StartList _) | Ev _ (CheckListed _) => False
  | _ => True
  end.

(** ** The contract of the scheduler *)

(** What a schedule promises to the service: a suggestion marks nothing; an ordinary request marks each host that it
    gives guests to once, with their number, and the guests fit into what the description of the host gives as free. *)
Class SoundSchedule (hosts : list HostDesc.SHost) : Prop := {
  suggestion_marks : ∀ d cs items dirty,
    SchedInfo.IsSuggestion d = true → NoDup (IndexKey <$> cs) →
    Forall (λ c, ∃ hd, c = HostC hd ∧ HostDesc.Host hd ∈ hosts) cs → schedule d cs = Ret (items, dirty) → dirty = [];
  ordinary_marks : ∀ d cs items dirty,
    ordinary d → NoDup (IndexKey <$> cs) → Forall (λ c, ∃ hd, c = HostC hd ∧ HostDesc.Host hd ∈ hosts) cs →
    schedule d cs = Ret (items, dirty) →
    NoDup dirty.*1 ∧ granted_hosts items (SchedInfo.Count d) = (dirty ≫= λ p, replicate (Z.to_nat p.2) p.1) ∧
    ∀ h n, (h, n) ∈ dirty → 1 ≤ n ∧ ∃ hd, HostC hd ∈ cs ∧ HostDesc.HostId (HostDesc.Host hd) = h ∧
      ∀ r, n * need r d ≤ free r hd }.

End System.

Arguments System E : clear implicits.
Arguments MkSystem {E}.
Arguments service {E}.
Arguments db {E}.
Arguments promised {E}.
Arguments unnotified {E}.

(** ** Databases *)

Section Database.
Context (o : HostDesc.Options).

(** Hosts have names of their own, and their numbers are far from overflow. *)
Record hosts_ok (db : Database) : Prop := {
  ho_ids : NoDup (HostDesc.HostId <$> db_hosts db);
  ho_named : "" ∉ HostDesc.HostId <$> db_hosts db;
  ho_range : ∀ h r, h ∈ db_hosts db → - 2 ^ 60 ≤ total o r h ≤ 2 ^ 60 ∧ 0 ≤ kept r h ≤ 2 ^ 60 ∧
    0 ≤ Z.of_nat (length (HostDescProofs.host_devices (db_devs db) h)) * per_device o r ≤ 2 ^ 60 ∧
    HostDescProofs.held o (db_guests db) (db_devs db) h (amount r) ≤ 2 ^ 60 }.

(** Guests have different identifiers, no backups, and devices only of their own hosts. *)
Record guests_ok (db : Database) : Prop := {
  go_ids : NoDup (HostDesc.GuestId <$> db_guests db);
  go_backup : ∀ g, g ∈ db_guests db → HostDesc.BackupHostId g = "";
  go_nonneg : ∀ g r, g ∈ db_guests db → 0 ≤ amount r g;
  go_devices : ∀ h d g, h ∈ db_hosts db → d ∈ HostDescProofs.used_devices (db_devs db) h → g ∈ db_guests db →
    HostDesc.GuestId g = HostDesc.DevGuestID d → HostDesc.GuestHostId g = HostDesc.HostId h }.

End Database.

End SchedSystem.
