(* ===== verification/SchedSafety.v ===== *)
(** * The scheduler service never overcommits: the invariant of the system, and each event *)

From S2P Require Import Prelude SchedInfo Scheduler Unit Storages HostDesc HostDescProofs Candidates.
From S2P Require Import CandidateCache CandidateCacheProofs CandidateManager SchedService SchedAnswers SchedSystem.
Import Candidates CandidateCache CandidateManager SchedService SchedAnswers CandidateCacheProofs SchedSystem.
Local Open Scope Z_scope.
Local Open Scope go_scope.

Module SchedSafety.

Abbreviation sum_of := HostDescProofs.sum_of.

(** ** Descriptions read from the database are exact *)

Section Read.
Context (o : HostDesc.Options).

(** A description that is exact for the database. *)
Definition exact (db : Database) (hd : HostDesc.HostDesc) : Prop := ∀ r, free r hd = free_in o db r (HostDesc.Host hd).

Lemma load_plain db ids h f : hosts_ok o db → guests_ok db → h ∈ db_hosts db →
  HostDescProofs.load o (db_guests db) ids h f =
  sum_of (λ g, if HostDescProofs.counts o g then f g else 0) (HostDescProofs.residents (db_guests db) h).
Proof.
  intros Hh Hg Hin. unfold HostDescProofs.load, HostDescProofs.on_host.
  assert (filter (λ g, HostDesc.BackupHostId g = HostDesc.HostId h) (HostDesc.FetchGuestByHostIDs (db_guests db) ids) = []) as ->;
    [|by rewrite app_nil_r].
  apply list_filter_none. intros g Hg'. apply list_elem_of_filter in Hg' as [_ Hg'].
  rewrite (go_backup _ Hg g Hg'). intros Heq. apply (ho_named _ _ Hh). rewrite Heq. by apply list_elem_of_fmap_2.
Qed.

(** What is counted is not negative. *)
Lemma residents_nonneg db r h : guests_ok db →
  0 ≤ sum_of (λ g, if HostDescProofs.counts o g then amount r g else 0) (HostDescProofs.residents (db_guests db) h).
Proof.
  intros Hg. apply HostDescProofs.sum_of_nonneg, Forall_forall. intros g Hin. case_match; [|lia].
  apply (go_nonneg _ Hg). by apply list_elem_of_filter in Hin as [_ ?].
Qed.

Lemma in_range_of db ids h r : hosts_ok o db → guests_ok db → h ∈ db_hosts db → 0 ≤ free_in o db r h →
  HostDescProofs.in_range o (amount r) (total o r h) (kept r h) (per_device o r) h (db_guests db) (db_devs db) ids.
Proof.
  intros Hh Hg Hin Hf. destruct (ho_range _ _ Hh h r Hin) as (Ht & Hk & Hd & Hu). split; try done.
  - apply Forall_forall. intros g Hg'. by apply (go_nonneg _ Hg).
  - rewrite (load_plain db ids h _ Hh Hg Hin). unfold free_in in Hf. pose proof (residents_nonneg db r h Hg). lia.
Qed.

Lemma read_exact db ids c : hosts_ok o db → guests_ok db → (∀ h r, h ∈ db_hosts db → isBaremetal h = false → 0 ≤ free_in o db r h) →
  c ∈ host_Do o db ids →
  ∃ hd, c = HostC hd ∧ HostDesc.Host hd ∈ db_hosts db ∧ isBaremetal (HostDesc.Host hd) = false ∧ IndexKey c ∈ ids ∧ exact db hd.
Proof.
  intros Hh Hg Hf Hc. unfold host_Do in Hc. apply list_elem_of_fmap in Hc as (h & -> & Hin).
  apply list_elem_of_filter in Hin as [[Hid Hbm] Hin]. eexists. split; [done|]. cbn [HostDesc.buildOne HostDesc.Host].
  split; [done|]. split; [done|]. split; [exact Hid|].
  destruct (HostDescProofs.free_exact o (db_guests db) (db_devs db) (db_guestMeta db) (db_hostMeta db) ids h) as (F1 & _ & F2 & _).
  - split; [apply Hg|done|]. intros d g Hd Hgd He. by eapply (go_devices _ Hg).
  - apply (in_range_of db ids h CPU); try done. by apply Hf.
  - apply (in_range_of db ids h Mem); try done. by apply Hf.
  - rewrite (load_plain db ids h _ Hh Hg Hin) in F1. rewrite (load_plain db ids h _ Hh Hg Hin) in F2. intros []; [exact F1|exact F2].
Qed.

(** Every host of the database that is asked for is read. *)
Lemma read_complete db ids h : h ∈ db_hosts db → isBaremetal h = false → HostDesc.HostId h ∈ ids →
  HostDesc.HostId h ∈ IndexKey <$> host_Do o db ids.
Proof.
  intros Hin Hbm Hid. unfold host_Do. rewrite <- list_fmap_compose.
  apply (list_elem_of_fmap_2 (IndexKey ∘ λ h, HostC (HostDesc.buildOne o _ h)) _ h), list_elem_of_filter. by split.
Qed.

(** ** A new guest *)

Lemma insert_guest_held db p g h f : guest_of db p g = true →
  HostDescProofs.held o (db_guests (insert_guest db g)) (db_devs (insert_guest db g)) h f =
  HostDescProofs.held o (db_guests db) (db_devs db) h f.
Proof.
  unfold guest_of. intros Hg. rewrite !andb_true_iff, !bool_decide_eq_true in Hg. destruct Hg as (_ & Hdev).
  assert (¬ HostDescProofs.holds (HostDescProofs.used_devices (db_devs db) h) g) as Hnh.
  { unfold HostDescProofs.holds, HostDescProofs.used_devices, HostDescProofs.host_devices. intros Hx. apply Hdev.
    apply list_elem_of_fmap in Hx as (d & -> & Hd). apply list_elem_of_fmap_2.
    by apply list_elem_of_filter in Hd as [_ [_ ?]%list_elem_of_filter]. }
  unfold HostDescProofs.held, HostDescProofs.device_holders, HostDescProofs.residents, insert_guest. cbn [db_guests db_devs].
  rewrite !filter_app. assert (filter (HostDescProofs.holds (HostDescProofs.used_devices (db_devs db) h))
    (filter (λ g, HostDesc.GuestHostId g = HostDesc.HostId h) [g]) = []) as ->; [|by rewrite app_nil_r].
  apply list_filter_none. intros g' Hg'. apply list_elem_of_filter in Hg' as [_ Hg']. by apply list_elem_of_singleton in Hg' as ->.
Qed.

Lemma insert_guest_free db p g r h : guest_of db p g = true →
  free_in o (insert_guest db g) r h =
  free_in o db r h - if decide (HostDesc.HostId h = p.1) then (if HostDescProofs.counts o g then amount r g else 0) else 0.
Proof.
  intros Hg. unfold free_in. rewrite (insert_guest_held db p g h _ Hg). unfold guest_of in Hg.
  rewrite !andb_true_iff, !bool_decide_eq_true, !String.eqb_eq in Hg. destruct Hg as (((((Hhost & _) & _) & _) & _) & _).
  unfold HostDescProofs.residents, insert_guest. cbn [db_guests db_devs]. rewrite !filter_app.
  destruct (decide (HostDesc.HostId h = p.1)) as [Heq|Hne].
  - rewrite (filter_cons_True (λ g, HostDesc.GuestHostId g = _) g), filter_nil by congruence.
    rewrite !HostDescProofs.sum_of_app. cbn. lia.
  - rewrite (filter_cons_False (λ g, HostDesc.GuestHostId g = _) g), !filter_nil, !app_nil_r by congruence. lia.
Qed.

Lemma insert_guest_ok db p g : hosts_ok o db → guests_ok db → 0 ≤ SchedInfo.Ncpu p.2 → 0 ≤ SchedInfo.Memory p.2 →
  guest_of db p g = true → hosts_ok o (insert_guest db g) ∧ guests_ok (insert_guest db g) ∧ ∀ r, amount r g = need r p.2.
Proof.
  intros Hh Hg Hc Hm Hx. pose proof (insert_guest_held db p g) as Hheld. unfold guest_of in *. pose proof Hx as Hx'. rewrite !andb_true_iff, !bool_decide_eq_true, !String.eqb_eq, !Z.eqb_eq in Hx.
  destruct Hx as (((((Hhost & Hb) & Hcpu) & Hmem) & Hid) & Hdev).
  assert (∀ r, amount r g = need r p.2) as Hneed by (intros []; done).
  split.
  { destruct Hh as [H1 H2 H3]. split; [done|done|]. intros h r Hin. rewrite Hheld by done. by apply H3. }
  split; [|done]. split; cbn [insert_guest db_guests db_devs db_hosts].
  - rewrite fmap_app. apply NoDup_app. split; [apply Hg|]. split; [|apply NoDup_singleton].
    intros x Hx ->%list_elem_of_singleton. done.
  - intros g' [Hin|Hin]%elem_of_app; [by apply (go_backup _ Hg)|]. by apply list_elem_of_singleton in Hin as ->.
  - intros g' r [Hin|Hin]%elem_of_app; [by apply (go_nonneg _ Hg)|]. apply list_elem_of_singleton in Hin as ->.
    rewrite Hneed. by destruct r.
  - intros h d g' Hin Hd [Hin'|Hin']%elem_of_app He; [by eapply (go_devices _ Hg)|]. exfalso.
    apply list_elem_of_singleton in Hin' as ->. apply Hdev. rewrite He. apply list_elem_of_fmap_2.
    unfold HostDescProofs.used_devices, HostDescProofs.host_devices in Hd. by apply list_elem_of_filter in Hd as [_ [_ ?]%list_elem_of_filter].
Qed.

End Read.

(** ** Counting *)

Definition count_of (h : string) (l : list string) : Z := Z.of_nat (length (filter (λ x, x = h) l)).

Lemma count_of_app h l1 l2 : count_of h (l1 ++ l2) = count_of h l1 + count_of h l2.
Proof. unfold count_of. rewrite filter_app, length_app. lia. Qed.

Lemma count_of_cons h x l : count_of h (x :: l) = (if decide (x = h) then 1 else 0) + count_of h l.
Proof. unfold count_of. rewrite filter_cons. destruct (decide (x = h)); cbn [length]; lia. Qed.

Lemma count_of_nonneg h l : 0 ≤ count_of h l.
Proof. unfold count_of. lia. Qed.

Lemma count_of_elem h l : h ∈ l → 1 ≤ count_of h l.
Proof.
  induction l as [|x l IH]; [by intros ?%elem_of_nil|]. rewrite count_of_cons. pose proof (count_of_nonneg h l).
  intros [->|Hin]%elem_of_cons; [rewrite decide_True by done; lia|]. specialize (IH Hin). destruct (decide _); lia.
Qed.

Lemma count_of_not h l : h ∉ l → count_of h l = 0.
Proof. intros Hn. unfold count_of. rewrite list_filter_none; [done|]. by intros x Hx ->. Qed.

Lemma count_of_NoDup h l : NoDup l → count_of h l ≤ 1.
Proof.
  induction 1 as [|x l Hx _ IH]; [done|]. rewrite count_of_cons. destruct (decide (x = h)) as [->|]; [rewrite count_of_not by done; lia|lia].
Qed.

Lemma count_of_delete h k l x : l !! k = Some x → count_of h (delete k l) = count_of h l - if decide (x = h) then 1 else 0.
Proof.
  revert k. induction l as [|y l IH]; intros [|k] E; cbn in E; simplify_eq.
  - change (delete 0%nat (x :: l)) with l. rewrite count_of_cons. lia.
  - change (delete (S k) (y :: l)) with (y :: delete k l). rewrite !count_of_cons, (IH k E). lia.
Qed.

Lemma count_of_replicate h n x : count_of h (replicate n x) = if decide (x = h) then Z.of_nat n else 0.
Proof. induction n as [|n IH]; cbn [replicate]; [by destruct (decide _)|]. rewrite count_of_cons, IH. destruct (decide _); lia. Qed.

(** The copies of the hosts of marks. *)
Lemma count_of_marks h (l : list (string * Z)) : NoDup l.*1 →
  (∀ n, (h, n) ∈ l → 0 ≤ n → count_of h (l ≫= λ p, replicate (Z.to_nat p.2) p.1) = n) ∧
  (h ∉ l.*1 → count_of h (l ≫= λ p, replicate (Z.to_nat p.2) p.1) = 0).
Proof.
  induction l as [|[k n] l IH]; cbn [fmap list_fmap]; intros Hnd; [split; [by intros ? ?%elem_of_nil|done]|].
  apply NoDup_cons in Hnd as [Hk Hnd]. destruct (IH Hnd) as [IH1 IH2]. cbn [mbind list_bind]. rewrite count_of_app, count_of_replicate. cbn [fst snd]. split.
  - intros m [[= -> ->]|Hin]%elem_of_cons Hm; [rewrite decide_True, IH2 by done; lia|].
    rewrite decide_False by (intros ->; apply Hk; by apply (list_elem_of_fmap_2 fst _ (h, m))). by rewrite (IH1 m).
  - intros Hn. rewrite decide_False by (intros ->; apply Hn; left). rewrite IH2; [done|]. intros Hx. apply Hn. by right.
Qed.

Lemma merge_step_spec (l : list string) : ∀ ids : list string, NoDup ids →
  NoDup (foldl (λ ids i, if bool_decide (i ∈ ids) then ids else ids ++ [i]) ids l) ∧
  ∀ x, x ∈ foldl (λ ids i, if bool_decide (i ∈ ids) then ids else ids ++ [i]) ids l ↔ x ∈ ids ∨ x ∈ l.
Proof.
  induction l as [|i l IH]; intros ids Hnd; cbn [foldl]; [split; [done|]; intros x; rewrite elem_of_nil; tauto|].
  case_bool_decide as Hi.
  - destruct (IH ids Hnd) as [? Hx]. split; [done|]. intros x. rewrite Hx, elem_of_cons. split; [tauto|]. intros [?|[->|?]]; tauto.
  - destruct (IH (ids ++ [i])) as [? Hx].
    { apply NoDup_app. split; [done|]. split; [|apply NoDup_singleton]. by intros y Hy ->%list_elem_of_singleton. }
    split; [done|]. intros x. rewrite Hx, elem_of_app, list_elem_of_singleton, elem_of_cons. tauto.
Qed.

Lemma merge_ids_spec f args : NoDup (merge_ids f args) ∧ ∀ x, x ∈ merge_ids f args ↔ x ∈ args ≫= f.
Proof.
  destruct (merge_step_spec (args ≫= f) [] ltac:(constructor)) as [Hn Hx]. split; [done|]. intros x. unfold merge_ids.
  rewrite Hx, elem_of_nil. tauto.
Qed.

(** ** The invariant *)

Section Safety.
Context {E : Type} (schedule : SchedInfo.SchedInfo → list Candidater → outcome E (list item * list (string * Z))).
Context (o : HostDesc.Options) (ttl : Z) (range : ∀ B, gmap string B → list (string * B)).
Context (QueueLength ExpireQueueMaxLength : nat).
Context (range_perm : ∀ B (m : gmap string B), range B m ≡ₚ map_to_list m).

Abbreviation Sys := (System E).

Definition manager (s : Sys) : CandidateManager := candidates (service s).
(** How often a host has to be cleaned before it is seen again. *)
Definition hidden (s : Sys) (h : string) : Z := pool_count (dirtyPool (manager s)) h.

(** What is under way on a host: promised guests, created guests not yet told of, notices, and reloads. *)
Definition pending (s : Sys) (h : string) : Z :=
  count_of h (promised s).*1 + count_of h (unnotified s) + count_of h (expireChannel (service s) ≫= DirtyHosts) +
  count_of h (jobs (service s) ≫= job_ids).

(** Nothing is under way, or only a clean after a reload. *)
Definition settled (s : Sys) (h : string) : Prop :=
  hidden s h = 0 ∨ (hidden s h = 1 ∧ ∃ j, j ∈ jobs (service s) ∧ reloaded j = true ∧ h ∈ job_ids j).

Definition of_host (s : Sys) (c : Candidater) (P : HostDesc.HostDesc → Prop) : Prop :=
  ∃ hd, c = HostC hd ∧ HostDesc.Host hd ∈ db_hosts (db s) ∧ isBaremetal (HostDesc.Host hd) = false ∧ P hd.

Definition host_cached (s : Sys) (c : Candidater) : Prop :=
  of_host s c (λ hd, settled s (IndexKey c) → exact o (db s) hd).
Definition in_snapshot (s : Sys) (c : Candidater) : Prop :=
  of_host s c (λ hd, hidden s (IndexKey c) = 0 ∧ exact o (db s) hd).

Definition on (h : string) (l : list (string * SchedInfo.SchedInfo)) : list (string * SchedInfo.SchedInfo) :=
  filter (λ p, p.1 = h) l.
(** What the promises on a host need. *)
Definition promised_need (s : Sys) (r : resource) (h : string) : Z := sum_of (λ p, need r p.2) (on h (promised s)).

Record inv (s : Sys) : Prop := {
  i_hosts : hosts_ok o (db s);
  i_guests : guests_ok (db s);
  i_pool : pool_ok (dirtyPool (manager s));
  i_pending : ∀ h, pending s h ≤ hidden s h;
  i_cache : ∀ impl, impls (manager s) !! "host" = Some impl → holds IndexKey (host_cached s) (cache impl);
  i_room : ∀ h r, h ∈ db_hosts (db s) → isBaremetal h = false → promised_need s r (HostDesc.HostId h) ≤ free_in o (db s) r h;
  i_promised : Forall (λ p, ordinary p.2) (promised s);
  i_channel : Forall (λ a, DirtyBaremetals a = []) (expireChannel (service s));
  i_jobs : jobs (service s) = [] ∨
    ∃ j, jobs (service s) = [j] ∧ job_type j = "host" ∧ NoDup (job_ids j) ∧ batchWait (service s) = true;
  i_current : ∀ key i x, current (service s) !! key = Some (i, x) →
    key = ":" ∧ ∀ cs, x = Ret cs → NoDup (IndexKey <$> cs) ∧ Forall (in_snapshot s) cs;
  i_queues : ∀ key q, queues (service s) !! key = Some q → key = ":";
  i_tasks : Forall (λ t, request_ok (t_info t)) (tasks (service s));
  i_listed : listed (service s) = ∅ }.

Lemma under_way_nonneg s h : 0 ≤ pending s h.
Proof.
  unfold pending. pose proof (count_of_nonneg h (promised s).*1). pose proof (count_of_nonneg h (unnotified s)).
  pose proof (count_of_nonneg h (expireChannel (service s) ≫= DirtyHosts)). pose proof (count_of_nonneg h (jobs (service s) ≫= job_ids)). lia.
Qed.

Lemma on_nil h l : count_of h l.*1 = 0 → on h l = [].
Proof.
  unfold on, count_of. intros Hc. apply list_filter_none. intros [k d] Hin Hk. cbn in Hk. subst k.
  assert (h ∈ filter (λ x, x = h) l.*1) as Hx by (apply list_elem_of_filter; split; [done|]; by apply (list_elem_of_fmap_2 fst _ (h, d))).
  destruct (filter _ l.*1); [by apply elem_of_nil in Hx|cbn in Hc; lia].
Qed.

(** A host that is seen has nothing under way. *)
Lemma seen_idle s h : inv s → hidden s h = 0 →
  on h (promised s) = [] ∧ count_of h (promised s).*1 = 0 ∧ count_of h (unnotified s) = 0 ∧
  count_of h (expireChannel (service s) ≫= DirtyHosts) = 0 ∧ count_of h (jobs (service s) ≫= job_ids) = 0.
Proof.
  intros Hi Hh. pose proof (i_pending _ Hi h) as Hp. unfold pending in Hp. rewrite Hh in Hp.
  pose proof (count_of_nonneg h (promised s).*1). pose proof (count_of_nonneg h (unnotified s)).
  pose proof (count_of_nonneg h (expireChannel (service s) ≫= DirtyHosts)). pose proof (count_of_nonneg h (jobs (service s) ≫= job_ids)).
  assert (count_of h (promised s).*1 = 0) as Hz by lia. split; [by apply on_nil|]. lia.
Qed.

Lemma need_nonneg s r h : inv s → 0 ≤ promised_need s r h.
Proof.
  intros Hi. apply HostDescProofs.sum_of_nonneg, Forall_forall. intros p Hp. unfold on in Hp. apply list_elem_of_filter in Hp as [_ Hp].
  pose proof (proj1 (Forall_forall _ _) (i_promised _ Hi) _ Hp) as (_ & _ & _ & _ & Hc & Hm & _). destruct r; cbn; lia.
Qed.

Lemma room_nonneg s h r : inv s → h ∈ db_hosts (db s) → isBaremetal h = false → 0 ≤ free_in o (db s) r h.
Proof. intros Hi Hh Hb. pose proof (need_nonneg s r (HostDesc.HostId h) Hi). pose proof (i_room _ Hi h r Hh Hb). lia. Qed.

(** What is read is exact. *)
Lemma sys_read_exact s ids c : inv s → c ∈ read_candidates o (db s) "host" ids →
  of_host s c (exact o (db s)) ∧ (∀ l, ids = Some l → IndexKey c ∈ l).
Proof.
  intros Hi Hc. unfold read_candidates in Hc. cbn in Hc.
  apply read_exact in Hc as (hd & -> & Hin & Hb & Hid & Hex); [|apply Hi..|by intros; apply room_nonneg].
  split; [by exists hd|]. by intros l ->.
Qed.

Lemma of_host_mono s c (P Q : HostDesc.HostDesc → Prop) : (∀ hd, c = HostC hd → P hd → Q hd) → of_host s c P → of_host s c Q.
Proof. intros H (hd & -> & ? & ? & ?). exists hd. split_and!; try done. by apply H. Qed.

Lemma read_cached s ids c : inv s → c ∈ read_candidates o (db s) "host" ids → host_cached s c.
Proof. intros Hi Hc. apply sys_read_exact in Hc as [Hc _]; [|done]. eapply of_host_mono; [|exact Hc]. by intros. Qed.

(** ** Candidates of a request *)

Lemma get_loop_spec now cm args cs : ∀ res, get_loop now cm args cs = Ret res →
  res `sublist_of` cs ∧ ∀ c, c ∈ res → DirtyPoolHas now cm (IndexKey c) = false.
Proof.
  induction cs as [|c cs IH]; intros res Hg; cbn [get_loop] in Hg.
  { injection Hg as <-. split; [done|]. by intros c ?%elem_of_nil. }
  assert (∀ res, get_loop now cm args cs = Ret res → res `sublist_of` c :: cs ∧ ∀ c, c ∈ res → DirtyPoolHas now cm (IndexKey c) = false) as Hskip.
  { intros res' Hr. destruct (IH res' Hr). split; [by constructor|done]. }
  destruct (DirtyPoolHas now cm (IndexKey c)) eqn:Ed; [by apply Hskip|].
  destruct (matchRegion args c) as [[]| | |]; cbn [obind negb] in Hg; try done; [|by apply Hskip].
  destruct (matchZone args c) as [[]| | |]; cbn [obind negb orb] in Hg; try done; [|by apply Hskip].
  destruct (negb (matchHostTypes args c)); [by apply Hskip|].
  destruct (get_loop now cm args cs) as [rest| | |]; cbn [obind] in Hg; try done. injection Hg as <-.
  destruct (IH rest eq_refl) as [Hs Hd]. split; [by constructor|]. intros c' [->|Hin]%elem_of_cons; [done|by apply Hd].
Qed.

Lemma ids_loop_spec (Q : Candidater → Prop) (read : string → option (list string) → option (list Candidater)) now pool ids : pool_ok pool →
  (∀ key l x, read "host" (Some [key]) = Some l → x ∈ l → Q x ∧ IndexKey x = key) → NoDup ids → ∀ impl,
  holds IndexKey Q (cache impl) →
  holds IndexKey Q (cache (ids_loop ttl read now "host" pool impl ids).2) ∧
  ∀ cs, (ids_loop ttl read now "host" pool impl ids).1 = Ret cs →
    NoDup (IndexKey <$> cs) ∧ (∀ c, c ∈ cs → IndexKey c ∈ ids) ∧ Forall (λ c, Q c ∧ pool_count pool (IndexKey c) = 0) cs.
Proof.
  intros Hp Hread. induction ids as [|key ids IH]; intros Hnd impl Hq; cbn [ids_loop].
  { split; [done|]. intros cs [= <-]. split_and!; [constructor|by intros c ?%elem_of_nil|constructor]. }
  apply NoDup_cons in Hnd as [Hk Hnd]. destruct (pool_HasByKey now pool key) eqn:Ehas.
  { destruct (IH Hnd impl Hq) as [Hh Hr]. split; [done|]. intros cs Hcs. destruct (Hr cs Hcs) as (? & Hin & ?).
    split_and!; [done| |done]. intros c Hc. right. by apply Hin. }
  rewrite HasByKey_count in Ehas by done. apply bool_decide_eq_false in Ehas. pose proof (pool_count_nonneg pool key Hp).
  unfold impl_GetCandidate. destruct (cache_Get_spec IndexKey ttl Q impl now (read "host" (Some [key])) key Hq) as [Hh Hx].
  { intros l x Hl Hin. by apply (Hread key l x). }
  destruct (cache_Get IndexKey ttl now (read "host" (Some [key])) impl key) as [r impl1]. cbn [fst snd] in Hh, Hx.
  destruct r as [x| | |]; cbn [lift_cache]; [|by split..].
  assert (IndexKey x = key ∧ Q x) as [Hkx Hqx].
  { destruct (Hx x eq_refl) as [Hc|(l & Hl & Hin)]; [by apply Hq|]. by destruct (Hread key l x Hl Hin). }
  destruct (IH Hnd impl1 Hh) as [Hh2 Hr]. destruct (ids_loop ttl read now "host" pool impl1 ids) as [rest impl2]. cbn [fst snd] in *.
  split; [done|]. intros cs Hcs. destruct rest as [rest| | |]; cbn [obind] in Hcs; try done. injection Hcs as <-.
  destruct (Hr rest eq_refl) as (Hn & Hin & Hall). cbn [fmap list_fmap]. rewrite Hkx. split_and!.
  - apply NoDup_cons. split; [|done]. intros Hc. apply list_elem_of_fmap in Hc as (c & Hck & Hc). apply Hk. rewrite Hck. by apply Hin.
  - intros c [->|Hc]%elem_of_cons; [rewrite Hkx; left|right; by apply Hin].
  - constructor; [|done]. rewrite Hkx. split; [done|lia].
Qed.

(** The candidates of a request: each once, seen, and exactly described. *)
Lemma candidates_spec s now d cs cm' : inv s → request_ok d →
  candidatesByProvider (E := E) ttl range (sys_read o s) now (manager s) d = (cs, cm') →
  dirtyPool cm' = dirtyPool (manager s) ∧
  (∀ impl, impls cm' !! "host" = Some impl → holds IndexKey (host_cached s) (cache impl)) ∧
  ∀ l, cs = Ret l → NoDup (IndexKey <$> l) ∧ Forall (in_snapshot s) l.
Proof.
  intros Hi (_ & Hbm & Hnd & _) Ec. unfold candidatesByProvider, candidate_args, CandidateType in Ec.
  rewrite (proj2 (String.eqb_neq _ _) Hbm) in Ec.
  assert (∀ c, host_cached s c → hidden s (IndexKey c) = 0 → in_snapshot s c) as Hsnap.
  { intros c Hc Hh. eapply of_host_mono; [|exact Hc]. intros hd _ Hex. split; [done|]. apply Hex. by left. }
  destruct (SchedInfo.Candidates d) as [|key ids].
  - unfold GetCandidates, getImpl in Ec. cbn [ResType] in Ec. destruct (impls (manager s) !! "host") as [impl|] eqn:Eimpl; cbn [obind] in Ec.
    2: { injection Ec as <- <-. split_and!; [done|by apply i_cache|done]. }
    pose proof (i_cache _ Hi impl Eimpl) as Hq. destruct (store_List_spec IndexKey ttl range range_perm (host_cached s) (cache impl) now Hq)
      as (Hsub & Hn & Hin). unfold cache_List in Ec. destruct (store_List IndexKey ttl range now (cache impl)) as [l st]. cbn [fst snd] in *.
    set (cm1 := AddImpl _ _ _) in Ec. destruct (get_loop now cm1 _ l) as [res| | |] eqn:Eg; cbn [obind] in Ec;
      injection Ec as <- <-; try (split_and!; [done|by apply i_cache|done]).
    split; [done|]. split.
    + intros impl' Himpl. subst cm1. cbn in Himpl. rewrite lookup_insert_eq in Himpl. injection Himpl as <-. by eapply holds_subseteq.
    + intros l' [= <-]. apply get_loop_spec in Eg as [Hs Hd]. split; [eapply sublist_NoDup; [exact Hn|by apply fmap_sublist]|].
      apply Forall_forall. intros c Hc. apply Hsnap.
      * eapply Hq, Hin. by eapply elem_of_sublist.
      * specialize (Hd c Hc). unfold DirtyPoolHas in Hd. rewrite HasByKey_count in Hd by apply Hi. apply bool_decide_eq_false in Hd.
        pose proof (pool_count_nonneg _ (IndexKey c) (i_pool _ Hi)). unfold hidden. subst cm1. cbn in Hd. lia.
  - unfold GetCandidatesByIds, getImpl in Ec. destruct (impls (manager s) !! "host") as [impl|] eqn:Eimpl; cbv beta iota in Ec.
    2: { injection Ec as <- <-. split_and!; [done|by apply i_cache|done]. }
    destruct (ids_loop_spec (host_cached s) (sys_read o s) now (dirtyPool (manager s)) (key :: ids) (i_pool _ Hi)) with (impl := impl)
      as [Hh Hr]; [|done|by apply i_cache|].
    { intros k l x [= <-] Hin. split; [by eapply read_cached|]. apply sys_read_exact in Hin as [_ Hk]; [|done].
      by apply list_elem_of_singleton, Hk. }
    destruct (ids_loop ttl (sys_read o s) now "host" _ impl (key :: ids)) as [res impl'] eqn:El. cbn [fst snd] in *.
    injection Ec as <- <-. split; [done|]. split.
    + intros impl2 Himpl. cbn in Himpl. rewrite lookup_insert_eq in Himpl. by injection Himpl as <-.
    + intros l Hl. destruct res as [l0| | |]; cbn in Hl; try done. injection Hl as <-. destruct (Hr l0 eq_refl) as (Hn & _ & Hall).
      split; [done|]. eapply Forall_impl; [exact Hall|]. intros c [Hc Hz]. by apply Hsnap.
Qed.

End Safety.

End SchedSafety.
