(* ===== verification/SchedEvents.v ===== *)
(** * Every event of the scheduler service keeps the invariant *)

From S2P Require Import Prelude SchedInfo Scheduler Unit Storages HostDesc HostDescProofs Candidates.
From S2P Require Import CandidateCache CandidateCacheProofs CandidateManager SchedService SchedAnswers SchedSystem SchedSafety.
Import Candidates CandidateCache CandidateManager SchedService SchedAnswers CandidateCacheProofs SchedSystem SchedSafety.
Local Open Scope Z_scope.
Local Open Scope go_scope.

Module SchedEvents.

Section Events.
Context {E : Type} (schedule : SchedInfo.SchedInfo → list Candidater → outcome E (list item * list (string * Z))).
Context (o : HostDesc.Options) (ttl : Z) (range : ∀ B, gmap string B → list (string * B)).
Context (QueueLength ExpireQueueMaxLength : nat).
Context (range_perm : ∀ B (m : gmap string B), range B m ≡ₚ map_to_list m).

Abbreviation Sys := (System E).
Abbreviation inv := (SchedSafety.inv (E := E) o).

(** ** What an event leaves alone *)

Lemma sys_frame (s : Sys) sv : inv s → candidates sv = candidates (service s) → jobs sv = jobs (service s) →
  expireChannel sv = expireChannel (service s) → current sv = current (service s) →
  (∀ key q, queues sv !! key = Some q → key = ":") → Forall (λ t, request_ok (t_info t)) (tasks sv) →
  jobs sv = [] ∨ batchWait sv = batchWait (service s) → listed sv = listed (service s) →
  inv (MkSystem sv (db s) (promised s) (unnotified s)).
Proof.
  intros Hi Hc Hj He Hcur Hq Ht Hb Hl. destruct s as [[] d pr un], sv. cbn in *. subst. destruct Hi. split; try done. cbn in *.
  destruct Hb as [->| ->]; [by left|done].
Qed.

(** A new manager with the same pool. *)
Lemma inv_manager (s : Sys) sv : inv s → dirtyPool (candidates sv) = dirtyPool (manager s) →
  (∀ impl, impls (candidates sv) !! "host" = Some impl → holds IndexKey (host_cached o s) (cache impl)) →
  jobs sv = jobs (service s) → expireChannel sv = expireChannel (service s) → batchWait sv = batchWait (service s) →
  (∀ key i x, current sv !! key = Some (i, x) →
     key = ":" ∧ ∀ cs, x = Ret cs → NoDup (IndexKey <$> cs) ∧ Forall (in_snapshot o s) cs) →
  (∀ key q, queues sv !! key = Some q → key = ":") → Forall (λ t, request_ok (t_info t)) (tasks sv) →
  listed sv = listed (service s) → inv (MkSystem sv (db s) (promised s) (unnotified s)).
Proof.
  intros Hi Hp Hc Hj He Hb Hcur Hq Ht Hl. destruct s as [[] d pr un], sv. cbn in *. subst. destruct Hi.
  split; try done; unfold manager, pending, hidden, host_cached, in_snapshot, settled in *; cbn in *; rewrite ?Hp in *; try done.
  - intros impl Him. specialize (Hc impl Him). unfold hidden, manager in Hc. cbn in Hc. eapply holds_mono; [|exact Hc].
    intros k x _ Hx. unfold hidden, manager. cbn. by rewrite Hp.
  - intros key i x Hx. destruct (Hcur key i x Hx) as [? Hcs]. split; [done|]. intros cs Ecs. destruct (Hcs cs Ecs). split; [done|].
    unfold hidden, manager. cbn. by rewrite Hp.
Qed.

Lemma NoDup_key_inj {A B} (f : A → B) l x y : NoDup (f <$> l) → x ∈ l → y ∈ l → f x = f y → x = y.
Proof.
  intros Hnd Hx Hy Exy. apply list_elem_of_lookup in Hx as [i Hi], Hy as [j Hj].
  assert (i = j) as ->; [|congruence]. eapply NoDup_lookup; [exact Hnd| |]; rewrite list_lookup_fmap; [rewrite Hi; done|rewrite Hj; cbn; by f_equal].
Qed.

Lemma Forall_alter {A} (P : A → Prop) f i (l : list A) : (∀ x, P x → P (f x)) → Forall P l → Forall P (alter f i l).
Proof. intros Hf Hl. revert i. induction Hl as [|x l Hx Hl IH]; intros [|i]; cbn; [done..|by constructor; auto|by constructor]. Qed.

Lemma inv_submit s d sv : inv s → request_ok d → submit QueueLength (service s) d = Some sv →
  inv (MkSystem sv (db s) (promised s) (unnotified s)).
Proof.
  intros Hi Hd. unfold submit. destruct (_ && _); [|done]. intros [= <-]. apply sys_frame; try done; cbn.
  - intros key q Hq. destruct (decide (key = queue_key d)) as [->|Hne].
    + unfold queue_key. destruct Hd as [-> _]. done.
    + rewrite lookup_insert_ne in Hq by done. by eapply i_queues.
  - apply Forall_app. split; [apply Hi|]. by constructor.
  - by right.
Qed.

Lemma inv_attach s sv : inv s → attach (service s) = Some sv → inv (MkSystem sv (db s) (promised s) (unnotified s)).
Proof.
  intros Hi. unfold attach. destruct (adding (service s)) as [i|]; cbn; [|done]. intros [= <-]. apply sys_frame; try done; cbn.
  - by intros; eapply i_queues.
  - apply Forall_alter; [done|apply Hi].
  - by right.
Qed.

Lemma inv_batch_end s sv : inv s → batch_end false (service s) = Some sv → inv (MkSystem sv (db s) (promised s) (unnotified s)).
Proof.
  intros Hi. unfold batch_end. destruct (batchWait (service s)); cbn; [|done]. case_bool_decide as Hj; [|done].
  intros [= <-]. apply sys_frame; try done; cbn; [by intros; eapply i_queues|apply Hi|by left].
Qed.

(** ** Starting a task *)

Lemma inv_start s now key sv : inv s → start ttl range (sys_read o s) now key (service s) = Ret sv →
  inv (MkSystem sv (db s) (promised s) (unnotified s)).
Proof.
  intros Hi. unfold start. destruct (current (service s) !! key) as [?|] eqn:Ec; [done|].
  destruct (queues (service s) !! key) as [[|i queue]|] eqn:Eq; [done| |done].
  assert (∀ key' q, <[key := queue]> (queues (service s)) !! key' = Some q → key' = ":") as Hqs.
  { intros key' q Hq. destruct (decide (key' = key)) as [->|Hne]; [by eapply i_queues|].
    rewrite lookup_insert_ne in Hq by done. by eapply i_queues. }
  cbn [executors]. destruct (executors (service s) !! i) as [te|]; cbn [of_opt obind]; [|done].
  destruct (decide (Status te = Waiting)).
  - unfold set_executor. cbn [tasks]. destruct (tasks (service s) !! te_task te) as [t|] eqn:Et; cbn [of_opt obind]; [|done]. cbn [candidates].
    destruct (candidatesByProvider _ _ _ _ _ _) as [cs cm] eqn:Ecs.
    assert (request_ok (t_info t)) as Ht by (eapply (proj1 (Forall_lookup _ _) (i_tasks _ _ Hi)), Et).
    destruct (candidates_spec o ttl range range_perm s now (t_info t) cs cm Hi Ht Ecs) as (Hp & Him & Hcs).
    assert (∀ x, x = cs → ∀ key' i' y, <[key := (i, x)]> (current (service s)) !! key' = Some (i', y) →
      key' = ":" ∧ ∀ l, y = Ret l → NoDup (IndexKey <$> l) ∧ Forall (in_snapshot o s) l) as Hcur.
    { intros x -> key' i' y Hy. destruct (decide (key' = key)) as [->|Hne].
      - rewrite lookup_insert_eq in Hy. injection Hy as _ <-. split; [by eapply i_queues|done].
      - rewrite lookup_insert_ne in Hy by done. by eapply i_current. }
    destruct cs; try done; intros [= <-]; (apply inv_manager; try done; [by apply Hcur|apply Hi]).
  - intros [= <-]. apply sys_frame; try done; [apply Hi|by right].
Qed.

(** ** Finishing a task *)

Lemma marks_spec now (l : list (string * Z)) : NoDup l.*1 → Forall (λ p, 1 ≤ p.2 < 2 ^ 64) l → ∀ cm, pool_ok (dirtyPool cm) →
  let cm' := DirtySelectedCandidates now cm l in
  impls cm' = impls cm ∧ pool_ok (dirtyPool cm') ∧
  (∀ h n, (h, n) ∈ l → pool_count (dirtyPool cm') h = n) ∧
  (∀ h, h ∉ l.*1 → pool_count (dirtyPool cm') h = pool_count (dirtyPool cm) h).
Proof.
  intros Hnd Hl. unfold DirtySelectedCandidates. induction l as [|[k n] l IH]; intros cm Hp; cbv zeta; cbn [foldl].
  { split_and!; [done..|by intros ?? ?%elem_of_nil|done]. }
  cbn in Hnd. apply NoDup_cons in Hnd as [Hk Hnd]. apply Forall_cons in Hl as [Hn Hl]. cbn [fst snd] in *.
  assert (uint_wrap 64 n = n) as -> by (unfold uint_wrap; apply Z.mod_small; lia).
  destruct (pool_Add_spec now (dirtyPool cm) k n Hp Hn) as [Hp1 Hc1].
  destruct (IH Hnd Hl (SetCandidateDirty now cm k n) Hp1) as (Him & Hp2 & Hin & Hout). split_and!; [done..| |].
  - intros h m [[= -> ->]|Hm]%elem_of_cons; [rewrite Hout by done|by apply Hin]. cbn. rewrite Hc1. by rewrite decide_True.
  - intros h Hh. cbn in Hh. rewrite Hout by (intros Hx; apply Hh; by right). cbn. rewrite Hc1.
    rewrite decide_False; [done|]. intros ->. apply Hh. left.
Qed.

(** What the marks of an ordinary request mean for the hosts. *)
Lemma sound_marks s d cs items dirty `{!SoundSchedule schedule (db_hosts (db s))} : inv s → ordinary d →
  NoDup (IndexKey <$> cs) → Forall (in_snapshot o s) cs → schedule d cs = Ret (items, dirty) →
  NoDup dirty.*1 ∧ granted_hosts items (SchedInfo.Count d) = (dirty ≫= λ p, replicate (Z.to_nat p.2) p.1) ∧
  ∀ h n, (h, n) ∈ dirty → 1 ≤ n < 2 ^ 64 ∧ hidden s h = 0 ∧
    ∃ row, row ∈ db_hosts (db s) ∧ isBaremetal row = false ∧ HostDesc.HostId row = h ∧ ∀ r, n * need r d ≤ free_in o (db s) r row.
Proof.
  intros Hi Hd Hnd Hcs Es. destruct (ordinary_marks schedule d cs items dirty Hd Hnd) as (Hn & Hg & Hm); [|done|].
  { eapply Forall_impl; [exact Hcs|]. intros c (hd & -> & Hin & _). by exists hd. }
  split; [done|]. split; [done|]. intros h n Hin. destruct (Hm h n Hin) as (H1 & hd & Hhd & Hid & Hfit).
  rewrite Forall_forall in Hcs. destruct (Hcs _ Hhd) as (hd' & [= <-] & Hrow & Hb & Hz & Hex).
  assert (∀ r, n * need r d ≤ free_in o (db s) r (HostDesc.Host hd)) as Hfree by (intros r; rewrite <- Hex; apply Hfit).
  assert (n < 2 ^ 64) as Hlt.
  { destruct Hd as (_ & _ & _ & _ & Hc & _). specialize (Hfree CPU). cbn [need] in Hfree.
    destruct (ho_range _ _ (i_hosts _ _ Hi) _ CPU Hrow) as (Ht & Hk & _). unfold free_in in Hfree.
    pose proof (residents_nonneg o (db s) CPU (HostDesc.Host hd) (i_guests _ _ Hi)). unfold SchedSafety.sum_of in *. nia. }
  split; [lia|]. split; [by rewrite <- Hid|]. exists (HostDesc.Host hd). by split_and!.
Qed.

Lemma on_app h l1 l2 : on h (l1 ++ l2) = on h l1 ++ on h l2.
Proof. apply filter_app. Qed.

Lemma on_copies h d (hs : list string) r : sum_of (λ p, need r p.2) (on h ((λ x, (x, d)) <$> hs)) = count_of h hs * need r d.
Proof.
  induction hs as [|x hs IH]; [done|]. cbn [fmap list_fmap]. unfold on in *. rewrite filter_cons. cbn [fst].
  rewrite count_of_cons. destruct (decide (x = h)); [|lia].
  change (need r d + sum_of (λ p, need r p.2) (filter (λ p, p.1 = h) ((λ x, (x, d)) <$> hs)) = (1 + count_of h hs) * need r d). lia.
Qed.

(** A host is marked as often as guests are promised on it. *)
Lemma marks_case (s s' : Sys) now (dirty : list (string * Z)) : inv s → NoDup dirty.*1 → Forall (λ p, 1 ≤ p.2 < 2 ^ 64) dirty →
  manager s' = DirtySelectedCandidates now (manager s) dirty → ∀ h,
  (h ∉ dirty.*1 ∧ hidden s' h = hidden s h ∧ count_of h (dirty ≫= λ p, replicate (Z.to_nat p.2) p.1) = 0) ∨
  ∃ n, (h, n) ∈ dirty ∧ hidden s' h = n ∧ count_of h (dirty ≫= λ p, replicate (Z.to_nat p.2) p.1) = n.
Proof.
  intros Hi Hnd Hr Hc h. destruct (marks_spec now dirty Hnd Hr (manager s) (i_pool _ _ Hi)) as (_ & _ & Hin & Hout).
  destruct (count_of_marks h dirty Hnd) as [Hc1 Hc2]. unfold hidden at 1 3. rewrite Hc. destruct (decide (h ∈ dirty.*1)) as [Hh|Hh].
  - apply list_elem_of_fmap in Hh as ([h' n] & -> & Hh). right. exists n. split_and!; [done|by apply Hin|].
    apply Hc1; [done|]. rewrite Forall_forall in Hr. specialize (Hr _ Hh). cbn in *. lia.
  - left. split_and!; [done|by apply Hout|by apply Hc2].
Qed.

(** Marks and promises that belong together keep the invariant; no other task is being executed. *)
Lemma inv_marks (s : Sys) sv now d dirty : inv s → ordinary d ∨ dirty = [] → NoDup dirty.*1 →
  (∀ h n, (h, n) ∈ dirty → 1 ≤ n < 2 ^ 64 ∧ hidden s h = 0 ∧
    ∃ row, row ∈ db_hosts (db s) ∧ isBaremetal row = false ∧ HostDesc.HostId row = h ∧ ∀ r, n * need r d ≤ free_in o (db s) r row) →
  candidates sv = DirtySelectedCandidates now (manager s) dirty →
  jobs sv = jobs (service s) → expireChannel sv = expireChannel (service s) → batchWait sv = batchWait (service s) →
  (∀ key x, current sv !! key = Some x → False) → queues sv = queues (service s) → Forall (λ t, request_ok (t_info t)) (tasks sv) →
  listed sv = listed (service s) →
  inv (MkSystem sv (db s) (promised s ++ ((λ h, (h, d)) <$> (dirty ≫= λ p, replicate (Z.to_nat p.2) p.1))) (unnotified s)).
Proof.
  intros Hi Hd Hnd Hm Hc Hj He Hb Hcur Hq Ht Hlist. set (new := _ <$> _).
  assert (Forall (λ p, 1 ≤ p.2 < 2 ^ 64) dirty) as Hrange by (apply Forall_forall; intros [h n] Hin; by destruct (Hm h n Hin)).
  destruct (marks_spec now dirty Hnd Hrange (manager s) (i_pool _ _ Hi)) as (Him & Hpool & Hin & Hout). rewrite <- Hc in Him, Hpool, Hin, Hout.
  set (s' := MkSystem _ _ _ _).
  assert (new.*1 = dirty ≫= λ p, replicate (Z.to_nat p.2) p.1) as Hnew.
  { subst new. rewrite <- list_fmap_compose. apply list_fmap_id. }
  assert (∀ h, (h ∉ dirty.*1 ∧ hidden s' h = hidden s h ∧ count_of h new.*1 = 0) ∨
    ∃ n, (h, n) ∈ dirty ∧ hidden s' h = n ∧ count_of h new.*1 = n) as Hcase by (rewrite Hnew; by eapply marks_case).
  assert (∀ h, settled s' h → settled s h) as Hset.
  { intros h [Hz|(H1 & j & Hj1 & Hj2 & Hj3)]; destruct (Hcase h) as [(_ & Hh & _)|(n & Hn & Hh & _)].
    - left. lia.
    - destruct (Hm h n Hn) as [? _]. lia.
    - right. split; [lia|]. exists j. cbn in Hj1. by rewrite Hj in Hj1.
    - exfalso. destruct (Hm h n Hn) as (_ & Hz & _). destruct (seen_idle o s h Hi Hz) as (_ & _ & _ & _ & Hjobs).
      cbn in Hj1. rewrite Hj in Hj1. assert (h ∈ jobs (service s) ≫= job_ids) as Hx by (apply list_elem_of_bind; by exists j).
      apply count_of_elem in Hx. lia. }
  split; subst s'; cbn [db service promised unnotified manager] in *; try done; try apply Hi.
  - intros h. unfold pending. cbn [promised unnotified service]. rewrite fmap_app, count_of_app, Hj, He.
    pose proof (i_pending _ _ Hi h) as Hp. unfold pending in Hp. destruct (Hcase h) as [(_ & -> & ->)|(n & Hn & -> & ->)]; [lia|].
    destruct (Hm h n Hn) as (_ & Hz & _). lia.
  - intros impl Himpl. change (impls (candidates sv) !! "host" = Some impl) in Himpl. rewrite Him in Himpl. eapply holds_mono; [|by apply (i_cache _ _ Hi)].
    intros k c _ Hh. eapply of_host_mono; [|exact Hh]. intros hd _ Hex Hs. by apply Hex, Hset.
  - intros row r Hrow Hbm. unfold promised_need. cbn [promised]. rewrite on_app, HostDescProofs.sum_of_app. subst new.
    rewrite on_copies, <- Hnew. pose proof (i_room _ _ Hi row r Hrow Hbm) as Hr. unfold promised_need in Hr.
    destruct (Hcase (HostDesc.HostId row)) as [(_ & _ & ->)|(n & Hn & _ & ->)]; [lia|].
    destruct (Hm _ _ Hn) as (_ & Hz & row' & Hrow' & _ & Hid & Hfit). destruct (seen_idle o s _ Hi Hz) as (-> & _).
    assert (row' = row) as ->; [|specialize (Hfit r); cbn; lia].
    by eapply (NoDup_key_inj HostDesc.HostId); [apply Hi|..].
  - apply Forall_app. split; [apply Hi|]. destruct Hd as [Hd| ->]; [|by constructor]. subst new. apply Forall_fmap, Forall_true. by intros.
  - by rewrite He; apply Hi.
  - by rewrite Hj, Hb; apply Hi.
  - intros key n x Hx. by destruct (Hcur key (n, x)).
  - rewrite Hq. apply Hi.
  - rewrite Hlist. apply Hi.
Qed.

Lemma onTaskCompleted_frame (sv : Service E) te r sv' : onTaskCompleted sv te r = Ret sv' →
  candidates sv' = candidates sv ∧ jobs sv' = jobs sv ∧ expireChannel sv' = expireChannel sv ∧ batchWait sv' = batchWait sv ∧
  current sv' = current sv ∧ queues sv' = queues sv ∧ listed sv' = listed sv ∧
  (Forall (λ t, request_ok (t_info t)) (tasks sv) → Forall (λ t, request_ok (t_info t)) (tasks sv')).
Proof.
  unfold onTaskCompleted. destruct (tasks sv !! te_task te) as [t|] eqn:Et; cbn [of_opt obind]; [|done].
  assert (∀ t', t_info t' = t_info t → Forall (λ t, request_ok (t_info t)) (tasks sv) →
    Forall (λ t, request_ok (t_info t)) (<[te_task te := t']> (tasks sv))) as Hins.
  { intros t' Heq Hall. apply Forall_insert; [done|]. rewrite Heq. by eapply (proj1 (Forall_lookup _ _) Hall). }
  unfold close_wait. destruct r as [items|e| |]; [destruct (_ <=? _)|..]; cbn [waitClosed]; try done.
  all: try (destruct (waitClosed t); cbn [obind]; [done|]).
  all: intros [= <-]; split_and!; try done; by apply Hins.
Qed.

Lemma inv_complete s now key i task r d dirty sv x : inv s → current (service s) !! key = Some x → ordinary d ∨ dirty = [] →
  NoDup dirty.*1 →
  (∀ h n, (h, n) ∈ dirty → 1 ≤ n < 2 ^ 64 ∧ hidden s h = 0 ∧
    ∃ row, row ∈ db_hosts (db s) ∧ isBaremetal row = false ∧ HostDesc.HostId row = h ∧ ∀ r, n * need r d ≤ free_in o (db s) r row) →
  complete now key i task r dirty (service s) = Ret sv →
  inv (MkSystem sv (db s) (promised s ++ ((λ h, (h, d)) <$> (dirty ≫= λ p, replicate (Z.to_nat p.2) p.1))) (unnotified s)).
Proof.
  intros Hi Hx Hd Hnd Hm Hr. apply onTaskCompleted_frame in Hr as (H1 & H2 & H3 & H4 & H5 & H6 & H8 & H7).
  cbn in H1, H2, H3, H4, H5, H6, H7, H8. apply (inv_marks s sv now d dirty); try done; [|by apply H7, Hi].
  rewrite H5. intros key' [n' y'] Hy. apply lookup_delete_Some in Hy as [Hne Hy]. destruct x as [n y]. apply Hne.
  destruct (i_current _ _ Hi _ _ _ Hx) as [-> _], (i_current _ _ Hi _ _ _ Hy) as [-> _]. done.
Qed.

(** What the end of a task promises and marks. *)
Lemma finish_spec s now key sv `{!SoundSchedule schedule (db_hosts (db s))} : inv s →
  finish schedule now key (service s) = Ret sv →
  ∃ i task r d dirty x, current (service s) !! key = Some x ∧ complete now key i task r dirty (service s) = Ret sv ∧
    grants schedule (service s) key = ((λ h, (h, d)) <$> (dirty ≫= λ p, replicate (Z.to_nat p.2) p.1)) ∧
    (ordinary d ∨ dirty = []) ∧ NoDup dirty.*1 ∧
    ∀ h n, (h, n) ∈ dirty → 1 ≤ n < 2 ^ 64 ∧ hidden s h = 0 ∧
      ∃ row, row ∈ db_hosts (db s) ∧ isBaremetal row = false ∧ HostDesc.HostId row = h ∧ ∀ r, n * need r d ≤ free_in o (db s) r row.
Proof.
  intros Hi. unfold finish, grants. rewrite (i_listed _ _ Hi), lookup_empty.
  destruct (current (service s) !! key) as [[i cs]|] eqn:Ec; [|done]. cbn [mbind option_bind].
  destruct (executors (service s) !! i) as [te|]; cbn [of_opt obind mbind option_bind]; [|done].
  destruct (tasks (service s) !! te_task te) as [t|] eqn:Et; cbn [of_opt obind mbind option_bind]; [|done].
  assert (request_ok (t_info t)) as (_ & _ & _ & Hreq) by (eapply (proj1 (Forall_lookup _ _) (i_tasks _ _ Hi)), Et).
  destruct (i_current _ _ Hi key i cs Ec) as [_ Hsnap].
  assert (∀ r, complete now key i (te_task te) r [] (service s) = Ret sv →
    ∃ i' task r d dirty x, Some (i, cs) = Some x ∧ complete now key i' task r dirty (service s) = Ret sv ∧
      [] = ((λ h, (h, d)) <$> (dirty ≫= λ p : string * Z, replicate (Z.to_nat p.2) p.1)) ∧ (ordinary d ∨ dirty = []) ∧ NoDup dirty.*1 ∧
      ∀ h n, (h, n) ∈ dirty → 1 ≤ n < 2 ^ 64 ∧ hidden s h = 0 ∧
        ∃ row, row ∈ db_hosts (db s) ∧ isBaremetal row = false ∧ HostDesc.HostId row = h ∧ ∀ r, n * need r d ≤ free_in o (db s) r row) as Hnone.
  { intros r Hr. exists i, (te_task te), r, (t_info t), [], (i, cs). split_and!; [done|done|done|by right|constructor|by intros ?? ?%elem_of_nil]. }
  unfold execute. destruct cs as [l|e| |]; cbn [fst default]; try apply Hnone. destruct (Hsnap l eq_refl) as [Hnd Hall].
  destruct (schedule (t_info t) l) as [[items dirty]|e| |] eqn:Es; cbn [fst default]; try apply Hnone.
  intros Hr. destruct (SchedInfo.IsSuggestion (t_info t)) eqn:Esug; cbn [default].
  - assert (dirty = []) as ->; [|by apply Hnone in Hr].
    eapply (suggestion_marks schedule); [exact Esug|exact Hnd| |exact Es]. eapply Forall_impl; [exact Hall|]. intros c (hd & -> & Hin & _). by exists hd.
  - destruct Hreq as [?|Hord]; [done|]. destruct (sound_marks s (t_info t) l items dirty Hi Hord Hnd Hall Es) as (Hn & Hg & Hm).
    rewrite Hg. eexists i, (te_task te), (Ret items), (t_info t), dirty, _. split_and!; try done. by left.
Qed.

Lemma inv_finish s now key sv `{!SoundSchedule schedule (db_hosts (db s))} : inv s →
  finish schedule now key (service s) = Ret sv →
  inv (MkSystem sv (db s) (promised s ++ grants schedule (service s) key) (unnotified s)).
Proof. intros Hi Hf. destruct (finish_spec s now key sv Hi Hf) as (i & task & r & d & dirty & x & ? & ? & -> & ? & ? & ?). by eapply inv_complete. Qed.

(** ** Batches *)

Lemma no_baremetal_notices s : inv s → merge_ids DirtyBaremetals (expireChannel (service s)) = [].
Proof.
  intros Hi. destruct (merge_ids_spec DirtyBaremetals (expireChannel (service s))) as [_ Hb].
  destruct (merge_ids DirtyBaremetals _) as [|x l]; [done|]. exfalso. pose proof (proj1 (Hb x) ltac:(left)) as Hx.
  apply list_elem_of_bind in Hx as (a & Hx & Ha). rewrite (proj1 (Forall_forall _ _) (i_channel _ _ Hi) a Ha) in Hx.
  by apply elem_of_nil in Hx.
Qed.

Lemma inv_drain s sv : inv s → drain (service s) = Some sv → inv (MkSystem sv (db s) (promised s) (unnotified s)).
Proof.
  intros Hi. unfold drain. destruct (batchWait (service s)) eqn:Ew; [done|]. cbn [orb]. case_bool_decide; [done|].
  assert (jobs (service s) = []) as Hj by (destruct (i_jobs _ _ Hi) as [?|(j & _ & _ & _ & ?)]; [done|congruence]).
  destruct (merge_ids_spec DirtyHosts (expireChannel (service s))) as [Hnd Hel].
  rewrite (no_baremetal_notices s Hi).
  intros [= <-]. set (ids := merge_ids _ _) in *. set (new := match ids with [] => [] | _ => _ end). rewrite Hj, app_nil_r. cbn [app].
  assert (new = [] ∧ ids = [] ∨ new = [MkJob "host" ids false]) as Hnew by (subst new; destruct ids; [by left|by right]).
  assert (∀ h, count_of h (new ≫= job_ids) ≤ count_of h (expireChannel (service s) ≫= DirtyHosts)) as Hcount.
  { intros h. destruct Hnew as [[-> _]| ->]; cbn; [apply count_of_nonneg|]. rewrite app_nil_r. pose proof (count_of_NoDup h ids Hnd).
    destruct (decide (h ∈ ids)) as [Hh|Hh]; [|rewrite (count_of_not h ids) by done; apply count_of_nonneg].
    apply Hel, count_of_elem in Hh. lia. }
  assert (∀ j, j ∈ new → reloaded j = false) as Hrel.
  { intros j Hjn. destruct Hnew as [[E' _]|E']; rewrite E' in Hjn; [by apply elem_of_nil in Hjn|by apply list_elem_of_singleton in Hjn as ->]. }
  destruct Hi as [I1 I2 I3 I4 I5 I6 I7 I8 I9 I10 I11 I12 I13]. split; cbn [service db promised unnotified]; try done.
  - intros h. specialize (I4 h). specialize (Hcount h). unfold pending, hidden, manager in *. cbn in *. rewrite Hj in I4. cbn in I4.
    unfold count_of at 3. cbn. unfold count_of at 4 in I4. cbn in I4. lia.
  - intros impl Himpl. specialize (I5 impl Himpl). eapply holds_mono; [|exact I5]. intros k c _ Hc. eapply of_host_mono; [|exact Hc].
    intros hd _ Hex [Hz|(_ & j & Hjn & Hr & _)]; [apply Hex; by left|]. cbn in Hjn. by rewrite Hrel in Hr.
  - destruct Hnew as [[-> _]| ->]; [by left|right]. eexists. by split_and!.
Qed.

(** After a load of hosts, what is in the cache was read just now or was not asked for. *)
Lemma load_host_spec s now ids : inv s → let cm' := (load_impl range (sys_read o s) now (manager s) "host" ids).2 in
  dirtyPool cm' = dirtyPool (manager s) ∧ ∀ impl', impls cm' !! "host" = Some impl' → ∀ k c, cached (cache impl') k c →
    IndexKey c = k ∧ (of_host s c (exact o (db s)) ∨
      host_cached o s c ∧ ∀ l, ids = Some l → k ∉ l).
Proof.
  intros Hi. cbv zeta. unfold load_impl, getImpl. destruct (impls (manager s) !! "host") as [impl|] eqn:Eimpl; cbn -[enter_objects].
  2: { split; [done|]. intros impl'. congruence. }
  split; [done|]. intros impl' Himpl. rewrite lookup_insert_eq in Himpl. injection Himpl as <-. intros k c Hc.
  apply enter_objects_cached in Hc as [[Hin <-]|[Hc Hni]].
  - split; [done|]. left. by apply (sys_read_exact o s ids c Hi) in Hin as [? _].
  - destruct (i_cache _ _ Hi impl Eimpl k c Hc) as [Hk Hh]. split; [done|]. right. split; [done|]. intros l -> Hl. apply Hni.
    destruct Hh as (hd & -> & Hrow & Hb & _). rewrite <- Hk. cbn in Hk. rewrite <- Hk in Hl.
    exact (read_complete o (db s) l (HostDesc.Host hd) Hrow Hb Hl).
Qed.

Lemma load_host_cached s now ids impl : inv s → impls (load_impl range (sys_read o s) now (manager s) "host" ids).2 !! "host" = Some impl →
  holds IndexKey (host_cached o s) (cache impl).
Proof.
  intros Hi Himpl k c Hc. destruct (load_host_spec s now ids Hi) as [_ Hl]. destruct (Hl impl Himpl k c Hc) as [Hk [Hex|[Hh _]]];
    (split; [done|]); [|done]. eapply of_host_mono; [|exact Hex]. by intros.
Qed.

Lemma inv_reload s now n sv : inv s → reload_job range (sys_read o s) now n (service s) = Some sv →
  inv (MkSystem sv (db s) (promised s) (unnotified s)).
Proof.
  intros Hi. unfold reload_job. destruct (i_jobs _ _ Hi) as [Hj|(j & Hj & Htype & Hnd & Hw)]; rewrite Hj; [by destruct n|].
  destruct n as [|n]; [|by destruct n]. cbn [lookup list_lookup mbind option_bind]. destruct (reloaded j) eqn:Er; [done|]. rewrite Htype.
  destruct (Reload range (sys_read o s) now (candidates (service s)) "host" (job_ids j)) as [ok cm] eqn:El. intros [= <-].
  cbn [insert list_insert].
  assert (dirtyPool cm = dirtyPool (manager s) ∧ ∀ impl', impls cm !! "host" = Some impl' → ∀ k c, cached (cache impl') k c →
    IndexKey c = k ∧ (of_host s c (exact o (db s)) ∨ host_cached o s c ∧ k ∉ job_ids j)) as [Hp Hc].
  { unfold Reload in El. destruct (job_ids j) as [|x l] eqn:Ex.
    - injection El as _ <-. split; [done|]. intros impl' Himpl k c Hkc. destruct (i_cache _ _ Hi impl' Himpl k c Hkc). split; [done|].
      right. split; [done|apply not_elem_of_nil].
    - destruct (load_host_spec s now (Some (x :: l)) Hi) as [Hp Hc]. unfold manager in Hp, Hc. rewrite El in Hp, Hc. cbn [snd] in Hp, Hc.
      split; [done|]. intros impl' Himpl k c Hkc. destruct (Hc impl' Himpl k c Hkc) as [? [?|[? Hn]]]; (split; [done|]); [by left|right].
      split; [done|by apply Hn]. }
  assert (∀ h, settled (MkSystem (MkService (tasks (service s)) (executors (service s)) (queues (service s)) (current (service s)) (adding (service s)) cm
      (expireChannel (service s)) [MkJob "host" (job_ids j) true] (batchWait (service s)) (loads (service s)) (listed (service s))) (db s) (promised s) (unnotified s)) h →
    settled s h ∨ h ∈ job_ids j) as Hset.
  { intros h Hs. unfold settled, hidden, manager in Hs. cbn [service candidates jobs] in Hs. rewrite Hp in Hs.
    destruct Hs as [Hz|(_ & j' & Hj' & _ & Hin)]; [left; by left|]. apply list_elem_of_singleton in Hj' as ->. by right. }
  destruct Hi as [I1 I2 I3 I4 I5 I6 I7 I8 I9 I10 I11 I12 I13]. split; cbn [service db promised unnotified]; try done.
  - unfold manager. cbn. by rewrite Hp.
  - intros h. specialize (I4 h). unfold pending, hidden, manager in *. cbn in *. rewrite Hp. rewrite Hj in I4. exact I4.
  - intros impl Himpl k c Hkc. destruct (Hc impl Himpl k c Hkc) as [Hk [Hex|[Hh Hni]]]; (split; [done|]).
    + eapply of_host_mono; [|exact Hex]. by intros.
    + eapply of_host_mono; [|exact Hh]. intros hd _ Hex Hs. rewrite Hk in *. destruct (Hset k Hs); [by apply Hex|done].
  - right. eexists. by split_and!.
  - intros key i x Hx. destruct (I10 key i x Hx) as [? Hcs]. split; [done|]. intros cs Ecs. destruct (Hcs cs Ecs). split; [done|].
    unfold in_snapshot, hidden, manager. cbn. by rewrite Hp.
Qed.

Lemma inv_clean s n sv : inv s → clean_job n (service s) = Some sv → inv (MkSystem sv (db s) (promised s) (unnotified s)).
Proof.
  intros Hi. unfold clean_job. destruct (i_jobs _ _ Hi) as [Hj|(j & Hj & _ & Hnd & Hw)]; rewrite Hj; [by destruct n|].
  destruct n as [|n]; [|by destruct n]. cbn [lookup list_lookup mbind option_bind]. destruct (reloaded j) eqn:Er; [|done].
  intros [= <-]. change (delete 0%nat [j]) with (@nil ReloadJob).
  destruct (pool_deletes_spec (job_ids j) (dirtyPool (manager s)) (i_pool _ _ Hi) Hnd) as [Hp Hc].
  assert (∀ h, h ∈ job_ids j → count_of h (jobs (service s) ≫= job_ids) = 1) as H1.
  { intros h Hh. rewrite Hj. cbn. rewrite app_nil_r. apply count_of_elem in Hh. pose proof (count_of_NoDup h _ Hnd). lia. }
  assert (∀ h, h ∈ job_ids j → 1 ≤ hidden s h) as Hge.
  { intros h Hh. pose proof (i_pending _ _ Hi h) as Hpe. unfold pending in Hpe. rewrite (H1 h Hh) in Hpe.
    pose proof (count_of_nonneg h (promised s).*1). pose proof (count_of_nonneg h (unnotified s)).
    pose proof (count_of_nonneg h (expireChannel (service s) ≫= DirtyHosts)). lia. }
  set (s' := MkSystem _ _ _ _).
  assert (∀ h, hidden s' h = if decide (h ∈ job_ids j) then Z.max 0 (hidden s h - 1) else hidden s h) as Hhid by (intros h; apply Hc).
  assert (∀ h, settled s' h → settled s h) as Hset.
  { intros h [Hz|(_ & j' & Hj' & _)]; [|by apply elem_of_nil in Hj']. rewrite Hhid in Hz. destruct (decide (h ∈ job_ids j)) as [Hh|Hh]; [|by left].
    right. specialize (Hge h Hh). split; [lia|]. exists j. rewrite Hj. split; [left|done]. }
  destruct Hi as [I1 I2 I3 I4 I5 I6 I7 I8 I9 I10 I11 I12 I13]. split; cbn [service db promised unnotified]; try done.
  - intros h. rewrite Hhid. specialize (I4 h). unfold pending in *. cbn [s' promised unnotified service expireChannel jobs mbind list_bind].
    change (count_of h []) with 0. destruct (decide (h ∈ job_ids j)) as [Hh|Hh].
    + rewrite (H1 h Hh) in I4. lia.
    + pose proof (count_of_nonneg h (jobs (service s) ≫= job_ids)). lia.
  - intros impl Himpl. eapply holds_mono; [|by apply I5]. intros k c _ Hh. eapply of_host_mono; [|exact Hh].
    intros hd _ Hex Hs. by apply Hex, Hset.
  - by left.
  - intros key i x Hx. destruct (I10 key i x Hx) as [? Hcs]. split; [done|]. intros cs Ecs. destruct (Hcs cs Ecs) as [? Hall]. split; [done|].
    eapply Forall_impl; [exact Hall|]. intros c Hsn. eapply of_host_mono; [|exact Hsn]. intros hd _ [Hz Hex]. split; [|done].
    rewrite Hhid, Hz. by destruct (decide _).
Qed.

(** ** Loads *)

Lemma inv_update s now resType ids : inv s →
  inv (MkSystem (regular_update range (sys_read o s) now resType ids (service s)) (db s) (promised s) (unnotified s)).
Proof.
  intros Hi. unfold regular_update. apply inv_manager; try done; cbn [with_candidates candidates].
  - unfold load_impl, getImpl. by destruct (impls (candidates (service s)) !! resType).
  - intros impl Himpl. destruct (decide (resType = "host")) as [->|Hne]; [by eapply load_host_cached|].
    apply (i_cache _ _ Hi). revert Himpl. unfold load_impl, getImpl, manager.
    destruct (impls (candidates (service s)) !! resType); [|done]. destruct (loadObjects _ _ _ _ _ _). cbn. by rewrite lookup_insert_ne.
  - intros key i x Hx. by eapply i_current.
  - intros key q Hq. by eapply i_queues.
  - apply Hi.
Qed.

(** ** The region *)

Lemma sum_of_cons {A} (f : A → Z) x l : sum_of f (x :: l) = f x + sum_of f l.
Proof. done. Qed.

Lemma on_delete (l : list (string * SchedInfo.SchedInfo)) k p h r : l !! k = Some p →
  sum_of (λ p, need r p.2) (on h (delete k l)) = sum_of (λ p, need r p.2) (on h l) - if decide (p.1 = h) then need r p.2 else 0.
Proof.
  unfold on. revert k. induction l as [|q l IH]; intros [|k] Hk; cbn in Hk; simplify_eq.
  - change (delete 0%nat (p :: l)) with l. rewrite filter_cons. destruct (decide (p.1 = h)); rewrite ?sum_of_cons; lia.
  - change (delete (S k) (q :: l)) with (q :: delete k l). rewrite !filter_cons. specialize (IH k Hk).
    destruct (decide (q.1 = h)); [|exact IH]. rewrite !sum_of_cons, IH. lia.
Qed.

Lemma fst_delete (l : list (string * SchedInfo.SchedInfo)) k : (delete k l).*1 = delete k l.*1.
Proof. revert k. induction l as [|x l IH]; intros [|k]; [done..|]. cbn. f_equal. apply IH. Qed.

Lemma inv_create s k p g : inv s → promised s !! k = Some p → guest_of (db s) p g = true →
  inv (MkSystem (service s) (insert_guest (db s) g) (delete k (promised s)) (unnotified s ++ [p.1])).
Proof.
  intros Hi Hk Hg. pose proof (proj1 (Forall_lookup _ _) (i_promised _ _ Hi) _ _ Hk) as (_ & _ & _ & _ & Hcpu & Hmem & _).
  destruct (insert_guest_ok o (db s) p g (i_hosts _ _ Hi) (i_guests _ _ Hi)) as (Hh & Hgs & Hneed); [lia|lia|done|].
  assert (∀ h, count_of h (delete k (promised s)).*1 = count_of h (promised s).*1 - if decide (p.1 = h) then 1 else 0) as Hcount.
  { intros h. rewrite fst_delete. apply count_of_delete. by rewrite list_lookup_fmap, Hk. }
  assert (2 ≤ hidden s p.1 + 1 ∧ ∀ h, settled s h → h ≠ p.1) as [_ Hne].
  { pose proof (i_pending _ _ Hi p.1) as Hp. unfold pending in Hp.
    assert (1 ≤ count_of p.1 (promised s).*1) by (apply count_of_elem, (list_elem_of_fmap_2 fst), list_elem_of_lookup; by exists k).
    pose proof (count_of_nonneg p.1 (unnotified s)). pose proof (count_of_nonneg p.1 (expireChannel (service s) ≫= DirtyHosts)).
    pose proof (count_of_nonneg p.1 (jobs (service s) ≫= job_ids)). split; [lia|]. intros h [Hz|(Hone & j & Hj & _ & Hin)] ->; [lia|].
    assert (p.1 ∈ jobs (service s) ≫= job_ids) as Hx by (apply list_elem_of_bind; by exists j). apply count_of_elem in Hx. lia. }
  assert (∀ hd, HostDesc.Host hd ∈ db_hosts (db s) → settled s (HostDesc.HostId (HostDesc.Host hd)) → exact o (db s) hd →
    exact o (insert_guest (db s) g) hd) as Hex.
  { intros hd Hrow Hs Hx r. rewrite (insert_guest_free o (db s) p g r _ Hg), decide_False by (by apply Hne). rewrite Z.sub_0_r. apply Hx. }
  destruct Hi as [I1 I2 I3 I4 I5 I6 I7 I8 I9 I10 I11 I12 I13]. split; cbn [service db promised unnotified]; try done.
  - intros h. specialize (I4 h). unfold pending, hidden, manager in *. cbn [service db promised unnotified] in *.
    rewrite Hcount, count_of_app, count_of_cons. change (count_of h []) with 0. lia.
  - intros impl Himpl. eapply holds_mono; [|by apply I5]. intros key c _ (hd & -> & Hrow & Hb & Hset).
    exists hd. split_and!; try done. intros Hs. apply Hex; [done|exact Hs|by apply Hset].
  - intros h r Hrow Hb. unfold promised_need. cbn [promised]. rewrite (on_delete _ _ p) by done.
    rewrite (insert_guest_free o (db s) p g r h Hg), (Hneed r). specialize (I6 h r Hrow Hb). unfold promised_need in I6.
    assert (0 ≤ need r p.2) by (destruct r; cbn; lia).
    destruct (decide (p.1 = HostDesc.HostId h)), (decide (HostDesc.HostId h = p.1)); try congruence; try case_match; lia.
  - by apply Forall_delete.
  - intros key i x Hx. destruct (I10 key i x Hx) as [? Hcs]. split; [done|]. intros cs Ecs. destruct (Hcs cs Ecs) as [? Hall]. split; [done|].
    eapply Forall_impl; [exact Hall|]. intros c (hd & -> & Hrow & Hb & Hz & He). exists hd. split_and!; try done.
    apply Hex; [done|by left|done].
Qed.

Lemma inv_notify s k h sv : inv s → unnotified s !! k = Some h → Expire ExpireQueueMaxLength (service s) (MkExpire [h] []) = Some sv →
  inv (MkSystem sv (db s) (promised s) (delete k (unnotified s))).
Proof.
  intros Hi Hk. unfold Expire. case_bool_decide; [|done]. intros [= <-].
  destruct Hi as [I1 I2 I3 I4 I5 I6 I7 I8 I9 I10 I11 I12 I13]. split; cbn [service db promised unnotified]; try done.
  - intros x. specialize (I4 x). unfold pending, hidden, manager in *. cbn [service db promised unnotified expireChannel jobs candidates] in *.
    rewrite (count_of_delete x k _ h Hk). rewrite bind_app, count_of_app. cbn [mbind list_bind DirtyHosts app].
    rewrite count_of_cons. change (count_of x []) with 0. lia.
  - apply Forall_app. split; [done|]. by constructor.
Qed.

(** ** Runs *)

Lemma inv_step s ev s' `{!SoundSchedule schedule (db_hosts (db s))} : inv s → considered ev →
  sys_exec schedule o ttl range QueueLength ExpireQueueMaxLength s ev = Ret s' → inv s' ∧ db_hosts (db s') = db_hosts (db s).
Proof.
  intros Hi Hc. unfold sys_exec. destruct ev as [now e|k g|k].
  - assert (∀ sv, inv (MkSystem sv (db s) (promised s) (unnotified s)) → inv (MkSystem sv (db s) (promised s ++ []) (unnotified s))) as Hnil
      by (intros sv; by rewrite app_nil_r).
    destruct (exec _ _ _ _ _ _ _ _ _) as [sv| | |] eqn:Ee; cbn [obind]; try done. intros [= <-]. split; [|done].
    destruct e as [d| |key|key|key|key|args| |n|n|timeout|resType|resType ids|resType|n]; cbn [exec considered] in Ee, Hc; try done.
    1: destruct (submit _ _ _) as [sv'|] eqn:Es; cbn in Ee; [|done]; injection Ee as <-; apply Hnil; by eapply inv_submit.
    1: destruct (attach _) as [sv'|] eqn:Es; cbn in Ee; [|done]; injection Ee as <-; apply Hnil; by eapply inv_attach.
    1: apply Hnil; by eapply inv_start.
    1: by eapply inv_finish.
    1: destruct (drain _) as [sv'|] eqn:Es; cbn in Ee; [|done]; injection Ee as <-; apply Hnil; by eapply inv_drain.
    1: destruct (reload_job _ _ _ _ _) as [sv'|] eqn:Es; cbn in Ee; [|done]; injection Ee as <-; apply Hnil; by eapply inv_reload.
    1: destruct (clean_job _ _) as [sv'|] eqn:Es; cbn in Ee; [|done]; injection Ee as <-; apply Hnil; by eapply inv_clean.
    1: destruct timeout; [done|]; destruct (batch_end _ _) as [sv'|] eqn:Es; cbn in Ee; [|done]; injection Ee as <-; apply Hnil; by eapply inv_batch_end.
    1: injection Ee as <-; apply Hnil; exact (inv_update s now resType None Hi).
    injection Ee as <-. apply Hnil. by apply inv_update.
  - destruct (promised s !! k) as [p|] eqn:Ek; [|done]. destruct (guest_of (db s) p g) eqn:Eg; [|done]. intros [= <-].
    split; [by eapply inv_create|done].
  - destruct (unnotified s !! k) as [h|] eqn:Ek; [|done]. destruct (Expire _ _ _) as [sv|] eqn:Es; cbn; [|done]. intros [= <-].
    split; [by eapply inv_notify|done].
Qed.

Lemma inv_run evs : ∀ s s' `{!SoundSchedule schedule (db_hosts (db s))}, inv s → Forall considered evs →
  sys_run schedule o ttl range QueueLength ExpireQueueMaxLength s evs = Ret s' → inv s' ∧ db_hosts (db s') = db_hosts (db s).
Proof.
  induction evs as [|ev evs IH]; intros s s' Hss Hi Hc Hr; cbn [sys_run] in Hr; [by simplify_eq|].
  apply Forall_cons in Hc as [Hev Hc]. destruct (sys_exec _ _ _ _ _ _ s ev) as [s1| | |] eqn:Es; cbn [obind] in Hr; try done.
  destruct (inv_step s ev s1 Hi Hev Es) as [H1 Hh]. assert (SoundSchedule schedule (db_hosts (db s1))) as Hss1 by by rewrite Hh.
  destruct (IH s1 s' Hss1 H1 Hc Hr) as [? Hh']. split; [done|congruence].
Qed.

Lemma inv_initial d : hosts_ok o d → guests_ok d →
  (∀ h r, h ∈ db_hosts d → isBaremetal h = false → 0 ≤ free_in o d r h) → inv (initial d).
Proof.
  intros Hh Hg Hf. split; cbn; try done.
  - apply new_pool_ok.
  - intros impl Himpl. unfold manager, NewCandidateManager in Himpl. cbn in Himpl. rewrite lookup_insert_ne, lookup_insert_eq in Himpl by done.
    injection Himpl as <-. by intros k c [t Ht].
  - by left.
Qed.

End Events.

End SchedEvents.
