(* ===== verification/SchedReturn.v ===== *)
(** * Hidden hosts come back, unless their notices are merged

    A host is hidden as often as guests were promised on it and is cleaned once per batch of notices.  The surplus of a
    host is how often it is hidden beyond what is under way on it. *)

From S2P Require Import Prelude SchedInfo Scheduler Unit Storages HostDesc HostDescProofs Candidates.
From S2P Require Import CandidateCache CandidateCacheProofs CandidateManager SchedService SchedAnswers SchedSystem SchedSafety SchedEvents.
Import Candidates CandidateCache CandidateManager SchedService SchedAnswers CandidateCacheProofs SchedSystem SchedSafety SchedEvents.
Local Open Scope Z_scope.
Local Open Scope go_scope.

Module SchedReturn.

Section Return.
Context {E : Type} (schedule : SchedInfo.SchedInfo → list Candidater → outcome E (list item * list (string * Z))).
Context (o : HostDesc.Options) (ttl : Z) (range : ∀ B, gmap string B → list (string * B)).
Context (QueueLength ExpireQueueMaxLength : nat).
Context (range_perm : ∀ B (m : gmap string B), range B m ≡ₚ map_to_list m).

Abbreviation Sys := (System E).
Abbreviation inv := (SchedSafety.inv (E := E) o).
Abbreviation sys_exec := (SchedSystem.sys_exec schedule o ttl range QueueLength ExpireQueueMaxLength).
Abbreviation sys_run := (SchedSystem.sys_run schedule o ttl range QueueLength ExpireQueueMaxLength).

Definition surplus (s : Sys) (h : string) : Z := hidden s h - pending s h.

(** The event takes several notices of one host together. *)
Definition merges (s : Sys) (ev : sys_event) : bool :=
  match ev with
  | Ev _ Drain => negb (bool_decide (NoDup (expireChannel (service s) ≫= DirtyHosts)))
  | _ => false
  end.

(** No event of a run does. *)
Fixpoint unmerged (s : Sys) (evs : list sys_event) : bool :=
  match evs with
  | [] => true
  | ev :: evs => negb (merges s ev) && match sys_exec s ev with Ret s => unmerged s evs | _ => true end
  end.

(** What is the same, and what an event can do to the surplus of a host. *)
Definition keeps (s s' : Sys) (h : string) : Prop := surplus s' h = surplus s h.

Lemma keeps_frame s sv h : dirtyPool (candidates sv) = dirtyPool (manager s) → jobs sv ≫= job_ids = jobs (service s) ≫= job_ids →
  expireChannel sv = expireChannel (service s) → keeps s (MkSystem sv (db s) (promised s) (unnotified s)) h.
Proof. intros Hp Hj He. unfold keeps, surplus, hidden, pending, manager in *. cbn. by rewrite Hp, Hj, He. Qed.

Lemma keeps_start s now key sv h : inv s → start ttl range (sys_read o s) now key (service s) = Ret sv →
  keeps s (MkSystem sv (db s) (promised s) (unnotified s)) h.
Proof.
  intros Hi. unfold start. destruct (current (service s) !! key) as [?|]; [done|].
  destruct (queues (service s) !! key) as [[|i queue]|]; [done| |done].
  cbn [executors]. destruct (executors (service s) !! i) as [te|]; cbn [of_opt obind]; [|done].
  destruct (decide (Status te = Waiting)); [|intros [= <-]; by apply keeps_frame].
  unfold set_executor. cbn [tasks]. destruct (tasks (service s) !! te_task te) as [t|] eqn:Et; cbn [of_opt obind]; [|done]. cbn [candidates].
  destruct (candidatesByProvider _ _ _ _ _ _) as [cs cm] eqn:Ecs.
  assert (request_ok (t_info t)) as Ht by (eapply (proj1 (Forall_lookup _ _) (i_tasks _ _ Hi)), Et).
  destruct (candidates_spec o ttl range range_perm s now (t_info t) cs cm Hi Ht Ecs) as (Hp & _).
  destruct cs; try done; intros [= <-]; by apply keeps_frame.
Qed.

Lemma keeps_finish s now key sv h `{!SoundSchedule schedule (db_hosts (db s))} : inv s →
  finish schedule now key (service s) = Ret sv →
  keeps s (MkSystem sv (db s) (promised s ++ grants schedule (service s) key) (unnotified s)) h.
Proof.
  intros Hi Hf. destruct (finish_spec schedule o s now key sv Hi Hf) as (i & task & r & d & dirty & x & _ & Hc & -> & _ & Hnd & Hm).
  apply onTaskCompleted_frame in Hc as (Hcm & Hj & He & _). cbn in Hcm, Hj, He.
  set (s' := MkSystem _ _ _ _). assert (Forall (λ p, 1 ≤ p.2 < 2 ^ 64) dirty) as Hr by (apply Forall_forall; intros [k n] Hin; by destruct (Hm k n Hin)).
  pose proof (marks_case o s s' now dirty Hi Hnd Hr Hcm h) as Hcase.
  unfold keeps, surplus. unfold pending at 1. subst s'. cbn [promised unnotified service]. rewrite Hj, He, fmap_app, count_of_app.
  rewrite <- list_fmap_compose, list_fmap_id. unfold pending. destruct Hcase as [(_ & -> & ->)|(n & Hin & -> & ->)]; [lia|].
  destruct (Hm _ _ Hin) as (_ & Hz & _). lia.
Qed.

Lemma keeps_clean s n sv h : inv s → clean_job n (service s) = Some sv →
  keeps s (MkSystem sv (db s) (promised s) (unnotified s)) h.
Proof.
  intros Hi. unfold clean_job. destruct (i_jobs _ _ Hi) as [Hj|(j & Hj & _ & Hnd & Hw)]; rewrite Hj; [by destruct n|].
  destruct n as [|n]; [|by destruct n]. cbn [lookup list_lookup mbind option_bind]. destruct (reloaded j); [|done].
  intros [= <-]. change (delete 0%nat [j]) with (@nil ReloadJob).
  destruct (pool_deletes_spec (job_ids j) (dirtyPool (manager s)) (i_pool _ _ Hi) Hnd) as [_ Hc].
  pose proof (i_pending _ _ Hi h) as Hp. unfold keeps, surplus, pending in *. cbn [promised unnotified service expireChannel jobs].
  rewrite Hj in Hp |- *. cbn [mbind list_bind] in Hp |- *. rewrite app_nil_r in Hp |- *. change (count_of h []) with 0.
  set (s' := MkSystem _ _ _ _). assert (hidden s' h = if decide (h ∈ job_ids j) then Z.max 0 (hidden s h - 1) else hidden s h) as -> by apply Hc.
  pose proof (count_of_nonneg h (promised s).*1). pose proof (count_of_nonneg h (unnotified s)).
  pose proof (count_of_nonneg h (expireChannel (service s) ≫= DirtyHosts)). pose proof (count_of_NoDup h _ Hnd).
  destruct (decide (h ∈ job_ids j)) as [Hh|Hh]; [apply count_of_elem in Hh|rewrite (count_of_not h (job_ids j)) in * by done]; lia.
Qed.

Lemma keeps_reload s now n sv h : inv s → reload_job range (sys_read o s) now n (service s) = Some sv →
  keeps s (MkSystem sv (db s) (promised s) (unnotified s)) h.
Proof.
  intros Hi. unfold reload_job. destruct (i_jobs _ _ Hi) as [Hj|(j & Hj & Htype & _ & _)]; rewrite Hj; [by destruct n|].
  destruct n as [|n]; [|by destruct n]. cbn [lookup list_lookup mbind option_bind]. destruct (reloaded j); [done|]. rewrite Htype.
  destruct (Reload range (sys_read o s) now (candidates (service s)) "host" (job_ids j)) as [ok cm] eqn:El. intros [= <-].
  apply keeps_frame; [|by rewrite Hj|done]. cbn [candidates]. unfold Reload in El. destruct (job_ids j) as [|x l]; [by injection El as _ <-|].
  destruct (load_host_spec o range s now (Some (x :: l)) Hi) as [Hp _]. unfold manager in Hp. by rewrite El in Hp.
Qed.

Lemma keeps_update s now resType ids h :
  keeps s (MkSystem (regular_update range (sys_read o s) now resType ids (service s)) (db s) (promised s) (unnotified s)) h.
Proof.
  apply keeps_frame; [|done|done]. unfold regular_update. cbn [with_candidates candidates]. unfold load_impl, getImpl.
  by destruct (impls (candidates (service s)) !! resType).
Qed.

(** Taking the notices: the surplus grows by the notices of the host beyond the first. *)
Lemma drain_surplus s sv h : inv s → drain (service s) = Some sv → let s' := MkSystem sv (db s) (promised s) (unnotified s) in
  surplus s h ≤ surplus s' h ∧ (NoDup (expireChannel (service s) ≫= DirtyHosts) → keeps s s' h).
Proof.
  intros Hi. unfold drain. destruct (batchWait (service s)) eqn:Ew; [done|]. cbn [orb]. case_bool_decide; [done|].
  assert (jobs (service s) = []) as Hj by (destruct (i_jobs _ _ Hi) as [?|(j & _ & _ & _ & ?)]; [done|congruence]).
  destruct (merge_ids_spec DirtyHosts (expireChannel (service s))) as [Hnd Hel].
  assert (merge_ids DirtyBaremetals (expireChannel (service s)) = []) as -> by (by eapply no_baremetal_notices).
  intros [= <-]. rewrite Hj, app_nil_r. cbn [app]. set (ids := merge_ids _ _) in *. cbv zeta. set (new := match ids with [] => [] | _ => _ end).
  assert (new ≫= job_ids = ids) as Hnew by (subst new; destruct ids; [done|cbn; by rewrite app_nil_r]).
  set (chan := expireChannel (service s) ≫= DirtyHosts) in *.
  assert (surplus (MkSystem (MkService (tasks (service s)) (executors (service s)) (queues (service s)) (current (service s)) (adding (service s))
    (candidates (service s)) [] new true (loads (service s)) (listed (service s))) (db s) (promised s) (unnotified s)) h - surplus s h = count_of h chan - count_of h ids) as Hs.
  { unfold surplus, pending, hidden, manager. cbn [service candidates promised unnotified expireChannel jobs]. rewrite Hnew, Hj. cbn [mbind list_bind].
    change (count_of h []) with 0. fold chan. lia. }
  unfold keeps. pose proof (count_of_NoDup h ids Hnd). split.
  - destruct (decide (h ∈ ids)) as [Hh|Hh]; [apply Hel, count_of_elem in Hh; fold chan in Hh; lia|].
    rewrite (count_of_not h ids) in Hs by done. pose proof (count_of_nonneg h chan). lia.
  - intros Hc. apply count_of_NoDup with (h := h) in Hc. destruct (decide (h ∈ ids)) as [Hh|Hh].
    + pose proof (count_of_elem _ _ Hh). apply Hel, count_of_elem in Hh. fold chan in Hh. lia.
    + rewrite (count_of_not h ids) in Hs by done. rewrite (count_of_not h chan) in Hs; [lia|]. by rewrite <- Hel.
Qed.

Lemma keeps_create s k p g h : promised s !! k = Some p →
  keeps s (MkSystem (service s) (insert_guest (db s) g) (delete k (promised s)) (unnotified s ++ [p.1])) h.
Proof.
  intros Hk. unfold keeps, surplus, pending, hidden, manager. cbn [service db promised unnotified].
  rewrite fst_delete, (count_of_delete h k _ p.1) by (by rewrite list_lookup_fmap, Hk). rewrite count_of_app, count_of_cons.
  change (count_of h []) with 0. lia.
Qed.

Lemma keeps_notify s k x sv h : unnotified s !! k = Some x → Expire ExpireQueueMaxLength (service s) (MkExpire [x] []) = Some sv →
  keeps s (MkSystem sv (db s) (promised s) (delete k (unnotified s))) h.
Proof.
  intros Hk. unfold Expire. case_bool_decide; [|done]. intros [= <-].
  unfold keeps, surplus, pending, hidden, manager. cbn [service db promised unnotified expireChannel jobs candidates].
  rewrite (count_of_delete h k _ x Hk). rewrite bind_app, count_of_app. cbn [mbind list_bind DirtyHosts app].
  rewrite count_of_cons. change (count_of h []) with 0. lia.
Qed.

(** Only merged notices change the surplus of a host, and they can only raise it. *)
Lemma surplus_step s ev s' h `{!SoundSchedule schedule (db_hosts (db s))} : inv s → considered ev → sys_exec s ev = Ret s' →
  surplus s h ≤ surplus s' h ∧ (merges s ev = false → keeps s s' h).
Proof.
  intros Hi Hc. unfold SchedSystem.sys_exec.
  assert (∀ s', keeps s s' h → surplus s h ≤ surplus s' h ∧ (merges s ev = false → keeps s s' h)) as Hk by (intros ? Hk; by rewrite Hk).
  destruct ev as [now e|k g|k].
  - destruct (exec _ _ _ _ _ _ _ _ _) as [sv| | |] eqn:Ee; cbn [obind]; try done. intros [= <-].
    destruct e as [d| |key|key|key|key|args| |n|n|timeout|resType|resType ids|resType|n]; cbn [exec considered] in Ee, Hc; try done; rewrite ?app_nil_r.
    + apply Hk. unfold submit in Ee. destruct (_ && _); [|done]. injection Ee as <-. by apply keeps_frame.
    + apply Hk. unfold attach in Ee. destruct (adding _); [|done]. injection Ee as <-. by apply keeps_frame.
    + apply Hk. by eapply keeps_start.
    + apply Hk. by eapply keeps_finish.
    + destruct (drain _) as [sv'|] eqn:Es; cbn in Ee; [|done]. injection Ee as <-. destruct (drain_surplus s sv' h Hi Es) as [? Heq].
      split; [done|]. cbn [merges]. intros Hm. apply Heq. apply negb_false_iff in Hm. by apply bool_decide_eq_true in Hm.
    + apply Hk. destruct (reload_job _ _ _ _ _) as [sv'|] eqn:Es; cbn in Ee; [|done]. injection Ee as <-. by eapply keeps_reload.
    + apply Hk. destruct (clean_job _ _) as [sv'|] eqn:Es; cbn in Ee; [|done]. injection Ee as <-. by eapply keeps_clean.
    + apply Hk. destruct (batch_end _ _) as [sv'|] eqn:Es; cbn in Ee; [|done]. injection Ee as <-. unfold batch_end in Es.
      destruct (_ && _); [|done]. injection Es as <-. by apply keeps_frame.
    + apply Hk. injection Ee as <-. by apply keeps_update.
    + apply Hk. injection Ee as <-. by apply keeps_update.
  - destruct (promised s !! k) as [p|] eqn:Ek; [|done]. destruct (guest_of (db s) p g); [|done]. intros [= <-]. by apply Hk, keeps_create.
  - destruct (unnotified s !! k) as [x|] eqn:Ek; [|done]. destruct (Expire _ _ _) as [sv|] eqn:Es; cbn; [|done]. intros [= <-].
    apply Hk. by eapply keeps_notify.
Qed.

Lemma surplus_run evs : ∀ s s' h `{!SoundSchedule schedule (db_hosts (db s))}, inv s → Forall considered evs → sys_run s evs = Ret s' →
  surplus s h ≤ surplus s' h ∧ (unmerged s evs = true → keeps s s' h).
Proof.
  induction evs as [|ev evs IH]; intros s s' h Hss Hi Hc Hr; cbn [SchedSystem.sys_run unmerged] in *.
  { injection Hr as <-. split; [lia|done]. }
  apply Forall_cons in Hc as [Hev Hc]. destruct (sys_exec s ev) as [s1| | |] eqn:Es; cbn [obind] in Hr; try done.
  destruct (inv_step schedule o ttl range QueueLength ExpireQueueMaxLength range_perm s ev s1 Hi Hev Es) as [Hi1 Hh].
  assert (SoundSchedule schedule (db_hosts (db s1))) as Hss1 by by rewrite Hh.
  destruct (surplus_step s ev s1 h Hi Hev Es) as [Hle Heq], (IH s1 s' h Hss1 Hi1 Hc Hr) as [Hle' Heq']. split; [lia|].
  intros [Hm Hu]%andb_true_iff. apply negb_true_iff in Hm. unfold keeps in *. rewrite (Heq' Hu). by apply Heq.
Qed.

End Return.

End SchedReturn.
