(* ===== verification/BackupProofs.v ===== *)
(** * Answers to requests with a backup: pairs of hosts within their capacities *)

From S2P Require Import Prelude SchedInfo Scheduler Unit Candidates CandidateCache CandidateCacheProofs CandidateManager SchedService SchedAnswers SchedSafety SchedEvents.
Import CandidateCache CandidateManager SchedService SchedAnswers CandidateCacheProofs SchedSafety SchedEvents.
Local Open Scope Z_scope.
Local Open Scope go_scope.

Module BackupProofs.

(** The hosts that an entry of an answer uses. *)
Definition used_hosts (r : CandidateResource) : list string :=
  match r with
  | MkResource m _ (Some (MkResource b _ _)) => [m; b]
  | MkResource m _ _ => [m]
  | ErrorResource _ => []
  end.

Definition uses (h : string) (l : list CandidateResource) : Z := count_of h (l ≫= used_hosts).

(** A pair of different hosts of the result; a preferred backup is the backup. *)
Definition good_pair (ids : list string) (preferBackupHost : string) (r : CandidateResource) : Prop :=
  match r with
  | MkResource m _ (Some (MkResource b _ None)) =>
    m ≠ b ∧ m ∈ ids ∧ b ∈ ids ∧ m ≠ preferBackupHost ∧ (preferBackupHost ≠ "" → b = preferBackupHost)
  | MkResource _ _ _ => False
  | ErrorResource _ => True
  end.

(** Items as the scheduler returns them: one per host, with counts far from overflow. *)
Record items_ok (bound : Z) (l : list item) : Prop := {
  io_ids : NoDup (Scheduler.ID <$> l);
  io_range : ∀ it, it ∈ l → 0 ≤ Scheduler.Count it ≤ bound ∧ 0 ≤ Scheduler.ItemCapacity it < 2 ^ 63 }.

Section Proofs.
Context (sort_reverse : list item → list item) (sort_perm : ∀ l, sort_reverse l ≡ₚ l).
Context (now : Z) (preferBackupHost : string).

Lemma master_spec pm l it : selectMasterHost l pm preferBackupHost = Some it →
  pm = "" ∧ it ∈ l ∧ 1 ≤ Scheduler.ItemCapacity it ∧ Scheduler.ID it ≠ preferBackupHost.
Proof.
  induction l as [|x l IH]; cbn [selectMasterHost]; [done|].
  destruct (Z.leb_spec 1 (Scheduler.ItemCapacity x)); cbn [andb].
  - destruct (String.eqb_spec (Scheduler.ID x) preferBackupHost) as [?|?]; cbn [negb].
    { intros (? & ? & ?)%IH. split; [done|]. split; [by right|done]. }
    destruct (String.eqb_spec pm "") as [->|?].
    + intros [= <-]. split_and!; [done|left|done..].
    + intros (? & ? & ?)%IH. done.
  - intros (? & ? & ?)%IH. split; [done|]. split; [by right|done].
Qed.

Lemma backup_spec m l it : selectBackupHost m preferBackupHost l = Some it →
  it ∈ l ∧ Scheduler.ID it ≠ m ∧ Scheduler.ItemCapacity it ≠ 0 ∧ (preferBackupHost ≠ "" → Scheduler.ID it = preferBackupHost).
Proof.
  induction l as [|x l IH]; cbn [selectBackupHost]; [done|]. destruct (canHostAsBackup m preferBackupHost x) eqn:Ec.
  - intros [= <-]. unfold canHostAsBackup in Ec. destruct (String.eqb_spec (Scheduler.ID x) m); [done|].
    destruct (Z.eqb_spec (Scheduler.ItemCapacity x) 0); [done|]. split_and!; [left|done|done|]. intros Hp.
    rewrite (proj2 (String.eqb_neq _ _) Hp) in Ec. by apply String.eqb_eq in Ec.
  - intros (? & ? & ?)%IH. split; [by right|done].
Qed.

(** The item of a host after its use. *)
Lemma mark_exact bound it : 0 ≤ Scheduler.Count it ≤ bound → bound < 2 ^ 63 - 1 → 1 ≤ Scheduler.ItemCapacity it < 2 ^ 63 →
  Scheduler.Count (mark_item it) = Scheduler.Count it + 1 ∧ Scheduler.ItemCapacity (mark_item it) = Scheduler.ItemCapacity it - 1.
Proof. intros. cbn. rewrite !int64_wrap_id by (unfold is_int64; lia). done. Qed.

(** [x'] is [x] after [n] uses of its host, which is marked with its count. *)
Definition used_by (n : Z) (cm cm' : CandidateManager) (x x' : item) : Prop :=
  Scheduler.ID x' = Scheduler.ID x ∧ Scheduler.ItemCapacity x' = Scheduler.ItemCapacity x - n ∧ Scheduler.Count x' = Scheduler.Count x + n ∧
  pool_count (dirtyPool cm') (Scheduler.ID x) = if decide (n = 0) then pool_count (dirtyPool cm) (Scheduler.ID x) else Scheduler.Count x'.

Lemma used_by_trans n m cm cm' cm'' x x' x'' : 0 ≤ n → 0 ≤ m → used_by n cm cm' x x' → used_by m cm' cm'' x' x'' → used_by (n + m) cm cm'' x x''.
Proof.
  intros Hn Hm (E1 & E2 & E3 & E4) (F1 & F2 & F3 & F4). split_and!; [congruence|lia|lia|]. rewrite E1 in F4. rewrite F4, E4.
  destruct (decide (m = 0)), (decide (n = 0)), (decide (n + m = 0)); try lia; done.
Qed.

(** One use of a host: its item and its mark change, and nothing else. *)
Lemma mark_spec bound l cm it : items_ok bound l → bound < 2 ^ 63 - 1 → pool_ok (dirtyPool cm) → it ∈ l → 1 ≤ Scheduler.ItemCapacity it →
  let p := markHostUsed now (Scheduler.ID it) (l, cm) in
  items_ok (bound + 1) p.1 ∧ Scheduler.ID <$> p.1 = Scheduler.ID <$> l ∧ pool_ok (dirtyPool p.2) ∧
  (∀ x, x ∈ l → Scheduler.ID x ≠ Scheduler.ID it → x ∈ p.1) ∧
  ∀ x, x ∈ l → ∃ x', x' ∈ p.1 ∧ used_by (if decide (Scheduler.ID it = Scheduler.ID x) then 1 else 0) cm p.2 x x'.
Proof.
  intros Hl Hb Hp Hin H1. cbv zeta. unfold markHostUsed. cbn [fst snd].
  assert (∀ x, x ∈ l → Scheduler.ID x = Scheduler.ID it → x = it) as Huniq.
  { intros x Hx He. by eapply (SchedEvents.NoDup_key_inj Scheduler.ID); [apply Hl|..]. }
  destruct (io_range _ _ Hl it Hin) as [Hc Hcap]. destruct (mark_exact bound it Hc Hb ltac:(lia)) as [Em Ec].
  assert (∀ x, x ∈ (λ x, if String.eqb (Scheduler.ID x) (Scheduler.ID it) then mark_item x else x) <$> l ↔
    x = mark_item it ∨ x ∈ l ∧ Scheduler.ID x ≠ Scheduler.ID it) as Hel.
  { intros x. rewrite list_elem_of_fmap. split.
    - intros (y & -> & Hy). destruct (String.eqb_spec (Scheduler.ID y) (Scheduler.ID it)) as [He|He]; [left; by rewrite (Huniq y)|by right].
    - intros [->|[Hx He]]; [exists it; by rewrite String.eqb_refl|exists x]. by rewrite (proj2 (String.eqb_neq _ _) He). }
  assert (∀ l : list item, Scheduler.ID <$> ((λ x, if String.eqb (Scheduler.ID x) (Scheduler.ID it) then mark_item x else x) <$> l) =
    Scheduler.ID <$> l) as Hids.
  { intros l'. rewrite <- list_fmap_compose. apply list_fmap_ext. intros i x _. cbn. by destruct (String.eqb _ _). }
  destruct (list_find (λ x, Scheduler.ID x = Scheduler.ID it) l) as [[i x]|] eqn:Ef.
  2: { apply list_find_None in Ef. rewrite Forall_forall in Ef. by destruct (Ef it Hin). }
  apply list_find_Some in Ef as (Hx & He & _). assert (x = it) as -> by (apply Huniq; [apply list_elem_of_lookup; by exists i|done]).
  assert (uint_wrap 64 (Scheduler.Count (mark_item it)) = Scheduler.Count it + 1) as ->
    by (rewrite Em; unfold uint_wrap; apply Z.mod_small; lia).
  destruct (pool_Add_spec now (dirtyPool cm) (Scheduler.ID it) (Scheduler.Count it + 1) Hp ltac:(lia)) as [Hp' Hcount].
  split_and!; [|apply Hids|done|intros x' ??; apply Hel; by right|].
  - split; [rewrite Hids; apply Hl|]. intros x' [->|[Hx' _]]%Hel; [rewrite Em, Ec; lia|]. destruct (io_range _ _ Hl x' Hx'). lia.
  - intros y Hy. destruct (decide (Scheduler.ID it = Scheduler.ID y)) as [Hey|Hey].
    + rewrite (Huniq y) by done. exists (mark_item it). split; [apply Hel; by left|]. split_and!; [done|lia|lia|].
      rewrite decide_False by done. cbn. rewrite Hcount, decide_True by done. exact (eq_sym Em).
    + exists y. split; [apply Hel; by right|]. split_and!; [done|lia|lia|]. rewrite decide_True by done. cbn. rewrite Hcount. by rewrite decide_False.
Qed.

Context (preferMasterHost : string).

(** A pair: two different hosts are used once each. *)
Lemma pair_spec bound l cm target l' cm' : items_ok bound l → bound < 2 ^ 63 - 2 → pool_ok (dirtyPool cm) →
  getSchedBackupResult sort_reverse now preferMasterHost preferBackupHost l cm = Ret (target, l', cm') →
  preferMasterHost = "" ∧ good_pair (Scheduler.ID <$> l) preferBackupHost target ∧ items_ok (bound + 2) l' ∧
  Scheduler.ID <$> l' ≡ₚ Scheduler.ID <$> l ∧ pool_ok (dirtyPool cm') ∧
  ∀ x, x ∈ l → ∃ x', x' ∈ l' ∧ used_by (uses (Scheduler.ID x) [target]) cm cm' x x'.
Proof.
  intros Hl Hb Hp. unfold getSchedBackupResult. destruct (selectMasterHost _ _ _) as [m|] eqn:Em; [|done].
  destruct (selectBackupHost _ _ _) as [b|] eqn:Eb; [|done]. apply master_spec in Em as (Hpm & Hm & Hcm & Hnb).
  apply backup_spec in Eb as (Hbl & Hne & Hcb & Hpb). pose proof (io_range _ _ Hl b Hbl) as [_ Hbr].
  destruct (mark_spec bound l cm m Hl ltac:(lia) Hp Hm Hcm) as (Hl1 & Hid1 & Hp1 & Hrest & Hu1).
  destruct (markHostUsed now (Scheduler.ID m) (l, cm)) as [l1 cm1]. cbn [fst snd] in *.
  destruct (mark_spec (bound + 1) l1 cm1 b Hl1 ltac:(lia) Hp1 (Hrest b Hbl Hne) ltac:(lia)) as (Hl2 & Hid2 & Hp2 & _ & Hu2).
  destruct (markHostUsed now (Scheduler.ID b) (l1, cm1)) as [l2 cm2]. cbn [fst snd] in *. intros [= <- <- <-].
  split_and!; [done| | | |done|].
  - cbn. split_and!; [congruence|by apply (list_elem_of_fmap_2 Scheduler.ID _ m)|by apply (list_elem_of_fmap_2 Scheduler.ID _ b)|done|done].
  - split; [rewrite sort_perm; apply Hl2|]. intros x Hx. rewrite sort_perm in Hx. destruct (io_range _ _ Hl2 x Hx). lia.
  - by rewrite sort_perm, Hid2, Hid1.
  - intros x Hx. destruct (Hu1 x Hx) as (x1 & Hx1 & U1). destruct (Hu2 x1 Hx1) as (x2 & Hx2 & U2). exists x2.
    split; [by rewrite sort_perm|]. destruct U1 as [Ei U1']. rewrite Ei in U2.
    assert (uses (Scheduler.ID x) [MkResource (Scheduler.ID m) (Scheduler.Allocated m) (Some (ToCandidateResource b))] =
      (if decide (Scheduler.ID m = Scheduler.ID x) then 1 else 0) + (if decide (Scheduler.ID b = Scheduler.ID x) then 1 else 0)) as ->.
    { unfold uses. cbn. rewrite !count_of_cons. change (count_of (Scheduler.ID x) []) with 0. lia. }
    eapply (used_by_trans _ _ cm cm1 cm2 x x1 x2); [| |by split|exact U2]; [by destruct (decide (Scheduler.ID m = _))|by destruct (decide (Scheduler.ID b = _))].
Qed.

Lemma uses_cons h r l : uses h (r :: l) = uses h [r] + uses h l.
Proof. unfold uses. cbn [mbind list_bind]. rewrite app_nil_r. apply count_of_app. Qed.

(** The whole answer. *)
Lemma answer_spec n : ∀ bound l cm answers l' cm', items_ok bound l → bound + 2 * Z.of_nat n < 2 ^ 63 - 2 → pool_ok (dirtyPool cm) →
  newBackupSchedResult sort_reverse now preferMasterHost preferBackupHost n l cm = (answers, l', cm') →
  length answers = n ∧ Forall (good_pair (Scheduler.ID <$> l) preferBackupHost) answers ∧
  (preferMasterHost ≠ "" → answers = replicate n (ErrorResource "Can't find master host")) ∧
  ∀ x, x ∈ l → ∃ x', 0 ≤ Scheduler.ItemCapacity x' ∧ used_by (uses (Scheduler.ID x) answers) cm cm' x x'.
Proof.
  induction n as [|n IH]; intros bound l cm answers l' cm' Hl Hb Hp; cbn [newBackupSchedResult].
  { intros [= <- <- <-]. split_and!; [done|constructor|done|]. intros x Hx. exists x. split; [by apply (io_range _ _ Hl)|].
    change (uses (Scheduler.ID x) []) with 0. split_and!; [done|lia|lia|done]. }
  destruct (getSchedBackupResult _ _ _ _ _ _) as [[[target l1] cm1]|e| |] eqn:Eg.
  - destruct (pair_spec bound l cm target l1 cm1 Hl ltac:(lia) Hp Eg) as (Hpm & Hgood & Hl1 & Hid1 & Hp1 & Hu1).
    destruct (newBackupSchedResult _ _ _ _ n l1 cm1) as [[rest l2] cm2] eqn:Er. intros [= <- <- <-].
    destruct (IH (bound + 2) l1 cm1 rest l2 cm2 Hl1 ltac:(lia) Hp1 Er) as (Hlen & Hall & _ & Hu2).
    split_and!; [cbn; by f_equal| |done|].
    + constructor; [done|]. eapply Forall_impl; [exact Hall|]. intros [m ds [[b bs [|]|]|]|]; cbn; try done. intros (? & ? & ? & ? & ?).
      rewrite <- Hid1. by split_and!.
    + intros x Hx. destruct (Hu1 x Hx) as (x1 & Hx1 & U1). destruct (Hu2 x1 Hx1) as (x2 & Hx2 & U2). exists x2. split; [done|].
      rewrite uses_cons. destruct U1 as [Ei U1']. rewrite Ei in U2. eapply used_by_trans; [| |split; [exact Ei|exact U1']|exact U2]; apply count_of_nonneg.
  - destruct (newBackupSchedResult _ _ _ _ n l cm) as [[rest l2] cm2] eqn:Er. intros [= <- <- <-].
    destruct (IH bound l cm rest l2 cm2 Hl ltac:(lia) Hp Er) as (Hlen & Hall & Hpm & Hu).
    split_and!; [cbn; by f_equal|by constructor| |done].
    intros Hne. cbn. f_equal; [|by apply Hpm]. unfold getSchedBackupResult in Eg.
    destruct (selectMasterHost l preferMasterHost preferBackupHost) as [m|] eqn:Em; [|by injection Eg as <-].
    by apply master_spec in Em as [? _].
  - exfalso. unfold getSchedBackupResult in Eg. destruct (selectMasterHost _ _ _); [|done]. destruct (selectBackupHost _ _ _); [|done].
    by destruct (markHostUsed _ _ _).
  - exfalso. unfold getSchedBackupResult in Eg. destruct (selectMasterHost _ _ _); [|done]. destruct (selectBackupHost _ _ _); [|done].
    by destruct (markHostUsed _ _ _).
Qed.

End Proofs.

End BackupProofs.
