(* ===== verification/TaskQueueProofs.v ===== *)
(** * Every task of the scheduler service is answered once, in the order of its queue *)

From S2P Require Import Prelude SchedInfo Scheduler Unit HostDesc Candidates CandidateCache CandidateManager SchedService.
From Stdlib Require Import Sorting.Sorted.
Import Candidates CandidateCache CandidateManager SchedService.
Local Open Scope Z_scope.
Local Open Scope go_scope.

Module TaskQueueProofs.

Section TaskQueue.
Context {E : Type} (schedule : SchedInfo.SchedInfo → list Candidater → outcome E (list item * list (string * Z))).
Context (ttl : Z) (range : ∀ B, gmap string B → list (string * B)).
Context (QueueLength ExpireQueueMaxLength : nat).
Abbreviation Srv := (Service E).
Abbreviation key_of t := (queue_key (t_info t)).

(** Events with the time and what can be read of the database. *)
Definition step : Type := ((string → option (list string) → option (list Candidater)) * Z * event).

Fixpoint service_run (s : Srv) (evs : list step) : outcome unit Srv :=
  match evs with
  | [] => Ret s
  | (read, now, e) :: evs =>
    let! s := exec schedule ttl range QueueLength ExpireQueueMaxLength read now s e in service_run s evs
  end.

(** Where a task is, by the status of its executor: in its queue, being executed, or answered. *)
Definition place (s : Srv) (i : nat) (t : Task E) (st : ExecutorStatus) : Prop :=
  match st with
  | Waiting => waitClosed t = false ∧ (∃ q, queues s !! key_of t = Some q ∧ i ∈ q) ∧ ∀ x, current s !! key_of t ≠ Some (i, x)
  | Running => waitClosed t = false ∧ ∃ x, current s !! key_of t = Some (i, x)
  | Success => waitClosed t = true ∧ (∃ items, resultItems t = Some items) ∧ resultError t = None
  | Failed => waitClosed t = true ∧ (∃ e, resultError t = Some e) ∧ resultItems t = None
  | Killed => False
  end.

Record queues_ok (s : Srv) : Prop := {
  q_len : length (tasks s) = length (executors s);
  q_task : ∀ i te, executors s !! i = Some te → te_task te = i;
  q_ids : ∀ i t, tasks s !! i = Some t → taskExecutors t = [] ∨ taskExecutors t = [i] ∧ adding s ≠ Some i;
  q_fresh : ∀ i t, tasks s !! i = Some t → waitClosed t = false → completedCount t = 0 ∧ resultItems t = None ∧ resultError t = None;
  q_adding : ∀ i, adding s = Some i → (i < length (tasks s))%nat;
  q_place : ∀ i t te, tasks s !! i = Some t → executors s !! i = Some te → place s i t (Status te);
  q_queue : ∀ key q, queues s !! key = Some q → StronglySorted lt q ∧
    Forall (λ i, ∃ t te, tasks s !! i = Some t ∧ key_of t = key ∧ executors s !! i = Some te ∧ Status te = Waiting) q;
  q_current : ∀ key i x, current s !! key = Some (i, x) →
    (x ≠ Panic ∧ x ≠ OutOfFuel) ∧ ∃ t te, tasks s !! i = Some t ∧ key_of t = key ∧ executors s !! i = Some te ∧ Status te = Running;
  q_order : ∀ i j ti tj tei tej, tasks s !! i = Some ti → tasks s !! j = Some tj → executors s !! i = Some tei →
    executors s !! j = Some tej → key_of ti = key_of tj → (i < j)%nat → Status tei = Waiting → Status tej = Waiting }.

Lemma ok_new : queues_ok NewService.
Proof. by split; cbn. Qed.

(** An event that leaves tasks and queues alone. *)
Lemma ok_frame (s s' : Srv) : queues_ok s → tasks s' = tasks s → executors s' = executors s → queues s' = queues s →
  current s' = current s → adding s' = adding s → queues_ok s'.
Proof. intros Hs. destruct s, s'. cbn. intros -> -> -> -> ->. destruct Hs. by split. Qed.

Lemma lookup_snoc {A} (l : list A) x i y : (l ++ [x]) !! i = Some y → l !! i = Some y ∨ i = length l ∧ y = x.
Proof.
  intros [Hl|[Hge Hl]]%lookup_app_Some; [by left|right]. destruct (i - length l)%nat as [|n] eqn:Ei; cbn in Hl; [|done].
  injection Hl as <-. split; [lia|done].
Qed.

Lemma ok_submit s d s' : queues_ok s → submit QueueLength s d = Some s' → queues_ok s'.
Proof.
  intros Hs. unfold submit. set (q0 := default [] (queues s !! queue_key d)). case_bool_decide as Had; [|done]. case_bool_decide; [|done]. cbn [andb].
  intros [= <-]. pose proof (q_len _ Hs) as Hlen.
  assert (StronglySorted lt q0 ∧ Forall (λ i, ∃ t te, tasks s !! i = Some t ∧ key_of t = queue_key d ∧ executors s !! i = Some te ∧ Status te = Waiting) q0)
    as [Hsort Hq0].
  { subst q0. destruct (queues s !! queue_key d) as [q|] eqn:Eq; [by apply (q_queue _ Hs)|]. split; constructor. }
  set (i0 := length (tasks s)) in *.
  assert (∀ i (t : Task E), tasks s !! i = Some t → (i < i0)%nat) as Hlt by (intros i t Ht; by apply lookup_lt_Some in Ht).
  split; cbn [tasks executors queues current adding].
  - rewrite !length_app. cbn. subst i0. lia.
  - intros i te [Ht|[-> ->]]%lookup_snoc; [by apply (q_task _ Hs)|cbn; lia].
  - intros i t [Ht|[-> ->]]%lookup_snoc; [|by left]. destruct (q_ids _ Hs i t Ht) as [?|[? _]]; [by left|right]. split; [done|].
    intros [= <-]. apply Hlt in Ht. lia.
  - intros i t [Ht|[-> ->]]%lookup_snoc; [by apply (q_fresh _ Hs i t)|done].
  - intros i [= <-]. rewrite length_app. cbn. lia.
  - intros i t te [Ht|[-> ->]]%lookup_snoc [He|[Hi ->]]%lookup_snoc; try (apply lookup_lt_Some in Ht; lia); try (apply lookup_lt_Some in He; lia).
    + pose proof (q_place _ Hs i t te Ht He) as Hp. destruct (Status te); try done. destruct Hp as (Hw & (q & Hq & Hin) & Hc). split_and!; [done| |done].
      cbn [queues]. destruct (decide (key_of t = queue_key d)) as [Hk|Hk].
      * rewrite Hk, lookup_insert_eq. eexists. split; [done|]. apply elem_of_app. left. subst q0. rewrite <- Hk, Hq. done.
      * rewrite lookup_insert_ne by done. by exists q.
    + cbn. rewrite lookup_insert_eq. split_and!; [done|eexists; split; [done|]; apply elem_of_app; right; by left|].
      intros x Hx. destruct (q_current _ Hs _ _ _ Hx) as (_ & t & te & Ht & _). apply Hlt in Ht. lia.
  - assert (∀ key q, Forall (λ i, ∃ t te, tasks s !! i = Some t ∧ key_of t = key ∧ executors s !! i = Some te ∧ Status te = Waiting) q →
      Forall (λ i, ∃ t te, (tasks s ++ [NewTask d]) !! i = Some t ∧ key_of t = key ∧
        (executors s ++ [NewTaskExecutor i0]) !! i = Some te ∧ Status te = Waiting) q) as Hmono.
    { intros key q Hq. eapply Forall_impl; [exact Hq|]. intros i (t & te & ? & ? & ? & ?). exists t, te. split_and!; try done; by apply lookup_app_l_Some. }
    intros key q Hq. destruct (decide (key = queue_key d)) as [->|Hk].
    + rewrite lookup_insert_eq in Hq. injection Hq as <-. split.
      * apply StronglySorted_app. split_and!; [|done|repeat constructor]. intros i j Hi ->%list_elem_of_singleton. rewrite Forall_forall in Hq0.
        destruct (Hq0 i Hi) as (t & _ & Ht & _). by eapply Hlt.
      * apply Forall_app. split; [by apply Hmono|]. constructor; [|constructor]. exists (NewTask d), (NewTaskExecutor i0).
        split_and!; [by rewrite lookup_app_r, Nat.sub_diag by done|done| |done]. rewrite lookup_app_r by (subst i0; lia).
        subst i0. by rewrite Hlen, Nat.sub_diag.
    + rewrite lookup_insert_ne in Hq by done. destruct (q_queue _ Hs key q Hq). split; [done|by apply Hmono].
  - intros key i x Hx. destruct (q_current _ Hs key i x Hx) as (? & t & te & ? & ? & ? & ?). split; [done|]. exists t, te. split_and!; try done; by apply lookup_app_l_Some.
  - intros i j ti tj tei tej [Hti|[-> ->]]%lookup_snoc [Htj|[-> ->]]%lookup_snoc [Hei|[Hi ->]]%lookup_snoc [Hej|[Hj ->]]%lookup_snoc Hk Hij Hw;
      try done; try (by eapply (q_order _ Hs i j)); repeat match goal with H : _ !! _ = Some _ |- _ => apply lookup_lt_Some in H end; lia.
Qed.

Lemma ok_attach s s' : queues_ok s → attach s = Some s' → queues_ok s'.
Proof.
  intros Hs. unfold attach. destruct (adding s) as [a|] eqn:Ea; cbn; [|done]. intros [= <-].
  set (f := λ t : Task E, MkTask _ _ _ _ _ _).
  assert (∀ i t, alter f a (tasks s) !! i = Some t → ∃ t0, tasks s !! i = Some t0 ∧ t_info t = t_info t0 ∧ waitClosed t = waitClosed t0 ∧
    completedCount t = completedCount t0 ∧ resultItems t = resultItems t0 ∧ resultError t = resultError t0 ∧
    (taskExecutors t = taskExecutors t0 ∨ i = a ∧ taskExecutors t = taskExecutors t0 ++ [a])) as Hinv.
  { intros i t Ht. destruct (decide (i = a)) as [->|Hne].
    - rewrite list_lookup_alter_eq in Ht. destruct (tasks s !! a) as [t0|]; cbn in Ht; [|done]. injection Ht as <-. exists t0. split_and!; try done. by right.
    - rewrite list_lookup_alter_ne in Ht by done. exists t. split_and!; try done. by left. }
  assert (∀ i t0, tasks s !! i = Some t0 → ∃ t, alter f a (tasks s) !! i = Some t ∧ t_info t = t_info t0) as Hfwd.
  { intros i t0 Ht. destruct (decide (i = a)) as [->|Hne].
    - exists (f t0). rewrite list_lookup_alter_eq, Ht. done.
    - exists t0. by rewrite list_lookup_alter_ne. }
  split; cbn [tasks executors queues current adding].
  - rewrite length_alter. apply Hs.
  - apply Hs.
  - intros i t Ht. destruct (Hinv i t Ht) as (t0 & Ht0 & _ & _ & _ & _ & _ & Hids). destruct (q_ids _ Hs i t0 Ht0) as [E0|[E0 Hn]], Hids as [->|[-> ->]].
    + by left.
    + right. by rewrite E0.
    + right. done.
    + by destruct Hn.
  - intros i t Ht Hw. destruct (Hinv i t Ht) as (t0 & Ht0 & _ & Ew & -> & -> & -> & _). apply (q_fresh _ Hs i t0 Ht0). congruence.
  - done.
  - intros i t te Ht He. destruct (Hinv i t Ht) as (t0 & Ht0 & Ei & Ew & _ & Er & Ee & _). pose proof (q_place _ Hs i t0 te Ht0 He) as Hp.
    unfold place. cbn [queues current]. rewrite Ei, Ew, Er, Ee. exact Hp.
  - intros key q Hq. destruct (q_queue _ Hs key q Hq) as [? Hall]. split; [done|]. eapply Forall_impl; [exact Hall|]. intros i (t & te & Ht & Hk & He & Hw).
    destruct (Hfwd i t Ht) as (t' & Ht' & Ei). exists t', te. rewrite Ei. done.
  - intros key i x Hx. destruct (q_current _ Hs key i x Hx) as (? & t & te & Ht & Hk & He & Hw). split; [done|].
    destruct (Hfwd i t Ht) as (t' & Ht' & Ei). exists t', te. rewrite Ei. done.
  - intros i j ti tj tei tej Hti Htj Hei Hej Hk Hij. destruct (Hinv i ti Hti) as (ti0 & Hti0 & Ei & _), (Hinv j tj Htj) as (tj0 & Htj0 & Ej & _).
    eapply (q_order _ Hs i j ti0 tj0); try done. congruence.
Qed.

(** A step of one executor: the head of a queue is taken, or the current task is answered. *)
Lemma sorted_head i q : StronglySorted lt (i :: q) → StronglySorted lt q ∧ i ∉ q ∧ ∀ j, j ∈ q → (i < j)%nat.
Proof.
  intros [Hs Hall]%StronglySorted_inv. rewrite List.Forall_forall in Hall. split_and!; [done| |].
  - intros Hin. specialize (Hall i). rewrite <- list_elem_of_In in Hall. specialize (Hall Hin). lia.
  - intros j Hj. apply Hall. by apply list_elem_of_In.
Qed.

Lemma ok_take s key i q x te : queues_ok s → current s !! key = None → queues s !! key = Some (i :: q) → executors s !! i = Some te → x ≠ Panic ∧ x ≠ OutOfFuel →
  ∀ s', tasks s' = tasks s → executors s' = <[i := with_status Running te]> (executors s) → queues s' = <[key := q]> (queues s) →
  current s' = <[key := (i, x)]> (current s) → adding s' = adding s → queues_ok s'.
Proof.
  intros Hs Hc Hq He Hx s' E1 E2 E3 E4 E5. destruct (q_queue _ Hs key (i :: q) Hq) as [Hsort Hall].
  apply sorted_head in Hsort as (Hsort & Hni & Hlt). apply Forall_cons in Hall as [(t0 & te0 & Ht0 & Hk0 & He0 & Hw0) Hall].
  rewrite He in He0. injection He0 as <-.
  assert (∀ j te', executors s' !! j = Some te' → j = i ∧ te' = with_status Running te ∨ j ≠ i ∧ executors s !! j = Some te') as Hinv.
  { intros j te'. rewrite E2. intros [(-> & <- & _)|[? ?]]%list_lookup_insert_Some; [by left|right]. split; [congruence|done]. }
  assert (executors s' !! i = Some (with_status Running te)) as Hi by (rewrite E2; apply list_lookup_insert_eq; by eapply lookup_lt_Some).
  assert (∀ j te', j ≠ i → executors s !! j = Some te' → executors s' !! j = Some te') as Hfwd
    by (intros j te' Hj Hte; rewrite E2, list_lookup_insert_ne; done).
  split; rewrite ?E1, ?E5; try apply Hs.
  - rewrite E2, length_insert. apply Hs.
  - intros j te' [[-> ->]|[_ Hj]]%Hinv; [exact (q_task _ Hs i te He)|by apply (q_task _ Hs)].
  - intros j t te' Ht [[-> ->]|[Hj He']]%Hinv; unfold place; rewrite ?E3, ?E4.
    + rewrite Ht0 in Ht. injection Ht as <-. cbn. rewrite Hk0, lookup_insert_eq. split; [|by eexists].
      pose proof (q_place _ Hs i t0 te Ht0 He) as Hp. rewrite Hw0 in Hp. apply Hp.
    + pose proof (q_place _ Hs j t te' Ht He') as Hp. destruct (Status te'); try done.
      * destruct Hp as (Hw & (q' & Hq' & Hin) & Hcur). split; [done|]. destruct (decide (key_of t = key)) as [Hk|Hk].
        -- rewrite Hk, !lookup_insert_eq. rewrite Hk, Hq in Hq'. injection Hq' as <-. split; [|congruence].
           eexists. split; [done|]. by apply elem_of_cons in Hin as [?|?].
        -- rewrite !lookup_insert_ne by done. split; [by exists q'|done].
      * destruct Hp as (Hw & y & Hy). split; [done|]. rewrite lookup_insert_ne; [by exists y|]. intros Hke. rewrite <- Hke in Hy. congruence.
  - intros key' q'. rewrite E3. intros Hq'. destruct (decide (key' = key)) as [->|Hk].
    + rewrite lookup_insert_eq in Hq'. injection Hq' as <-. split; [done|]. apply Forall_forall. intros j Hj. rewrite Forall_forall in Hall.
      destruct (Hall j Hj) as (t & te' & ? & ? & ? & ?). exists t, te'. split_and!; try done. apply Hfwd; [|done]. by intros ->.
    + rewrite lookup_insert_ne in Hq' by done. destruct (q_queue _ Hs key' q' Hq') as [? Hall']. split; [done|].
      eapply Forall_impl; [exact Hall'|]. intros j (t & te' & Ht & ? & ? & ?). exists t, te'. split_and!; try done. apply Hfwd; [|done].
      intros ->. congruence.
  - intros key' j y. rewrite E4. intros Hy. destruct (decide (key' = key)) as [->|Hk].
    + rewrite lookup_insert_eq in Hy. injection Hy as <- <-. split; [done|]. by exists t0, (with_status Running te).
    + rewrite lookup_insert_ne in Hy by done. destruct (q_current _ Hs key' j y Hy) as (? & t & te' & Ht & ? & Hte & Hr). split; [done|].
      exists t, te'. split_and!; try done. apply Hfwd; [|done]. intros ->. congruence.
  - intros j k tj tk tej tek Htj Htk [[-> ->]|[Hj Hej]]%Hinv [[-> ->]|[Hkk Hek]]%Hinv Hkey Hjk Hw; try done.
    + exfalso. pose proof (q_place _ Hs j tj tej Htj Hej) as Hp. rewrite Hw in Hp. destruct Hp as (_ & (q' & Hq' & Hin) & _).
      assert (key_of tj = key) as Hkj by congruence. rewrite Hkj, Hq in Hq'. injection Hq' as <-. apply elem_of_cons in Hin as [?|Hin]; [done|].
      apply Hlt in Hin. lia.
    + by eapply (q_order _ Hs j k).
Qed.

Lemma ok_answer s key i x t t' te' : queues_ok s → current s !! key = Some (i, x) → tasks s !! i = Some t →
  t_info t' = t_info t → taskExecutors t' = taskExecutors t → te_task te' = i → waitClosed t' = true →
  (Status te' = Success ∧ (∃ items, resultItems t' = Some items) ∧ resultError t' = None ∨
   Status te' = Failed ∧ (∃ e, resultError t' = Some e) ∧ resultItems t' = None) →
  ∀ s', tasks s' = <[i := t']> (tasks s) → executors s' = <[i := te']> (executors s) → queues s' = queues s →
  current s' = delete key (current s) → adding s' = adding s → queues_ok s'.
Proof.
  intros Hs Hc Ht Hinfo Hids Hte Hw Hres s' E1 E2 E3 E4 E5.
  destruct (q_current _ Hs key i x Hc) as (_ & t0 & te & Ht0 & Hkey & He & Hrun). rewrite Ht in Ht0. injection Ht0 as <-.
  assert (Status te' ≠ Waiting ∧ Status te' ≠ Running) as [Hnw Hnr] by (destruct Hres as [[-> _]|[-> _]]; done).
  assert (∀ j te1, executors s' !! j = Some te1 → j = i ∧ te1 = te' ∨ j ≠ i ∧ executors s !! j = Some te1) as Hinve.
  { intros j te1. rewrite E2. intros [(-> & <- & _)|[? ?]]%list_lookup_insert_Some; [by left|right]. split; [congruence|done]. }
  assert (∀ j t1, tasks s' !! j = Some t1 → j = i ∧ t1 = t' ∨ j ≠ i ∧ tasks s !! j = Some t1) as Hinvt.
  { intros j t1. rewrite E1. intros [(-> & <- & _)|[? ?]]%list_lookup_insert_Some; [by left|right]. split; [congruence|done]. }
  assert (∀ j te1, j ≠ i → executors s !! j = Some te1 → executors s' !! j = Some te1) as Hfwde
    by (intros j te1 Hj Hj1; rewrite E2, list_lookup_insert_ne; done).
  assert (∀ j t1, j ≠ i → tasks s !! j = Some t1 → tasks s' !! j = Some t1) as Hfwdt
    by (intros j t1 Hj Hj1; rewrite E1, list_lookup_insert_ne; done).
  split; rewrite ?E5.
  - rewrite E1, E2, !length_insert. apply Hs.
  - intros j te1 [[-> ->]|[_ Hj]]%Hinve; [done|by apply (q_task _ Hs)].
  - intros j t1 [[-> ->]|[_ Hj]]%Hinvt; [rewrite Hids|]; by apply (q_ids _ Hs).
  - intros j t1 [[-> ->]|[_ Hj]]%Hinvt; [congruence|by apply (q_fresh _ Hs j)].
  - rewrite E1, length_insert. apply Hs.
  - intros j t1 te1 [[-> ->]|[Hj Hj1]]%Hinvt [[Hj' ->]|[Hj' Hj2]]%Hinve; try congruence.
    + unfold place. destruct Hres as [(-> & ?)|(-> & ?)]; done.
    + pose proof (q_place _ Hs j t1 te1 Hj1 Hj2) as Hp. unfold place in *. rewrite E3, E4. destruct (Status te1); try done.
      * destruct Hp as (? & ? & Hcur). split_and!; [done|done|]. intros y [_ Hy]%lookup_delete_Some. by apply (Hcur y).
      * destruct Hp as (? & y & Hy). split; [done|]. exists y. apply lookup_delete_Some. split; [|done]. intros Hke. rewrite <- Hke, Hc in Hy. congruence.
  - rewrite E3. intros key' q Hq. destruct (q_queue _ Hs key' q Hq) as [? Hall]. split; [done|]. eapply Forall_impl; [exact Hall|].
    intros j (t1 & te1 & Ht1 & ? & He1 & ?). assert (j ≠ i) by (intros ->; congruence). exists t1, te1. split_and!; auto.
  - rewrite E4. intros key' j y [Hne Hy]%lookup_delete_Some. destruct (q_current _ Hs key' j y Hy) as (? & t1 & te1 & Ht1 & Hk1 & He1 & Hr1). split; [done|].
    assert (j ≠ i) by (intros ->; congruence). exists t1, te1. split_and!; auto.
  - assert (∀ j t1, tasks s' !! j = Some t1 → ∃ t2, tasks s !! j = Some t2 ∧ t_info t2 = t_info t1) as Hsame.
    { intros j t1 [[-> ->]|[_ Hj]]%Hinvt; [by exists t|by exists t1]. }
    intros j k tj tk tej tek Htj Htk Hej Hek Hkk Hjk Hwt. destruct (Hsame _ _ Htj) as (tj0 & Htj0 & Ej), (Hsame _ _ Htk) as (tk0 & Htk0 & Ek).
    rewrite <- Ej, <- Ek in Hkk. destruct (Hinve _ _ Hej) as [[-> ->]|[Hji Hej0]]; [done|].
    destruct (Hinve _ _ Hek) as [[-> ->]|[Hki Hek0]]; [|by eapply (q_order _ Hs j k)].
    pose proof (q_order _ Hs j i tj0 tk0 tej te Htj0 Htk0 Hej0 He Hkk Hjk Hwt). congruence.
Qed.

(** Killing the executors of an answered task does nothing. *)
Lemma kill_answered (l : list (TaskExecutor E)) i te ids : Status te ≠ Waiting → ids = [] ∨ ids = [i] → l !! i = Some te →
  foldl (λ l i, alter Kill i l) l ids = l.
Proof.
  intros Hst [->| ->] Hl; cbn; [done|]. apply list_eq. intros j. destruct (decide (j = i)) as [->|Hne].
  - rewrite list_lookup_alter_eq, Hl. cbn. unfold Kill. by rewrite decide_False.
  - by rewrite list_lookup_alter_ne.
Qed.

(** The current task can be answered, unless the scheduler panics. *)
Lemma complete_spec s now key i x r dirty : queues_ok s → current s !! key = Some (i, x) →
  match complete now key i i r dirty s with
  | Ret s' => queues_ok s' ∧ ∃ t, tasks s' !! i = Some t ∧ waitClosed t = true
  | Fail _ => False
  | Panic => r = Panic
  | OutOfFuel => r = OutOfFuel
  end.
Proof.
  intros Hs Hc. destruct (q_current _ Hs key i x Hc) as (_ & t & te & Ht & Hkey & He & Hrun).
  pose proof (q_place _ Hs i t te Ht He) as Hp. rewrite Hrun in Hp. destruct Hp as [Hw _]. destruct (q_fresh _ Hs i t Ht Hw) as (Hn & Hri & Hre).
  assert (i < length (executors s))%nat as Hlen by (by eapply lookup_lt_Some).
  assert (taskExecutors t = [] ∨ taskExecutors t = [i]) as Hte by (destruct (q_ids _ Hs i t Ht) as [?|[? _]]; auto).
  assert (∀ t', waitClosed t' = true → ∃ t1, <[i := t']> (tasks s) !! i = Some t1 ∧ waitClosed t1 = true) as Hans.
  { intros t' Hw'. exists t'. split; [|done]. apply list_lookup_insert_eq. by eapply lookup_lt_Some. }
  unfold complete, onTaskCompleted. cbn [te_task tasks]. rewrite Ht. cbn [of_opt obind].
  destruct r as [items|e| |]; cbn [completedCount waitClosed taskExecutors close_wait]; [|..|done|done].
  - rewrite Hn. replace (Z.of_nat (length (taskExecutors t)) <=? 0 + 1) with true by (destruct Hte as [->| ->]; done).
    unfold close_wait. cbn [waitClosed]. rewrite Hw. cbn [obind]. split; [|by apply Hans].
    eapply (ok_answer s key i x t); [done|done|done| | | | | |done|done|done|done|done]; try done. left. split_and!; [done|by eexists|done].
  - unfold close_wait. cbn [waitClosed]. rewrite Hw. cbn [obind executors taskExecutors].
    pose proof (kill_answered (<[i := MkExecutor i Failed (Some (Fail e)) true]> (executors s)) i (MkExecutor i Failed (Some (Fail e)) true)
      (taskExecutors t) ltac:(done) Hte ltac:(by apply list_lookup_insert_eq)) as Hk. split; [|by apply Hans].
    eapply (ok_answer s key i x t); [done|done|done| | | | | |done|exact Hk|done|done|done]; try done. right. split_and!; [done|by eexists|done].
Qed.

(** ** Candidates *)

Lemma get_loop_fuel now cm args cs : get_loop now cm args cs ≠ OutOfFuel.
Proof.
  induction cs as [|c cs IH]; cbn [get_loop]; [done|]. destruct (DirtyPoolHas _ _ _); [done|].
  unfold matchRegion, matchZone. destruct (String.eqb (RegionID args) ""); cbn [obind].
  2: destruct (HostDesc.Region _); cbn [of_opt obind]; [|done].
  all: destruct (negb _); [done|]; destruct (String.eqb (ZoneID args) ""); cbn [obind].
  2,4: destruct (HostDesc.Zone _); cbn [of_opt obind]; [|done].
  all: destruct (_ || _); [done|]; destruct (get_loop now cm args cs); cbn [obind]; done.
Qed.

Lemma get_loop_fail now cm args cs e : get_loop now cm args cs ≠ Fail e.
Proof.
  induction cs as [|c cs IH]; cbn [get_loop]; [done|]. destruct (DirtyPoolHas _ _ _); [done|].
  unfold matchRegion, matchZone. destruct (String.eqb (RegionID args) ""); cbn [obind].
  2: destruct (HostDesc.Region _); cbn [of_opt obind]; [|done].
  all: destruct (negb _); [done|]; destruct (String.eqb (ZoneID args) ""); cbn [obind].
  2,4: destruct (HostDesc.Zone _); cbn [of_opt obind]; [|done].
  all: destruct (_ || _); [done|]; destruct (get_loop now cm args cs); cbn [obind]; congruence.
Qed.

Lemma ids_loop_fuel read now resType pool ids : ∀ impl, (ids_loop ttl read now resType pool impl ids).1 ≠ OutOfFuel.
Proof.
  induction ids as [|key ids IH]; intros impl; cbn [ids_loop]; [done|]. destruct (pool_HasByKey _ _ _); [done|].
  unfold impl_GetCandidate, cache_Get. destruct (getOrExpire _ _ _ _) as [[x|] st]; cbn [lift_cache].
  2: destruct (read resType (Some [key])) as [[|x l]|]; cbn [lift_cache]; [done| |done].
  all: match goal with |- context [ids_loop _ _ _ _ _ ?i _] => specialize (IH i); destruct (ids_loop ttl read now resType pool i ids) as [rest ?] end.
  all: cbn [fst] in *; destruct rest; cbn [obind]; done.
Qed.

Lemma candidates_fuel read now cm d : (candidatesByProvider (E := E) ttl range read now cm d).1 ≠ OutOfFuel.
Proof.
  unfold candidatesByProvider. destruct (SchedInfo.Candidates d) as [|key ids].
  - unfold GetCandidates, getImpl. destruct (impls cm !! _) as [impl|]; cbn [obind]; [|done]. destruct (cache_List _ _ _ _ _) as [l impl'].
    match goal with |- context [get_loop ?a ?b ?c ?d] => pose proof (get_loop_fuel a b c d); destruct (get_loop a b c d) end; cbn [obind]; done.
  - unfold GetCandidatesByIds. destruct (getImpl _ _) as [impl|e| |] eqn:Ei; [| |done|unfold getImpl in Ei; by destruct (_ !! _)].
    + pose proof (ids_loop_fuel read now (CandidateType d) (dirtyPool cm) (key :: ids) impl) as Hf.
      destruct (ids_loop _ _ _ _ _ _ _) as [cs impl']. cbn [fst] in *. by destruct cs.
    + done.
Qed.

(** ** Events *)

(** The goroutine of an idle queue takes its first task. *)
Lemma start_spec s read now key i q : queues_ok s → current s !! key = None → queues s !! key = Some (i :: q) →
  start ttl range read now key s = Panic ∨
  ∃ s' x, start ttl range read now key s = Ret s' ∧ current s' !! key = Some (i, x) ∧ queues_ok s'.
Proof.
  intros Hs Ec Eq. unfold start. rewrite Ec, Eq.
  destruct (q_queue _ Hs key _ Eq) as [_ [(t & te & Ht & Hk & He & Hw) _]%Forall_cons]. cbn [executors]. rewrite He. cbn [of_opt obind].
  rewrite decide_True by done. unfold set_executor. cbn [tasks]. rewrite (q_task _ Hs i te He), Ht. cbn [of_opt obind candidates].
  pose proof (candidates_fuel read now (candidates s) (t_info t)) as Hf.
  destruct (candidatesByProvider _ _ _ _ _ _) as [cs cm]. cbn [fst] in Hf. destruct cs; [right|right|by left|done];
    (eexists _, _; split; [done|]; cbn [current]; rewrite lookup_insert_eq; split; [done|];
     eapply (ok_take s key i q _ te Hs Ec Eq He); [|reflexivity..]; done).
Qed.

Lemma start_takes s read now key i q : queues_ok s → current s !! key = None → queues s !! key = Some (i :: q) →
  start ttl range read now key s = Panic ∨ ∃ s' x, start ttl range read now key s = Ret s' ∧ current s' !! key = Some (i, x).
Proof. intros Hs Hc Hq. destruct (start_spec s read now key i q Hs Hc Hq) as [?|(s' & x & ? & ? & _)]; [by left|right; by exists s', x]. Qed.

Lemma ok_start s read now key s' : queues_ok s → start ttl range read now key s = Ret s' → queues_ok s'.
Proof.
  intros Hs Hst. destruct (current s !! key) as [?|] eqn:Ec; [unfold start in Hst; by rewrite Ec in Hst|].
  destruct (queues s !! key) as [[|i q]|] eqn:Eq; [unfold start in Hst; by rewrite Ec, Eq in Hst| |unfold start in Hst; by rewrite Ec, Eq in Hst].
  destruct (start_spec s read now key i q Hs Ec Eq) as [?|(s1 & x & ? & _ & ?)]; [congruence|]. assert (s1 = s') as -> by congruence. done.
Qed.

(** Listing takes the first task, too; and the check of what was listed replaces its candidates. *)
Lemma ok_start_list s now key s' : queues_ok s → start_list ttl range now key s = Ret s' → queues_ok s'.
Proof.
  intros Hs. unfold start_list. destruct (current s !! key) eqn:Ec; [done|]. destruct (queues s !! key) as [[|i q]|] eqn:Eq; [done| |done].
  destruct (executors s !! i) as [te|] eqn:He; cbn [of_opt obind]; [|done].
  destruct (tasks s !! te_task te) as [t|]; cbn [of_opt obind]; [|done]. destruct (decide (Status te = Waiting)); [|done].
  destruct (SchedInfo.Candidates (t_info t)); [|done]. destruct (impls _ !! _) as [impl|]; [|done]. destruct (cache_List _ _ _ _ _) as [cs impl'].
  intros [= <-]. eapply (ok_take s key i q (Ret []) te Hs Ec Eq He); done.
Qed.

Lemma ok_candidates s key i x x' s' : queues_ok s → current s !! key = Some (i, x) → x' ≠ Panic ∧ x' ≠ OutOfFuel →
  tasks s' = tasks s → executors s' = executors s → queues s' = queues s → adding s' = adding s →
  current s' = <[key := (i, x')]> (current s) → queues_ok s'.
Proof.
  intros Hs Hc Hx E1 E2 E3 E4 E5. split; rewrite ?E1, ?E2, ?E3, ?E4; try apply Hs.
  - intros j t te Ht He. pose proof (q_place _ Hs j t te Ht He) as Hp. unfold place in *. rewrite E3, E5. destruct (Status te); try done.
    + destruct Hp as (? & ? & Hcur). split_and!; [done|done|]. intros y. destruct (decide (key_of t = key)) as [Hk|Hk].
      * rewrite Hk, lookup_insert_eq. intros [= -> _]. apply (Hcur x). by rewrite Hk.
      * rewrite lookup_insert_ne by done. apply Hcur.
    + destruct Hp as (? & y & Hy). split; [done|]. destruct (decide (key_of t = key)) as [Hk|Hk].
      * rewrite Hk in Hy |- *. rewrite lookup_insert_eq. exists x'. congruence.
      * rewrite lookup_insert_ne by done. by exists y.
  - rewrite E5. intros key' j y Hy. destruct (decide (key' = key)) as [->|Hk].
    + rewrite lookup_insert_eq in Hy. injection Hy as <- <-. split; [done|]. by destruct (q_current _ Hs key i x Hc).
    + rewrite lookup_insert_ne in Hy by done. by apply (q_current _ Hs).
Qed.

(** Without another event in between the two steps are those of [start]. *)
Lemma start_in_two_steps (s : Srv) read now key i q te t impl s1 :
  current s !! key = None → listed s !! key = None → queues s !! key = Some (i :: q) → executors s !! i = Some te →
  Status te = Waiting → tasks s !! te_task te = Some t → SchedInfo.Candidates (t_info t) = [] →
  impls (candidates s) !! CandidateType (t_info t) = Some impl → start_list ttl range now key s = Ret s1 →
  check_listed now key s1 = start ttl range read now key s.
Proof.
  intros Hc Hl Hq He Hw Ht Hids Him. unfold start_list, start. rewrite Hc, Hq, He. cbn [of_opt obind executors]. rewrite He.
  cbn [of_opt obind]. rewrite Ht. cbn [of_opt obind]. rewrite Hids, Him. destruct (decide (Status te = Waiting)); [|done].
  destruct (cache_List IndexKey ttl range now impl) as [cs impl'] eqn:El. intros [= <-]. unfold check_listed, set_executor. cbn [current listed tasks candidates].
  rewrite !lookup_insert_eq, Ht. cbn [of_opt obind]. unfold candidatesByProvider, GetCandidates, getImpl. rewrite Hids. cbn [ResType candidate_args].
  rewrite Him. cbn [obind]. rewrite El.
  destruct (get_loop now (AddImpl (candidates s) (CandidateType (t_info t)) impl') (candidate_args (t_info t)) cs) as [l|err| |] eqn:Eg; cbn [obind].
  - by rewrite insert_insert_eq, delete_insert_id.
  - by destruct (get_loop_fail now _ _ _ _ Eg).
  - done.
  - by destruct (get_loop_fuel now (AddImpl (candidates s) (CandidateType (t_info t)) impl') (candidate_args (t_info t)) cs).
Qed.

(** What the goroutine of a queue still has to do before it can answer: check what it has listed. *)
Definition checked (now : Z) (key : string) (s : Srv) : outcome unit Srv :=
  match listed s !! key with Some _ => check_listed now key s | None => Ret s end.

Lemma check_ok s now key i x : queues_ok s → current s !! key = Some (i, x) →
  listed s !! key ≠ None ∧ checked now key s = Panic ∨
  ∃ s' x', checked now key s = Ret s' ∧ queues_ok s' ∧ current s' !! key = Some (i, x') ∧ listed s' !! key = None.
Proof.
  intros Hs Hc. unfold checked. destruct (listed s !! key) as [[args cs]|] eqn:El.
  2: { right. by exists s, x. }
  unfold check_listed. rewrite Hc, El. pose proof (get_loop_fuel now (candidates s) args cs) as Hf.
  destruct (get_loop now (candidates s) args cs) as [l|e| |]; [| |by left|done].
  all: right; eexists _, _; split; [reflexivity|]; split; [eapply (ok_candidates s key i x); [done|done| |reflexivity..]; by split|].
  all: cbn [current listed]; split; [by rewrite lookup_insert_eq|apply lookup_delete_eq].
Qed.

Lemma ok_check s now key s' : queues_ok s → check_listed now key s = Ret s' → queues_ok s'.
Proof.
  intros Hs Hr. destruct (current s !! key) as [[i x]|] eqn:Ec; [|unfold check_listed in Hr; by rewrite Ec in Hr].
  destruct (listed s !! key) as [[args cs]|] eqn:El; [|unfold check_listed in Hr; by rewrite Ec, El in Hr].
  destruct (check_ok s now key i x Hs Ec) as [[_ Hp]|(s1 & x' & Hp & ? & _)]; unfold checked in Hp; rewrite El in Hp; [congruence|].
  assert (s1 = s') as -> by congruence. done.
Qed.

Lemma finish_ok s now key i x : queues_ok s → current s !! key = Some (i, x) → listed s !! key = None →
  match finish schedule now key s with
  | Ret s' => queues_ok s' ∧ ∃ t, tasks s' !! i = Some t ∧ waitClosed t = true
  | Fail _ => False
  | _ => ∃ d cs, schedule d cs = Panic ∨ schedule d cs = OutOfFuel
  end.
Proof.
  intros Hs Hc Hl. destruct (q_current _ Hs key i x Hc) as ([Hx1 Hx2] & t & te & Ht & _ & He & _). unfold finish. rewrite Hc, Hl, He. cbn [of_opt obind].
  rewrite (q_task _ Hs i te He), Ht. cbn [of_opt obind]. destruct (execute schedule (t_info t) x) as [r dirty] eqn:Ex.
  assert (r = Panic ∨ r = OutOfFuel → ∃ d cs, schedule d cs = Panic ∨ schedule d cs = OutOfFuel) as Hbad.
  { intros Hr. unfold execute in Ex. destruct x as [cs|e| |]; try done.
    - exists (t_info t), cs. destruct (schedule (t_info t) cs) as [[items ds]|e| |]; auto; simplify_eq; by destruct Hr.
    - simplify_eq. by destruct Hr. }
  pose proof (complete_spec s now key i x r dirty Hs Hc) as Hspec. destruct (complete _ _ _ _ _ _ _); auto.
Qed.

Lemma ok_exec s read now e s' : queues_ok s → exec schedule ttl range QueueLength ExpireQueueMaxLength read now s e = Ret s' → queues_ok s'.
Proof.
  intros Hs. destruct e as [d| |key|key|key|key|args| |n|n|timeout|resType|resType ids|resType|n]; cbn [exec].
  - destruct (submit _ _ _) eqn:Es; [|done]. intros [= <-]. by eapply ok_submit.
  - destruct (attach _) eqn:Es; [|done]. intros [= <-]. by eapply ok_attach.
  - by apply ok_start.
  - by apply ok_start_list.
  - by apply ok_check.
  - intros Hf. destruct (current s !! key) as [[i x]|] eqn:Ec; [|unfold finish in Hf; by rewrite Ec in Hf].
    destruct (listed s !! key) as [?|] eqn:El; [unfold finish in Hf; by rewrite Ec, El in Hf|].
    pose proof (finish_ok s now key i x Hs Ec El) as Hok. rewrite Hf in Hok. apply Hok.
  - unfold Expire. case_bool_decide; [|done]. intros [= <-]. by eapply ok_frame.
  - unfold drain. destruct (_ || _); [done|]. intros [= <-]. by eapply ok_frame.
  - unfold reload_job. destruct (jobs s !! n) as [j|]; cbn; [|done]. destruct (reloaded j); [done|]. destruct (Reload _ _ _ _ _ _) as [? cm].
    intros [= <-]. by eapply ok_frame.
  - unfold clean_job. destruct (jobs s !! n) as [j|]; cbn; [|done]. destruct (reloaded j); [|done]. intros [= <-]. by eapply ok_frame.
  - unfold batch_end. destruct (_ && _); [|done]. intros [= <-]. by eapply ok_frame.
  - intros [= <-]. by eapply ok_frame.
  - intros [= <-]. by eapply ok_frame.
  - unfold begin_load. destruct (impls _ !! _); cbn; [|done]. destruct (read _ _); cbn; [|done]. intros [= <-]. by eapply ok_frame.
  - unfold end_load. destruct (loads s !! n) as [[[? ?] ?]|]; cbn; [|done]. destruct (impls _ !! _); cbn; [|done]. intros [= <-]. by eapply ok_frame.
Qed.

Lemma ok_run evs : ∀ s s', queues_ok s → service_run s evs = Ret s' → queues_ok s'.
Proof.
  induction evs as [|[[read now] e] evs IH]; intros s s' Hs Hr; cbn [service_run] in Hr; [by simplify_eq|].
  destruct (exec _ _ _ _ _ read now s e) as [s1| | |] eqn:Es; cbn [obind] in Hr; try done. eapply (IH s1); [by eapply ok_exec|done].
Qed.

End TaskQueue.

End TaskQueueProofs.
