(* ===== verification/SchedHistory.v ===== *)
(** * The history of requests and the notices of completion: pkg/scheduler/manager (task_history.go, completed_queue.go)

    The history keeps the latest tasks in two lists, of which the second leaves out suggestions, and a map by session.  The
    specification is the list of all tasks so far, the newest first. *)

From S2P Require Import Prelude.
Local Open Scope Z_scope.
Local Open Scope go_scope.

Module SchedHistory.

(** ** The history (task_history.go) *)

(** A task, with its session and whether it was only a suggestion. *)
Record HistoryItem := MkItem { h_task : nat; SessionID : string; IsSuggestion : bool }.

Record HistoryManager := MkHistory {
  capacity : Z; historyMap : gmap string HistoryItem; historyList : list HistoryItem; normalHistoryList : list HistoryItem }.

Definition NewHistoryManager (limit : Z) : HistoryManager := MkHistory limit ∅ [] [].

(** The loop that removes from the back of a list; the back of an empty list is nil, and removing that panics. *)
Fixpoint trim (fuel : nat) (cap : Z) (ls : list HistoryItem) : outcome unit (list HistoryItem) :=
  if cap <? Z.of_nat (length ls) then
    match ls, fuel with
    | [], _ => Panic
    | _, O => OutOfFuel
    | _, S fuel => trim fuel cap (removelast ls)
    end
  else Ret ls.

Definition NewHistoryItem (m : HistoryManager) (task : HistoryItem) : outcome unit HistoryManager :=
  let! all := trim (length (historyList m)) (capacity m) (historyList m) in
  let! normal := trim (length (normalHistoryList m)) (capacity m) (normalHistoryList m) in
  Ret (MkHistory (capacity m) (<[SessionID task := task]> (historyMap m)) (task :: all)
         (if IsSuggestion task then normal else task :: normal)).

(** The sessions of a list that are in the old map go to the new one. *)
Definition keep_sessions (old : gmap string HistoryItem) (new : gmap string HistoryItem) (ls : list HistoryItem)
  : gmap string HistoryItem :=
  foldl (λ new h, match old !! SessionID h with Some h' => <[SessionID h := h']> new | None => new end) new ls.

Definition cleanHistoryMap (m : HistoryManager) : HistoryManager :=
  if Z.of_nat (size (historyMap m)) <=? capacity m then m
  else MkHistory (capacity m)
         (keep_sessions (historyMap m) (keep_sessions (historyMap m) ∅ (historyList m)) (normalHistoryList m))
         (historyList m) (normalHistoryList m).

(** [GetHistoryList]: the loop to the offset, which ends the call when the list ends, and the loop to the limit. *)
Fixpoint skip_loop (n : nat) (element : list HistoryItem) : option (list HistoryItem) :=
  match n, element with
  | O, _ => Some element
  | S n, _ :: element => skip_loop n element
  | S _, [] => None
  end.

Fixpoint page_loop (n : nat) (element : list HistoryItem) : list HistoryItem :=
  match n, element with
  | S n, h :: element => h :: page_loop n element
  | _, _ => []
  end.

Definition GetHistoryList (m : HistoryManager) (offset limit : Z) (all : bool) : list HistoryItem * Z :=
  let hList := if all then historyList m else normalHistoryList m in
  (match skip_loop (Z.to_nat offset) hList with Some e => page_loop (Z.to_nat limit) e | None => [] end,
   Z.of_nat (length hList)).

Definition GetHistory (m : HistoryManager) (sessionId : string) : option HistoryItem := historyMap m !! sessionId.

(** ** Notices of completion (completed_queue.go) *)

(** The sessions in the channel; [Add] blocks when it is full. *)
Definition CompletedManager := list string.

Definition completed_Add (CompletedQueueMaxLength : nat) (c : CompletedManager) (session : string) : option CompletedManager :=
  if bool_decide (length c < CompletedQueueMaxLength)%nat then Some (c ++ [session]) else None.

(** [removeSession], whose body is commented out: it receives nothing. *)
Definition removeSession (c : CompletedManager) : CompletedManager := c.

Definition reloadAndRemoveSessions (c : CompletedManager) : CompletedManager :=
  match length c with O => c | n => Nat.iter n removeSession c end.

(** A round of [Run]: the tick, or else the length of the channel, decides whether the sessions are removed. *)
Definition watch (CompletedQueueDealLength : nat) (tick : bool) (c : CompletedManager) : CompletedManager :=
  if tick then reloadAndRemoveSessions c
  else if (CompletedQueueDealLength <=? length c)%nat then reloadAndRemoveSessions c else c.

Inductive completed_op := Completed (session : string) | Watch (tick : bool).

Fixpoint completed_run (max deal : nat) (c : CompletedManager) (ops : list completed_op) : option CompletedManager :=
  match ops with
  | [] => Some c
  | Completed session :: ops => c ← completed_Add max c session; completed_run max deal c ops
  | Watch tick :: ops => completed_run max deal (watch deal tick c) ops
  end.

(** ** Specification *)

Inductive history_op := Add (task : HistoryItem) | Clean.

Definition history_step (m : HistoryManager) (op : history_op) : outcome unit HistoryManager :=
  match op with Add task => NewHistoryItem m task | Clean => Ret (cleanHistoryMap m) end.

Fixpoint history_run (m : HistoryManager) (ops : list history_op) : outcome unit HistoryManager :=
  match ops with [] => Ret m | op :: ops => let! m := history_step m op in history_run m ops end.

(** All tasks so far, the newest first. *)
Definition log_of (ops : list history_op) : list HistoryItem :=
  foldl (λ log op, match op with Add task => task :: log | Clean => log end) [] ops.

Definition newest (log : list HistoryItem) (session : string) : option HistoryItem :=
  snd <$> list_find (λ h, SessionID h = session) log.

Definition plain (log : list HistoryItem) : list HistoryItem := filter (λ h, IsSuggestion h = false) log.

(** The lists are one longer than the limit after an item went into them. *)
Definition normal_of (cap : nat) (log : list HistoryItem) : list HistoryItem :=
  match log with
  | [] => []
  | h :: _ => take (if IsSuggestion h then cap else S cap) (plain log)
  end.

Record tracks (cap : nat) (log : list HistoryItem) (m : HistoryManager) : Prop := {
  t_capacity : capacity m = Z.of_nat cap;
  t_list : historyList m = take (S cap) log;
  t_normal : normalHistoryList m = normal_of cap log;
  t_sound : ∀ s h, historyMap m !! s = Some h → newest log s = Some h;
  t_complete : ∀ h, h ∈ historyList m ++ normalHistoryList m → is_Some (historyMap m !! SessionID h) }.

(** ** Proofs *)

Lemma trim_take fuel cap ls : (length ls ≤ fuel)%nat → trim fuel (Z.of_nat cap) ls = Ret (take cap ls).
Proof.
  revert ls. induction fuel as [|fuel IH]; intros ls Hf; cbn [trim].
  - destruct ls; [|cbn in Hf; lia]. rewrite take_nil. by destruct (Z.ltb_spec (Z.of_nat cap) (Z.of_nat (length (@nil HistoryItem)))); [cbn in *; lia|].
  - destruct (Z.ltb_spec (Z.of_nat cap) (Z.of_nat (length ls))) as [Hlt|Hge]; [|by rewrite take_ge by lia].
    destruct ls as [|x ls _] using rev_ind; [cbn in Hlt; lia|]. rewrite length_app in *. cbn in Hf, Hlt.
    rewrite removelast_last. rewrite IH by lia. rewrite take_app_le by lia. by destruct ls.
Qed.

Lemma skip_drop n ls : skip_loop n ls = if bool_decide (n ≤ length ls)%nat then Some (drop n ls) else None.
Proof.
  revert ls. induction n as [|n IH]; intros [|h ls]; cbn; [done|done|done|]. rewrite IH.
  do 2 case_bool_decide; try done; lia.
Qed.

Lemma page_take n ls : page_loop n ls = take n ls.
Proof. revert ls. induction n as [|n IH]; intros [|h ls]; cbn; [done..|]. by f_equal. Qed.

Lemma pages m offset limit (all : bool) : let l := if all then historyList m else normalHistoryList m in
  GetHistoryList m offset limit all = (take (Z.to_nat limit) (drop (Z.to_nat offset) l), Z.of_nat (length l)).
Proof.
  cbv zeta. unfold GetHistoryList. rewrite skip_drop. case_bool_decide as Ho; [by rewrite page_take|].
  rewrite (drop_ge _ (Z.to_nat offset)) by lia. by rewrite take_nil.
Qed.

Lemma newest_cons h log s : newest (h :: log) s = if decide (SessionID h = s) then Some h else newest log s.
Proof. unfold newest. cbn. destruct (decide (SessionID h = s)); [done|]. by destruct (list_find _ log) as [[i x]|]. Qed.

Lemma newest_elem log h : h ∈ log → is_Some (newest log (SessionID h)).
Proof.
  induction log as [|x log IH]; [by intros ?%elem_of_nil|]. rewrite newest_cons. intros [->|Hin]%elem_of_cons; [by rewrite decide_True|].
  destruct (decide _); [done|by apply IH].
Qed.

Lemma keep_spec old ls : ∀ new s, keep_sessions old new ls !! s =
  if decide (s ∈ SessionID <$> ls) then (match old !! s with Some h => Some h | None => new !! s end) else new !! s.
Proof.
  unfold keep_sessions. induction ls as [|h ls IH]; intros new s; cbn [foldl fmap list_fmap]; [by rewrite decide_False by apply not_elem_of_nil|].
  rewrite IH. destruct (decide (s = SessionID h)) as [->|Hne].
  - rewrite (decide_True (P := SessionID h ∈ SessionID h :: _)) by left. destruct (old !! SessionID h) as [h'|] eqn:Eo; [|by destruct (decide _)].
    destruct (decide _); [done|]. by rewrite lookup_insert_eq.
  - assert ((match old !! SessionID h with Some h' => <[SessionID h:=h']> new | None => new end) !! s = new !! s) as ->.
    { destruct (old !! SessionID h); [|done]. by rewrite lookup_insert_ne. }
    destruct (decide (s ∈ SessionID <$> ls)) as [Hin|Hin], (decide (s ∈ SessionID h :: (SessionID <$> ls))) as [Hin'|Hin']; try done.
    + destruct Hin'. by right.
    + by apply elem_of_cons in Hin' as [?|?].
Qed.

Lemma tracks_new cap : tracks cap [] (NewHistoryManager (Z.of_nat cap)).
Proof. split; cbn; try done. by intros h ?%elem_of_nil. Qed.

Lemma take_normal cap log : take cap (normal_of cap log) = take cap (plain log).
Proof. destruct log as [|h log]; [done|]. cbn [normal_of]. rewrite take_take. f_equal. destruct (IsSuggestion h); lia. Qed.

Lemma tracks_add cap log m task : tracks cap log m → ∃ m', NewHistoryItem m task = Ret m' ∧ tracks cap (task :: log) m'.
Proof.
  intros Hm. unfold NewHistoryItem. rewrite (t_capacity _ _ _ Hm), !trim_take by done. cbn [obind]. eexists. split; [done|].
  rewrite (t_list _ _ _ Hm), (t_normal _ _ _ Hm), take_normal, take_take, Nat.min_l by lia.
  assert (∀ h, h ∈ take cap log ++ take cap (plain log) → is_Some (historyMap m !! SessionID h)) as Hold.
  { intros h Hh. apply (t_complete _ _ _ Hm). rewrite (t_list _ _ _ Hm), (t_normal _ _ _ Hm). apply elem_of_app in Hh as [Hh|Hh]; apply elem_of_app.
    - left. replace (take cap log) with (take cap (take (S cap) log)) in Hh by (rewrite take_take; f_equal; lia).
      by eapply elem_of_sublist, sublist_take.
    - right. rewrite <- take_normal in Hh. by eapply elem_of_sublist, sublist_take. }
  split; cbn [capacity historyMap historyList normalHistoryList]; [done|done| | |].
  - unfold normal_of, plain. destruct (IsSuggestion task) eqn:Es; [by rewrite filter_cons_False by congruence|by rewrite filter_cons_True].
  - intros s h. rewrite newest_cons. destruct (decide (SessionID task = s)) as [->|Hne]; [by rewrite lookup_insert_eq|].
    rewrite lookup_insert_ne by done. apply Hm.
  - intros h Hh. destruct (decide (SessionID task = SessionID h)) as [->|Hne]; [rewrite lookup_insert_eq; by eexists|]. rewrite lookup_insert_ne by done.
    apply Hold. apply elem_of_app in Hh as [[->|Hh]%elem_of_cons|Hh]; [done|apply elem_of_app; by left|apply elem_of_app; right].
    destruct (IsSuggestion task); [done|]. by apply elem_of_cons in Hh as [->|Hh].
Qed.

Lemma tracks_clean cap log m : tracks cap log m → tracks cap log (cleanHistoryMap m).
Proof.
  intros Hm. unfold cleanHistoryMap. destruct (_ <=? _); [done|]. split; cbn [capacity historyMap historyList normalHistoryList]; try apply Hm.
  - intros s h Hs. apply Hm. rewrite !keep_spec, lookup_empty in Hs. destruct (historyMap m !! s); by repeat destruct (decide _).
  - intros h Hh. destruct (t_complete _ _ _ Hm h Hh) as [h' Hs]. rewrite !keep_spec, lookup_empty, Hs.
    apply elem_of_app in Hh as [Hh|Hh]; apply (list_elem_of_fmap_2 SessionID) in Hh;
      [rewrite (decide_True (P := SessionID h ∈ SessionID <$> historyList m)) by done; by destruct (decide _); eexists|rewrite decide_True by done; by eexists].
Qed.


Lemma tracks_run cap ops : ∀ log m, tracks cap log m → ∃ m', history_run m ops = Ret m' ∧
  tracks cap (foldl (λ log op, match op with Add task => task :: log | Clean => log end) log ops) m'.
Proof.
  induction ops as [|[task|] ops IH]; intros log m Hm; cbn [history_run history_step foldl]; [by exists m|..].
  - destruct (tracks_add cap log m task Hm) as (m1 & -> & Hm1). cbn [obind]. by apply IH.
  - cbn [obind]. by apply IH, tracks_clean.
Qed.

(** C31 The history refines the list of all requests.  With a limit [cap] that is not negative, whatever is added and whenever
    the map is cleaned: no call panics; the history lists the latest [cap + 1] requests, and of those that were not
    suggestions the latest [cap] or [cap + 1]; a page is the part of the list from the offset on, with the total; a session
    is looked up to its newest request, for every listed request and as long as the map has it; and after a clean the map has
    only the sessions of listed requests, unless it has no more than the limit anyway. *)
Theorem history_refines_log (cap : nat) (ops : list history_op) :
  ∃ m, history_run (NewHistoryManager (Z.of_nat cap)) ops = Ret m ∧
    (∀ offset limit, GetHistoryList m offset limit true =
       (take (Z.to_nat limit) (drop (Z.to_nat offset) (take (S cap) (log_of ops))), Z.of_nat (S cap `min` length (log_of ops)))) ∧
    (∀ offset limit, GetHistoryList m offset limit false =
       (take (Z.to_nat limit) (drop (Z.to_nat offset) (normal_of cap (log_of ops))), Z.of_nat (length (normal_of cap (log_of ops))))) ∧
    (∀ s h, GetHistory m s = Some h → newest (log_of ops) s = Some h) ∧
    (∀ h, h ∈ take (S cap) (log_of ops) ++ normal_of cap (log_of ops) → GetHistory m (SessionID h) = newest (log_of ops) (SessionID h)) ∧
    (∀ s, is_Some (GetHistory (cleanHistoryMap m) s) →
       (size (historyMap m) ≤ cap)%nat ∨ s ∈ SessionID <$> take (S cap) (log_of ops) ++ normal_of cap (log_of ops)).
Proof.
  destruct (tracks_run cap ops [] _ (tracks_new cap)) as (m & Hm & Ht). fold (log_of ops) in Ht. exists m. split; [done|].
  split_and!; [intros..| | |].
  - by rewrite pages, (t_list _ _ _ Ht), length_take.
  - by rewrite pages, (t_normal _ _ _ Ht).
  - apply Ht.
  - intros h Hh. rewrite <- (t_list _ _ _ Ht), <- (t_normal _ _ _ Ht) in Hh. destruct (t_complete _ _ _ Ht h Hh) as [h' Hs].
    unfold GetHistory. rewrite Hs. symmetry. by apply Ht.
  - intros s. rewrite <- (t_list _ _ _ Ht), <- (t_normal _ _ _ Ht), fmap_app. unfold GetHistory, cleanHistoryMap. rewrite (t_capacity _ _ _ Ht).
    destruct (Z.leb_spec (Z.of_nat (size (historyMap m))) (Z.of_nat cap)) as [Hle|Hgt]; [intros _; left; lia|]. cbn [historyMap].
    rewrite !keep_spec, lookup_empty. intros Hs. right. apply elem_of_app.
    destruct (decide (s ∈ SessionID <$> normalHistoryList m)); [by right|]. destruct (decide (s ∈ SessionID <$> historyList m)); [by left|].
    by apply is_Some_None in Hs.
Qed.

(** A limit that is negative makes the first request panic. *)
Lemma negative_limit_panics limit task : limit < 0 → NewHistoryItem (NewHistoryManager limit) task = Panic.
Proof. intros Hl. unfold NewHistoryItem. cbn. by rewrite (proj2 (Z.ltb_lt _ _)) by lia. Qed.

(** Nothing is ever taken from the channel of completed sessions: however long the manager watches it, the call after
    [CompletedQueueMaxLength] calls blocks. *)
Lemma completed_channel_fills max deal ops : ∀ c c', completed_run max deal c ops = Some c' →
  length c' = (length c + length (omap (λ op, match op with Completed session => Some session | Watch _ => None end) ops))%nat ∧
  (length c ≤ max → length c' ≤ max)%nat.
Proof.
  assert (∀ n c, Nat.iter n removeSession c = c) as Hiter by (intros n; induction n as [|n IH]; intros c; [done|]; cbn; apply IH).
  induction ops as [|[session|tick] ops IH]; intros c c' Hr; cbn [completed_run] in Hr.
  - injection Hr as <-. cbn. split; lia.
  - unfold completed_Add in Hr. case_bool_decide as Hl; cbn [mbind option_bind] in Hr; [|done]. apply IH in Hr as [Hlen Hmax].
    cbn [omap list_omap length]. rewrite length_app in *. cbn [length] in *. split; [lia|]. intros _. apply Hmax. lia.
  - cbn [omap list_omap]. apply IH. assert (watch deal tick c = c) as <-; [|done].
    assert (reloadAndRemoveSessions c = c) as Hrel by (unfold reloadAndRemoveSessions; destruct (length c); [done|apply Hiter]).
    unfold watch. rewrite Hrel. destruct tick; [done|]. by destruct (deal <=? length c)%nat.
Qed.

End SchedHistory.
