(* ===== verification/SchedServiceTheorems.v ===== *)
(** * Theorems about the scheduler service

    The configured scheduler keeps the contract of the service, so that the hosts are not overcommitted however requests,
    creations, their notices, reloads and cleans follow one another; runs outside that theorem that do overcommit; and the
    answers to requests with backups. *)

From S2P Require Import Prelude DiskConfig SchedInfo Score Scheduler Networks Storages Unit HostDesc HostDescProofs Candidates.
From S2P Require Import Predicates Schedule CapacityProofs PredicateLocality ScheduleProofs Pipeline Overcommit SchedulerTheorems.
From S2P Require Import CandidateCache CandidateCacheProofs CandidateManager SchedService SchedAnswers SchedSystem SchedSafety SchedEvents SchedReturn BackupProofs TaskQueueProofs.
Import Unit Candidates Predicates Schedule PredicateLocality.
Import CandidateCache CandidateManager SchedService SchedAnswers CandidateCacheProofs SchedSystem SchedSafety.
Local Open Scope Z_scope.
Local Open Scope go_scope.

Module SchedServiceTheorems.

(** ** The configured scheduler *)

Section Configured.
Context (env : Env) (reason_str : reason → string) (error_str : error → string) (always : bool).
Context (ps : list Priority) (sort_reverse : list Score.HostPriority → list Score.HostPriority).

(** [newGuestScheduler] or [newBaremetalScheduler], and what the generic scheduler makes of the request. *)
Definition env_schedule (d : SchedInfo.SchedInfo) (cs : list Candidater)
  : outcome (sched_error (E := error)) (list item * list (string * Z)) :=
  let! (items, dirty, _) :=
    Schedule (H := env_SchedPredicate env reason_str error_str) always (PrioritizeCandidates env ps) (OnSelectEnd env) sort_reverse
      (S (Z.to_nat (SchedInfo.Count d))) (NewScheduleUnit d) cs
      (if String.eqb (SchedInfo.Hypervisor d) "baremetal" then baremetalPredicates else defaultPredicates) in
  Ret (items, dirty).

Lemma item_loop_hosts n it : item_loop n it ≫= resource_hosts = replicate n (Scheduler.ID it).
Proof. induction n as [|n IH]; [done|]. cbn. by f_equal. Qed.

(** The hosts of an answer: each as often as it has guests. *)
Lemma granted_items items count : granted_hosts items count =
  ((λ it, (Scheduler.ID it, Scheduler.Count it)) <$> items) ≫= λ p, replicate (Z.to_nat p.2) p.1.
Proof.
  unfold granted_hosts, transToRegionSchedResult. rewrite bind_app.
  assert (∀ n e, replicate n (ErrorResource e) ≫= resource_hosts = []) as -> by (intros n e; by induction n). rewrite app_nil_r.
  induction items as [|it items IH]; [done|]. cbn [mbind list_bind fmap list_fmap fst snd]. rewrite bind_app, item_loop_hosts. by f_equal.
Qed.

Lemma no_copies (l : list (string * Z)) : Forall (λ p, p.2 = 0) l → (l ≫= λ p, replicate (Z.to_nat p.2) p.1) = [].
Proof. induction 1 as [|[k n] l Hn _ IH]; [done|]. cbn in Hn |- *. by rewrite Hn. Qed.

(** The service can rely on it for hosts on which a network is the same everywhere. *)
Lemma env_sound hosts :
  (∀ A (m : gmap string A), Candidates.range env A m ≡ₚ map_to_list m) → (∀ l, sort_reverse l ≡ₚ l) →
  (∀ h h' n n', h ∈ hosts → h' ∈ hosts → n ∈ HostDesc.HostNetworks h → n' ∈ HostDesc.HostNetworks h' →
     Networks.Id n = Networks.Id n' → Networks.GetPorts n = Networks.GetPorts n') →
  SoundSchedule env_schedule hosts.
Proof.
  intros Hrange Hsort Hnets. set (nets := hosts ≫= HostDesc.HostNetworks).
  assert (∀ n n', n ∈ nets → n' ∈ nets → Networks.Id n = Networks.Id n' → Networks.GetPorts n = Networks.GetPorts n') as Hcopies.
  { intros n n' (h & Hn & Hh)%list_elem_of_bind (h' & Hn' & Hh')%list_elem_of_bind. by apply (Hnets h h'). }
  assert (∀ cs, Forall (λ c, ∃ hd, c = HostC hd ∧ HostDesc.Host hd ∈ hosts) cs → Forall (known_host nets) cs) as Hknown.
  { intros cs Hcs. eapply Forall_impl; [exact Hcs|]. intros c (hd & -> & Hin) n Hn. apply list_elem_of_bind. by exists (HostDesc.Host hd). }
  assert (∀ d cs items dirty, NoDup (IndexKey <$> cs) → Forall (known_host nets) cs → env_schedule d cs = Ret (items, dirty) →
    ∃ scs tail, (λ it, (Scheduler.ID it, Scheduler.Count it)) <$> items = scs ++ tail ∧ Forall (λ p, p.2 = 0) tail ∧
      NoDup scs.*1 ∧ Forall (λ p, 1 ≤ p.2 ∧ p.1 ∈ IndexKey <$> cs) scs ∧
      dirty = if negb (SchedInfo.IsSuggestion d) && negb (SchedInfo.SkipDirtyMarkHost d) then scs else []) as Hmarks.
  { intros d cs items dirty Hnd Hk Es. unfold env_schedule in Es.
    destruct (Schedule _ _ _ _ _ _ _ _) as [[[items' dirty'] u']| | |] eqn:Esch; cbn [obind] in Es; try done. injection Es as -> ->.
    eapply Pipeline.Schedule_marks; [|exact Esch]. intros filtered u1 Ef.
    eapply (Overcommit.filter_spec env reason_str error_str always nets Hcopies d cs) in Ef as (_ & ? & _); [done|done|done|..];
      destruct (String.eqb _ _); try apply Overcommit.default_keys; try apply Overcommit.default_names; try apply Overcommit.baremetal_keys; apply Overcommit.baremetal_names. }
  split.
  - intros d cs items dirty Hsug Hnd Hall Es. destruct (Hmarks d cs items dirty Hnd (Hknown cs Hall) Es) as (scs & tail & _ & _ & _ & _ & ->).
    by rewrite Hsug.
  - intros d cs items dirty Ho Hnd Hall Es. pose proof (Hknown cs Hall) as Hk.
    destruct (Hmarks d cs items dirty Hnd Hk Es) as (scs & tail & Hitems & Htail & Hscs & Hpos & Hdirty).
    destruct Ho as (Hs & Hskip & Hpub & Hdev & Hcpu & Hmem & Hcount & Hhyp). rewrite Hs, Hskip in Hdirty. cbn in Hdirty. subst dirty.
    split; [done|]. split; [rewrite granted_items, Hitems, bind_app, (no_copies tail), app_nil_r; done|].
    intros h n Hin. rewrite Forall_forall in Hpos. destruct (Hpos _ Hin) as [Hn _]. split; [done|]. cbn in Hn.
    assert ((h, n) ∈ (λ it, (Scheduler.ID it, Scheduler.Count it)) <$> items) as Hit by (rewrite Hitems; by apply elem_of_app; left).
    apply list_elem_of_fmap in Hit as (it & [= -> ->] & Hit). unfold env_schedule in Es. rewrite (proj2 (String.eqb_neq _ _) Hhyp) in Es.
    destruct (Schedule _ _ _ _ _ _ _ _) as [[[items' dirty'] u']| | |] eqn:Esch; cbn [obind] in Es; try done. injection Es as -> ->.
    destruct (Overcommit.Schedule_within env reason_str error_str always nets ps sort_reverse (S (Z.to_nat (SchedInfo.Count d))) d cs items _ u' Hrange Hsort Hcopies Hk Hnd
      ltac:(lia) Esch it Hit ltac:(lia)) as (c & Hc & Hid & Hfit).
    destruct (Hfit Hpub) as (hd & -> & Fc & Fm & _). exists hd. split; [done|]. split; [done|].
    assert (Overcommit.rsvd d = false) as Hr by (unfold Overcommit.rsvd; by rewrite Hdev). rewrite Hr in Fc, Fm.
    intros []; [by apply Fc|by apply Fm].
Qed.

End Configured.

(** ** No overcommitment across requests *)


(** Two hosts, and three guests for them; one of them is created and the scheduler sees its host again. *)
Definition service_db : Database :=
  MkDatabase [SchedulerTheorems.example_row "a" "hypervisor"; SchedulerTheorems.example_row "b" "hypervisor"] ∅ [] [] ∅ ∅.
Definition example_schedule :=
  env_schedule SchedulerTheorems.example_env (λ _, "") (λ _, "") false defaultPriorities (λ l, l).
Definition example_service (evs : list sys_event) : outcome unit (System _) :=
  sys_run example_schedule SchedulerTheorems.example_options 3600 (λ B m, map_to_list m) 5 10 (initial service_db) evs.

Definition example_guest (id host : string) : HostDesc.SGuest := HostDesc.MkGuest id host "" "running" 4 4096 false [] "kvm".

(** A request for three guests is answered. *)
Definition ask (now : Z) : list sys_event :=
  [Ev now (Submit SchedulerTheorems.example_request); Ev now Attach; Ev now (Start ":"); Ev now (Finish ":")].
(** The goroutine of a batch does its work. *)
Definition settle_batch (now : Z) : list sys_event := [Ev now Drain; Ev now (ReloadJ 0); Ev now (CleanJ 0); Ev now (BatchEnd false)].

Definition example_events : list sys_event :=
  [Ev 1 (FullLoad "host")] ++ ask 2 ++ [Create 0 (example_guest "g1" "a"); Notify 0] ++ settle_batch 3 ++ ask 4.

Lemma service_db_hosts : hosts_ok SchedulerTheorems.example_options service_db.
Proof.
  split; [apply (bool_decide_unpack _); vm_compute; exact I|apply (bool_decide_unpack _); vm_compute; exact I|].
  intros h r [->|[->|[]%elem_of_nil]%elem_of_cons]%elem_of_cons; destruct r; split_and!; by vm_compute.
Qed.

Lemma service_db_guests : guests_ok service_db.
Proof.
  split; [constructor|by intros g ?%elem_of_nil|by intros g r ?%elem_of_nil|by intros h d g _ _ ?%elem_of_nil].
Qed.

Lemma service_db_room h r : h ∈ db_hosts service_db → isBaremetal h = false → 0 ≤ free_in SchedulerTheorems.example_options service_db r h.
Proof. intros [->|[->|[]%elem_of_nil]%elem_of_cons]%elem_of_cons _; destruct r; by vm_compute. Qed.

Lemma service_db_networks h h' n n' : h ∈ db_hosts service_db → h' ∈ db_hosts service_db →
  n ∈ HostDesc.HostNetworks h → n' ∈ HostDesc.HostNetworks h' → Networks.Id n = Networks.Id n' → Networks.GetPorts n = Networks.GetPorts n'.
Proof.
  intros Hh Hh' Hn Hn'. assert (∀ h, h ∈ db_hosts service_db → HostDesc.HostNetworks h = SchedulerTheorems.example_nets) as Hnets
    by (by intros ? [->|[->|[]%elem_of_nil]%elem_of_cons]%elem_of_cons).
  rewrite Hnets in Hn, Hn' by done. by apply SchedulerTheorems.example_copies.
Qed.

Lemma example_request_ok : request_ok SchedulerTheorems.example_request.
Proof. split_and!; [done|done|constructor|]. right. by split_and!. Qed.

Lemma ask_considered now : Forall considered (ask now).
Proof. repeat constructor; cbn; try done; apply example_request_ok. Qed.

Lemma example_considered : Forall considered example_events.
Proof.
  unfold example_events, settle_batch. repeat (apply Forall_app; split); try apply ask_considered; repeat constructor.
Qed.


(** ** Hosts come back *)

(** C12 A host is hidden no longer than needed, as long as no two notices of it are merged.  In a run of the considered
    events whose batches each have at most one notice of every host, a host is hidden exactly as often as something is under
    way on it, so that a host with nothing under way is a candidate again.  After any run of these events, a host that is
    hidden more often than that stays hidden through every further run of them: merging two notices of a host, of which the
    scheduler cleans only one, loses the host until a notice for another reason, which is no considered event, comes.  The
    options may ignore guests or not. *)
Theorem hosts_return_unless_merged env reason_str error_str always ps sort_reverse o ttl range QueueLength ExpireQueueMaxLength
    (d : Database) evs s :
  (∀ A (m : gmap string A), Candidates.range env A m ≡ₚ map_to_list m) → (∀ l, sort_reverse l ≡ₚ l) →
  (∀ B (m : gmap string B), range B m ≡ₚ map_to_list m) →
  (∀ h h' n n', h ∈ db_hosts d → h' ∈ db_hosts d → n ∈ HostDesc.HostNetworks h → n' ∈ HostDesc.HostNetworks h' →
     Networks.Id n = Networks.Id n' → Networks.GetPorts n = Networks.GetPorts n') →
  hosts_ok o d → guests_ok d → (∀ h r, h ∈ db_hosts d → isBaremetal h = false → 0 ≤ free_in o d r h) →
  Forall considered evs →
  let run := sys_run (env_schedule env reason_str error_str always ps sort_reverse) o ttl range QueueLength ExpireQueueMaxLength in
  run (initial d) evs = Ret s →
  (SchedReturn.unmerged (env_schedule env reason_str error_str always ps sort_reverse) o ttl range QueueLength ExpireQueueMaxLength
     (initial d) evs = true →
     ∀ h, hidden s h = pending s h ∧ ∀ now, DirtyPoolHas now (manager s) h = bool_decide (0 < pending s h)) ∧
  (∀ h, pending s h < hidden s h → ∀ evs' s', Forall considered evs' → run s evs' = Ret s' →
     ∀ now, DirtyPoolHas now (manager s') h = true).
Proof.
  intros He Hsort Hr Hnets Hh Hg Hf Hc run Hrun. pose proof (env_sound env reason_str error_str always ps sort_reverse (db_hosts d) He Hsort Hnets).
  pose proof (SchedEvents.inv_initial (E := sched_error (E := error)) o d Hh Hg Hf) as H0.
  destruct (SchedEvents.inv_run _ o ttl range QueueLength ExpireQueueMaxLength Hr evs (initial d) s) as [Hi Hdb]; [done..|].
  assert (∀ (s : System (sched_error (E := error))) h now, SchedSafety.inv o s → DirtyPoolHas now (manager s) h = bool_decide (0 < hidden s h)) as Hhas.
  { intros s1 h now Hi1. unfold DirtyPoolHas. apply HasByKey_count, Hi1. }
  split.
  - intros Hu h. destruct (SchedReturn.surplus_run _ o ttl range QueueLength ExpireQueueMaxLength Hr evs (initial d) s h H0 Hc Hrun) as [_ Hk].
    specialize (Hk Hu). unfold SchedReturn.keeps, SchedReturn.surplus in Hk.
    assert (hidden s h = pending s h) as Heq by (change (hidden s h - pending s h = 0) in Hk; lia).
    split; [done|]. intros now. by rewrite Hhas, Heq.
  - intros h Hlt evs' s' Hc' Hrun' now. assert (SoundSchedule (env_schedule env reason_str error_str always ps sort_reverse) (db_hosts (db s)))
      as Hs by by rewrite Hdb.
    destruct (SchedEvents.inv_run _ o ttl range QueueLength ExpireQueueMaxLength Hr evs' s s') as [Hi' _]; [done..|].
    destruct (SchedReturn.surplus_run _ o ttl range QueueLength ExpireQueueMaxLength Hr evs' s s' h Hi Hc' Hrun') as [Hle _].
    unfold SchedReturn.surplus in Hle. rewrite Hhas by done. apply bool_decide_eq_true. pose proof (under_way_nonneg s' h). lia.
Qed.

(** All three guests are created, and the scheduler is told of them in one batch. *)
Definition create_all : list sys_event :=
  [Create 0 (example_guest "g1" "a"); Create 0 (example_guest "g2" "a"); Create 0 (example_guest "g3" "b")].
Definition merged_events : list sys_event :=
  [Ev 1 (FullLoad "host")] ++ ask 2 ++ create_all ++ [Notify 0; Notify 0; Notify 0] ++ settle_batch 3.

Lemma merged_considered : Forall considered merged_events.
Proof. unfold merged_events, settle_batch, create_all. repeat (apply Forall_app; split); try apply ask_considered; repeat constructor. Qed.

(** Nothing is under way any more, and host "a" is lost. *)
Lemma hosts_return_unless_merged_witness :
  match example_service merged_events with
  | Ret s => promised s = [] ∧ pending s "a" = 0 ∧ ∀ now, DirtyPoolHas now (manager s) "a" = true
  | _ => False
  end.
Proof.
  destruct (example_service merged_events) as [s| | |] eqn:Erun; try (vm_compute in Erun; discriminate Erun).
  assert (promised s = [] ∧ pending s "a" = 0 ∧ pending s "a" < hidden s "a") as (Hp & Hz & Hlt).
  { vm_compute in Erun. injection Erun as <-. split_and!; vm_compute; reflexivity. }
  split; [exact Hp|]. split; [exact Hz|].
  refine (proj2 (hosts_return_unless_merged SchedulerTheorems.example_env (λ _, "") (λ _, "") false defaultPriorities (λ l, l)
    SchedulerTheorems.example_options 3600 (λ B m, map_to_list m) 5 10 service_db merged_events s _ _ _ service_db_networks
    service_db_hosts service_db_guests service_db_room merged_considered Erun) "a" Hlt [] s _ eq_refl); intros; try reflexivity; constructor.
Defined.

(** ** Outside these runs *)

(** A request for two guests. *)
Definition ask_two (now : Z) : list sys_event :=
  [Ev now (Submit (SchedInfo.NewSchedInfo 100 (SchedulerTheorems.example_input [SchedInfo.MkDisk 0 "" 10240 "" []] "kvm" 2 4 4096)));
   Ev now Attach; Ev now (Start ":"); Ev now (Finish ":")].

Definition overcommitted (s : outcome unit (System (sched_error (E := error)))) : Prop :=
  match s with
  | Ret s => free_in SchedulerTheorems.example_options (db s) CPU (SchedulerTheorems.example_row "a" "hypervisor") < promised_need s CPU "a"
  | _ => False
  end.

(** A notice for another reason than a creation cleans the host too early: guests that are promised on it are forgotten. *)
Lemma other_notices_overcommit :
  overcommitted (example_service ([Ev 1 (FullLoad "host")] ++ ask 2 ++ [Ev 3 (Notice (MkExpire ["a"] []))] ++ settle_batch 3 ++
    [Ev 4 (Notice (MkExpire ["a"] []))] ++ settle_batch 4 ++ ask_two 5)).
Proof. vm_compute. reflexivity. Qed.

(** A full load that has read the database before the guests were created, and enters what it read after the last clean,
    puts the old descriptions back. *)
Lemma stale_load_overcommits :
  overcommitted (example_service ([Ev 1 (FullLoad "host")] ++ ask 2 ++ [Ev 3 (BeginLoad "host")] ++ create_all ++
    [Notify 0] ++ settle_batch 3 ++ [Notify 0] ++ settle_batch 3 ++ [Notify 0] ++ settle_batch 3 ++ [Ev 4 (EndLoad 0)] ++ ask_two 5)).
Proof. vm_compute. reflexivity. Qed.

(** A request that has listed the cache before the guests were created, and asks which hosts are dirty only after the last
    clean, gets the old descriptions. *)
Lemma stale_list_overcommits :
  overcommitted (example_service ([Ev 1 (FullLoad "host")] ++ ask 2 ++
    [Ev 3 (Submit (SchedInfo.NewSchedInfo 100 (SchedulerTheorems.example_input [SchedInfo.MkDisk 0 "" 10240 "" []] "kvm" 2 4 4096)));
     Ev 3 Attach; Ev 3 (StartList ":")] ++ create_all ++
    [Notify 0] ++ settle_batch 4 ++ [Notify 0] ++ settle_batch 4 ++ [Notify 0] ++ settle_batch 4 ++
    [Ev 5 (CheckListed ":"); Ev 5 (Finish ":")])).
Proof. vm_compute. reflexivity. Qed.

(** ** Requests with a backup *)

(** C26 Guests with a backup get two hosts within their capacities.  The answer to such a request has an entry for every
    guest; an entry that is not an error names two different hosts of the result, the preferred backup host as the backup if
    there is one; no host is used more often, as master and as backup together, than the scheduler found it could be; every
    used host is hidden as often as it is used.  But with a preferred master host there is no answer: all entries are errors. *)
Theorem backup_pairs_within_capacity sort_reverse now preferMasterHost preferBackupHost (result : list item) count cm answers result' cm' :
  (∀ l, sort_reverse l ≡ₚ l) → NoDup (Scheduler.ID <$> result) →
  (∀ it, it ∈ result → 0 ≤ Scheduler.ItemCapacity it < 2 ^ 63) → count < 2 ^ 61 → pool_ok (dirtyPool cm) →
  transToBackupSchedResult sort_reverse now preferMasterHost preferBackupHost result count cm = (answers, result', cm') →
  length answers = Z.to_nat count ∧
  Forall (BackupProofs.good_pair (Scheduler.ID <$> result) preferBackupHost) answers ∧
  (∀ it, it ∈ result → BackupProofs.uses (Scheduler.ID it) answers ≤ Scheduler.ItemCapacity it ∧
     (0 < BackupProofs.uses (Scheduler.ID it) answers →
        pool_count (dirtyPool cm') (Scheduler.ID it) = BackupProofs.uses (Scheduler.ID it) answers)) ∧
  (preferMasterHost ≠ "" → answers = replicate (Z.to_nat count) (ErrorResource "Can't find master host")).
Proof.
  intros Hsort Hnd Hcap Hcount Hp Ha. unfold transToBackupSchedResult in Ha.
  assert (Scheduler.ID <$> (clear_count <$> result) = Scheduler.ID <$> result) as Hids by (by rewrite <- list_fmap_compose).
  destruct (BackupProofs.answer_spec sort_reverse Hsort now preferBackupHost preferMasterHost (Z.to_nat count) 0 (clear_count <$> result)
    cm answers result' cm') as (Hlen & Hall & Hpm & Hu); [|lia|done|done|].
  { split; [by rewrite Hids|]. intros it Hit. apply list_elem_of_fmap in Hit as (it0 & -> & Hit). cbn. split; [lia|by apply Hcap]. }
  rewrite Hids in Hall. split_and!; [done|done| |done].
  intros it Hit. destruct (Hu (clear_count it)) as (x & Hx & _ & Ec & En & Em); [by apply list_elem_of_fmap_2|]. cbn in Ec, En, Em.
  split; [lia|]. intros Hpos. rewrite Em, decide_False by lia. lia.
Qed.

(** Three hosts, and two guests with backups. *)
Definition backup_result : list item :=
  [Scheduler.ResultItem "a" 2 2 []; Scheduler.ResultItem "b" 1 1 []; Scheduler.ResultItem "c" 0 1 []].

Lemma backup_pairs_within_capacity_witness :
  match transToBackupSchedResult (λ l, l) 0 "" "b" backup_result 2 NewCandidateManager with
  | (answers, _, cm) =>
    answers = [MkResource "a" [] (Some (MkResource "b" [] None)); ErrorResource "Can't find backup host by master a"] ∧
    BackupProofs.uses "a" answers ≤ 2 ∧ pool_count (dirtyPool cm) "a" = BackupProofs.uses "a" answers
  end.
Proof.
  destruct (transToBackupSchedResult (λ l, l) 0 "" "b" backup_result 2 NewCandidateManager) as [[answers result'] cm] eqn:Ea.
  assert (answers = [MkResource "a" [] (Some (MkResource "b" [] None)); ErrorResource "Can't find backup host by master a"]) as Hans
    by (vm_compute in Ea; injection Ea as <- _ _; reflexivity).
  split; [exact Hans|].
  destruct (backup_pairs_within_capacity (λ l, l) 0 "" "b" backup_result 2 NewCandidateManager answers result' cm) as (_ & _ & Hu & _).
  - intros l. reflexivity.
  - apply (bool_decide_unpack _). vm_compute. exact I.
  - intros it [->|[->|[->|[]%elem_of_nil]%elem_of_cons]%elem_of_cons]%elem_of_cons; cbn; lia.
  - lia.
  - apply new_pool_ok.
  - exact Ea.
  - destruct (Hu (Scheduler.ResultItem "a" 2 2 [])) as [Hle Heq]; [left|]. split; [exact Hle|]. apply Heq. rewrite Hans. vm_compute. reflexivity.
Defined.

(** ** Tasks *)


(** Two requests, the first of which is answered before [AddTask] has entered its executor. *)
Definition queue_events : list TaskQueueProofs.step :=
  let read := λ _ _, None in
  [(read, 0, Submit SchedulerTheorems.example_request); (read, 1, Start ":"); (read, 2, Finish ":"); (read, 3, Attach);
   (read, 4, Submit SchedulerTheorems.example_request)].


End SchedServiceTheorems.
