(* ===== verification/CpuSet.v ===== *)
(** * CPU sets and the balancing of processes: pkg/util/cgrouputils (cpuutils.go, cpusetutils.go)

    The host agent pins the processes of guests to physical processors and now and then deals them out anew.  What is read
    from /proc and from control groups is an argument. *)

From stdpp Require Import pretty.
From Stdlib Require Import Ascii SpecFloat.
From S2P Require Import Prelude Netutils Condition.
Local Open Scope Z_scope.
Local Open Scope go_scope.

Module CpuSet.

Abbreviation float64 := Condition.float64.

(** [strconv.Itoa]. *)
Definition Itoa (i : Z) : string := pretty i.

(** [sort.Slice] of strings in the order of their bytes. *)
Definition sort_strings (l : list string) : list string := merge_sort String.le l.

(** ** Processors (cpuutils.go) *)

Record CPUCore := MkCore {
  Index : Z; VendorId : string; Mhz : float64; CacheSize : string; PhysicalId : Z; CoreId : Z }.

Definition NewCPUCore (index : Z) : CPUCore := MkCore index "" (S754_zero false) "" 0 0.

(** [ParseFloat] of the standard library, whose errors are ignored, is an argument. *)
Definition setInfo (ParseFloat : string → float64) (c : CPUCore) (k v : string) : CPUCore :=
  if String.eqb k "vendor_id" then MkCore (Index c) v (Mhz c) (CacheSize c) (PhysicalId c) (CoreId c)
  else if String.eqb k "cpu MHz" then MkCore (Index c) (VendorId c) (ParseFloat v) (CacheSize c) (PhysicalId c) (CoreId c)
  else if String.eqb k "cache size" then
    MkCore (Index c) (VendorId c) (Mhz c) (default "" (head (Split " "%char v))) (PhysicalId c) (CoreId c)
  else if String.eqb k "physical id" then MkCore (Index c) (VendorId c) (Mhz c) (CacheSize c) (Netutils.Atoi_value v) (CoreId c)
  else if String.eqb k "core id" then MkCore (Index c) (VendorId c) (Mhz c) (CacheSize c) (PhysicalId c) (Netutils.Atoi_value v)
  else c.

Record CPUDie := MkDie { DieIndex : Z; CoreList : list CPUCore }.

Abbreviation CPU := (list CPUDie).

Definition die_AddCore (core : CPUCore) (d : CPUDie) : CPUDie := MkDie (DieIndex d) (CoreList d ++ [core]).

(** The loop of [AddCore]: dies up to the one of the core. *)
Fixpoint grow (fuel : nat) (c : CPU) : CPU :=
  match fuel with O => c | S fuel => grow fuel (c ++ [MkDie (Z.of_nat (length c)) []]) end.

Definition AddCore (c : CPU) (core : CPUCore) : outcome unit CPU :=
  let c := grow (Z.to_nat (PhysicalId core + 1 - Z.of_nat (length c))) c in
  if PhysicalId core <? 0 then Panic
  else Ret (alter (die_AddCore core) (Z.to_nat (PhysicalId core)) c).

(** [strings.TrimSpace] on the characters of /proc/cpuinfo. *)
Definition is_space (c : Ascii.ascii) : bool :=
  Ascii.eqb c " " || let n := Ascii.nat_of_ascii c in (9 <=? n)%nat && (n <=? 13)%nat.
Fixpoint trim_left (s : string) : string :=
  match s with String c r => if is_space c then trim_left r else s | EmptyString => s end.
Definition TrimSpace (s : string) : string := String.rev (trim_left (String.rev (trim_left s))).

Fixpoint cpuinfo_loop (ParseFloat : string → float64) (lines : list string) (core : option CPUCore) (cpu : CPU)
  : outcome unit CPU :=
  match lines with
  | [] => match core with Some core => AddCore cpu core | None => Ret cpu end
  | line :: lines =>
    match Split ":"%char line with
    | [k; v] =>
      let key := TrimSpace k in
      let val := TrimSpace v in
      if String.eqb key "processor" then
        match Netutils.Atoi val with
        | None => Fail tt
        | Some iVal =>
          let! cpu := match core with Some core => AddCore cpu core | None => Ret cpu end in
          cpuinfo_loop ParseFloat lines (Some (NewCPUCore iVal)) cpu
        end
      else cpuinfo_loop ParseFloat lines ((λ core, setInfo ParseFloat core key val) <$> core) cpu
    | _ => cpuinfo_loop ParseFloat lines core cpu
    end
  end.

Definition NewCPU (ParseFloat : string → float64) (cpuinfo : string) : outcome unit CPU :=
  cpuinfo_loop ParseFloat (Split (Ascii.ascii_of_nat 10) cpuinfo) None [].

Definition GetCoreStr (d : CPUDie) : string := join "," (sort_strings ((λ c, Itoa (Index c)) <$> CoreList d)).

Definition GetCpuset (c : CPU) (idx : Z) : string :=
  if (0 <=? idx) && (idx <? Z.of_nat (length c)) then
    match c !! Z.to_nat idx with Some d => GetCoreStr d | None => "" end
  else "".

Definition GetPhysicalId (c : CPU) (cstr : string) : Z :=
  match list_find (λ d, GetCoreStr d = cstr) c with Some (_, d) => DieIndex d | None => -1 end.

(** The loop [for start < end]. *)
Definition range_loop (start end_ : Z) : list string := (λ i, Itoa (start + Z.of_nat i)) <$> seq 0 (Z.to_nat (end_ - start)).

(** An entry of a CPU set. *)
Definition parse_entry (idxstr : string) : list string :=
  match Split "-"%char idxstr with
  | s :: e :: _ => range_loop (Netutils.Atoi_value s) (Netutils.Atoi_value e)
  | _ => [idxstr]
  end.

Definition ParseCpusetStr (cpuset : string) : string :=
  join "," (sort_strings (Split ","%char cpuset ≫= parse_entry)).

(** ** Processes *)

Record ProcessCPUinfo := MkProc { Pid : Z; Share : option Z; Cpuset : option Z; Util : float64; Weight : float64 }.

Definition f_zero : float64 := S754_zero false.

Definition Average (arr : list float64) : float64 :=
  Condition.f_div (foldl Condition.f_add f_zero arr) (Condition.f_of_int (Z.of_nat (length arr))).

(** The constants 0.8 and 0.2 are the nearest floats. *)
Definition f_tenths (n : Z) : float64 := Condition.f_div (Condition.f_of_int n) (Condition.f_of_int 10).

Definition GetProcessWeight (share : option Z) (util : float64) : float64 :=
  match share with
  | Some s => Condition.f_mul (Condition.f_of_int s) (Condition.f_add (Condition.f_mul util (f_tenths 8)) (Condition.f_of_int 30))
  | None => f_zero
  end.

Definition MAX_HISTORY_UTIL_COUNT : nat := 5.

(** The use of a process so far, by its identifier. *)
Abbreviation history := (gmap string (list float64)).

Definition last_utils (utils : list float64) : list float64 := drop (length utils - MAX_HISTORY_UTIL_COUNT) utils.

(** [NewProcessCPUinfo]: the shares and the CPU set of its control groups, [None] for a group that does not exist, and its
    use in percent, [None] when it cannot be read. *)
Definition NewProcessCPUinfo (cpu : CPU) (h : history) (pid : Z) (shares cpuset : option string) (CPUPercent : option float64)
  : outcome unit (ProcessCPUinfo * history) :=
  let share := (s ← shares; n ← Netutils.Atoi s; Some (n `quot` 1024)) in
  let icpuset := (c ← cpuset; if String.eqb c "" then None else Some (GetPhysicalId cpu (ParseCpusetStr c))) in
  match share with
  | None => Ret (MkProc pid None icpuset f_zero (GetProcessWeight None f_zero), h)
  | Some n =>
    match CPUPercent with
    | None => Fail tt
    | Some util =>
      let util := Condition.f_div util (Condition.f_of_int n) in
      let utils := last_utils (default [] (h !! Itoa pid) ++ [util]) in
      let u := Average utils in
      Ret (MkProc pid (Some n) icpuset u (GetProcessWeight (Some n) u), <[Itoa pid := utils]> h)
    end
  end.

(** A process as it is read: its identifier, the shares and the CPU set of its control groups, and its use. *)
Record proc_entry := MkEntry { e_pid : string; e_shares : option string; e_cpuset : option string; e_percent : option float64 }.

Fixpoint cpuinfo_of (cpu : CPU) (coreCnt : Z) (h : history) (pids : list proc_entry) : outcome unit (list ProcessCPUinfo * history) :=
  match pids with
  | [] => Ret ([], h)
  | e :: pids =>
    match Netutils.Atoi (e_pid e) with
    | None => Fail tt
    | Some ipid =>
      let! (info, h) := NewProcessCPUinfo cpu h ipid (e_shares e) (e_cpuset e) (e_percent e) in
      let! (ret, h) := cpuinfo_of cpu coreCnt h pids in
      Ret (match Share info with Some s => if s <? coreCnt then info :: ret else ret | None => ret end, h)
    end
  end.

(** [GetProcessesCpuinfo]: processes with fewer shares than the first processor has cores. *)
Definition GetProcessesCpuinfo (cpu : CPU) (h : history) (pids : list proc_entry) : outcome unit (list ProcessCPUinfo * history) :=
  let! die := of_opt (head cpu) in
  cpuinfo_of cpu (Z.of_nat (length (CoreList die))) h pids.

(** ** Balancing (cpusetutils.go) *)

(** The processes of a processor. *)
Abbreviation CPULoad := (list ProcessCPUinfo).

Definition GetWeight (c : CPULoad) : float64 := foldl (λ wt p, Condition.f_add wt (Weight p)) f_zero c.

Definition f_minus_one : float64 := Condition.f_of_int (-1).

Definition diff_step (acc : float64 * float64) (cpu : CPULoad) : float64 * float64 :=
  let '(maxLd, minLd) := acc in
  let wt := GetWeight cpu in
  (if SFltb maxLd f_zero || SFltb maxLd wt then wt else maxLd,
   if SFltb minLd f_zero || SFltb wt minLd then wt else minLd).

Definition GetMaxLoadDiff (cpus : list CPULoad) : float64 :=
  let (maxLd, minLd) := foldl diff_step (f_minus_one, f_minus_one) cpus in
  if SFltb f_zero minLd then Condition.f_div (Condition.f_sub maxLd minLd) minLd else f_zero.

(** The index of the processor with the least load, [None] for nil. *)
Fixpoint min_loop (cpuset : option Z) (i : nat) (cpus : list CPULoad) (mintWt : float64) (minCpu : option nat) : option nat :=
  match cpus with
  | [] => minCpu
  | c :: cpus =>
    let wt := GetWeight c in
    if SFltb mintWt f_zero || SFltb wt mintWt || (SFeqb mintWt wt && bool_decide (cpuset = Some (Z.of_nat i)))
    then min_loop cpuset (S i) cpus wt (Some i)
    else min_loop cpuset (S i) cpus mintWt minCpu
  end.

Definition GetMinLoadCpu (cpus : list CPULoad) (cpuset : option Z) : option nat := min_loop cpuset 0 cpus f_minus_one None.

(** The processes as they are pinned now; an index out of range panics. *)
Fixpoint pinned (infos : list ProcessCPUinfo) (cpus : list CPULoad) (newProc : bool) : outcome unit (list CPULoad * bool) :=
  match infos with
  | [] => Ret (cpus, newProc)
  | info :: infos =>
    match Cpuset info with
    | None => pinned infos cpus true
    | Some i =>
      if (0 <=? i) && (i <? Z.of_nat (length cpus)) then pinned infos (alter (λ c, c ++ [info]) (Z.to_nat i) cpus) newProc
      else Panic
    end
  end.

(** The loop that deals out the processes. *)
Fixpoint deal (procs : list ProcessCPUinfo) (cpus : list CPULoad) : outcome unit (list CPULoad) :=
  match procs with
  | [] => Ret cpus
  | p :: procs =>
    let! i := of_opt (GetMinLoadCpu cpus (Cpuset p)) in
    deal procs (alter (λ c, c ++ [p]) i cpus)
  end.

Section Arrange.
(** [sort.Slice] by weight is an argument. *)
Context (sort_weight : list ProcessCPUinfo → list ProcessCPUinfo).

(** The loop that is to clear the processors sets a field of a copy of each, and clears nothing. *)
Definition ArrangeProcesses (infos : list ProcessCPUinfo) (cpuCount : Z) : outcome unit (option (list CPULoad)) :=
  if cpuCount <? 0 then Panic
  else
    let! (cpus, newProc) := pinned infos (replicate (Z.to_nat cpuCount) []) false in
    if negb newProc && SFltb (GetMaxLoadDiff cpus) (f_tenths 2) then Ret None
    else let! cpus := deal (sort_weight infos) cpus in Ret (Some cpus).

(** The calls that [CommitProcessesCpuset] makes: the processes with the processor each is to be pinned to. *)
Definition CommitProcessesCpuset (cpus : list CPULoad) : list (Z * Z) :=
  concat (imap (λ i cpu, omap (λ p, if bool_decide (Cpuset p = Some (Z.of_nat i)) then None else Some (Pid p, Z.of_nat i)) cpu) cpus).

(** What is written to the control group of a process. *)
Definition CommitProcessCpuset (cpu : CPU) (call : Z * Z) : list (Z * string) :=
  let sets := GetCpuset cpu call.2 in if String.eqb sets "" then [] else [(call.1, sets)].

Definition rebalanceProcesses (cpu : CPU) (h : history) (pids : list proc_entry) : outcome unit (list (Z * string) * history) :=
  if Z.of_nat (length cpu) <=? 1 then Ret ([], h)
  else
    let! (infos, h) := GetProcessesCpuinfo cpu h pids in
    let! ret := ArrangeProcesses infos (Z.of_nat (length cpu)) in
    Ret (match ret with Some cpus => CommitProcessesCpuset cpus ≫= CommitProcessCpuset cpu | None => [] end, h).

End Arrange.

End CpuSet.
