(* ===== verification/CpuSetProofs.v ===== *)
(** * CPU sets forget the ends of ranges; how processes are balanced *)

From stdpp Require Import pretty.
From Stdlib Require Import Ascii SpecFloat.
From S2P Require Import Prelude Netutils Condition CpuSet.
Import CpuSet.
Local Open Scope Z_scope.
Local Open Scope go_scope.

Module CpuSetProofs.

(** ** Numbers as strings *)

Lemma digit_char k : (k < 10)%N → Netutils.digit (pretty_N_char k) = Some (Z.of_N k) ∧
  Ascii.eqb (pretty_N_char k) ","%char = false ∧ Ascii.eqb (pretty_N_char k) "-"%char = false ∧ Ascii.eqb (pretty_N_char k) "+"%char = false.
Proof.
  intros Hk. assert (k ∈ [0;1;2;3;4;5;6;7;8;9]%N) as Hin by (rewrite !elem_of_cons, elem_of_nil; lia).
  rewrite !elem_of_cons, elem_of_nil in Hin.
  repeat (destruct Hin as [->|Hin]; [split_and!; vm_compute; reflexivity|]). done.
Qed.

Lemma digits_go n : ∀ s, Netutils.digits (pretty_N_go n s) 0 = Netutils.digits s (Z.of_N n) ∧
  ∀ c, c = ","%char ∨ c = "-"%char → char_free c (pretty_N_go n s) = char_free c s.
Proof.
  induction (N.lt_wf_0 n) as [n _ IH]. intros s. destruct (decide (n = 0)%N) as [->|Hn]; [by rewrite pretty_N_go_0|].
  rewrite pretty_N_go_step by lia. destruct (IH (n `div` 10)%N ltac:(apply N.div_lt; lia) (String (pretty_N_char (n `mod` 10)) s)) as [Hd Hf].
  destruct (digit_char (n `mod` 10)%N ltac:(apply N.mod_lt; lia)) as (Hc & H1 & H2 & _). split.
  - rewrite Hd. cbn [Netutils.digits]. rewrite Hc. cbn [mbind option_bind]. f_equal.
    pose proof (N.div_mod' n 10). lia.
  - intros c Hcc. rewrite Hf by done. cbn [char_free]. destruct Hcc as [->| ->]; [by rewrite H1|by rewrite H2].
Qed.

Lemma first_digit n : ∀ s, (0 < n)%N → ∃ c r, pretty_N_go n s = String c r ∧ Ascii.eqb c "+"%char = false ∧ Ascii.eqb c "-"%char = false.
Proof.
  induction (N.lt_wf_0 n) as [n _ IH]. intros s Hn. rewrite pretty_N_go_step by done.
  destruct (digit_char (n `mod` 10)%N ltac:(apply N.mod_lt; lia)) as (_ & _ & H2 & H3).
  destruct (decide (n `div` 10 = 0)%N) as [->|Hd]; [rewrite pretty_N_go_0; by eexists _, _|].
  apply IH; [apply N.div_lt; lia|by apply N.neq_0_lt_0].
Qed.

Lemma Itoa_spec i : 0 ≤ i ≤ max_int64 →
  Netutils.Atoi_value (Itoa i) = i ∧ char_free ","%char (Itoa i) ∧ char_free "-"%char (Itoa i) ∧ Itoa i ≠ "".
Proof.
  intros Hi. assert (∃ n, i = Z.of_N n) as [n ->] by (exists (Z.to_N i); lia).
  assert (Itoa (Z.of_N n) = pretty n) as -> by (unfold Itoa; destruct n; done).
  destruct (decide (n = 0)%N) as [->|Hn]; [by vm_compute|]. unfold pretty, pretty_N. rewrite decide_False by done.
  destruct (digits_go n "") as [Hd Hf]. rewrite !Hf by auto. destruct (first_digit n "" ltac:(lia)) as (c & r & Ego & H1 & H2).
  split_and!; [|done|done|by rewrite Ego]. unfold Netutils.Atoi_value, Netutils.parse_int. rewrite Ego, H1, H2. rewrite <- Ego.
  rewrite Hd. cbn [Netutils.digits mbind option_bind]. unfold min_int64. lia.
Qed.

(** ** Sets as strings *)

Definition numbers (l : list Z) : Prop := Forall (λ i, 0 ≤ i ≤ max_int64) l.

#[local] Instance Itoa_inj : Inj (=) (=) Itoa.
Proof. intros x y. unfold Itoa. apply (inj pretty). Qed.

Lemma sort_perm l : sort_strings l ≡ₚ l.
Proof. apply merge_sort_Permutation. Qed.

Lemma sort_unique l1 l2 : l1 ≡ₚ l2 → sort_strings l1 = sort_strings l2.
Proof.
  intros Hp. apply (StronglySorted_unique String.le); [apply (StronglySorted_merge_sort String.le)..|].
  by rewrite (sort_perm l1), (sort_perm l2).
Qed.

(** Two sets of numbers have the same string when they are the same set. *)
Lemma set_string l1 l2 : numbers l1 → numbers l2 →
  join "," (sort_strings (Itoa <$> l1)) = join "," (sort_strings (Itoa <$> l2)) ↔ l1 ≡ₚ l2.
Proof.
  intros H1 H2. split; [|intros Hp; f_equal; apply sort_unique; by rewrite Hp].
  assert (∀ l, numbers l → Forall (λ x, char_free ","%char x) (sort_strings (Itoa <$> l)) ∧ Forall (λ x, x ≠ "") (sort_strings (Itoa <$> l))) as Hok.
  { intros l Hl. rewrite !sort_perm, !Forall_fmap. split; (eapply Forall_impl; [exact Hl|]); intros i Hi; apply (Itoa_spec i Hi). }
  destruct (Hok l1 H1) as [F1 N1], (Hok l2 H2) as [F2 N2]. intros Hj.
  assert (sort_strings (Itoa <$> l1) = sort_strings (Itoa <$> l2)) as Heq.
  { destruct (decide (sort_strings (Itoa <$> l1) = [])) as [E1|E1].
    - rewrite E1 in Hj. symmetry in Hj. apply join_nil_inj in Hj; [|done]. congruence.
    - destruct (decide (sort_strings (Itoa <$> l2) = [])) as [E2|E2]; [rewrite E2 in Hj; apply join_nil_inj in Hj; [congruence|done]|].
      by apply (join_inj ","%char). }
  assert (Itoa <$> l1 ≡ₚ Itoa <$> l2) as Hp by (rewrite <- (sort_perm (Itoa <$> l1)), Heq; apply sort_perm).
  apply Permutation_map_inv in Hp as (l3 & Hl & Hp). assert (l1 = l3) as -> by (by apply (inj (fmap Itoa))). by symmetry.
Qed.

(** ** The list format of the kernel *)

(** Numbers and ranges [a-b], separated by commas. *)
Definition entry (r : Z * Z) : string := if r.1 =? r.2 then Itoa r.1 else Itoa r.1 +:+ "-" +:+ Itoa r.2.
Definition cpulist (rs : list (Z * Z)) : string := join "," (entry <$> rs).

Definition members (rs : list (Z * Z)) : list Z := rs ≫= λ r, seqZ r.1 (r.2 - r.1 + 1).
(** What the parser takes of them: ranges without their ends. *)
Definition parsed (rs : list (Z * Z)) : list Z := rs ≫= λ r, if r.1 =? r.2 then [r.1] else seqZ r.1 (r.2 - r.1).

Definition ranges_ok (rs : list (Z * Z)) : Prop := Forall (λ r, 0 ≤ r.1 ≤ r.2 ∧ r.2 ≤ max_int64) rs.

Lemma parse_entry_spec r : 0 ≤ r.1 ≤ r.2 ∧ r.2 ≤ max_int64 →
  char_free ","%char (entry r) ∧ parse_entry (entry r) = Itoa <$> (if r.1 =? r.2 then [r.1] else seqZ r.1 (r.2 - r.1)).
Proof.
  intros [Hr Hmax]. destruct (Itoa_spec r.1 ltac:(lia)) as (V1 & C1 & D1 & _), (Itoa_spec r.2 ltac:(lia)) as (V2 & C2 & D2 & _).
  unfold entry, parse_entry. destruct (Z.eqb_spec r.1 r.2); [split; [done|]; by rewrite Split_free|]. split.
  - by rewrite !char_free_app.
  - change (Itoa r.1 +:+ "-" +:+ Itoa r.2) with (Itoa r.1 +:+ String "-" (Itoa r.2)). rewrite Split_app, Split_free by done.
    unfold range_loop, seqZ. rewrite V1, V2, <- list_fmap_compose. apply list_fmap_ext. intros i j _. cbn. f_equal. lia.
Qed.

Lemma parse_cpulist rs : rs ≠ [] → ranges_ok rs → ParseCpusetStr (cpulist rs) = join "," (sort_strings (Itoa <$> parsed rs)).
Proof.
  intros Hne Hok. unfold ParseCpusetStr, cpulist. rewrite (Split_join ","%char).
  - do 2 f_equal. unfold parsed. clear Hne. induction Hok as [|r rs Hr _ IH]; [done|]. cbn [fmap list_fmap mbind list_bind].
    rewrite IH, fmap_app. f_equal. by apply parse_entry_spec.
  - by destruct rs.
  - apply Forall_fmap. eapply Forall_impl; [exact Hok|]. intros r Hr. by apply parse_entry_spec.
Qed.

Lemma members_numbers rs : ranges_ok rs → numbers (members rs) ∧ numbers (parsed rs) ∧ (∀ x, x ∈ parsed rs → x ∈ members rs) ∧
  (rs ≠ [] → ∃ x, x ∈ parsed rs) ∧ (Forall (λ r, r.1 = r.2) rs → parsed rs = members rs) ∧
  (¬ Forall (λ r, r.1 = r.2) rs → (length (parsed rs) < length (members rs))%nat) ∧ (length (parsed rs) ≤ length (members rs))%nat.
Proof.
  unfold numbers, members, parsed. induction 1 as [|r rs [Hr Hmax] _ IH]; cbn [mbind list_bind].
  { split_and!; [constructor|constructor|done|done|done|by intros []|done]. }
  destruct IH as (I1 & I2 & I3 & _ & I5 & I6 & I7).
  set (p := if r.1 =? r.2 then [r.1] else seqZ r.1 (r.2 - r.1)).
  assert (∀ x, x ∈ p → r.1 ≤ x ≤ r.2) as Hp.
  { intros x. subst p. destruct (Z.eqb_spec r.1 r.2); [intros ->%list_elem_of_singleton; lia|intros ?%elem_of_seqZ; lia]. }
  assert (r.1 ∈ p) as H1 by (subst p; destruct (Z.eqb_spec r.1 r.2); [left|apply elem_of_seqZ; lia]).
  assert (r.1 = r.2 → p = seqZ r.1 (r.2 - r.1 + 1)) as Hs.
  { intros He. subst p. rewrite (proj2 (Z.eqb_eq _ _) He). replace (r.2 - r.1 + 1) with 1 by lia. rewrite seqZ_cons by lia. done. }
  assert (r.1 ≠ r.2 → length p < length (seqZ r.1 (r.2 - r.1 + 1)))%nat as Hl.
  { intros Hne. subst p. rewrite (proj2 (Z.eqb_neq _ _) Hne), !length_seqZ. lia. }
  split_and!.
  - apply Forall_app. split; [|done]. apply Forall_forall. intros x ?%elem_of_seqZ. lia.
  - apply Forall_app. split; [|done]. apply Forall_forall. intros x ?%Hp. lia.
  - intros x [Hx|Hx]%elem_of_app; apply elem_of_app; [left; apply elem_of_seqZ; apply Hp in Hx; lia|right; by apply I3].
  - intros _. exists r.1. apply elem_of_app. by left.
  - intros [He Hall]%Forall_cons. by rewrite Hs, I5.
  - intros Hn. rewrite !length_app. destruct (decide (r.1 = r.2)) as [He|He]; [|specialize (Hl He); lia].
    rewrite <- (Hs He). assert (¬ Forall (λ r, r.1 = r.2) rs) as Hn' by (intros Hf; apply Hn; by constructor). specialize (I6 Hn'). lia.
  - rewrite !length_app. destruct (decide (r.1 = r.2)) as [He|He]; [rewrite <- (Hs He); lia|specialize (Hl He); lia].
Qed.

(** ** Processors of a set *)

(** Processors are numbered in order, and a core belongs to one of them. *)
Record cpu_ok (cpu : CPU) : Prop := {
  co_index : ∀ k d, cpu !! k = Some d → DieIndex d = Z.of_nat k;
  co_cores : NoDup (cpu ≫= λ d, Index <$> CoreList d);
  co_numbers : numbers (cpu ≫= λ d, Index <$> CoreList d) }.

Lemma die_numbers cpu k d : cpu_ok cpu → cpu !! k = Some d → numbers (Index <$> CoreList d).
Proof.
  intros Hc Hd. apply Forall_forall. intros x Hx. pose proof (proj1 (Forall_forall _ _) (co_numbers _ Hc)) as Hn. apply Hn.
  apply list_elem_of_bind. exists d. split; [done|]. apply list_elem_of_lookup. by exists k.
Qed.

(** A core is of one processor. *)
Lemma same_die (cpu : CPU) k k' d d' x : NoDup (cpu ≫= λ d, Index <$> CoreList d) → cpu !! k = Some d → cpu !! k' = Some d' →
  x ∈ Index <$> CoreList d → x ∈ Index <$> CoreList d' → k = k'.
Proof.
  revert k k'. induction cpu as [|e cpu IH]; intros k k' Hnd Hk Hk' Hx Hx'; [done|]. cbn [mbind list_bind] in Hnd. apply NoDup_app in Hnd as (_ & Hdis & Hnd).
  assert (∀ j d, cpu !! j = Some d → x ∈ Index <$> CoreList d → x ∉ Index <$> CoreList e) as Hno.
  { intros j d0 Hj Hx0 Hxe. apply (Hdis x Hxe), list_elem_of_bind. exists d0. split; [done|]. apply list_elem_of_lookup. by exists j. }
  destruct k as [|k], k' as [|k']; cbn in Hk, Hk'; simplify_eq; [done|by destruct (Hno k' d')|by destruct (Hno k d)|]. f_equal. by eapply IH.
Qed.

Lemma find_die cpu l : cpu_ok cpu → numbers l → l ≠ [] →
  (∀ k d, cpu !! k = Some d → Index <$> CoreList d ≡ₚ l → GetPhysicalId cpu (join "," (sort_strings (Itoa <$> l))) = Z.of_nat k) ∧
  ((∀ k d, cpu !! k = Some d → ¬ Index <$> CoreList d ≡ₚ l) → GetPhysicalId cpu (join "," (sort_strings (Itoa <$> l))) = -1).
Proof.
  intros Hc Hl Hne. assert (∀ k d, cpu !! k = Some d → GetCoreStr d = join "," (sort_strings (Itoa <$> l)) ↔ Index <$> CoreList d ≡ₚ l) as Heq.
  { intros k d Hd. unfold GetCoreStr. rewrite (list_fmap_compose Index Itoa). apply set_string; [by eapply die_numbers|done]. }
  unfold GetPhysicalId. destruct (list_find _ cpu) as [[k' d']|] eqn:Ef; split.
  - intros k d Hd Hp. apply list_find_Some in Ef as (Hd' & Hs & _). apply (Heq k' d' Hd') in Hs. rewrite (co_index _ Hc k' d' Hd'). f_equal.
    destruct l as [|x l]; [done|]. eapply (same_die cpu k' k d' d x); [apply Hc|done|done|rewrite Hs; left|rewrite Hp; left].
  - intros Hno. apply list_find_Some in Ef as (Hd' & Hs & _). apply (Heq k' d' Hd') in Hs. by destruct (Hno k' d' Hd').
  - intros k d Hd Hp. apply list_find_None in Ef. rewrite Forall_forall in Ef. destruct (Ef d); [apply list_elem_of_lookup; by exists k|].
    by apply (Heq k d Hd).
  - done.
Qed.

Lemma pinned_set cpu i d rs : cpu_ok cpu → cpu !! i = Some d → rs ≠ [] → ranges_ok rs → Index <$> CoreList d ≡ₚ members rs →
  GetPhysicalId cpu (ParseCpusetStr (cpulist rs)) = if decide (Forall (λ r, r.1 = r.2) rs) then Z.of_nat i else -1.
Proof.
  intros Hc Hd Hne Hok Hm. rewrite parse_cpulist by done. destruct (members_numbers rs Hok) as (_ & Hn & Hsub & Hex & Heq & Hlt & _).
  destruct (Hex Hne) as [x Hx]. destruct (find_die cpu (parsed rs) Hc Hn) as [Hyes Hno]; [by intros E; rewrite E in Hx; apply elem_of_nil in Hx|].
  destruct (decide _) as [Hall|Hr]; [apply (Hyes i d Hd); by rewrite (Heq Hall)|]. apply Hno. intros k e He Hp.
  assert (k = i) as ->.
  { eapply (same_die cpu k i e d x); [apply Hc|done|done|by rewrite Hp|rewrite Hm; by apply Hsub]. }
  rewrite Hd in He. injection He as <-. specialize (Hlt Hr). rewrite Hm in Hp. apply Permutation_length in Hp. lia.
Qed.

(** Building the processors keeps their numbers. *)
Lemma grow_spec fuel : ∀ c, (∀ k d, c !! k = Some d → DieIndex d = Z.of_nat k) →
  (∀ k d, grow fuel c !! k = Some d → DieIndex d = Z.of_nat k) ∧ length (grow fuel c) = (length c + fuel)%nat.
Proof.
  induction fuel as [|fuel IH]; intros c Hc; cbn [grow]; [split; [done|lia]|]. destruct (IH (c ++ [MkDie (Z.of_nat (length c)) []])) as [H1 H2].
  - intros k d [Hk|[Hge Hk]]%lookup_app_Some; [by apply Hc|]. destruct (k - length c)%nat as [|m] eqn:Ek; cbn in Hk; [|done]. injection Hk as <-.
    cbn. lia.
  - split; [done|]. rewrite H2, length_app. cbn. lia.
Qed.

Lemma AddCore_numbered c core c' : (∀ k d, c !! k = Some d → DieIndex d = Z.of_nat k) → AddCore c core = Ret c' →
  0 ≤ PhysicalId core < Z.of_nat (length c') ∧ ∀ k d, c' !! k = Some d → DieIndex d = Z.of_nat k.
Proof.
  intros Hc. unfold AddCore. destruct (Z.ltb_spec (PhysicalId core) 0); [done|]. intros [= <-].
  destruct (grow_spec (Z.to_nat (PhysicalId core + 1 - Z.of_nat (length c))) c Hc) as [H1 H2]. rewrite length_alter, H2. split; [lia|].
  intros k d Hk. destruct (decide (Z.to_nat (PhysicalId core) = k)) as [<-|Hne].
  - rewrite list_lookup_alter_eq in Hk. destruct (grow _ c !! _) as [d0|] eqn:E0; cbn in Hk; [|done]. injection Hk as <-. by apply H1 in E0.
  - rewrite list_lookup_alter_ne in Hk by done. by apply H1.
Qed.

(** ** Balancing *)

Definition in_cpu (i : nat) (p : ProcessCPUinfo) : Prop := Cpuset p = Some (Z.of_nat i).
#[local] Instance in_cpu_dec i p : Decision (in_cpu i p).
Proof. unfold in_cpu. apply _. Defined.

Definition pinnable (n : nat) (p : ProcessCPUinfo) : Prop := ∀ c, Cpuset p = Some c → 0 ≤ c < Z.of_nat n.

(** The processors as the processes are pinned now. *)
Lemma pinned_spec infos : ∀ cpus new, Forall (pinnable (length cpus)) infos →
  ∃ cpus', pinned infos cpus new = Ret (cpus', new || negb (bool_decide (Forall (λ p, is_Some (Cpuset p)) infos))) ∧
    length cpus' = length cpus ∧ ∀ i c, cpus !! i = Some c → cpus' !! i = Some (c ++ filter (in_cpu i) infos).
Proof.
  induction infos as [|p infos IH]; intros cpus new Hall; cbn [pinned].
  { exists cpus. rewrite bool_decide_eq_true_2 by constructor. rewrite orb_false_r. split_and!; [done..|]. intros i c. by rewrite app_nil_r. }
  apply Forall_cons in Hall as [Hp Hall]. destruct (Cpuset p) as [c|] eqn:Ec.
  - specialize (Hp c Ec). rewrite (proj2 (Z.leb_le _ _)), (proj2 (Z.ltb_lt _ _)) by lia. cbn [andb].
    destruct (IH (alter (λ c, c ++ [p]) (Z.to_nat c) cpus) new) as (cpus' & -> & Hlen & Hl); [by rewrite length_alter|].
    exists cpus'. rewrite length_alter in Hlen. split_and!; [|done|].
    + do 4 f_equal. apply bool_decide_ext. rewrite Forall_cons, Ec. split; [intros ?; split; [by eexists|done]|by intros [_ ?]].
    + intros i l Hi. destruct (decide (i = Z.to_nat c)) as [->|Hne].
      * rewrite (Hl _ (l ++ [p])) by (by rewrite list_lookup_alter_eq, Hi). rewrite filter_cons_True by (unfold in_cpu; rewrite Ec; f_equal; lia).
        by rewrite <- app_assoc.
      * rewrite (Hl _ l) by (by rewrite list_lookup_alter_ne). rewrite filter_cons_False; [done|]. unfold in_cpu. rewrite Ec. intros [= ->]. lia.
  - destruct (IH cpus true Hall) as (cpus' & -> & Hlen & Hl). exists cpus'. split_and!; [|done|].
    + rewrite (bool_decide_eq_false_2 (Forall _ (p :: infos))); [by rewrite orb_true_r|]. rewrite Forall_cons, Ec. intros [[x Hx] _]. done.
    + intros i l Hi. rewrite filter_cons_False; [by apply Hl|]. unfold in_cpu. congruence.
Qed.

Lemma pinned_panics infos p : p ∈ infos → ∀ cpus new, (∃ c, Cpuset p = Some c ∧ ¬ 0 ≤ c < Z.of_nat (length cpus)) → pinned infos cpus new = Panic.
Proof.
  induction infos as [|q infos IH]; [by intros ?%elem_of_nil|]. intros Hin cpus new Hbad. cbn [pinned]. apply elem_of_cons in Hin as [->|Hin].
  - destruct Hbad as (c & -> & Hc). destruct (Z.leb_spec 0 c), (Z.ltb_spec c (Z.of_nat (length cpus))); try done; lia.
  - destruct (Cpuset q) as [c|]; [|by apply IH]. destruct (_ && _); [|done]. apply IH; [done|]. by rewrite length_alter.
Qed.

(** ** Loads as floats *)

(** A number that is not negative. *)
Definition nonneg (x : float64) : Prop := SFleb f_zero x = true.

Lemma nonneg_cases x : nonneg x ↔ match x with S754_zero _ => True | S754_infinity s | S754_finite s _ _ => s = false | S754_nan => False end.
Proof. unfold nonneg, SFleb. destruct x as [[]|[]| |[] m e]; cbn; naive_solver. Qed.

(** Rounding keeps the sign and gives a number. *)
Lemma shr_m_nonneg p : ∀ r, 0 ≤ shr_m r → 0 ≤ shr_m (SpecFloat.iter_pos shr_1 p r).
Proof.
  assert (∀ r, 0 ≤ shr_m r → 0 ≤ shr_m (shr_1 r)) as H1 by (intros [[|[]|] ? ?]; cbn; lia).
  induction p as [p IH|p IH|]; intros r Hr; cbn [SpecFloat.iter_pos]; auto.
Qed.

Lemma shr_fexp_nonneg prec emax m e l : 0 ≤ m → 0 ≤ shr_m (shr_fexp prec emax m e l).1.
Proof.
  intros Hm. unfold shr_fexp, shr. assert (0 ≤ shr_m (shr_record_of_loc m l)) by (by destruct l as [|[]]).
  destruct (_ - e); [done| |done]. by apply shr_m_nonneg.
Qed.

Lemma round_nonneg prec emax m e : nonneg (binary_round prec emax false m e).
Proof.
  apply nonneg_cases. unfold binary_round. destruct (shl_align _ _ _) as [mz ez]. unfold binary_round_aux.
  pose proof (shr_fexp_nonneg prec emax (Zpos mz) ez loc_Exact ltac:(lia)) as H1.
  destruct (shr_fexp prec emax (Zpos mz) ez loc_Exact) as [r1 e1]. cbn [fst] in H1.
  assert (0 ≤ round_nearest_even (shr_m r1) (loc_of_shr_record r1)) as H2.
  { unfold round_nearest_even. repeat case_match; lia. }
  pose proof (shr_fexp_nonneg prec emax _ e1 loc_Exact H2) as H3.
  destruct (shr_fexp prec emax _ e1 loc_Exact) as [r2 e2]. cbn [fst] in H3.
  destruct (shr_m r2); [done|by destruct (_ <=? _)|lia].
Qed.

Lemma add_nonneg x y : nonneg x → nonneg y → nonneg (Condition.f_add x y).
Proof.
  intros Hx%nonneg_cases Hy%nonneg_cases. unfold Condition.f_add, SFadd.
  destruct x as [[]|sx| |sx m e], y as [[]|sy| |sy m' e']; simplify_eq; try done; cbn [cond_Zopp Z.add binary_normalize].
  apply round_nonneg.
Qed.

Lemma weight_nonneg c : Forall (λ p, nonneg (Weight p)) c → nonneg (GetWeight c).
Proof.
  unfold GetWeight. assert (nonneg f_zero) as H0 by done. revert H0. generalize f_zero.
  induction c as [|p c IH]; intros w Hw Hc; cbn [foldl]; [done|]. apply Forall_cons in Hc as [Hp Hc].
  apply IH; [|done]. by apply add_nonneg.
Qed.

(** The order of floats that are not negative is the lexicographic order of their parts. *)
Definition parts (x : float64) : Z * Z * Z :=
  match x with S754_finite _ m e => (1, e, Zpos m) | S754_infinity _ => (2, 0, 0) | _ => (0, 0, 0) end.

Definition lex (a b : Z * Z * Z) : Prop :=
  a.1.1 < b.1.1 ∨ a.1.1 = b.1.1 ∧ (a.1.2 < b.1.2 ∨ a.1.2 = b.1.2 ∧ a.2 < b.2).

Lemma compare_parts x y : nonneg x → nonneg y →
  match SFcompare x y with Some Lt => lex (parts x) (parts y) | Some Eq => parts x = parts y | Some Gt => lex (parts y) (parts x) | None => False end.
Proof.
  intros Hx%nonneg_cases Hy%nonneg_cases. unfold lex.
  destruct x as [sx|sx| |sx m e], y as [sy|sy| |sy m' e']; simplify_eq; cbn; try lia; try done.
  destruct (Z.compare_spec e e') as [->|He|He]; cbn; [|lia..]. change (Pos.compare_cont Eq m m') with (Pos.compare m m').
  destruct (Pos.compare_spec m m') as [->|Hm|Hm]; cbn; [done|lia..].
Qed.

Lemma lex_irrefl a b : lex a b → lex b a → False.
Proof. unfold lex. lia. Qed.

Lemma ltb_parts x y : nonneg x → nonneg y → SFltb x y = true ↔ lex (parts x) (parts y).
Proof.
  intros Hx Hy. pose proof (compare_parts x y Hx Hy) as H. unfold SFltb. destruct (SFcompare x y) as [[]|]; [|done|..|done];
    (split; [done|]); intros Hl; exfalso; [rewrite H in Hl|]; by eapply lex_irrefl.
Qed.

Lemma nltb_parts x y : nonneg x → nonneg y → SFltb x y = false ↔ ¬ lex (parts x) (parts y).
Proof. intros Hx Hy. rewrite <- ltb_parts by done. by rewrite not_true_iff_false. Qed.

Lemma eqb_parts x y : nonneg x → nonneg y → SFeqb x y = true ↔ parts x = parts y.
Proof.
  intros Hx Hy. pose proof (compare_parts x y Hx Hy) as H. unfold SFeqb. destruct (SFcompare x y) as [[]|]; [done|..|done];
    (split; [done|]); intros Hl; exfalso; rewrite Hl in H; by eapply lex_irrefl.
Qed.

Lemma nonneg_not_below x : nonneg x → SFltb x f_zero = false.
Proof. intros H%nonneg_cases. by destruct x as [[]|[]| |[]]. Qed.

(** ** The choice of a processor *)

(** Processor [i] is a choice for process [p]: no processor is lighter, and it is the process's own, or the first of the
    lightest while its own is heavier. *)
Definition lightest (cpus : list CPULoad) (p : ProcessCPUinfo) (i : nat) : Prop :=
  ∃ c, cpus !! i = Some c ∧ (∀ j c', cpus !! j = Some c' → SFltb (GetWeight c') (GetWeight c) = false) ∧
    (Cpuset p = Some (Z.of_nat i) ∨
     ∀ j c', cpus !! j = Some c' → (j < i)%nat ∨ Cpuset p = Some (Z.of_nat j) → SFltb (GetWeight c) (GetWeight c') = true).

(** [chosen] for [i] processors seen with least load [w]. *)
Definition choice (cpuset : option Z) (cpus : list CPULoad) (i k : nat) (w : float64) : Prop :=
  (k < i)%nat ∧ (∃ c, cpus !! k = Some c ∧ GetWeight c = w) ∧
  (∀ j c', (j < i)%nat → cpus !! j = Some c' → ¬ lex (parts (GetWeight c')) (parts w)) ∧
  (cpuset = Some (Z.of_nat k) ∨
   ∀ j c', (j < i)%nat → cpus !! j = Some c' → (j < k)%nat ∨ cpuset = Some (Z.of_nat j) → lex (parts w) (parts (GetWeight c'))).

Lemma min_loop_choice cpuset cpus : Forall (λ c, nonneg (GetWeight c)) cpus → ∀ rest i k w,
  rest = drop i cpus → choice cpuset cpus i k w →
  ∃ k' w', min_loop cpuset i rest w (Some k) = Some k' ∧ choice cpuset cpus (i + length rest) k' w'.
Proof.
  intros Hall. induction rest as [|c rest IH]; intros i k w Hrest (Hk & (ck & Hck & <-) & Hmin & Htie); cbn [min_loop length].
  { exists k, (GetWeight ck). rewrite Nat.add_0_r. split; [done|]. split_and!; [done|by exists ck|done|done]. }
  assert (cpus !! i = Some c) as Hi by (by rewrite <- (Nat.add_0_r i), <- lookup_drop, <- Hrest).
  assert (rest = drop (S i) cpus) as Hrest' by (rewrite <- (drop_drop cpus i 1) || rewrite <- Nat.add_1_r, <- drop_drop; by rewrite <- Hrest).
  assert (nonneg (GetWeight c) ∧ nonneg (GetWeight ck)) as [Hc Hw] by (split; [by apply (Forall_lookup_1 _ _ _ _ Hall Hi)|by apply (Forall_lookup_1 _ _ _ _ Hall Hck)]).
  rewrite (nonneg_not_below _ Hw). cbn [orb]. replace (i + S (length rest))%nat with (S i + length rest)%nat by lia.
  destruct (SFltb (GetWeight c) (GetWeight ck)) eqn:Elt; cbn [orb].
  - apply ltb_parts in Elt; [|done..]. apply IH; [done|]. split_and!; [lia|by exists c| |].
    + intros j c' Hj Hc'. destruct (decide (j = i)) as [->|]; [rewrite Hi in Hc'; injection Hc' as <-; unfold lex; lia|].
      specialize (Hmin j c' ltac:(lia) Hc'). unfold lex in *. lia.
    + destruct (decide (cpuset = Some (Z.of_nat i))) as [|Hne]; [by left|]. right. intros j c' Hj Hc' Hor.
      destruct (decide (j = i)) as [->|]; [destruct Hor; [lia|done]|]. specialize (Hmin j c' ltac:(lia) Hc'). unfold lex in *. lia.
  - apply nltb_parts in Elt; [|done..]. destruct (SFeqb (GetWeight ck) (GetWeight c) && bool_decide (cpuset = Some (Z.of_nat i))) eqn:Eeq.
    + apply andb_true_iff in Eeq as [Eeq Ecp]. apply eqb_parts in Eeq; [|done..]. apply bool_decide_eq_true in Ecp.
      apply IH; [done|]. split_and!; [lia|by exists c| |by left]. intros j c' Hj Hc'. rewrite <- Eeq.
      destruct (decide (j = i)) as [->|]; [rewrite Hi in Hc'; by injection Hc' as <-|]. apply (Hmin j); [lia|done].
    + apply IH; [done|]. split_and!; [lia|by exists ck| |].
      * intros j c' Hj Hc'. destruct (decide (j = i)) as [->|]; [rewrite Hi in Hc'; by injection Hc' as <-|]. apply (Hmin j); [lia|done].
      * destruct Htie as [Htie|Htie]; [by left|]. right. intros j c' Hj Hc' Hor. destruct (decide (j = i)) as [->|].
        -- rewrite Hi in Hc'. injection Hc' as <-. destruct Hor as [Hor|Hor]; [lia|]. rewrite (bool_decide_eq_true_2 _ Hor), andb_true_r in Eeq.
           apply not_true_iff_false in Eeq. rewrite eqb_parts in Eeq by done. revert Eeq Elt. unfold lex.
           destruct (parts (GetWeight c)) as [[a b] d], (parts (GetWeight ck)) as [[a' b'] d']; cbn. intros Hne Hnl.
           destruct (decide (a = a' ∧ b = b' ∧ d = d')) as [(-> & -> & ->)|]; [done|lia].
        -- apply (Htie j); [lia|done|done].
Qed.

Lemma GetMinLoadCpu_lightest cpus p : cpus ≠ [] → Forall (λ c, nonneg (GetWeight c)) cpus →
  ∃ i, GetMinLoadCpu cpus (Cpuset p) = Some i ∧ lightest cpus p i.
Proof.
  intros Hne Hall. destruct cpus as [|c cpus]; [done|]. unfold GetMinLoadCpu. cbn [min_loop].
  change (SFltb f_minus_one f_zero) with true. cbn [orb].
  destruct (min_loop_choice (Cpuset p) (c :: cpus) Hall cpus 1 0 (GetWeight c)) as (k & w & Ek & Hk & (ck & Hck & <-) & Hmin & Htie); [done| |].
  { split_and!; [lia|by exists c| |].
    - intros j c' Hj Hc'. assert (j = 0%nat) as -> by lia. injection Hc' as <-. unfold lex. lia.
    - destruct (decide (Cpuset p = Some 0)) as [|Hn]; [by left|]. right. intros j c' Hj Hc' Hor. assert (j = 0%nat) as -> by lia.
      destruct Hor; [lia|done]. }
  assert (∀ j c', (c :: cpus) !! j = Some c' → (j < 1 + length cpus)%nat ∧ nonneg (GetWeight c')) as Hall'.
  { intros j c' Hj. split; [by apply lookup_lt_Some in Hj|by apply (Forall_lookup_1 _ _ _ _ Hall Hj)]. }
  destruct (Hall' _ _ Hck) as [_ Hnk]. exists k. split; [done|]. exists ck. split_and!; [done| |].
  - intros j c' Hj. destruct (Hall' _ _ Hj). apply nltb_parts; [done..|]. by eapply Hmin.
  - destruct Htie as [Htie|Htie]; [by left|]. right. intros j c' Hj Hor. destruct (Hall' _ _ Hj). apply ltb_parts; [done..|]. by eapply Htie.
Qed.

(** Processes dealt out one after the other, each to a lightest processor of the moment. *)
Inductive dealt : list ProcessCPUinfo → list CPULoad → list nat → list CPULoad → Prop :=
| dealt_nil cpus : dealt [] cpus [] cpus
| dealt_cons p procs cpus i chosen cpus' : lightest cpus p i →
    dealt procs (alter (λ c, c ++ [p]) i cpus) chosen cpus' → dealt (p :: procs) cpus (i :: chosen) cpus'.

Definition move (pi : ProcessCPUinfo * nat) : option (Z * Z) :=
  if bool_decide (Cpuset pi.1 = Some (Z.of_nat pi.2)) then None else Some (Pid pi.1, Z.of_nat pi.2).

Lemma commit_alter cpus i p : (i < length cpus)%nat →
  CommitProcessesCpuset (alter (λ c, c ++ [p]) i cpus) ≡ₚ CommitProcessesCpuset cpus ++ option_list (move (p, i)).
Proof.
  unfold CommitProcessesCpuset. set (f := λ (i : nat) cpu, omap _ cpu).
  assert (∀ cpus k i, (i < length cpus)%nat → concat (imap (λ n, f (k + n)%nat) (alter (λ c, c ++ [p]) i cpus)) ≡ₚ
    concat (imap (λ n, f (k + n)%nat) cpus) ++ option_list (move (p, (k + i)%nat))) as Hgen.
  { clear. induction cpus as [|c cpus IH]; intros k i Hi; [cbn in Hi; lia|]. destruct i as [|i].
    - change (alter (λ c, c ++ [p]) 0%nat (c :: cpus)) with ((c ++ [p]) :: cpus). rewrite !imap_cons. cbn [concat].
      assert (f (k + 0)%nat (c ++ [p]) = f (k + 0)%nat c ++ option_list (move (p, (k + 0)%nat))) as ->.
      { unfold f. rewrite omap_app. f_equal. }
      by rewrite <- !app_assoc, (Permutation_app_comm (option_list _)).
    - change (alter (λ c, c ++ [p]) (S i) (c :: cpus)) with (c :: alter (λ c, c ++ [p]) i cpus). rewrite !imap_cons. cbn [concat].
      rewrite <- app_assoc. apply Permutation_app_head. specialize (IH (S k) i ltac:(cbn in Hi; lia)).
      assert (∀ l : list CPULoad, imap ((λ n, f (k + n)%nat) ∘ S) l = imap (λ n, f (S k + n)%nat) l) as Hs
        by (intros l; apply imap_ext; intros n x _; cbn; f_equal; lia).
      rewrite !Hs, IH. by replace (S k + i)%nat with (k + S i)%nat by lia. }
  apply (Hgen cpus 0%nat i).
Qed.

Definition weighted (c : CPULoad) : Prop := Forall (λ p, nonneg (Weight p)) c.

Lemma weighted_loads cpus : Forall weighted cpus → Forall (λ c, nonneg (GetWeight c)) cpus.
Proof. intros H. eapply Forall_impl; [exact H|]. apply weight_nonneg. Qed.

(** Dealing the processes out moves each to the processor that is chosen for it. *)
Lemma deal_spec procs : ∀ cpus, cpus ≠ [] → weighted procs → Forall weighted cpus →
  ∃ cpus' chosen, deal procs cpus = Ret cpus' ∧ dealt procs cpus chosen cpus' ∧ length cpus' = length cpus ∧
    CommitProcessesCpuset cpus' ≡ₚ CommitProcessesCpuset cpus ++ omap move (zip procs chosen).
Proof.
  induction procs as [|p procs IH]; intros cpus Hne Hps Hall; cbn [deal].
  { exists cpus, []. split_and!; [done|constructor|done|]. by rewrite app_nil_r. }
  apply Forall_cons in Hps as [Hp Hps]. destruct (GetMinLoadCpu_lightest cpus p Hne (weighted_loads _ Hall)) as (i & -> & Hl).
  pose proof Hl as (c & Hc & _). assert (i < length cpus)%nat as Hi by (by eapply lookup_lt_Some). cbn [of_opt obind].
  destruct (IH (alter (λ c, c ++ [p]) i cpus)) as (cpus' & chosen & -> & Hd & Hlen & Hperm); [|done| |].
  { intros E. by apply (f_equal length) in E; rewrite length_alter in E; destruct cpus. }
  { apply Forall_alter; [done|]. intros x _ Hx. apply Forall_app. split; [done|by constructor]. }
  rewrite length_alter in Hlen. exists cpus', (i :: chosen). split_and!; [done|by apply dealt_cons|done|].
  rewrite Hperm, (commit_alter _ _ _ Hi). rewrite <- app_assoc. apply Permutation_app_head. cbn [zip zip_with omap list_omap].
  by destruct (move (p, i)).
Qed.

(** What is pinned already is written nowhere. *)
Lemma commit_pinned cpus : (∀ i c, cpus !! i = Some c → Forall (in_cpu i) c) → CommitProcessesCpuset cpus = [].
Proof.
  intros H. unfold CommitProcessesCpuset. set (f := λ (i : nat) cpu, omap _ cpu).
  assert (∀ i c, Forall (in_cpu i) c → f i c = []) as Hf.
  { intros i c Hc. unfold f. induction Hc as [|p c Hp _ IH]; [done|]. cbn. by rewrite bool_decide_eq_true_2. }
  assert (Forall (λ l, l = []) (imap f cpus)) as Hn.
  { apply Forall_lookup. intros i l Hl. rewrite list_lookup_imap in Hl. destruct (cpus !! i) as [c|] eqn:Ec; cbn in Hl; [|done].
    injection Hl as <-. apply Hf. by apply H. }
  by induction Hn as [|l ls -> _ IH].
Qed.

(** The greatest and the least load. *)
Definition extremes (cpus : list CPULoad) (hi lo : float64) : Prop :=
  (hi ∈ GetWeight <$> cpus) ∧ (lo ∈ GetWeight <$> cpus) ∧
  ∀ c, c ∈ cpus → SFltb hi (GetWeight c) = false ∧ SFltb (GetWeight c) lo = false.

Lemma diff_fold cpus : Forall (λ c, nonneg (GetWeight c)) cpus → ∀ seen hi lo, Forall (λ c, nonneg (GetWeight c)) seen →
  extremes seen hi lo → ∃ hi' lo', foldl diff_step (hi, lo) cpus = (hi', lo') ∧ extremes (seen ++ cpus) hi' lo'.
Proof.
  induction 1 as [|c cpus Hc _ IH]; intros seen hi lo Hs Hex; cbn [foldl]; [exists hi, lo; by rewrite app_nil_r|].
  pose proof Hex as (Hhi & Hlo & Hall). apply list_elem_of_fmap in Hhi as (ch & -> & Hch), Hlo as (cl & -> & Hcl).
  pose proof (proj1 (Forall_forall _ _) Hs) as Hsn. pose proof (Hsn _ Hch) as Hnh. pose proof (Hsn _ Hcl) as Hnl.
  unfold diff_step at 2. rewrite (nonneg_not_below _ Hnh), (nonneg_not_below _ Hnl). cbn [orb].
  destruct (IH (seen ++ [c]) (if SFltb (GetWeight ch) (GetWeight c) then GetWeight c else GetWeight ch)
    (if SFltb (GetWeight c) (GetWeight cl) then GetWeight c else GetWeight cl)) as (hi' & lo' & E & H').
  { apply Forall_app. split; [done|by constructor]. }
  { unfold extremes. rewrite fmap_app. split_and!; [case_match; set_solver..|]. intros c' [Hc'|Hc'%list_elem_of_singleton]%elem_of_app.
    - destruct (Hall c' Hc') as [Ha Hb]. pose proof (Hsn _ Hc') as Hn'.
      split; case_match; rewrite ?nltb_parts, ?ltb_parts in * by done; unfold lex in *; lia.
    - subst c'. split; case_match; rewrite ?nltb_parts, ?ltb_parts in * by done; unfold lex in *; lia. }
  exists hi', lo'. split; [exact E|]. by rewrite <- app_assoc in H'.
Qed.

(** [GetMaxLoadDiff] is the difference of the extremes relative to the least, zero when the least is. *)
Lemma GetMaxLoadDiff_extremes cpus : cpus ≠ [] → Forall (λ c, nonneg (GetWeight c)) cpus → ∃ hi lo, extremes cpus hi lo ∧
  SFltb (GetMaxLoadDiff cpus) (f_tenths 2) =
    negb (SFltb f_zero lo) || SFltb (Condition.f_div (Condition.f_sub hi lo) lo) (f_tenths 2).
Proof.
  intros Hne Hall. destruct cpus as [|c cpus]; [done|]. apply Forall_cons in Hall as [Hc Hall].
  destruct (diff_fold cpus Hall [c] (GetWeight c) (GetWeight c)) as (hi & lo & E & H); [by constructor| |].
  { unfold extremes. split_and!; [set_solver..|]. intros c' ->%list_elem_of_singleton.
    split; apply nltb_parts; try done; unfold lex; lia. }
  exists hi, lo. split; [exact H|]. unfold GetMaxLoadDiff. cbn [foldl]. unfold diff_step at 2.
  change (SFltb f_minus_one f_zero) with true. cbn [orb]. rewrite E. by destruct (SFltb f_zero lo).
Qed.

Section Claims.
Context (sort_weight : list ProcessCPUinfo → list ProcessCPUinfo).

(** C33 A process that is pinned to a processor with adjacent cores makes balancing panic.  The kernel prints a CPU set with
    ranges [a-b]; [ParseCpusetStr] leaves out the end of every range.  For a process pinned to all cores of processor [i],
    however the kernel groups them: the processor is found when no two cores are grouped; otherwise none is found, the index
    is [-1], and dealing out any processes that include this one panics. *)
Theorem pinned_range_panics cpu i d rs : cpu_ok cpu → cpu !! i = Some d → rs ≠ [] → ranges_ok rs →
  Index <$> CoreList d ≡ₚ members rs →
  let idx := GetPhysicalId cpu (ParseCpusetStr (cpulist rs)) in
  (Forall (λ r, r.1 = r.2) rs → idx = Z.of_nat i) ∧
  (¬ Forall (λ r, r.1 = r.2) rs → idx = -1 ∧
     ∀ infos p n, p ∈ infos → Cpuset p = Some idx → ArrangeProcesses sort_weight infos n = Panic).
Proof.
  intros Hc Hd Hne Hok Hm idx. assert (idx = if decide (Forall (λ r, r.1 = r.2) rs) then Z.of_nat i else -1) as Hidx by (by apply (pinned_set cpu i d rs)).
  clearbody idx. split; intros Hr; [by rewrite Hidx, decide_True|]. rewrite decide_False in Hidx by done. subst idx. split; [done|].
  intros infos p n Hp Hcp. unfold ArrangeProcesses. destruct (n <? 0); [done|]. rewrite (pinned_panics infos p Hp); [done|].
  exists (-1). split; [done|lia].
Qed.

(** The processes by the processor each is pinned to. *)
Definition loads_now (infos : list ProcessCPUinfo) (n : nat) : list CPULoad := (λ i, filter (in_cpu i) infos) <$> seq 0 n.

(** C34 How processes are balanced.  For processes that are pinned to existing processors or to none, with weights that
    are numbers and not negative, balancing ends.  With the loads as the processes are pinned now: it does nothing
    exactly when all processes are pinned and the least load is zero or the greatest load is less than a fifth of it
    above it.  Otherwise it deals out all processes in the order of the sort, on top of the present loads, each to a
    processor such that none is lighter at that moment: the process's own if that is one of the lightest, otherwise the
    first of them; and it writes exactly the processes that are not pinned to their choice yet, each once. *)
Theorem ArrangeProcesses_balances infos n : (∀ l, sort_weight l ≡ₚ l) → (0 < n)%nat → Forall (pinnable n) infos →
  Forall (λ p, nonneg (Weight p)) infos →
  ∃ r hi lo, ArrangeProcesses sort_weight infos (Z.of_nat n) = Ret r ∧ extremes (loads_now infos n) hi lo ∧
    let small := negb (SFltb f_zero lo) || SFltb (Condition.f_div (Condition.f_sub hi lo) lo) (f_tenths 2) in
    match r with
    | None => Forall (λ p, is_Some (Cpuset p)) infos ∧ small = true
    | Some cpus => (Forall (λ p, is_Some (Cpuset p)) infos → small = false) ∧
        ∃ chosen, dealt (sort_weight infos) (loads_now infos n) chosen cpus ∧
          CommitProcessesCpuset cpus ≡ₚ omap move (zip (sort_weight infos) chosen)
    end.
Proof.
  intros Hsort Hn Hall Hw. unfold ArrangeProcesses. rewrite (proj2 (Z.ltb_ge _ _)), Nat2Z.id by lia.
  destruct (pinned_spec infos (replicate n []) false) as (cpus & -> & Hlen & Hl); [by rewrite length_replicate|]. rewrite length_replicate in Hlen.
  assert (cpus = loads_now infos n) as ->.
  { apply list_eq_same_length with n; [by unfold loads_now; rewrite length_fmap, length_seq|done|].
    intros i c c' Hi Hc Hc'. rewrite (Hl i []) in Hc by (by apply lookup_replicate_2). injection Hc as <-.
    unfold loads_now in Hc'. rewrite list_lookup_fmap, lookup_seq_lt in Hc' by done. by injection Hc' as <-. }
  assert (Forall weighted (loads_now infos n)) as Hwl.
  { apply Forall_fmap, Forall_true. intros i. apply Forall_forall. intros p [_ Hp]%list_elem_of_filter.
    by apply (proj1 (Forall_forall _ _) Hw). }
  assert (loads_now infos n ≠ []) as Hne by (intros E; rewrite E in Hlen; cbn in Hlen; lia).
  destruct (GetMaxLoadDiff_extremes _ Hne (weighted_loads _ Hwl)) as (hi & lo & Hex & Ediff).
  cbn [obind orb]. rewrite negb_involutive, Ediff.
  destruct (bool_decide (Forall (λ p, is_Some (Cpuset p)) infos) && _) eqn:Et.
  { exists None, hi, lo. split_and!; [done|done|..]; apply andb_true_iff in Et as [Hp%bool_decide_eq_true ?]; done. }
  destruct (deal_spec (sort_weight infos) (loads_now infos n) Hne) as (cpus' & chosen & -> & Hd & _ & Hperm);
    [unfold weighted; by rewrite Hsort|done|].
  cbn [obind]. exists (Some cpus'), hi, lo. split_and!; [done|done| |].
  - intros Hp. by rewrite bool_decide_eq_true_2 in Et by done.
  - exists chosen. split; [done|]. rewrite Hperm, commit_pinned; [done|]. intros i c Hc. unfold loads_now in Hc.
    rewrite list_lookup_fmap in Hc. apply fmap_Some in Hc as (j & [-> _]%lookup_seq & ->).
    apply Forall_forall. by intros p [? _]%list_elem_of_filter.
Qed.

End Claims.

(** Two processors of four cores, read from /proc/cpuinfo, and two processes on the first. *)
Definition example_line (k : string) (v : Z) : string := k +:+ ": " +:+ Itoa v +:+ String (ascii_of_nat 10) "".
Definition example_cpuinfo : string :=
  String.concat "" ((λ i, example_line "processor" i +:+ example_line "physical id" (i `div` 4)) <$> seqZ 0 8).
Definition example_die (k : Z) : CPUDie := MkDie k ((λ i, MkCore i "" f_zero "" k 0) <$> seqZ (4 * k) 4).
Definition example_cpu : CPU := [example_die 0; example_die 1].
Definition example_proc (pid : Z) : ProcessCPUinfo := MkProc pid (Some 1) (Some 0) f_zero (GetProcessWeight (Some 1) f_zero).

Lemma example_read : NewCPU (λ _, f_zero) example_cpuinfo = Ret example_cpu.
Proof. vm_compute. reflexivity. Qed.

Lemma example_cpu_ok : cpu_ok example_cpu.
Proof.
  split.
  - intros [|[|k]] d Hd; cbn in Hd; simplify_eq; done.
  - apply (bool_decide_unpack _). vm_compute. exact I.
  - apply (bool_decide_unpack _). vm_compute. exact I.
Qed.

Lemma pinned_range_panics_witness :
  cpulist [(0, 3)] = "0-3" ∧ GetPhysicalId example_cpu (ParseCpusetStr "0-3") = -1 ∧
  ArrangeProcesses (λ l, l) [MkProc 1 (Some 1) (Some (-1)) f_zero f_zero] 2 = Panic ∧
  GetPhysicalId example_cpu (ParseCpusetStr "4,5,6,7") = 1.
Proof.
  assert (cpulist [(0, 3)] = "0-3") as Es by (vm_compute; reflexivity). split; [exact Es|].
  destruct (pinned_range_panics (λ l, l) example_cpu 0 (example_die 0) [(0, 3)]) as [_ Hr].
  - exact example_cpu_ok.
  - reflexivity.
  - discriminate.
  - constructor; [vm_compute; split; [split|]; discriminate|constructor].
  - apply (bool_decide_unpack _). vm_compute. exact I.
  - rewrite Es in Hr. destruct Hr as [Hi Hp]; [intros H; apply Forall_cons in H as [H _]; discriminate H|]. split; [exact Hi|].
    split; [apply (Hp _ (MkProc 1 (Some 1) (Some (-1)) f_zero f_zero)); [left|cbn [Cpuset]; f_equal; symmetry; exact Hi]|].
    destruct (pinned_range_panics (λ l, l) example_cpu 1 (example_die 1) [(4, 4); (5, 5); (6, 6); (7, 7)]) as [Hr _].
    + exact example_cpu_ok.
    + reflexivity.
    + discriminate.
    + apply (bool_decide_unpack _). vm_compute. exact I.
    + apply (bool_decide_unpack _). vm_compute. exact I.
    + apply Hr. apply (bool_decide_unpack _). vm_compute. exact I.
Defined.

(** Two processes on the first processor and a new one. *)
Definition example_new (pid : Z) : ProcessCPUinfo := MkProc pid (Some 1) None f_zero (GetProcessWeight (Some 1) f_zero).

(** Both processes stay on the first processor although the second is idle; with a new process both go to the second and
    the new one to the first, which still counts their load. *)
Lemma ArrangeProcesses_balances_witness :
  ArrangeProcesses (λ l, l) [example_proc 1; example_proc 2] 2 = Ret None ∧
  ∃ r hi lo, ArrangeProcesses (λ l, l) [example_proc 1; example_proc 2; example_new 3] 2 = Ret (Some r) ∧
    extremes (loads_now [example_proc 1; example_proc 2; example_new 3] 2) hi lo ∧
    CommitProcessesCpuset r = [(3, 0); (1, 1); (2, 1)].
Proof.
  assert (∀ p, p ∈ [example_proc 1; example_proc 2; example_new 3] → pinnable 2 p ∧ nonneg (Weight p)) as Hok.
  { intros p Hp. rewrite !elem_of_cons in Hp. destruct Hp as [->|[->|[->|Hp]]]; [..|by apply elem_of_nil in Hp];
      (split; [intros c [= <-] || intros c [=]; lia|vm_compute; reflexivity]). }
  split.
  - destruct (ArrangeProcesses_balances (λ l, l) [example_proc 1; example_proc 2] 2) as (r & hi & lo & Hr & _ & _);
      [reflexivity|lia|apply Forall_forall; intros p Hp; apply Hok; set_solver..|].
    vm_compute. reflexivity.
  - destruct (ArrangeProcesses_balances (λ l, l) [example_proc 1; example_proc 2; example_new 3] 2) as (r & hi & lo & Hr & Hex & _);
      [reflexivity|lia|apply Forall_forall; intros p Hp; apply Hok; done..|].
    vm_compute in Hr. injection Hr as <-. eexists _, hi, lo. split; [vm_compute; reflexivity|]. split; [exact Hex|vm_compute; reflexivity].
Defined.

End CpuSetProofs.
